(* ===== verification/_CoqProject ===== *)
-Q . S2P
Prelude.v
CLib.v
Codes.v
Membuffer.v
Uri.v
Tables.v
Scanner.v
ScannerFacts.v
HttpParser.v
HttpFacts.v
Sock.v
HttpMsg.v
HttpMsgFacts.v
HttpIO.v
HttpIOFacts.v
Web.v
WebFacts.v
LinkedList.v
ListFacts.v
UpnpString.v
ThreadPool.v
PoolFacts.v
TimerThread.v
TimerFacts.v
Md5.v
Uuid.v
TimerIface.v
ClientTable.v
Gena.v
GenaFacts.v
Ssdp.v
SsdpFacts.v
Server.v
ServerFacts.v
Api.v
ApiFacts.v
Soap.v
SoapFacts.v
CtrlPt.v
CtrlPtFacts.v
DatagramFacts.v
