(* ===== verification/Prelude.v ===== *)
(** * A verified model of a UPnP control point

    The repository is a UPnP library in C for control points (the library pupnp, without
    its device half) and a program on top of it, [src/sample/ctrlpt.c].  This development
    models the C code of both, function by function, and proves what its parts promise to
    each other.  This file is the root: after this overview it holds what all others share,
    namely the widths of C integers, lists indexed by [Z], and the lemmas, tactics and hint
    databases about them.

    ** The parts of the program

    - Texts and buffers.  [membuffer.c] is [Membuffer], [uri.c] is [Uri], [strintmap.c],
      [statcodes.c] and [util.c] are [Tables], [UpnpString.c] is [UpnpString]; [CLib] holds
      the functions of the C library that the program calls, [Codes] the shared constants.
    - HTTP.  The scanner and the pattern matcher of [httpparser.c] are [Scanner], the
      messages and the incremental parser [HttpParser]; [sock.c] is [Sock]; from
      [httpreadwrite.c], the messages that are written are [HttpMsg], the exchanges over a
      connection [HttpIO]; [webserver.c] with the virtual directories is [Web].
    - Threads.  [FreeList.c] and [LinkedList.c] are [LinkedList], [ThreadPool.c] is
      [ThreadPool], [TimerThread.c] is [TimerThread]; [TimerIface] is the interface that the
      timer's clients are proved against, with the timer as its instance.
    - Identifiers.  [md5.c] is [Md5], [uuid.c] and [sysdep.c] are [Uuid].
    - UPnP.  [client_table.c] and [upnp_timeout.c] are [ClientTable]; [gena_ctrlpt.c],
      [gena_callback2.c] and the handle table and subscription calls of [upnpapi.c] are
      [Gena]; [ssdp_ctrlpt.c], [ssdp_server.c] and the search call are [Ssdp];
      [miniserver.c] and the discovery sockets are [Server]; [soap_ctrlpt.c] and the calls
      that send are [Soap]; [UpnpInit], [UpnpFinish], the choice of the interface and the
      settings are [Api].
    - The program.  [ctrlpt.c] is [CtrlPt].

    [DatagramFacts] joins the two ends: the datagrams that [Ssdp] receives, and the devices
    of [CtrlPt].  A file [XFacts] (or [ListFacts], [PoolFacts], [TimerFacts], [HttpFacts]) has the proofs
    about [X]; the other files have them at their end.  Definitions keep the names of the
    C functions, and the order of tests and effects in them.

    How the parts call each other: the program starts the library ([CtrlPt] uses [Api]),
    gets events from [Ssdp] and [Gena], and sends actions by [Soap].  [Gena] and [Soap]
    build requests with [HttpMsg] and exchange them with [HttpIO], which reads with
    [HttpParser] from [Sock].  [Server] hands datagrams to [Ssdp]; [Ssdp] and [Gena] plan
    their timeouts with the timer through [TimerIface]; the timer gives its jobs to the
    pool, and both keep their queues in [LinkedList].

    ** How code is modelled

    - A C integer is a [Z] with its wrap-around written out ([u64], [s32], ...), for an LP64
      platform with signed [char]; a text is the list of its bytes, a [char *] the list from
      the pointer to the end of the block, or a block and an offset where pointers matter.
    - Where sharing matters, memory is a finite map from addresses ([gmap]): lists, timer
      events, subscriptions, searches, devices, strings.  The allocator is the class [Heap]
      or [Malloc]; an allocation may fail wherever the code tests for it.
    - [None] is a fault: a freed or null address, a read or write outside a block, signed
      overflow, an assertion that fails.  A theorem that a result is [Some] is a theorem of
      memory safety.  Errors that the code reports are values.
    - Threads.  A function is cut where it takes or releases a lock, waits, or calls the
      network; each section is one step, and a run is any interleaving of the sections of
      all threads ([step] in [ThreadPool], [section] in [Gena], [s_section] in [Ssdp],
      [mserv_step] in [Server]).  Runs are inductive relations ([reach], [cp_reach], ...) or
      sequences of steps ([s_run], [t_run]); invariants are proved by induction on them.
    - The system is an input: sockets, the clock, the name service ([Resolver]), files, the
      answers of [select].  Theorems hold for all answers unless a hypothesis says which.

    ** Fuel

    Loops that are not structural have fuel, and [None] at its end, so that a theorem with
    [Some] also says that the loop ends.  A walk over a heap has one more than the heap has
    nodes ([list_fuel], [dev_fuel], [queue_fuel]): the invariants give acyclic lists.  The
    parser has two rounds for each byte that is left ([entity_fuel]): a round that does not
    end the loop consumes a byte or changes the state to one that does.  A loop that reads a
    connection has one round for each answer and byte still to come ([recv_fuel],
    [post_fuel]).  The ageing loop of the pool has one for each waiting job ([bump_fuel]).

    ** What is proved

    - Sequences behind pointers: [list_refines], [timer_refines], [devices_refine] and
      [strings_refine] show that the structures on the heap implement sequences, a queue
      of events, a list of devices and values, without faults, leaks or shared nodes;
      [md5_streaming], [remove_dots_normal], [remove_escaped_chars_decodes] and
      [if_info_first] compare algorithms with a reference definition.
    - Parsing: [parser_append_total] (every input is parsed to the end), [vfmatch_incremental]
      (more data do not change a decision), [chunk_decoded], [store_header_correct],
      [parse_uri_parts], [membuffer_insert_correct], [mb_reach_wf], [resolve_rel_url_block].
    - Messages: [make_message_correct] (the format language), [post_chunks_roundtrip] (what
      is written is what is read), [recv_message_result], [soap_requests],
      [soap_action_result], [client_range_served].
    - Untrusted input: [request_confined] and [range_in_file] for the web server,
      [datagram_handled] for discovery.
    - Concurrency: [pool_jobs_conserved], [pool_max_threads] and [shutdown_terminates] for
      the pool; [timer_safe]; [gena_safe] and [subscribe_deadlock]; [search_fate];
      [sockets_owned], [start_sockets] and [stop_ends] for the mini server; [uuid_unique].
    - The whole: [library_protocol] and [init_outcome] for the start and the end of the
      library, [control_point_safe] and [command_delivered] for the program, and
      [datagrams_to_devices] from the network to the program's list of devices.

    A theorem that holds only under a condition that the code does not enforce names the
    condition ([gena_safe], [library_protocol]); an [Example] next to it shows what happens
    without it.

    ** What is not modelled

    - [os_unix.c] and [os.h], which come from another project and which nothing calls; the
      log ([debug.c]); functions that only print ([print_uri], [PrintHandleInfo],
      [ThreadPoolPrintStats], the help and the lists of [ctrlpt.c]).
    - [ithread.h] and the scheduling calls of [ThreadPool.c]: they only name functions of
      pthread; priorities of threads have no meaning in a model with every interleaving.
    - The branches for other systems ([WIN32], [MACOSX], ...), and the parts of the headers
      that belong to devices, which this build leaves out.
    - The bytes that a failing call leaves in its output arguments, unless a caller reads
      them; the texts of log messages.
    - Between components: [Api] knows of a component only whether it is up, [CtrlPt] records
      searches and subscriptions as requests; what becomes of them is in [Ssdp] and [Gena].
      In [ClientTable], [Gena] and [Ssdp] a string is its value. *)

From stdpp Require Export base tactics list numbers option gmap.
From Stdlib Require Export ZArith Lia.
#[global] Open Scope Z_scope.
#[global] Set Default Goal Selector "!".

(** ** Machine integers

    The development models a build for an LP64 platform with signed [char]
    (x86-64, glibc).  An integer is a [Z]; the functions below are the
    conversions the C code performs when it stores into a type. *)

Definition u8 (z : Z) : Z := z mod 2 ^ 8.
Definition u16 (z : Z) : Z := z mod 2 ^ 16.
Definition u32 (z : Z) : Z := z mod 2 ^ 32.
Definition u64 (z : Z) : Z := z mod 2 ^ 64.
Definition swrap (w z : Z) : Z := (z + 2 ^ (w - 1)) mod 2 ^ w - 2 ^ (w - 1).
Definition s8 (z : Z) : Z := swrap 8 z.
Definition s32 (z : Z) : Z := swrap 32 z.

Definition LONG_MAX : Z := 2 ^ 63 - 1.
Definition LONG_MIN : Z := - 2 ^ 63.

Lemma u64_small z : 0 <= z < 2 ^ 64 -> u64 z = z.
Proof. apply Z.mod_small. Qed.
Lemma u32_small z : 0 <= z < 2 ^ 32 -> u32 z = z.
Proof. apply Z.mod_small. Qed.
Lemma u64_range z : 0 <= u64 z < 2 ^ 64.
Proof. apply Z.mod_pos_bound. lia. Qed.
Lemma u32_range z : 0 <= u32 z < 2 ^ 32.
Proof. apply Z.mod_pos_bound. lia. Qed.
Lemma s32_small z : - 2 ^ 31 <= z < 2 ^ 31 -> s32 z = z.
Proof.
  intros H. unfold s32, swrap.
  change (2 ^ (32 - 1)) with (2 ^ 31).
  rewrite Z.mod_small; lia.
Qed.
Lemma s8_small z : -128 <= z < 128 -> s8 z = z.
Proof.
  intros H. unfold s8, swrap. change (2 ^ (8 - 1)) with 128. change (2 ^ 8) with 256.
  rewrite Z.mod_small; lia.
Qed.

(** ** Lists indexed by [Z]

    Buffers are lists of bytes; offsets and sizes are [Z], as [size_t] values
    are.  [zget] reads (0 outside the list), [zset] writes (no effect outside
    the list). *)

Declare Scope buf_scope.
Delimit Scope buf_scope with buf.

Section ZLists.
Context {A : Type}.
Implicit Types (l : list A) (n i : Z).

Definition zlen l : Z := Z.of_nat (length l).
Definition ztake n l : list A := take (Z.to_nat n) l.
Definition zdrop n l : list A := drop (Z.to_nat n) l.
Definition zsub l (i n : Z) : list A := ztake n (zdrop i l).
Definition zrep n (x : A) : list A := replicate (Z.to_nat n) x.

Lemma zlen_nonneg l : 0 <= zlen l.
Proof. unfold zlen. lia. Qed.
Lemma zlen_nil : zlen (@nil A) = 0.
Proof. done. Qed.
Lemma zlen_cons x l : zlen (x :: l) = 1 + zlen l.
Proof. unfold zlen. simpl. lia. Qed.
Lemma zlen_app l1 l2 : zlen (l1 ++ l2) = zlen l1 + zlen l2.
Proof. unfold zlen. rewrite length_app. lia. Qed.
Lemma zlen_ztake n l : zlen (ztake n l) = Z.max 0 (Z.min n (zlen l)).
Proof. unfold zlen, ztake. rewrite length_take. lia. Qed.
Lemma zlen_zdrop n l : zlen (zdrop n l) = Z.max 0 (zlen l - Z.max 0 n).
Proof. unfold zlen, zdrop. rewrite length_drop. lia. Qed.
Lemma zlen_zrep n (x : A) : zlen (zrep n x) = Z.max 0 n.
Proof. unfold zlen, zrep. rewrite length_replicate. lia. Qed.
Lemma zlen_zero l : zlen l = 0 -> l = [].
Proof. unfold zlen. destruct l; [done|simpl; lia]. Qed.

Lemma ztake_all n l : zlen l <= n -> ztake n l = l.
Proof. unfold zlen, ztake. intros. apply take_ge. lia. Qed.
Lemma ztake_neg n l : n <= 0 -> ztake n l = [].
Proof. unfold ztake. intros. by replace (Z.to_nat n) with 0%nat by lia. Qed.
Lemma zdrop_neg n l : n <= 0 -> zdrop n l = l.
Proof. unfold zdrop. intros. by replace (Z.to_nat n) with 0%nat by lia. Qed.
Lemma zdrop_all n l : zlen l <= n -> zdrop n l = [].
Proof. unfold zlen, zdrop. intros. apply drop_ge. lia. Qed.
Lemma ztake_zdrop n l : ztake n l ++ zdrop n l = l.
Proof. apply take_drop. Qed.
Lemma zdrop_zdrop n m l : 0 <= n -> 0 <= m -> zdrop n (zdrop m l) = zdrop (n + m) l.
Proof. unfold zdrop. intros. rewrite drop_drop. f_equal. lia. Qed.
Lemma zdrop_app_exact l1 l2 : zdrop (zlen l1) (l1 ++ l2) = l2.
Proof. unfold zdrop, zlen. rewrite Nat2Z.id. apply drop_app_length. Qed.
Lemma ztake_app_exact l1 l2 : ztake (zlen l1) (l1 ++ l2) = l1.
Proof. unfold ztake, zlen. rewrite Nat2Z.id. apply take_app_length. Qed.
Lemma zdrop_app_le n l1 l2 : n <= zlen l1 -> zdrop n (l1 ++ l2) = zdrop n l1 ++ l2.
Proof. unfold zdrop, zlen. intros. apply drop_app_le. lia. Qed.
Lemma ztake_app_le n l1 l2 : n <= zlen l1 -> ztake n (l1 ++ l2) = ztake n l1.
Proof. unfold ztake, zlen. intros. apply take_app_le. lia. Qed.
End ZLists.
Arguments zlen : simpl never.
Arguments ztake : simpl never.
Arguments zdrop : simpl never.
Arguments zrep : simpl never.

Section ZGet.
Implicit Types (l : list Z) (n i j v : Z).

Definition zget l i : Z := if i <? 0 then 0 else nth (Z.to_nat i) l 0.
Definition zset l i v : list Z := if i <? 0 then l else <[Z.to_nat i := v]> l.

(** [memmove] inside a buffer, and [memcpy] of a separate block into it. *)
Definition zmove l (dst src n : Z) : list Z :=
  ztake dst l ++ zsub l src n ++ zdrop (dst + n) l.
Definition zwrite l (i : Z) (s : list Z) : list Z :=
  ztake i l ++ s ++ zdrop (i + zlen s) l.

Lemma zlen_zset l i v : zlen (zset l i v) = zlen l.
Proof. unfold zlen, zset. destruct (i <? 0); [done|]. by rewrite length_insert. Qed.

Lemma zget_nil i : zget [] i = 0.
Proof. unfold zget. destruct (i <? 0); [done|]. by destruct (Z.to_nat i). Qed.

Lemma zget_cons x l i :
  zget (x :: l) i = if decide (i = 0) then x else if decide (i < 0) then 0 else zget l (i - 1).
Proof.
  unfold zget. destruct (Z.ltb_spec i 0), (Z.ltb_spec (i - 1) 0);
    repeat case_decide; try lia; subst; try done.
  by replace (Z.to_nat i) with (S (Z.to_nat (i - 1))) by lia.
Qed.

Lemma zget_out l i : i < 0 \/ zlen l <= i -> zget l i = 0.
Proof.
  unfold zget, zlen. intros H. destruct (Z.ltb_spec i 0); [done|].
  apply nth_overflow. lia.
Qed.

Lemma zget_app l1 l2 i :
  zget (l1 ++ l2) i =
    if decide (i < 0) then 0
    else if decide (i < zlen l1) then zget l1 i else zget l2 (i - zlen l1).
Proof.
  unfold zget, zlen. destruct (Z.ltb_spec i 0); repeat case_decide; try lia; try done.
  - by rewrite app_nth1 by lia.
  - destruct (Z.ltb_spec (i - Z.of_nat (length l1)) 0); [lia|].
    rewrite app_nth2 by lia. f_equal. lia.
Qed.

Lemma zget_ztake l n i : zget (ztake n l) i = if decide (i < n) then zget l i else 0.
Proof.
  destruct (decide (i < 0)). { rewrite !zget_out by lia. by case_decide. }
  case_decide.
  - unfold zget, ztake. destruct (Z.ltb_spec i 0); [done|].
    rewrite <- (take_drop (Z.to_nat n) l) at 2.
    destruct (decide (i < zlen l)) as [Hi|Hi].
    + rewrite app_nth1; [done|]. rewrite length_take. unfold zlen in Hi. lia.
    + unfold zlen in Hi. rewrite !nth_overflow; [done| |].
      * rewrite length_app, length_take, length_drop. lia.
      * rewrite length_take. lia.
  - apply zget_out. rewrite zlen_ztake. pose proof (zlen_nonneg l). lia.
Qed.

Lemma zget_zdrop l n i :
  zget (zdrop n l) i = if decide (i < 0) then 0 else zget l (i + Z.max 0 n).
Proof.
  unfold zget, zdrop. destruct (Z.ltb_spec i 0); case_decide; try lia.
  destruct (Z.ltb_spec (i + Z.max 0 n) 0); [lia|].
  replace (Z.to_nat (i + Z.max 0 n)) with (Z.to_nat n + Z.to_nat i)%nat by lia.
  generalize (Z.to_nat n), (Z.to_nat i). clear. intros n i. revert n.
  induction l as [|x l IH]; intros [|n]; simpl; [done|by destruct i|done|apply IH].
Qed.

Lemma zget_zset l i j v :
  zget (zset l i v) j = if decide (j = i /\ 0 <= i < zlen l) then v else zget l j.
Proof.
  unfold zget, zset, zlen. destruct (Z.ltb_spec j 0); [case_decide; [lia|done]|].
  destruct (Z.ltb_spec i 0); [case_decide; [lia|done]|].
  rewrite !nth_lookup. case_decide.
  - destruct_and!. subst. by rewrite list_lookup_insert_eq by lia.
  - destruct (decide (i = j)) as [->|].
    + by rewrite list_insert_ge by lia.
    + by rewrite list_lookup_insert_ne by lia.
Qed.

Lemma zget_zrep n v i : zget (zrep n v) i = if decide (0 <= i < n) then v else 0.
Proof.
  unfold zget, zrep. destruct (Z.ltb_spec i 0); case_decide; try lia; try done.
  - rewrite nth_lookup, lookup_replicate_2 by lia. done.
  - rewrite nth_overflow; [done|]. rewrite length_replicate. lia.
Qed.

Lemma zget_eq l1 l2 :
  zlen l1 = zlen l2 -> (forall i, 0 <= i < zlen l1 -> zget l1 i = zget l2 i) -> l1 = l2.
Proof.
  unfold zlen. revert l2. induction l1 as [|x l1 IH]; intros [|y l2]; simpl;
    intros Hlen Hget; try lia; try done.
  f_equal.
  - specialize (Hget 0 ltac:(lia)). by rewrite !zget_cons in Hget.
  - apply IH; [lia|]. intros i Hi. specialize (Hget (i + 1) ltac:(lia)).
    rewrite !zget_cons in Hget. repeat case_decide; try lia.
    by replace (i + 1 - 1) with i in Hget by lia.
Qed.

Lemma zlen_zmove l dst src n :
  0 <= n -> 0 <= dst -> 0 <= src -> dst + n <= zlen l -> src + n <= zlen l ->
  zlen (zmove l dst src n) = zlen l.
Proof.
  intros. unfold zmove, zsub.
  rewrite !zlen_app, !zlen_ztake, !zlen_zdrop. lia.
Qed.

Lemma zlen_zwrite l i s :
  0 <= i -> i + zlen s <= zlen l -> zlen (zwrite l i s) = zlen l.
Proof.
  intros. unfold zwrite. pose proof (zlen_nonneg s).
  rewrite !zlen_app, !zlen_ztake, !zlen_zdrop. lia.
Qed.
End ZGet.

Notation "l @ i" := (zget l i) (at level 11, left associativity, only parsing) : buf_scope.

Lemma zlen_ztake_le {A} n (l : list A) : 0 <= n <= zlen l -> zlen (ztake n l) = n.
Proof. rewrite zlen_ztake. lia. Qed.
Lemma zlen_zdrop_le {A} n (l : list A) : 0 <= n <= zlen l -> zlen (zdrop n l) = zlen l - n.
Proof. rewrite zlen_zdrop. lia. Qed.
Lemma zlen_zrep_nn {A} n (x : A) : 0 <= n -> zlen (zrep n x) = n.
Proof. rewrite zlen_zrep. lia. Qed.

Lemma zget_app_l l1 l2 i : i < zlen l1 -> zget (l1 ++ l2) i = zget l1 i.
Proof. intros. rewrite zget_app. repeat case_decide; [by rewrite zget_out by lia|done|lia]. Qed.
Lemma zget_app_r l1 l2 i : zlen l1 <= i -> zget (l1 ++ l2) i = zget l2 (i - zlen l1).
Proof. intros. rewrite zget_app. pose proof (zlen_nonneg l1). repeat case_decide; lia || done. Qed.
Lemma zget_ztake_lt l n i : i < n -> zget (ztake n l) i = zget l i.
Proof. intros. rewrite zget_ztake. by case_decide. Qed.
Lemma zget_ztake_ge l n i : n <= i -> zget (ztake n l) i = 0.
Proof. intros. rewrite zget_ztake. case_decide; lia. Qed.
Lemma zget_zdrop_nn l n i : 0 <= i -> 0 <= n -> zget (zdrop n l) i = zget l (i + n).
Proof. intros. rewrite zget_zdrop. case_decide; [lia|]. f_equal. lia. Qed.
Lemma zget_zset_eq l i v : 0 <= i < zlen l -> zget (zset l i v) i = v.
Proof. intros. rewrite zget_zset. case_decide; [done|lia]. Qed.
Lemma zget_zset_ne l i j v : j <> i -> zget (zset l i v) j = zget l j.
Proof. intros. rewrite zget_zset. case_decide; [lia|done]. Qed.

(** Facts that close side goals on sizes. *)
Create HintDb bounds.
#[export] Hint Resolve zlen_nonneg u64_range u32_range : bounds.

(** The lengths of the atoms of the goal and of the hypotheses are not negative. *)
Ltac pose_zlens :=
  repeat match goal with
  | |- context [zlen ?l] => lazymatch goal with
      | _ : 0 <= zlen l |- _ => fail | _ => pose proof (zlen_nonneg l) end
  | _ : context [zlen ?l] |- _ => lazymatch goal with
      | _ : 0 <= zlen l |- _ => fail | _ => pose proof (zlen_nonneg l) end
  end.

(** [zlia]: linear arithmetic after rewriting the lengths of composed lists.
    Lengths of slices are exact when the bounds are provable. *)
Ltac zlen_norm :=
  repeat first
  [ rewrite zlen_app | rewrite zlen_cons | rewrite zlen_zset | rewrite (@zlen_nil Z)
  | rewrite zlen_ztake_le by zlia | rewrite zlen_zdrop_le by zlia
  | rewrite zlen_zrep_nn by zlia
  | rewrite zlen_ztake | rewrite zlen_zdrop | rewrite zlen_zrep ]
with zlia := unfold zmove, zwrite, zsub; zlen_norm; first [lia | pose_zlens; lia].

(** One step of the evaluation of a read from a composed buffer; a test that the
    context does not decide is split. *)
Ltac zget_step :=
  match goal with
  | |- context [zget (?a ++ ?b) ?i] =>
      first [ rewrite (zget_app_l a b i) by zlia | rewrite (zget_app_r a b i) by zlia
            | let H := fresh in
              assert (H : i < zlen a \/ zlen a <= i) by lia; revert H; zlen_norm;
              intros [H|H] ]
  | |- context [zget (ztake ?n ?l) ?i] =>
      first [ rewrite (zget_ztake_lt l n i) by zlia | rewrite (zget_ztake_ge l n i) by zlia
            | destruct (Z.lt_ge_cases i n) ]
  | |- context [zget (zdrop ?n ?l) ?i] => rewrite (zget_zdrop_nn l n i) by zlia
  | |- context [zget (zset ?l ?i ?v) ?j] =>
      first [ rewrite (zget_zset_ne l i j v) by zlia
            | replace j with i by zlia; rewrite (zget_zset_eq l i v) by zlia
            | destruct (Z.eq_dec j i) ]
  | |- context [zget (zrep ?n ?v) ?i] => rewrite (zget_zrep n v i); case_decide; try zlia
  end.

(** Evaluation of all the reads of the goal, and extensional equality of buffers. *)
Ltac zreads :=
  unfold zmove, zwrite, zsub; repeat zget_step;
  zlen_norm; try reflexivity; try (f_equal; zlia); try zlia.
Ltac zext :=
  apply zget_eq;
  [ zlia
  | let i := fresh "i" in let Hi := fresh "Hi" in
    intros i; unfold zmove, zwrite, zsub; zlen_norm; intros Hi; zreads ].

(** Case analysis on every test of the goal. *)
Ltac case_tests :=
  repeat (case_match; simplify_eq/=; try done).

(** A closed decidable fact, by evaluation. *)
Ltac by_decide := refine (bool_decide_eq_true_1 _ _); vm_compute; reflexivity.
