(* ===== verification/CLib.v ===== *)
(** * The C library functions the program calls

    Characters are signed 8-bit values kept in [Z]; a string pointer is the list
    of the bytes from the pointer to the end of its memory block, and reading
    past that list gives 0.  [cstr] is the C string at a pointer: the bytes
    before the first NUL.  The character classes are those of the C locale, and
    [strtol] and [sscanf] are glibc's. *)

From stdpp Require Export strings.
From S2P Require Import Prelude.
#[local] Open Scope Z_scope.

(** ** Characters and literals *)

Definition chr (a : Ascii.ascii) : Z := s8 (Z.of_nat (Ascii.nat_of_ascii a)).

(** The bytes of a literal, without its terminator. *)
Fixpoint zs (s : string) : list Z :=
  match s with
  | EmptyString => []
  | String a s' => chr a :: zs s'
  end.

(** Character literals of the source. *)
Definition CR : Z := 13.
Definition LF : Z := 10.
Definition TAB : Z := 9.
Definition SP : Z := 32.
Definition DQUOTE : Z := 34.
Definition PERCENT : Z := 37.
Definition DOT : Z := 46.
Definition SLASH : Z := 47.
Definition COLON : Z := 58.
Definition QMARK : Z := 63.
Definition HASH : Z := 35.
Definition LBRACKET : Z := 91.
Definition RBRACKET : Z := 93.
Definition BSLASH : Z := 92.
Definition PLUS : Z := 43.
Definition MINUS : Z := 45.

Definition isdigit (c : Z) : bool := (48 <=? c) && (c <=? 57).
Definition isupper (c : Z) : bool := (65 <=? c) && (c <=? 90).
Definition islower (c : Z) : bool := (97 <=? c) && (c <=? 122).
Definition isalpha (c : Z) : bool := isupper c || islower c.
Definition isalnum (c : Z) : bool := isalpha c || isdigit c.
Definition isxdigit (c : Z) : bool :=
  isdigit c || ((65 <=? c) && (c <=? 70)) || ((97 <=? c) && (c <=? 102)).
Definition isspace (c : Z) : bool := (c =? 32) || ((9 <=? c) && (c <=? 13)).
Definition tolower (c : Z) : Z := if isupper c then c + 32 else c.

(** The value of a digit; [None] when the character is not one of the base. *)
Definition digit_val (base c : Z) : option Z :=
  let v := if isdigit c then c - 48
           else if islower c then c - 87
           else if isupper c then c - 55 else 99 in
  if v <? base then Some v else None.

(** ** Strings *)

Fixpoint cstr (l : list Z) : list Z :=
  match l with
  | [] => []
  | c :: l' => if c =? 0 then [] else c :: cstr l'
  end.

Definition strlen (l : list Z) : Z := zlen (cstr l).

(** [strchr (s, c) != NULL]: the terminator counts as part of [s]. *)
Definition strchr (s : list Z) (c : Z) : bool :=
  (s8 c =? 0) || existsb (Z.eqb (s8 c)) (cstr s).

Fixpoint cmp_n (key : Z -> Z) (n : nat) (a b : list Z) : Z :=
  match n with
  | O => 0
  | S n' =>
      let x := key (hd 0 a) in
      let y := key (hd 0 b) in
      if negb (x =? y) then x - y
      else if hd 0 a =? 0 then 0
      else cmp_n key n' (tl a) (tl b)
  end.

Definition strncmp (a b : list Z) (n : Z) : Z := cmp_n u8 (Z.to_nat n) a b.
Definition strncasecmp (a b : list Z) (n : Z) : Z :=
  cmp_n (fun c => u8 (tolower c)) (Z.to_nat n) a b.
Definition strcmp (a b : list Z) : Z := strncmp a b (strlen a + 1).

Fixpoint memcmp_n (n : nat) (a b : list Z) : Z :=
  match n with
  | O => 0
  | S n' =>
      let x := u8 (hd 0 a) in
      let y := u8 (hd 0 b) in
      if negb (x =? y) then x - y else memcmp_n n' (tl a) (tl b)
  end.
Definition memcmp (a b : list Z) (n : Z) : Z := memcmp_n (Z.to_nat n) a b.

(** [strstr]: the offset of the first occurrence. *)
Fixpoint prefixb (p l : list Z) : bool :=
  match p, l with
  | [], _ => true
  | x :: p', y :: l' => (x =? y) && prefixb p' l'
  | _ :: _, [] => false
  end.
Fixpoint find_sub (p l : list Z) (i : Z) : option Z :=
  if prefixb p l then Some i
  else match l with
       | [] => None
       | _ :: l' => find_sub p l' (i + 1)
       end.
Definition strstr (hay needle : list Z) : option Z :=
  find_sub (cstr needle) (cstr hay) 0.

(** [strncpy (dst, src, n)] writes exactly [n] bytes: the string, then zeros. *)
Definition strncpy_bytes (src : list Z) (n : Z) : list Z :=
  ztake n (cstr src) ++ zrep (n - strlen src) 0.

(** ** Numbers *)

Fixpoint skip_space (l : list Z) : list Z :=
  match l with
  | c :: l' => if isspace c then skip_space l' else l
  | [] => []
  end.

(** Digits of a base: the number read (unbounded), and the rest. *)
Fixpoint read_digits (base acc : Z) (l : list Z) : Z * list Z :=
  match l with
  | c :: l' =>
      match digit_val base c with
      | Some v => read_digits base (acc * base + v) l'
      | None => (acc, l)
      end
  | [] => (acc, [])
  end.

(** Result of [strtol]: the value, the offset of [end_ptr], [errno == ERANGE]. *)
Record strtol_t := Strtol { st_val : Z; st_end : Z; st_erange : bool }.

Definition strtol (l : list Z) (base : Z) : strtol_t :=
  let l1 := skip_space l in
  let neg := match l1 with c :: _ => c =? MINUS | [] => false end in
  let l2 := match l1 with
            | c :: l' => if (c =? MINUS) || (c =? PLUS) then l' else l1
            | [] => [] end in
  let l3 := match l2 with
            | z :: x :: d :: _ =>
                if (base =? 16) && (z =? 48) && (tolower x =? 120) && isxdigit d
                then drop 2 l2 else l2
            | _ => l2 end in
  let '(v, rest) := read_digits base 0 l3 in
  if zlen rest =? zlen l3 then Strtol 0 0 false
  else
    let sv := if neg then - v else v in
    let e := zlen l - zlen rest in
    if LONG_MAX <? sv then Strtol LONG_MAX e true
    else if sv <? LONG_MIN then Strtol LONG_MIN e true
    else Strtol sv e false.

Definition atoi (l : list Z) : Z := s32 (st_val (strtol l 10)).

(** [sscanf]: [%d] (white space, then a decimal int), a blank in the format, and
    a literal character. *)
Definition scan_d (l : list Z) : option (Z * list Z) :=
  let r := strtol l 10 in
  if st_end r =? 0 then None
  else Some (s32 (st_val r), zdrop (st_end r) l).
Definition scan_lit (c : Z) (l : list Z) : option (list Z) :=
  match l with
  | x :: l' => if x =? c then Some l' else None
  | [] => None
  end.

(** [sscanf (s, "%d . %d", &a, &b)] and ["%d . %d %d"]: the numbers assigned. *)
Definition sscanf_d_dot_d (s : list Z) : list Z * list Z :=
  match scan_d (cstr s) with
  | None => ([], [])
  | Some (a, r) =>
      match scan_lit DOT (skip_space r) with
      | None => ([a], r)
      | Some r' =>
          match scan_d (skip_space r') with
          | None => ([a], r')
          | Some (b, r'') => ([a; b], r'')
          end
      end
  end.
Definition sscanf_d_dot_d_d (s : list Z) : list Z :=
  match sscanf_d_dot_d s with
  | ([a; b], r) =>
      match scan_d (skip_space r) with
      | None => [a; b]
      | Some (c, _) => [a; b; c]
      end
  | (l, _) => l
  end.

(** [sscanf (s, "%2x", &v)] on two hexadecimal digits. *)
Definition hex_val (c : Z) : Z := default 0 (digit_val 16 c).
Definition sscanf_2x (a b : Z) : Z := hex_val a * 16 + hex_val b.

(** [printf]'s [%d] and [%x] with a minimum width of hexadecimal digits. *)
Definition hex_digit (v : Z) : Z := if v <? 10 then 48 + v else 87 + v.
Fixpoint hex_pad (w : nat) (v : Z) : list Z :=
  match w with
  | O => []
  | S w' => hex_pad w' (v / 16) ++ [hex_digit (v mod 16)]
  end.

(** [%d] of a number that is not negative. *)
Fixpoint dec_digits (fuel : nat) (n : Z) (acc : list Z) : list Z :=
  match fuel with
  | O => acc
  | S f => if n <? 10 then 48 + n :: acc else dec_digits f (n / 10) (48 + n mod 10 :: acc)
  end.
Definition dec (n : Z) : list Z := dec_digits 20 n [].
Definition crlf : list Z := [CR; LF].
Definition dec_s (n : Z) : list Z := if n <? 0 then MINUS :: dec (- n) else dec n.
Definition dec_02 (n : Z) : list Z := if (0 <=? n) && (n <? 10) then 48 :: dec n else dec_s n.
(** [%x] of a number that is not negative. *)
Fixpoint hex_digits (fuel : nat) (n : Z) (acc : list Z) : list Z :=
  match fuel with
  | O => acc
  | S f => if n <? 16 then hex_digit n :: acc else hex_digits f (n / 16) (hex_digit (n mod 16) :: acc)
  end.
Definition hex_of (n : Z) : list Z := hex_digits 16 n [].

(** ** Network byte order *)

Definition htons (z : Z) : Z := (z mod 256) * 256 + (u16 z) / 256.
Definition ntohs (z : Z) : Z := htons z.

(** ** Lemmas *)

Lemma cstr_no_nul l : Forall (fun c => c <> 0) (cstr l).
Proof.
  induction l as [|c l IH]; simpl; [constructor|].
  destruct (Z.eqb_spec c 0); [constructor|]. by constructor.
Qed.

Lemma cstr_id l : Forall (fun c => c <> 0) l -> cstr l = l.
Proof.
  induction 1 as [|c l Hc _ IH]; simpl; [done|].
  destruct (Z.eqb_spec c 0); [done|]. by rewrite IH.
Qed.

Lemma cstr_app_nul l m : Forall (fun c => c <> 0) l -> cstr (l ++ 0 :: m) = l.
Proof.
  induction 1 as [|c l Hc _ IH]; simpl; [done|].
  destruct (Z.eqb_spec c 0); [done|]. by rewrite IH.
Qed.

Lemma strlen_nonneg l : 0 <= strlen l.
Proof. apply zlen_nonneg. Qed.

Lemma cstr_le l : zlen (cstr l) <= zlen l.
Proof.
  induction l as [|c l IH]; simpl; [done|].
  destruct (c =? 0); rewrite ?zlen_cons, ?zlen_nil; [pose proof (zlen_nonneg l)|]; lia.
Qed.

Lemma strlen_le l : strlen l <= zlen l.
Proof. apply cstr_le. Qed.

Lemma cstr_ztake l : cstr l = ztake (strlen l) l.
Proof.
  unfold strlen, zlen, ztake. rewrite Nat2Z.id.
  induction l as [|c l IH]; simpl; [done|].
  destruct (c =? 0); simpl; [done|]. by rewrite IH at 1.
Qed.

Lemma zget_cstr l i : zget (cstr l) i = if decide (i < strlen l) then zget l i else 0.
Proof. rewrite cstr_ztake at 1. by rewrite zget_ztake. Qed.

Lemma zget_strlen l : zget l (strlen l) = 0.
Proof.
  unfold strlen. induction l as [|c l IH]; simpl; [by rewrite zget_nil|].
  destruct (Z.eqb_spec c 0) as [->|].
  - by rewrite zget_cons.
  - rewrite zlen_cons, zget_cons. pose proof (zlen_nonneg (cstr l)).
    repeat case_decide; try lia.
    by replace (1 + zlen (cstr l) - 1) with (zlen (cstr l)) by lia.
Qed.

Lemma zget_before_strlen l i : 0 <= i < strlen l -> zget l i <> 0.
Proof.
  unfold strlen. revert i. induction l as [|c l IH]; intros i; simpl.
  { intros Hi. change (zlen (@nil Z)) with 0 in Hi. lia. }
  destruct (Z.eqb_spec c 0); rewrite ?zlen_cons; intros Hi.
  { change (zlen (@nil Z)) with 0 in Hi. lia. }
  rewrite zget_cons. repeat case_decide; try lia. apply IH. lia.
Qed.

Lemma zlen_strncpy_bytes s n : 0 <= n -> zlen (strncpy_bytes s n) = n.
Proof. intros. unfold strncpy_bytes, strlen. zlia. Qed.

Lemma isdigit_range c : isdigit c = true -> 48 <= c <= 57.
Proof. unfold isdigit. lia. Qed.

Lemma prefixb_app p l : prefixb p l = true <-> exists k, l = p ++ k.
Proof.
  revert l. induction p as [|x p IH]; intros l; simpl.
  { split; [by exists l|done]. }
  destruct l as [|y l]; [split; [done|by intros [k ?]]|].
  rewrite andb_true_iff, Z.eqb_eq, IH. split.
  - intros [-> [k ->]]. by exists k.
  - intros [k [= -> ->]]. split; [done|]. by exists k.
Qed.

Lemma find_sub_spec p l i j :
  find_sub p l i = Some j ->
  i <= j /\ prefixb p (zdrop (j - i) l) = true
  /\ forall k, i <= k < j -> prefixb p (zdrop (k - i) l) = false.
Proof.
  revert i. induction l as [|x l IH]; intros i; simpl.
  - destruct (prefixb p []) eqn:E; [|done]. intros [= ->].
    rewrite zdrop_neg by lia. split_and!; [lia|done|lia].
  - destruct (prefixb p (x :: l)) eqn:E.
    + intros [= ->]. rewrite zdrop_neg by lia. split_and!; [lia|done|lia].
    + intros H. apply IH in H as (? & Hp & Hn).
      assert (forall m, i < m -> zdrop (m - i) (x :: l) = zdrop (m - (i + 1)) l) as Hd.
      { intros m Hm. unfold zdrop.
        by replace (Z.to_nat (m - i)) with (S (Z.to_nat (m - (i + 1)))) by lia. }
      split_and!; [lia|by rewrite Hd by lia|].
      intros k Hk. destruct (decide (k = i)) as [->|].
      * by rewrite zdrop_neg by lia.
      * rewrite Hd by lia. apply Hn. lia.
Qed.

Lemma read_digits_len base acc l :
  zlen (read_digits base acc l).2 <= zlen l.
Proof.
  revert acc. induction l as [|c l IH]; intros acc; simpl; [done|].
  destruct (digit_val base c); simpl; [|done].
  specialize (IH (acc * base + z)). rewrite zlen_cons. lia.
Qed.

Lemma htons_htons z : 0 <= z < 2 ^ 16 -> htons (htons z) = z.
Proof.
  intros H. unfold htons, u16. change (2 ^ 16) with 65536 in *.
  rewrite (Z.mod_small z 65536) by lia.
  pose proof (Z.div_mod z 256 ltac:(lia)) as Hz.
  pose proof (Z.mod_pos_bound z 256 ltac:(lia)) as Hr.
  assert (0 <= z / 256 < 256) as Hq
    by (split; [apply Z.div_pos|apply Z.div_lt_upper_bound]; lia).
  generalize dependent (z / 256). generalize dependent (z mod 256). intros r Hr q Hz Hq.
  rewrite (Z.mod_small (r * 256 + q) 65536) by lia.
  rewrite Z.div_add_l, (Z.div_small q 256) by lia.
  rewrite (Z.add_comm (r * 256)), Z.mod_add, (Z.mod_small q) by lia. lia.
Qed.

(** Values of type [char]. *)
Definition is_char (c : Z) : Prop := -128 <= c < 128.
#[export] Instance is_char_dec c : Decision (is_char c).
Proof. unfold is_char. apply _. Defined.

Lemma u8_inj_char x y : is_char x -> is_char y -> u8 x = u8 y -> x = y.
Proof.
  unfold is_char, u8. change (2 ^ 8) with 256. intros Hx Hy Hxy.
  assert (Hd : forall c, is_char c -> c mod 256 = if decide (c < 0) then c + 256 else c).
  { unfold is_char. intros c Hc. case_decide; [|apply Z.mod_small; lia].
    rewrite <- (Z.mod_add c 1) by lia. apply Z.mod_small. lia. }
  rewrite !Hd in Hxy by done. repeat case_decide; lia.
Qed.

Lemma tolower_char c : is_char c -> is_char (tolower c).
Proof. unfold is_char, tolower, isupper. intros. case_match; lia. Qed.
Lemma tolower_zero c : tolower c = 0 <-> c = 0.
Proof. unfold tolower, isupper. case_match; lia. Qed.

Section Compare.
Variable f : Z -> Z.
Hypothesis f_char : forall c, is_char c -> is_char (f c).
Hypothesis f_zero : forall c, f c = 0 <-> c = 0.

Lemma hd_char a : Forall is_char a -> is_char (hd 0 a).
Proof. destruct 1; [unfold is_char; simpl; lia|done]. Qed.
Lemma tl_char a : Forall is_char a -> Forall is_char (tl a).
Proof. by destruct 1. Qed.

Lemma cstr_take_S n a :
  cstr (take (S n) a) = if decide (hd 0 a = 0) then [] else hd 0 a :: cstr (take n (tl a)).
Proof.
  destruct a as [|x a]; simpl; [done|].
  destruct (Z.eqb_spec x 0); by case_decide.
Qed.

(** The comparison loops return 0 exactly on equal strings (up to [f]). *)
Lemma cmp_n_zero n a b :
  Forall is_char a -> Forall is_char b ->
  cmp_n (fun c => u8 (f c)) n a b = 0
  <-> f <$> cstr (take n a) = f <$> cstr (take n b).
Proof.
  revert a b. induction n as [|n IH]; intros a b Ha Hb; [done|].
  rewrite !cstr_take_S. cbn [cmp_n].
  pose proof (hd_char a Ha) as Hca. pose proof (hd_char b Hb) as Hcb.
  destruct (Z.eqb_spec (u8 (f (hd 0 a))) (u8 (f (hd 0 b)))) as [E|E]; cbn [negb].
  - apply u8_inj_char in E; [|by apply f_char|by apply f_char].
    pose proof (f_zero (hd 0 a)). pose proof (f_zero (hd 0 b)).
    destruct (Z.eqb_spec (hd 0 a) 0); repeat case_decide; try lia; [done|].
    rewrite IH by (by apply tl_char). rewrite !fmap_cons. split; [by intros ->; rewrite E|].
    by intros [= _ ?].
  - pose proof (f_zero (hd 0 a)). pose proof (f_zero (hd 0 b)).
    split; [lia|]. repeat case_decide; rewrite ?fmap_cons; intros HH; simplify_eq; try done.
    + rewrite !(proj2 (f_zero _)) in E by done. done.
    + congruence.
Qed.
End Compare.

Lemma strncmp_zero a b n :
  Forall is_char a -> Forall is_char b ->
  strncmp a b n = 0 <-> cstr (ztake n a) = cstr (ztake n b).
Proof.
  intros. pose proof (cmp_n_zero id ltac:(done) ltac:(done) (Z.to_nat n) a b) as Hc.
  rewrite !list_fmap_id in Hc. by apply Hc.
Qed.

Lemma strncasecmp_zero a b n :
  Forall is_char a -> Forall is_char b ->
  strncasecmp a b n = 0 <-> tolower <$> cstr (ztake n a) = tolower <$> cstr (ztake n b).
Proof. intros. by apply (cmp_n_zero tolower tolower_char tolower_zero). Qed.

Lemma cstr_take_ge s k : (length (cstr s) <= k)%nat -> cstr (take k s) = cstr s.
Proof.
  revert k. induction s as [|c s IH]; intros k; [by rewrite take_nil|]. simpl.
  destruct k as [|k]; destruct (Z.eqb_spec c 0) as [->|]; simpl; try done; try lia.
  intros Hk. destruct (Z.eqb_spec c 0); [done|]. by rewrite IH by lia.
Qed.
Lemma cstr_ztake_ge s n : strlen s <= n -> cstr (ztake n s) = cstr s.
Proof. unfold strlen, ztake, zlen. intros. apply cstr_take_ge. lia. Qed.

Lemma strlen_ztake s n : 0 <= n -> strlen (ztake n s) <= n.
Proof. intros. etrans; [apply strlen_le|]. rewrite zlen_ztake. lia. Qed.
