(* ===== verification/Codes.v ===== *)
(** * Result codes, status codes and header numbers

    The constants of [upnp/inc/upnp.h], [statcodes.h] and [httpparser.h] that several
    components use. *)

From S2P Require Import Prelude.
#[local] Open Scope Z_scope.

Definition UPNP_USING_CHUNKED : Z := -3.
Definition UPNP_UNTIL_CLOSE : Z := -4.
Definition UPNP_E_INVALID_HANDLE : Z := -100.
Definition UPNP_E_INVALID_PARAM : Z := -101.
Definition UPNP_E_OUTOF_HANDLE : Z := -102.
Definition UPNP_E_BUFFER_TOO_SMALL : Z := -106.
Definition UPNP_E_INVALID_SID : Z := -109.
Definition UPNP_E_BAD_RESPONSE : Z := -113.
Definition UPNP_E_FINISH : Z := -116.
Definition UPNP_E_BAD_HTTPMSG : Z := -119.
Definition UPNP_E_ALREADY_REGISTERED : Z := -120.
Definition UPNP_E_SOCKET_CONNECT : Z := -204.
Definition UPNP_E_OUTOF_SOCKET : Z := -205.
Definition UPNP_E_TIMEDOUT : Z := -207.
Definition UPNP_E_SOCKET_ERROR : Z := -208.
Definition UPNP_E_CANCELED : Z := -210.
Definition UPNP_E_SUBSCRIBE_UNACCEPTED : Z := -301.
Definition UPNP_E_UNSUBSCRIBE_UNACCEPTED : Z := -302.
Definition UPNP_E_INVALID_ARGUMENT : Z := -501.
Definition UPNP_E_FILE_READ_ERROR : Z := -503.
Definition UPNP_E_INTERNAL_ERROR : Z := -911.

Definition HTTP_OK : Z := 200.
Definition HTTP_PARTIAL_CONTENT : Z := 206.
Definition HTTP_UNAUTHORIZED : Z := 401.
Definition HTTP_FORBIDDEN : Z := 403.
Definition HTTP_NOT_FOUND : Z := 404.
Definition HTTP_NOT_ACCEPTABLE : Z := 406.
Definition HTTP_PRECONDITION_FAILED : Z := 412.
Definition HTTP_REQ_ENTITY_TOO_LARGE : Z := 413.
Definition HTTP_REQUEST_RANGE_NOT_SATISFIABLE : Z := 416.
Definition HTTP_SERVICE_UNAVAILABLE : Z := 503.

Definition HDR_HOST : Z := 7.
Definition HDR_LOCATION : Z := 11.
Definition HDR_NT : Z := 14.
Definition HDR_NTS : Z := 15.
Definition HDR_SEQ : Z := 17.
Definition HDR_SID : Z := 18.
Definition HDR_ST : Z := 20.
Definition HDR_TIMEOUT : Z := 21.
Definition HDR_DT : Z := 23.
Definition HDR_ACCEPT_LANGUAGE : Z := 28.
Definition HDR_RANGE : Z := 35.
Definition HDR_TE : Z := 36.
Definition HDR_UID : Z := 37.
