(* ===== verification/Membuffer.v ===== *)
(** * Growable byte buffers

    [upnp/src/genlib/util/membuffer.c]: [membuffer] and its operations, the
    [memptr] comparisons and [str_alloc].  A buffer pointer is the block it
    points to.  The heap is abstract: [alloc_ok n] says whether an allocation of
    [n] bytes succeeds, [junk] gives the bytes of fresh memory, and every theorem
    holds for all of them. *)

From S2P Require Import Prelude CLib.
#[local] Open Scope Z_scope.

Definition UPNP_E_SUCCESS : Z := 0.
Definition UPNP_E_OUTOF_MEMORY : Z := -104.
Definition UPNP_E_OUTOF_BOUNDS : Z := -506.

Class Malloc := { alloc_ok : Z -> bool; junk : Z -> Z }.

(** [realloc (b, n)]: the first bytes are kept, the new ones are fresh. *)
Definition realloc `{Malloc} (b : option (list Z)) (n : Z) : option (list Z) :=
  if alloc_ok n
  then let old := ztake n (default [] b) in
       Some (old ++ map (fun k => junk (Z.of_nat k)) (seq (length old) (Z.to_nat n - length old)))
  else None.

Record membuffer := Membuffer {
  mb_buf : option (list Z);
  mb_length : Z;
  mb_capacity : Z;
  mb_size_inc : Z
}.

Definition MEMBUF_DEF_SIZE_INC : Z := 5.

Definition mb_block (m : membuffer) : list Z := default [] (mb_buf m).
Definition mb_contents (m : membuffer) : list Z := ztake (mb_length m) (mb_block m).

Definition set_block (m : membuffer) (f : list Z -> list Z) : membuffer :=
  Membuffer (f <$> mb_buf m) (mb_length m) (mb_capacity m) (mb_size_inc m).
Definition set_length (m : membuffer) (n : Z) : membuffer :=
  Membuffer (mb_buf m) n (mb_capacity m) (mb_size_inc m).

Section Membuffer.
Context `{Malloc}.

Definition str_alloc (str : list Z) (str_len : Z) : option (list Z) :=
  match realloc None (u64 (str_len + 1)) with
  | None => None
  | Some s => Some (zset (zwrite s 0 (ztake str_len str)) str_len 0)
  end.

Definition memptr_cmp (buf : list Z) (len : Z) (s : list Z) : Z :=
  let cmp := strncmp buf s len in
  if (cmp =? 0) && (len <? strlen s) then -1 else cmp.

Definition memptr_cmp_nocase (buf : list Z) (len : Z) (s : list Z) : Z :=
  let cmp := strncasecmp buf s len in
  if (cmp =? 0) && (len <? strlen s) then -1 else cmp.

Definition membuffer_initialize (m : membuffer) : membuffer :=
  Membuffer None 0 0 (mb_size_inc m).

(** The size asked from [realloc] ([None]: the block is kept). *)
Definition membuffer_alloc_len (m : membuffer) (new_length : Z) : option Z :=
  if mb_length m <=? new_length then
    if new_length <=? mb_capacity m then None
    else Some (u64 (Z.max (mb_size_inc m) (u64 (new_length - mb_length m)) + mb_capacity m))
  else if u64 (mb_capacity m - new_length) <=? mb_size_inc m then None
  else Some (u64 (new_length + mb_size_inc m)).

(** The two attempts of [membuffer_set_size]: [alloc_len], then the bare length. *)
Definition membuffer_realloc (m : membuffer) (alloc_len new_length : Z) : Z * membuffer :=
  match realloc (mb_buf m) (u64 (alloc_len + 1)) with
  | Some b => (0, Membuffer (Some b) (mb_length m) alloc_len (mb_size_inc m))
  | None =>
      match realloc (mb_buf m) (u64 (new_length + 1)) with
      | Some b => (0, Membuffer (Some b) (mb_length m) new_length (mb_size_inc m))
      | None => (UPNP_E_OUTOF_MEMORY, m)
      end
  end.

Definition membuffer_set_size (m : membuffer) (new_length : Z) : Z * membuffer :=
  match membuffer_alloc_len m new_length with
  | None => (0, m)
  | Some alloc_len => membuffer_realloc m alloc_len new_length
  end.

Definition membuffer_init (m : membuffer) : membuffer :=
  membuffer_initialize (Membuffer (mb_buf m) (mb_length m) (mb_capacity m) MEMBUF_DEF_SIZE_INC).

Definition membuffer_destroy (m : membuffer) : membuffer := membuffer_init m.

Definition membuffer_assign (m : membuffer) (buf : option (list Z)) (buf_len : Z)
  : Z * membuffer :=
  match buf with
  | None => (0, membuffer_destroy m)
  | Some b =>
      let '(return_code, m1) := membuffer_set_size m buf_len in
      if negb (return_code =? 0) then (return_code, m1)
      else
        let m2 := if negb (buf_len =? 0)
                  then set_block m1 (fun p => zset (zwrite p 0 (ztake buf_len b)) buf_len 0)
                  else m1 in
        (0, set_length m2 buf_len)
  end.

Definition membuffer_assign_str (m : membuffer) (c_str : list Z) : Z * membuffer :=
  membuffer_assign m (Some c_str) (strlen c_str).

Definition membuffer_insert (m : membuffer) (buf : option (list Z)) (buf_len index : Z)
  : Z * membuffer :=
  if mb_length m <? index then (UPNP_E_OUTOF_BOUNDS, m)
  else
    match buf with
    | None => (0, m)
    | Some b =>
        if buf_len =? 0 then (0, m)
        else
          let '(return_code, m1) := membuffer_set_size m (u64 (mb_length m + buf_len)) in
          if negb (return_code =? 0) then (return_code, m1)
          else
            let m2 := set_block m1 (fun p =>
              zwrite (zmove p (index + buf_len) index (mb_length m1 - index)) index
                (ztake buf_len b)) in
            let n := u64 (mb_length m2 + buf_len) in
            (0, set_block (set_length m2 n) (fun p => zset p n 0))
    end.

Definition membuffer_append (m : membuffer) (buf : option (list Z)) (buf_len : Z)
  : Z * membuffer :=
  membuffer_insert m buf buf_len (mb_length m).

Definition membuffer_append_str (m : membuffer) (c_str : list Z) : Z * membuffer :=
  membuffer_insert m (Some c_str) (strlen c_str) (mb_length m).

Definition membuffer_delete (m : membuffer) (index num_bytes : Z) : membuffer :=
  if mb_length m =? 0 then m
  else
    let '(num_bytes, copy_len) :=
      if mb_length m <? u64 (index + num_bytes)
      then (u64 (mb_length m - index), 0)
      else (num_bytes, u64 (mb_length m - u64 (index + num_bytes))) in
    let m1 := set_block m (fun p => zmove p index (index + num_bytes) copy_len) in
    let new_length := u64 (mb_length m1 - num_bytes) in
    let '(return_value, m2) := membuffer_set_size m1 new_length in
    if negb (return_value =? 0) then m2
    else set_block (set_length m2 new_length) (fun p => zset p new_length 0).

Definition membuffer_detach (m : membuffer) : option (list Z) * membuffer :=
  (mb_buf m, membuffer_initialize m).

Definition membuffer_attach (m : membuffer) (new_buf : option (list Z)) (buf_len : Z)
  : membuffer :=
  let m1 := membuffer_destroy m in
  Membuffer new_buf buf_len buf_len (mb_size_inc m1).

#[local] Arguments membuffer_set_size : simpl never.
#[local] Arguments membuffer_assign : simpl never.
#[local] Arguments membuffer_insert : simpl never.

(** ** Well-formed buffers *)

(** The block has room for [capacity] bytes and a terminator. *)
Definition room (m : membuffer) : Prop :=
  match mb_buf m with
  | None => mb_capacity m = 0
  | Some b => mb_capacity m + 1 <= zlen b
  end.

(** [membuffer.h] asks for sizes below [INT_MAX] and a positive increment. *)
Definition mb_wf (m : membuffer) : Prop :=
  0 <= mb_length m <= mb_capacity m /\ mb_capacity m < 2 ^ 33
  /\ 0 < mb_size_inc m < 2 ^ 31 /\ room m.

(** The byte after the contents is the terminator. *)
Definition mb_terminated (m : membuffer) : Prop := zget (mb_block m) (mb_length m) = 0.

Lemma zlen_fresh a n : zlen (map (fun k => junk (Z.of_nat k)) (seq a n)) = Z.of_nat n.
Proof. unfold zlen. by rewrite length_map, length_seq. Qed.

Lemma realloc_spec b n b' :
  0 <= n -> realloc b n = Some b' ->
  zlen b' = n /\ forall i, i < Z.min n (zlen (default [] b)) -> zget b' i = zget (default [] b) i.
Proof.
  unfold realloc. intros Hn. destruct (alloc_ok n); [|done]. intros [= <-]. split.
  - rewrite zlen_app, zlen_fresh, zlen_ztake. unfold ztake. rewrite length_take.
    unfold zlen. lia.
  - intros i Hi. destruct (decide (i < 0)); [by rewrite !zget_out by lia|].
    rewrite zget_app, zlen_ztake, zget_ztake. pose_zlens. repeat case_decide; lia || done.
Qed.

(** What a resize guarantees: room for [n] bytes, the old bytes kept. *)
Definition resized (m m' : membuffer) (n : Z) : Prop :=
  mb_length m' = mb_length m /\ mb_size_inc m' = mb_size_inc m
  /\ n <= mb_capacity m' /\ room m' /\ (mb_buf m <> None -> mb_buf m' <> None)
  /\ mb_capacity m' <= Z.max (mb_capacity m) (n + Z.max (mb_size_inc m) n)
  /\ (n <= mb_length m -> mb_capacity m' <= mb_capacity m)
  /\ forall i, i < Z.min n (mb_length m) -> zget (mb_block m') i = zget (mb_block m) i.

Lemma room_length m : mb_wf m -> mb_length m <= zlen (mb_block m).
Proof.
  intros (Hlen & _ & _ & Hroom). unfold room in Hroom. unfold mb_block.
  destruct (mb_buf m); simpl; [lia|]. change (zlen (@nil Z)) with 0. lia.
Qed.

Lemma membuffer_realloc_spec m k n rc m' :
  mb_wf m -> 0 <= n -> n <= k < 2 ^ 34 ->
  k <= Z.max (mb_capacity m) (n + Z.max (mb_size_inc m) n) ->
  (n <= mb_length m -> k <= mb_capacity m) ->
  membuffer_realloc m k n = (rc, m') ->
  (rc = UPNP_E_OUTOF_MEMORY /\ m' = m) \/ (rc = 0 /\ resized m m' n).
Proof.
  intros Hwf Hn Hk Hkc Hkd. pose proof (room_length m Hwf) as Hbl. pose proof Hwf as [? _].
  unfold membuffer_realloc. rewrite !u64_small by lia.
  destruct (realloc _ (k + 1)) as [b|] eqn:E1; [|destruct (realloc _ (n + 1)) as [b|] eqn:E2];
    intros [= <- <-]; [right|right|by left];
    [apply realloc_spec in E1 as [Hb Hget]|apply realloc_spec in E2 as [Hb Hget]]; try lia;
    unfold resized, room, mb_block in *; simpl; split_and!; try done; try lia;
    intros i Hi; apply Hget; lia.
Qed.

Lemma set_size_spec m n rc m' :
  mb_wf m -> 0 <= n < 2 ^ 33 -> membuffer_set_size m n = (rc, m') ->
  (rc = UPNP_E_OUTOF_MEMORY /\ m' = m) \/ (rc = 0 /\ resized m m' n).
Proof.
  intros Hwf Hn. pose proof Hwf as (Hlen & Hcap & Hinc & Hroom).
  assert (n <= mb_capacity m -> resized m m n).
  { intros. unfold resized. split_and!; try done; lia. }
  unfold membuffer_set_size, membuffer_alloc_len.
  destruct (Z.leb_spec (mb_length m) n).
  - destruct (Z.leb_spec n (mb_capacity m)); [intros [= <- <-]; auto|].
    rewrite (u64_small (n - _)), u64_small by lia.
    intros E. eapply membuffer_realloc_spec; try exact E; try done; lia.
  - rewrite (u64_small (mb_capacity m - n)) by lia.
    destruct (Z.leb_spec (mb_capacity m - n) (mb_size_inc m));
      [intros [= <- <-]; right; split; [done|auto with lia]|].
    rewrite u64_small by lia.
    intros E. eapply membuffer_realloc_spec; try exact E; try done; lia.
Qed.

Lemma mb_block_set_block m f :
  mb_buf m <> None -> mb_block (set_block m f) = f (mb_block m).
Proof. unfold mb_block, set_block. simpl. by destruct (mb_buf m). Qed.

Lemma room_block m : mb_buf m <> None -> room m <-> mb_capacity m + 1 <= zlen (mb_block m).
Proof. unfold room, mb_block. by destruct (mb_buf m). Qed.

(** A successful resize to [n > 0] bytes leaves a real block. *)
Lemma resized_block m m' n :
  resized m m' n -> 0 < n -> mb_buf m' <> None /\ n + 1 <= zlen (mb_block m').
Proof.
  unfold resized, room, mb_block. intros (_ & _ & Hcap & Hroom & _) Hn.
  destruct (mb_buf m'); simpl; [split; [done|lia]|lia].
Qed.

Lemma zlen_contents m : mb_wf m -> zlen (mb_contents m) = mb_length m.
Proof.
  intros Hwf. pose proof (room_length m Hwf). destruct Hwf. unfold mb_contents. zlia.
Qed.

Lemma resized_contents m m' n :
  mb_wf m -> resized m m' n -> mb_length m <= n ->
  ztake (mb_length m) (mb_block m') = mb_contents m.
Proof.
  intros Hwf Hr Hn. pose proof (room_length m Hwf).
  assert (mb_length m <= zlen (mb_block m')).
  { destruct Hwf as [? _]. destruct (decide (n = 0)).
    - pose proof (zlen_nonneg (mb_block m')). lia.
    - destruct (resized_block _ _ _ Hr); lia. }
  destruct Hr as (_ & _ & _ & _ & _ & _ & _ & Hget). unfold mb_contents.
  apply zget_eq; [zlia|]. intros i Hi. rewrite !zget_ztake.
  case_decide; [|done]. apply Hget. lia.
Qed.

Lemma membuffer_init_wf m : mb_wf (membuffer_init m).
Proof. unfold mb_wf, room. simpl. unfold MEMBUF_DEF_SIZE_INC. lia. Qed.

Lemma membuffer_insert_spec m b n index rc m' :
  mb_wf m -> 0 <= index <= mb_length m -> 0 < n <= zlen b -> mb_length m + n < 2 ^ 31 ->
  membuffer_insert m (Some b) n index = (rc, m') ->
  (rc = UPNP_E_OUTOF_MEMORY /\ m' = m)
  \/ (rc = 0
      /\ mb_contents m'
         = ztake index (mb_contents m) ++ ztake n b ++ zdrop index (mb_contents m)
      /\ mb_length m' = mb_length m + n
      /\ mb_size_inc m' = mb_size_inc m
      /\ mb_wf m' /\ mb_terminated m').
Proof.
  intros Hwf Hi Hn Hsz. pose proof Hwf as (Hlen & Hcap & Hinc & _).
  unfold membuffer_insert. destruct (Z.ltb_spec (mb_length m) index); [lia|].
  destruct (Z.eqb_spec n 0); [lia|]. rewrite u64_small by lia.
  destruct (membuffer_set_size m (mb_length m + n)) as [r m1] eqn:E.
  apply set_size_spec in E as [[-> ->]|[-> Hr]]; [| |done|lia].
  { intros [= <- <-]. by left. }
  destruct (resized_block _ _ _ Hr ltac:(lia)) as [Hnn Hbl].
  pose proof (resized_contents _ _ _ Hwf Hr ltac:(lia)) as Hold.
  pose proof (zlen_contents m Hwf) as Hlc.
  destruct Hr as (Hl1 & Hs1 & Hc1 & Hroom1 & _ & Hcb & _ & _).
  destruct m1 as [[p|] l1 c1 s1]; [|done]. unfold room, mb_block in *. simpl in *. subst l1 s1.
  rewrite u64_small by lia. intros [= <- <-]. right.
  assert (Hzm : zlen (zmove p (index + n) index (mb_length m - index)) = zlen p)
    by (apply zlen_zmove; lia).
  assert (Hzw : zlen (ztake n b) = n) by zlia.
  split_and!; simpl; try done.
  - unfold mb_contents at 1. simpl. unfold mb_block. simpl. rewrite <- Hold. zext.
  - split_and!; simpl; try lia. unfold room. simpl. rewrite zlen_zset, zlen_zwrite; lia.
  - unfold mb_terminated, mb_block. simpl.
    rewrite zget_zset, zlen_zwrite by lia. case_decide; lia.
Qed.

(** A resize can only fail when the allocation of the bare length fails. *)
Lemma set_size_ok m n :
  0 <= n < 2 ^ 33 -> alloc_ok (n + 1) = true -> (membuffer_set_size m n).1 = 0.
Proof.
  intros Hn Hok. unfold membuffer_set_size, membuffer_realloc.
  destruct (membuffer_alloc_len m n); [|done].
  destruct (realloc _ (u64 (z + 1))); [done|].
  unfold realloc. rewrite u64_small by lia. by rewrite Hok.
Qed.

Lemma membuffer_delete_spec m index n :
  mb_wf m -> 0 <= index -> 0 <= n -> index + n <= mb_length m -> 0 < mb_length m ->
  alloc_ok (mb_length m - n + 1) = true ->
  let m' := membuffer_delete m index n in
  mb_length m' = mb_length m - n
  /\ mb_contents m' = ztake index (mb_contents m) ++ zdrop (index + n) (mb_contents m)
  /\ mb_size_inc m' = mb_size_inc m /\ mb_capacity m' <= mb_capacity m
  /\ mb_wf m' /\ mb_terminated m'.
Proof.
  intros Hwf Hi Hn Hin Hpos Hok. pose proof Hwf as (Hlen & Hcap & Hinc & Hroom).
  unfold membuffer_delete. destruct (Z.eqb_spec (mb_length m) 0); [lia|].
  rewrite !(u64_small (index + n)) by lia. destruct (Z.ltb_spec (mb_length m) (index + n)); [lia|].
  rewrite u64_small by lia.
  destruct m as [[p|] l c s]; unfold room in Hroom; simpl in *; [|lia].
  set (k := l - (index + n)). set (p1 := zmove p index (index + n) k).
  assert (Hp1 : zlen p1 = zlen p) by (apply zlen_zmove; unfold k; lia).
  unfold set_block. simpl. rewrite (u64_small (l - n)) by lia.
  pose proof (set_size_ok (Membuffer (Some p1) l c s) (l - n) ltac:(lia) Hok) as Hrc.
  destruct (membuffer_set_size _ _) as [rc m2] eqn:E. simpl in Hrc. subst rc.
  apply set_size_spec in E as [[? _]|[_ Hr]]; [done| | |simpl; lia].
  2: { unfold mb_wf, room. simpl. lia. }
  destruct Hr as (Hl & Hs & Hc2 & Hroom2 & Hsome & _ & Hcb & Hget). simpl in *.
  assert (Hnn : mb_buf m2 <> None -> zlen (mb_block m2) > l - n).
  { intros. apply room_block in Hroom2; [lia|done]. }
  unfold membuffer_set_size, membuffer_alloc_len in *.
  destruct m2 as [[q|] l2 c2 s2]; unfold mb_contents, mb_wf, mb_terminated, room, mb_block in *;
    simpl in *; [|].
  - subst l2 s2. split_and!; try lia; try done.
    + apply zget_eq; [zlia|]. intros i. zlen_norm. intros Hi2.
      rewrite zget_ztake_lt by lia. rewrite zget_zset_ne by lia. rewrite Hget by lia.
      unfold p1, k. zreads.
    + zlia.
    + rewrite zget_zset_eq; lia.
  - by destruct (Hsome ltac:(done)).
Qed.

Lemma membuffer_assign_spec m b n rc m' :
  mb_wf m -> 0 <= n <= zlen b -> n < 2 ^ 31 ->
  membuffer_assign m (Some b) n = (rc, m') ->
  (rc = UPNP_E_OUTOF_MEMORY /\ m' = m)
  \/ (rc = 0 /\ mb_contents m' = ztake n b /\ mb_length m' = n
      /\ mb_size_inc m' = mb_size_inc m /\ mb_wf m' /\ (0 < n -> mb_terminated m')).
Proof.
  intros Hwf Hn Hsz. pose proof Hwf as (Hlen & Hcap & Hinc & _). unfold membuffer_assign.
  destruct (membuffer_set_size m n) as [r m1] eqn:E.
  apply set_size_spec in E as [[-> ->]|[-> Hr]]; [| |done|lia].
  { intros [= <- <-]. by left. }
  simpl. intros [= <- <-]. right.
  pose proof (resized_block _ _ _ Hr) as Hb.
  destruct Hr as (Hl1 & Hs1 & Hc1 & Hroom1 & Hsome & Hcb & _).
  destruct m1 as [q l1 c1 s1]. simpl in *. subst l1 s1.
  destruct (Z.eqb_spec n 0) as [->|]; simpl.
  - split_and!; try done.
    unfold mb_wf. simpl. unfold room in *. simpl in *. split_and!; try done; lia.
  - destruct q as [p|]; [|by destruct (Hb ltac:(lia))].
    unfold mb_contents, mb_wf, mb_terminated, room, mb_block in *. simpl in *.
    split_and!; try done; try zlia; [zext|].
    intros _. rewrite zget_zset_eq; [done|]. rewrite zlen_zwrite; zlia.
Qed.

Lemma membuffer_set_size_wf m n :
  mb_wf m -> mb_length m <= n < 2 ^ 31 -> mb_wf (membuffer_set_size m n).2.
Proof.
  intros Hwf Hn. pose proof Hwf as (? & ? & ? & ?).
  destruct (membuffer_set_size m n) as [rc m'] eqn:E.
  apply set_size_spec in E as [[_ ->]|[_ Hr]]; [done| |done|lia].
  destruct Hr as (? & ? & ? & ? & ? & ? & ?). unfold mb_wf. simpl. split_and!; try done; lia.
Qed.

(** ** Reachable buffers

    The calls a program makes on a buffer: byte counts that the source block
    has, deletions inside the buffer, and a total length below [INT_MAX]. *)

Inductive mb_op :=
  | OpAssign (b : option (list Z)) (n : Z)
  | OpInsert (b : list Z) (n index : Z)
  | OpAppend (b : list Z) (n : Z)
  | OpReserve (n : Z)
  | OpDelete (index n : Z)
  | OpDetach
  | OpDestroy.

Definition mb_apply (m : membuffer) (op : mb_op) : membuffer :=
  match op with
  | OpAssign b n => (membuffer_assign m b n).2
  | OpInsert b n index => (membuffer_insert m (Some b) n index).2
  | OpAppend b n => (membuffer_append m (Some b) n).2
  | OpReserve n => (membuffer_set_size m n).2
  | OpDelete index n => membuffer_delete m index n
  | OpDetach => (membuffer_detach m).2
  | OpDestroy => membuffer_destroy m
  end.

Definition mb_allowed (m : membuffer) (op : mb_op) : Prop :=
  match op with
  | OpAssign (Some b) n => 0 <= n <= zlen b /\ n < 2 ^ 31
  | OpAssign None _ => True
  | OpInsert b n index => 0 <= index /\ 0 <= n <= zlen b /\ mb_length m + n < 2 ^ 31
  | OpAppend b n => 0 <= n <= zlen b /\ mb_length m + n < 2 ^ 31
  | OpReserve n => mb_length m <= n < 2 ^ 31
  | OpDelete index n => 0 <= index /\ 0 <= n /\ index + n <= mb_length m
                        /\ alloc_ok (mb_length m - n + 1) = true
  | OpDetach | OpDestroy => True
  end.

Inductive mb_reach : membuffer -> Prop :=
  | reach_init m : mb_reach (membuffer_init m)
  | reach_op m op : mb_reach m -> mb_allowed m op -> mb_reach (mb_apply m op).

Lemma membuffer_insert_wf m b n index :
  mb_wf m -> 0 <= index -> 0 <= n <= zlen b -> mb_length m + n < 2 ^ 31 ->
  mb_wf (membuffer_insert m (Some b) n index).2.
Proof.
  intros Hwf Hi Hn Hsz.
  destruct (membuffer_insert m (Some b) n index) as [rc m'] eqn:E. simpl.
  unfold membuffer_insert in E. destruct (Z.ltb_spec (mb_length m) index).
  { by simplify_eq. }
  destruct (Z.eqb_spec n 0). { by simplify_eq. }
  assert (membuffer_insert m (Some b) n index = (rc, m')) as E'.
  { unfold membuffer_insert. destruct (Z.ltb_spec (mb_length m) index); [lia|].
    by destruct (Z.eqb_spec n 0). }
  apply membuffer_insert_spec in E' as [[_ ->]|(_ & _ & _ & _ & ? & _)]; try done; lia.
Qed.

Lemma mb_apply_wf m op : mb_wf m -> mb_allowed m op -> mb_wf (mb_apply m op).
Proof.
  intros Hwf. destruct op as [[b|] n|b n index|b n|n|index n| |]; cbn [mb_apply mb_allowed].
  - intros [Hn Hsz]. destruct (membuffer_assign m (Some b) n) as [rc m'] eqn:E. simpl.
    by apply membuffer_assign_spec in E as [[_ ->]|(_ & _ & _ & _ & ? & _)].
  - intros _. apply membuffer_init_wf.
  - intros (? & ? & ?). by apply membuffer_insert_wf.
  - intros (? & ?). pose proof Hwf as [? _]. apply membuffer_insert_wf; try done; lia.
  - apply membuffer_set_size_wf; done.
  - intros (? & ? & ? & Hok). destruct (decide (0 < mb_length m)).
    + by apply membuffer_delete_spec.
    + unfold membuffer_delete. destruct (Z.eqb_spec (mb_length m) 0); [done|].
      pose proof Hwf as [? _]. lia.
  - intros _. pose proof Hwf as (_ & _ & ? & _). unfold mb_wf, room. simpl. lia.
  - intros _. apply membuffer_init_wf.
Qed.
End Membuffer.
#[global] Arguments membuffer_set_size : simpl never.
#[global] Arguments membuffer_assign : simpl never.
#[global] Arguments membuffer_insert : simpl never.
#[global] Arguments membuffer_delete : simpl never.

(** ** Lemmas for clients *)

Lemma membuffer_insert_oom `{Malloc} m b n index m' :
  mb_wf m -> 0 <= index <= mb_length m -> 0 < n -> mb_length m + n < 2 ^ 31 ->
  membuffer_insert m (Some b) n index = (UPNP_E_OUTOF_MEMORY, m') ->
  alloc_ok (mb_length m + n + 1) = false.
Proof.
  intros Hwf Hi Hn Hsz. unfold membuffer_insert.
  destruct (Z.ltb_spec (mb_length m) index); [lia|]. destruct (Z.eqb_spec n 0); [lia|].
  pose proof Hwf as [? _]. rewrite u64_small by lia.
  destruct (alloc_ok _) eqn:Hok; [|done].
  pose proof (set_size_ok m (mb_length m + n) ltac:(lia) Hok) as Hrc.
  destruct (membuffer_set_size _ _) as [rc m1]. simpl in Hrc. subst rc. simpl.
  by intros [= ?].
Qed.

Lemma mb_terminated_strlen m :
  mb_wf m -> mb_terminated m -> Forall (fun c => c <> 0) (mb_contents m) ->
  cstr (mb_block m) = mb_contents m.
Proof.
  intros Hwf Ht Hnn. pose proof (room_length m Hwf) as Hl. pose proof Hwf as [? _].
  unfold mb_contents in *. rewrite <- (ztake_zdrop (mb_length m) (mb_block m)) at 1.
  destruct (zdrop (mb_length m) (mb_block m)) as [|c r] eqn:E.
  - by rewrite app_nil_r, cstr_id.
  - assert (c = 0) as ->.
    { unfold mb_terminated in Ht. rewrite <- (ztake_zdrop (mb_length m) (mb_block m)), E in Ht.
      rewrite zget_app_r in Ht by zlia. rewrite zget_cons in Ht.
      rewrite zlen_ztake_le in Ht by lia. case_decide; lia. }
    by rewrite cstr_app_nul.
Qed.

(** An allocator that never fails, for concrete runs. *)
Definition malloc_always : Malloc := {| alloc_ok := fun _ => true; junk := fun _ => 165 |}.

(** ** Properties *)

(** C29. Inserting [n] bytes at [index] either fails (out of bounds, or the allocation of the
    bare length failed) and leaves the buffer as it was, or makes the contents the old prefix,
    the inserted bytes and the old suffix, followed by a terminator when bytes were added. *)
Theorem membuffer_insert_correct `{Malloc} m b n index :
  mb_wf m -> 0 <= index -> 0 <= n <= zlen b -> mb_length m + n < 2 ^ 31 ->
  let '(rc, m') := membuffer_insert m (Some b) n index in
  if decide (mb_length m < index) then rc = UPNP_E_OUTOF_BOUNDS /\ m' = m
  else (rc = UPNP_E_OUTOF_MEMORY /\ m' = m /\ alloc_ok (mb_length m + n + 1) = false)
       \/ (rc = 0
           /\ mb_contents m'
              = ztake index (mb_contents m) ++ ztake n b ++ zdrop index (mb_contents m)
           /\ mb_wf m' /\ (0 < n -> mb_terminated m')).
Proof.
  intros Hwf Hi Hn Hsz. destruct (membuffer_insert m (Some b) n index) as [rc m'] eqn:E.
  case_decide as Hd.
  { unfold membuffer_insert in E. destruct (Z.ltb_spec (mb_length m) index); [|lia].
    by simplify_eq. }
  destruct (decide (n = 0)) as [->|Hnz].
  { unfold membuffer_insert in E. destruct (Z.ltb_spec (mb_length m) index); [lia|].
    change (0 =? 0) with true in E. injection E as <- <-. right.
    rewrite (ztake_neg 0 b) by lia. cbn [app].
    rewrite ztake_zdrop. split_and!; try done; lia. }
  pose proof E as E2.
  apply membuffer_insert_spec in E as [[-> ->]|(-> & ? & ? & ? & ? & ?)]; try done; try lia.
  - left. split_and!; try done. eapply membuffer_insert_oom; try exact E2; try done; lia.
  - by right.
Qed.

Lemma membuffer_insert_correct_witness :
  let _ := malloc_always in
  let m := (membuffer_append (membuffer_init (Membuffer None 0 0 5)) (Some (zs "host")) 4).2 in
  mb_wf m /\ mb_contents (membuffer_insert m (Some (zs "ab")) 2 1).2 = zs "habost".
Proof.
  intros M m.
  assert (Hwf : mb_wf m) by (vm_compute; intuition congruence).
  split; [exact Hwf|].
  pose proof (membuffer_insert_correct m (zs "ab") 2 1 Hwf ltac:(lia) ltac:(vm_compute; intuition congruence)
    ltac:(vm_compute; reflexivity)) as Hc.
  destruct (membuffer_insert m (Some (zs "ab")) 2 1) as [rc m'] eqn:E.
  destruct (decide (mb_length m < 1)) as [Hd|_]; [vm_compute in Hd; discriminate|].
  destruct Hc as [(_ & _ & Hf)|(_ & Hc & _)]; [discriminate Hf|].
  cbn [snd]. rewrite Hc. reflexivity.
Defined.

(** Deleting [n] bytes inside a buffer removes exactly these bytes, never grows the block
    and leaves a terminated buffer, whenever the allocator can provide the smaller block. *)
Theorem membuffer_delete_correct `{Malloc} m index n :
  mb_wf m -> 0 <= index -> 0 <= n -> index + n <= mb_length m -> 0 < mb_length m ->
  alloc_ok (mb_length m - n + 1) = true ->
  let m' := membuffer_delete m index n in
  mb_contents m' = ztake index (mb_contents m) ++ zdrop (index + n) (mb_contents m)
  /\ mb_length m' = mb_length m - n /\ mb_capacity m' <= mb_capacity m
  /\ mb_wf m' /\ mb_terminated m'.
Proof.
  intros Hwf H1 H2 H3 H4 Hok.
  pose proof (membuffer_delete_spec m index n Hwf H1 H2 H3 H4 Hok). cbv zeta in *. tauto.
Qed.

Lemma membuffer_delete_correct_witness :
  let _ := malloc_always in
  let m := (membuffer_append (membuffer_init (Membuffer None 0 0 5)) (Some (zs "1234567890")) 10).2 in
  mb_contents (membuffer_delete m 2 3) = zs "1267890".
Proof.
  intros M m.
  pose proof (membuffer_delete_correct m 2 3 ltac:(vm_compute; intuition congruence) ltac:(lia)
    ltac:(lia) ltac:(vm_compute; congruence) ltac:(vm_compute; reflexivity) eq_refl) as Hc.
  cbv zeta in Hc. destruct Hc as [-> _]. reflexivity.
Defined.

(** Round trip: deleting what was just inserted gives the contents back. *)
Theorem membuffer_insert_delete `{Malloc} m b n index m' :
  mb_wf m -> 0 <= index <= mb_length m -> 0 < n <= zlen b -> mb_length m + n < 2 ^ 31 ->
  alloc_ok (mb_length m + 1) = true ->
  membuffer_insert m (Some b) n index = (0, m') ->
  mb_contents (membuffer_delete m' index n) = mb_contents m.
Proof.
  intros Hwf Hi Hn Hsz Hok E.
  apply membuffer_insert_spec in E as [[? _]|(_ & Hc & Hl & _ & Hwf' & _)]; try done.
  assert (Hok' : alloc_ok (mb_length m' - n + 1) = true)
    by (by replace (mb_length m' - n + 1) with (mb_length m + 1) by lia).
  pose proof (membuffer_delete_spec m' index n Hwf' ltac:(lia) ltac:(lia) ltac:(lia)
    ltac:(lia) Hok') as Hd. cbv zeta in Hd. destruct Hd as (_ & -> & _). rewrite Hc. pose proof (zlen_contents m Hwf) as Hlc. zext.
Qed.

Lemma membuffer_insert_delete_witness :
  let _ := malloc_always in
  let m := (membuffer_append (membuffer_init (Membuffer None 0 0 5)) (Some (zs "host")) 4).2 in
  mb_contents (membuffer_delete (membuffer_insert m (Some (zs "ab")) 2 1).2 1 2) = zs "host".
Proof.
  intros M m.
  rewrite (membuffer_insert_delete m (zs "ab") 2 1
    (membuffer_insert m (Some (zs "ab")) 2 1).2); try reflexivity;
    vm_compute; intuition congruence.
Defined.

(** C40. Every buffer reached from [membuffer_init] by the operations of the module, called
    with sources as long as they claim and total lengths below [INT_MAX], is well formed: the
    contents fit the capacity and the block has room for the capacity and a terminator. *)
Theorem mb_reach_wf `{Malloc} m : mb_reach m -> mb_wf m.
Proof.
  induction 1 as [m|m op _ IH Hok]; [apply membuffer_init_wf|by apply mb_apply_wf].
Qed.

Lemma mb_reach_wf_witness :
  let _ := malloc_always in
  mb_wf (mb_apply (mb_apply (membuffer_init (Membuffer None 0 0 5))
                            (OpAppend (zs "M-SEARCH *") 10)) (OpDelete 1 9)).
Proof.
  intros M.
  apply mb_reach_wf. repeat apply reach_op; [apply reach_init| |];
    vm_compute; intuition congruence.
Defined.

(** [memptr_cmp] is 0 exactly when the slice, read as a C string, is the other string. *)
Theorem memptr_cmp_zero buf len s :
  Forall is_char buf -> Forall is_char s -> 0 <= len ->
  memptr_cmp buf len s = 0 <-> cstr (ztake len buf) = cstr s.
Proof.
  intros Hb Hs Hlen. unfold memptr_cmp. pose proof (strncmp_zero buf s len Hb Hs) as Hc.
  destruct (Z.eqb_spec (strncmp buf s len) 0) as [E|E].
  - rewrite E. apply Hc in E. destruct (Z.ltb_spec len (strlen s)); simpl.
    + split; [done|]. intros HH. pose proof (strlen_ztake buf len Hlen).
      unfold strlen in *. rewrite HH in *. lia.
    + rewrite E, cstr_ztake_ge by lia. done.
  - simpl. split; [done|]. intros HH. destruct E. apply Hc. rewrite HH.
    symmetry. apply cstr_ztake_ge. unfold strlen. rewrite <- HH. by apply strlen_ztake.
Qed.

Lemma memptr_cmp_zero_witness : memptr_cmp (zs "ssdp:alive; x") 10 (zs "ssdp:alive") = 0.
Proof.
  apply memptr_cmp_zero; [| |lia|reflexivity];
    apply Forall_forall; intros x Hx; vm_compute in Hx |- *;
    repeat (apply elem_of_cons in Hx as [->|Hx]; [split; congruence|]); by apply not_elem_of_nil in Hx.
Defined.
