(* ===== verification/Uri.v ===== *)
(** * URIs

    [upnp/src/genlib/net/uri/uri.c]: character classes, percent decoding, the
    scheme, host and path parsers, dot-segment removal and the resolution of
    relative references.

    A [const char *in] is the list of the bytes of its block, from [in] on,
    together with the address [base] of its first byte; the pointer [in + i] of
    a token is the address [base + i].  Name and address conversion
    ([getaddrinfo], [inet_pton]) is the class [Resolver]. *)

From S2P Require Import Prelude CLib Membuffer.
#[local] Open Scope Z_scope.

Definition HTTP_SUCCESS : Z := 1.
Definition UPNP_E_INVALID_URL : Z := -108.
Definition AF_UNSPEC : Z := 0.
Definition AF_INET : Z := 2.
Definition AF_INET6 : Z := 10.

Definition MARK : list Z := zs "-_.!~*'()".
Definition RESERVED : list Z := zs ";/?:@&=+$,{}".

Inductive pathType := ABS_PATH | REL_PATH | OPAQUE_PART.
Inductive uriType := ABSOLUTE | RELATIVE.
#[export] Instance pathType_eq : EqDecision pathType.
Proof. solve_decision. Defined.
#[export] Instance uriType_eq : EqDecision uriType.
Proof. solve_decision. Defined.

(** A pointer (0 is [NULL]) and a size. *)
Record token := Token { tk_buff : Z; tk_size : Z }.

(** The fields of [struct sockaddr_storage] the program uses. *)
Record sockaddr := Sockaddr {
  ss_family : Z; ss_port : Z; ss_addr : list Z; ss_scope_id : Z }.

Record hostport_type := Hostport { hp_text : token; hp_IPaddress : sockaddr }.

Record uri_type := Uri {
  uri_kind : uriType;
  uri_scheme : token;
  uri_path_type : pathType;
  uri_pathquery : token;
  uri_fragment : token;
  uri_hostport : hostport_type
}.

(** [memset (p, 0, ...)] on these types. *)
Definition token0 : token := Token 0 0.
Definition sockaddr0 : sockaddr := Sockaddr AF_UNSPEC 0 [] 0.
Definition hostport0 : hostport_type := Hostport token0 sockaddr0.

Class Resolver := {
  (** the list of addresses of a host name, [None] when the call fails *)
  getaddrinfo : list Z -> option (list sockaddr);
  (** the address in network order, [None] when it is not a valid address *)
  inet_pton4 : list Z -> option (list Z);
  inet_pton6 : list Z -> option (list Z);
  gIF_INDEX : Z
}.

(** ** Characters *)

Definition is_reserved (c : Z) : bool := strchr RESERVED c.
Definition is_mark (c : Z) : bool := strchr MARK c.
Definition is_unreserved (c : Z) : bool := isalnum c || is_mark c.
(** [is_escaped (&in[i])] *)
Definition is_escaped (inp : list Z) (i : Z) : bool :=
  (zget inp i =? PERCENT) && isxdigit (zget inp (i + 1)) && isxdigit (zget inp (i + 2)).

(** ** Percent decoding *)

(** The shifting loop of [replace_escaped]. *)
Fixpoint replace_loop (fuel : nat) (mem : list Z) (i j max tempChar : Z) : list Z :=
  match fuel with
  | O => mem
  | S f =>
      if j <? max then
        let mem' := zset mem j tempChar in
        let tempChar' := if i <? max then zget mem' i else 0 in
        replace_loop f mem' (i + 1) (j + 1) max tempChar'
      else mem
  end.

(** Result: the return value, the bytes and [*max]. *)
Definition replace_escaped (inp : list Z) (index max : Z) : Z * list Z * Z :=
  if is_escaped inp index then
    let tempChar := s8 (sscanf_2x (zget inp (index + 1)) (zget inp (index + 2))) in
    let mem := replace_loop (Z.to_nat (max - index)) inp (index + 3) index max tempChar in
    (1, mem, max - 2)
  else (0, inp, max).

Fixpoint remove_escaped_loop (fuel : nat) (mem : list Z) (i size : Z) : list Z * Z :=
  match fuel with
  | O => (mem, size)
  | S f =>
      if i <? size then
        let '(_, mem', size') := replace_escaped mem i size in
        remove_escaped_loop f mem' (i + 1) size'
      else (mem, size)
  end.

(** Result: the bytes and [*size]; the C function always returns
    [UPNP_E_SUCCESS]. *)
Definition remove_escaped_chars (inp : list Z) (size : Z) : Z * list Z * Z :=
  let '(mem, size') := remove_escaped_loop (Z.to_nat size) inp 0 size in
  (UPNP_E_SUCCESS, mem, size').

(** ** Tokens *)

Definition uric_at (inp : list Z) (i max : Z) : bool :=
  is_unreserved (zget inp i) || is_reserved (zget inp i)
  || ((i + 2 <? max) && is_escaped inp i).

Fixpoint parse_uric_loop (fuel : nat) (inp : list Z) (i max : Z) : Z :=
  match fuel with
  | O => i
  | S f =>
      if (i <? max) && uric_at inp i max then parse_uric_loop f inp (i + 1) max else i
  end.

(** [parse_uric (in, max, &out)]: the number of characters, and [*out].  The
    loop can only leave the block of [in] when [max] is larger than it. *)
Definition parse_uric (inp : list Z) (base max : Z) : Z * token :=
  let i := parse_uric_loop (length inp) inp 0 max in
  (i, Token base i).

Definition copy_token (inp : token) (in_base out_base : Z) : token :=
  Token (out_base + (tk_buff inp - in_base)) (tk_size inp).

(** [buff] is the memory the token's pointer points to. *)
Definition token_string_casecmp (buff : list Z) (size : Z) (in2 : list Z) : Z :=
  if negb (size =? strlen in2) then 1 else strncasecmp buff in2 size.
Definition token_string_cmp (buff : list Z) (size : Z) (in2 : list Z) : Z :=
  if negb (size =? strlen in2) then 1 else strncmp buff in2 size.
Definition token_cmp (buff1 : list Z) (size1 : Z) (buff2 : list Z) (size2 : Z) : Z :=
  if negb (size1 =? size2) then 1 else memcmp buff1 buff2 size1.

(** The bytes of a token that points into the block [mem] at [base]. *)
Definition token_text (mem : list Z) (base : Z) (t : token) : list Z :=
  zsub mem (tk_buff t - base) (tk_size t).

(** ** Lists of URLs *)

Record URL_list := UrlList {
  ul_size : Z; ul_URLs : option (list Z); ul_parsedURLs : option (list uri_type) }.

(** [sizeof (uri_type)]: three tokens, two enums, a token and a 128-byte
    [sockaddr_storage]. *)
Definition sizeof_uri_type : Z := 208.

Definition copy_uri (u : uri_type) (in_base out_base : Z) : uri_type :=
  Uri (uri_kind u)
      (copy_token (uri_scheme u) in_base out_base)
      (uri_path_type u)
      (copy_token (uri_pathquery u) in_base out_base)
      (copy_token (uri_fragment u) in_base out_base)
      (Hostport (copy_token (hp_text (uri_hostport u)) in_base out_base)
                (hp_IPaddress (uri_hostport u))).

(** [in_base] and [out_base] are the addresses of the two [URLs] blocks. *)
Definition copy_URL_list `{Malloc} (URLs : list Z) (parsedURLs : list uri_type)
    (in_base out_base : Z) : Z * URL_list :=
  let len := strlen URLs + 1 in
  let size := zlen parsedURLs in
  if negb (alloc_ok len) || negb (alloc_ok (sizeof_uri_type * size)) then
    (UPNP_E_OUTOF_MEMORY,
     UrlList 0 (if alloc_ok len then realloc None len else None)
               (if alloc_ok (sizeof_uri_type * size) then Some [] else None))
  else
    (HTTP_SUCCESS,
     UrlList size (Some (ztake len URLs))
             (Some (map (fun u => copy_uri u in_base out_base) parsedURLs))).

(** [free_URL_list]: the blocks are freed, the pointers stay in the structure. *)
Definition free_URL_list (l : URL_list) : URL_list :=
  UrlList 0 (ul_URLs l) (ul_parsedURLs l).

(** ** Host and port *)

(** The number of leading characters that satisfy a test: the [while] loops
    that advance [c]. *)
Fixpoint span (p : Z -> bool) (l : list Z) : Z :=
  match l with
  | [] => 0
  | c :: l' => if p c then 1 + span p l' else 0
  end.
Definition scan (p : Z -> bool) (l : list Z) (i : Z) : Z := i + span p (zdrop i l).

(** The offset of the last occurrence of a character, from [i] on. *)
Fixpoint last_index (x : Z) (l : list Z) (i : Z) : option Z :=
  match l with
  | [] => None
  | c :: l' =>
      match last_index x l' (i + 1) with
      | Some k => Some k
      | None => if c =? x then Some i else None
      end
  end.

Definition is_host_char (c : Z) : bool :=
  negb (c =? COLON) && negb (c =? SLASH) && (isalnum c || (c =? DOT) || (c =? MINUS)).

Section Parse.
Context `{Resolver}.

(** The loop over the result of [getaddrinfo]: the address copied into
    [out->IPaddress], if any, and whether [res] is [NULL] after the loop. *)
Fixpoint addrinfo_loop (res : list sockaddr) : option sockaddr * bool :=
  match res with
  | [] => (None, true)
  | a :: res' =>
      if (ss_family a =? AF_INET) || (ss_family a =? AF_INET6)
      then (* ret = 1; the loop still advances res before it stops *)
           (Some a, match res' with [] => true | _ :: _ => false end)
      else addrinfo_loop res'
  end.

(** What the first part of [parse_hostport] determines. *)
Record host_scan := HostScan {
  hs_work : list Z;      (* workbuf *)
  hs_c : Z;              (* c - workbuf *)
  hs_srvname : list Z;
  hs_has_port : bool;
  hs_af : Z;
  hs_addr : sockaddr     (* out->IPaddress *)
}.

Definition scan_host (workbuf : list Z) : option host_scan :=
  if zget workbuf 0 =? LBRACKET then
    (* IPv6 addresses are enclosed in square brackets. *)
    let c := scan (fun x => negb (x =? 0) && negb (x =? RBRACKET)) workbuf 1 in
    if zget workbuf c =? 0 then None
    else
      let work := zset workbuf c 0 in
      let c := c + 1 in
      let has_port := zget work c =? COLON in
      Some (HostScan work (if has_port then c + 1 else c) (cstr (zdrop 1 work))
                     has_port AF_INET6 sockaddr0)
  else
    (* IPv4 address -OR- host name. *)
    let c := scan is_host_char workbuf 0 in
    let last_dot := last_index DOT (ztake c workbuf) 0 in
    let has_port := zget workbuf c =? COLON in
    let work := zset workbuf c 0 in
    let srvname := cstr work in
    let c := if has_port then c + 1 else c in
    if match last_dot with Some d => isdigit (zget work (d + 1)) | None => false end
    then Some (HostScan work c srvname has_port AF_INET sockaddr0)
    else
      match getaddrinfo srvname with
      | None => None
      | Some res0 =>
          match addrinfo_loop res0 with
          | (Some a, false) => Some (HostScan work c srvname has_port AF_UNSPEC a)
          | _ => None
          end
      end.

(** [parse_hostport (&in[off], out)]: an error code, or the size and [*out]. *)
Definition parse_hostport (inp : list Z) (off base : Z) : Z + (Z * hostport_type) :=
  let workbuf := strncpy_bytes (zdrop off inp) 255 ++ [0] in
  match scan_host workbuf with
  | None => inl UPNP_E_INVALID_URL
  | Some hs =>
      let srvport := hs_c hs in
      let c := if hs_has_port hs
               then scan (fun x => negb (x =? 0) && isdigit x) (hs_work hs) srvport
               else srvport in
      let port := if hs_has_port hs then u16 (atoi (zdrop srvport (hs_work hs))) else 80 in
      if hs_has_port hs && (port =? 0) then inl UPNP_E_INVALID_URL
      else
        let hostport_size := c in
        let ip :=
          if hs_af hs =? AF_INET then
            a ← inet_pton4 (hs_srvname hs); Some (Sockaddr AF_INET (htons port) a 0)
          else if hs_af hs =? AF_INET6 then
            a ← inet_pton6 (hs_srvname hs); Some (Sockaddr AF_INET6 (htons port) a gIF_INDEX)
          else
            let a := hs_addr hs in
            Some (Sockaddr (ss_family a) (htons port) (ss_addr a) (ss_scope_id a)) in
        match ip with
        | None => inl UPNP_E_INVALID_URL
        | Some ip => inr (hostport_size, Hostport (Token (base + off) hostport_size) ip)
        end
  end.

(** ** Scheme and URI *)

Definition is_scheme_char (c : Z) : bool :=
  isalnum c || (c =? PLUS) || (c =? MINUS) || (c =? DOT).

(** The loop of [parse_scheme]: [None] on a character that is not allowed. *)
Fixpoint parse_scheme_loop (fuel : nat) (inp : list Z) (i max : Z) : option Z :=
  match fuel with
  | O => Some i
  | S f =>
      if (i <? max) && negb (zget inp i =? COLON) then
        if negb (is_scheme_char (zget inp i)) then None
        else parse_scheme_loop f inp (i + 1) max
      else Some i
  end.

Definition parse_scheme (inp : list Z) (base max : Z) : Z * token :=
  if (max =? 0) || negb (isalpha (zget inp 0)) then (0, token0)
  else
    match parse_scheme_loop (length inp) inp 1 max with
    | None => (0, token0)
    | Some i => if i <? max then (i, Token base i) else (0, token0)
    end.

(** The second half of [parse_uri], from [begin_path] on. *)
Definition parse_uri_rest (inp : list Z) (base max : Z) (type : uriType) (path_type : pathType)
    (scheme : token) (begin_path : Z) (hostport : hostport_type) : uri_type :=
  let '(k, pathquery) := parse_uric (zdrop begin_path inp) (base + begin_path)
                                    (u64 (max - begin_path)) in
  let begin_fragment := k + begin_path in
  let path_type :=
    if negb (tk_size pathquery =? 0) && (zget inp begin_path =? SLASH)
    then ABS_PATH else path_type in
  let fragment :=
    if (begin_fragment <? max) && (zget inp begin_fragment =? HASH)
    then (parse_uric (zdrop (begin_fragment + 1) inp) (base + (begin_fragment + 1))
                     (u64 (max - (begin_fragment + 1)))).2
    else token0 in
  Uri type scheme path_type pathquery fragment hostport.

(** An error code, or [*out] when the C function returns [HTTP_SUCCESS];
    [begin_path] is an [int]. *)
Definition parse_uri (inp : list Z) (base max : Z) : Z + uri_type :=
  let '(n, scheme) := parse_scheme inp base max in
  let '(type, path_type, begin_hostport) :=
    if negb (n =? 0) then (ABSOLUTE, OPAQUE_PART, n + 1) else (RELATIVE, REL_PATH, n) in
  if (begin_hostport + 1 <? max) && (zget inp begin_hostport =? SLASH)
     && (zget inp (begin_hostport + 1) =? SLASH)
  then
    match parse_hostport inp (begin_hostport + 2) base with
    | inl e => inl e
    | inr (size, hp) =>
        inr (parse_uri_rest inp base max type path_type scheme
                            (s32 (size + s32 (begin_hostport + 2))) hp)
    end
  else inr (parse_uri_rest inp base max type path_type scheme (s32 begin_hostport) hostport0).

(** The decoding of one token of the block in place: bytes and token. *)
Definition unescape_token (mem : list Z) (base : Z) (t : token) : list Z * token :=
  if 0 <? tk_size t then
    let off := tk_buff t - base in
    let '(_, part, size) := remove_escaped_chars (zdrop off mem) (tk_size t) in
    (ztake off mem ++ part, Token (tk_buff t) size)
  else (mem, t).

Definition parse_uri_and_unescape (inp : list Z) (base max : Z)
  : Z + (list Z * uri_type) :=
  match parse_uri inp base max with
  | inl e => inl e
  | inr u =>
      let '(mem, pq) := unescape_token inp base (uri_pathquery u) in
      let '(mem, fr) := unescape_token mem base (uri_fragment u) in
      inr (mem, Uri (uri_kind u) (uri_scheme u) (uri_path_type u) pq fr (uri_hostport u))
  end.

(** ** Dot segments *)

Record dots := Dots {
  d_mem : list Z; d_copyTo : Z; d_copyFrom : Z; d_Segments : list Z; d_lastSegment : Z }.

(** The tests for a ["."] and a [".."] segment at [copyFrom]. *)
Definition at_dot (mem : list Z) (from : Z) : bool :=
  (zget mem from =? DOT) && ((from =? 0) || (zget mem (from - 1) =? SLASH)).
Definition dot_segment (mem : list Z) (from max : Z) : bool :=
  at_dot mem from && ((from + 1 =? max) || (zget mem (from + 1) =? SLASH)).
Definition dotdot_segment (mem : list Z) (from max : Z) : bool :=
  at_dot mem from && (zget mem (from + 1) =? DOT)
  && ((from + 2 =? max) || (zget mem (from + 2) =? SLASH)).

(** The main loop of [remove_dots]; [false] is the ["../ at ROOT"] error. *)
Fixpoint remove_dots_loop (fuel : nat) (max : Z) (d : dots) : bool * dots :=
  match fuel with
  | O => (true, d)
  | S f =>
      let mem := d_mem d in
      let from := d_copyFrom d in
      let c := zget mem from in
      if (from <? max) && negb (c =? QMARK) && negb (c =? HASH) then
        if dot_segment mem from max then
          remove_dots_loop f max
            (Dots mem (d_copyTo d) (from + 2) (d_Segments d) (d_lastSegment d))
        else if dotdot_segment mem from max then
          if 0 <? d_lastSegment d then
            let last := d_lastSegment d - 1 in
            remove_dots_loop f max
              (Dots mem (zget (d_Segments d) last) (from + 3) (d_Segments d) last)
          else (false, d)
        else
          let '(segs, last) :=
            if c =? SLASH
            then (zset (d_Segments d) (d_lastSegment d + 1) (d_copyTo d + 1), d_lastSegment d + 1)
            else (d_Segments d, d_lastSegment d) in
          remove_dots_loop f max
            (Dots (zset mem (d_copyTo d) c) (d_copyTo d + 1) (from + 1) segs last)
      else (true, d)
  end.

(** The loop that copies the query and the fragment. *)
Fixpoint copy_rest_loop (fuel : nat) (max : Z) (mem : list Z) (to from : Z) : list Z * Z :=
  match fuel with
  | O => (mem, to)
  | S f =>
      if from <? max
      then copy_rest_loop f max (zset mem to (zget mem from)) (to + 1) (from + 1)
      else (mem, to)
  end.

Definition remove_dots `{Malloc} (inp : list Z) (size : Z) : Z * list Z :=
  match realloc None (u64 (8 * size)) with
  | None => (UPNP_E_OUTOF_MEMORY, inp)
  | Some segs =>
      (* one entry per pointer *)
      let Segments := zset (zrep size 0) 0 0 in
      match remove_dots_loop (Z.to_nat size) size (Dots inp 0 0 Segments (-1)) with
      | (false, d) => (UPNP_E_INVALID_URL, d_mem d)
      | (true, d) =>
          let '(mem, to) :=
            copy_rest_loop (Z.to_nat size) size (d_mem d) (d_copyTo d) (d_copyFrom d) in
          (UPNP_E_SUCCESS, zset mem to 0)
      end
  end.

(** ** Relative references *)

(** The bytes up to the first ['?'], copied by the [while] loop, and the offset
    after the last slash among them. *)
Definition base_path (pathquery : list Z) : list Z :=
  ztake (span (fun c => negb (c =? QMARK)) pathquery) pathquery.
Definition after_last_slash (path : list Z) : Z :=
  match last_index SLASH path 0 with Some k => k + 1 | None => 0 end.

(** The block that receives the result, when both URLs are given; [Aborted] is
    a failed [assert] ([assert.h] is included before [config.h] defines
    [NDEBUG]). *)
Inductive resolved := Aborted | Resolved (r : option (list Z)).

(** The branch for a relative reference with a relative path: [finger] is the
    offset of [out_finger]. *)
Definition resolve_path `{Malloc} (out bas rel : list Z) (b : uri_type) (finger : Z) : resolved :=
  let pathquery :=
    if tk_size (uri_pathquery b) =? 0 then [SLASH]
    else token_text bas 1 (uri_pathquery b) in
  if negb (tk_size (uri_scheme b) + 1 + tk_size (hp_text (uri_hostport b)) + 2
           + zlen pathquery <=? strlen bas + 1) then Aborted
  else
    let path := base_path pathquery in
    let out := zwrite out finger path in
    let out := zwrite out (finger + after_last_slash path) (cstr rel) in
    let '(rc, part) := remove_dots (zdrop finger out) (strlen (zdrop finger out)) in
    if negb (rc =? UPNP_E_SUCCESS) then Resolved None
    else Resolved (Some (ztake finger out ++ part)).

(** The branch for a relative reference [r] and an absolute base [b]. *)
Definition resolve_with `{Malloc} (out bas rel : list Z) (b r : uri_type) : resolved :=
  if strlen rel =? 0 then Resolved (Some (zwrite out 0 (cstr bas)))
  else if negb (tk_size (uri_scheme b) + 1 <=? strlen bas) then Aborted
  else
    let scheme := token_text bas 1 (uri_scheme b) ++ [COLON] in
    let out := zwrite out 0 scheme in
    if 0 <? tk_size (hp_text (uri_hostport r)) then
      Resolved (Some (zwrite out (zlen scheme) (cstr rel ++ [0])))
    else
      let host_size := tk_size (hp_text (uri_hostport b)) in
      if (0 <? host_size)
         && negb (tk_size (uri_scheme b) + 1 + host_size + 2 <=? strlen bas) then Aborted
      else
        let host :=
          if 0 <? host_size
          then [SLASH; SLASH] ++ token_text bas 1 (hp_text (uri_hostport b)) else [] in
        let out := zwrite out (zlen scheme) host in
        let finger := zlen scheme + zlen host in
        if decide (uri_path_type r = ABS_PATH)
        then Resolved (Some (zwrite out finger (cstr rel)))
        else resolve_path out bas rel b finger.

Definition resolve_rel_url `{Malloc} (base_url rel_url : option (list Z)) : resolved :=
  match base_url, rel_url with
  | _, None => Resolved None
  | None, Some rel =>
      Resolved (if alloc_ok (strlen rel + 1) then Some (cstr rel ++ [0]) else None)
  | Some bas, Some rel =>
      let n := strlen bas + strlen rel + 2 in
      if negb (alloc_ok n) then Resolved None
      else
        let out := zrep n 0 in
        match parse_uri rel 1 (strlen rel) with
        | inl _ => Resolved None
        | inr r =>
            if decide (uri_kind r = ABSOLUTE) then Resolved (Some (zwrite out 0 (cstr rel)))
            else
              match parse_uri bas 1 (strlen bas) with
              | inl _ => Resolved None
              | inr b =>
                  if decide (uri_kind b = ABSOLUTE) then resolve_with out bas rel b r
                  else Resolved None
              end
        end
  end.
End Parse.

(** ** Percent decoding: the reference *)

Fixpoint unescape (l : list Z) : list Z :=
  match l with
  | [] => []
  | c :: l' =>
      match l' with
      | a :: b :: r =>
          if (c =? PERCENT) && isxdigit a && isxdigit b
          then s8 (sscanf_2x a b) :: unescape r
          else c :: unescape l'
      | _ => c :: unescape l'
      end
  end.

Lemma replace_loop_spec fuel mem j max t :
  0 <= j -> max <= zlen mem -> max - j <= Z.of_nat fuel ->
  let mem' := replace_loop fuel mem (j + 3) j max t in
  zlen mem' = zlen mem /\
  forall k, zget mem' k =
    if decide (j <= k < max) then
      if decide (k = j) then t else if decide (k + 2 < max) then zget mem (k + 2) else 0
    else zget mem k.
Proof.
  revert mem j t. induction fuel as [|f IH]; intros mem j t Hj Hmax Hf; simpl.
  { split; [done|]. intros k. case_decide; [lia|done]. }
  destruct (Z.ltb_spec j max).
  2: { split; [done|]. intros k. case_decide; [lia|done]. }
  replace (j + 3 + 1) with (j + 1 + 3) by lia.
  destruct (IH (zset mem j t) (j + 1) (if j + 3 <? max then zget (zset mem j t) (j + 3) else 0))
    as [Hl Hk]; [lia|by rewrite zlen_zset|lia|].
  split; [by rewrite Hl, zlen_zset|]. intros k. rewrite Hk. clear Hk IH Hl.
  destruct (Z.ltb_spec (j + 3) max); repeat (case_decide; try lia); subst;
    rewrite ?zget_zset_eq, ?zget_zset_ne by lia; try done; f_equal; lia.
Qed.

Lemma unescape_cons c l :
  (forall a b r, l = a :: b :: r -> (c =? PERCENT) && isxdigit a && isxdigit b = false) ->
  unescape (c :: l) = c :: unescape l.
Proof.
  intros H. destruct l as [|a [|b r]]; try done. simpl. by rewrite (H a b r).
Qed.

Lemma zdrop_cons l i : 0 <= i < zlen l -> zdrop i l = zget l i :: zdrop (i + 1) l.
Proof.
  intros Hi. unfold zdrop, zget, zlen in *. destruct (Z.ltb_spec i 0); [lia|].
  replace (Z.to_nat (i + 1)) with (S (Z.to_nat i)) by lia.
  rewrite nth_lookup.
  destruct (l !! Z.to_nat i) as [x|] eqn:E; [by apply drop_S|].
  apply lookup_ge_None in E. lia.
Qed.

Lemma zsub_cons l i n : 0 <= i < zlen l -> 0 < n -> zsub l i n = zget l i :: zsub l (i + 1) (n - 1).
Proof.
  intros Hi Hn. unfold zsub. rewrite zdrop_cons by done. unfold ztake.
  by replace (Z.to_nat n) with (S (Z.to_nat (n - 1))) by lia.
Qed.

Lemma zsub_nil (l : list Z) i n : n <= 0 -> zsub l i n = [].
Proof. intros. unfold zsub. by apply ztake_neg. Qed.

(** No escape sequence straddles the end of the [size] bytes. *)
Definition no_straddle (mem : list Z) (size : Z) : Prop :=
  is_escaped mem (size - 1) = false /\ is_escaped mem (size - 2) = false.

Lemma remove_escaped_loop_spec fuel mem i size :
  0 <= i <= size -> size <= zlen mem -> size - i <= Z.of_nat fuel -> no_straddle mem size ->
  let '(mem', size') := remove_escaped_loop fuel mem i size in
  zlen mem' = zlen mem /\ 0 <= size' <= size
  /\ ztake size' mem' = ztake i mem ++ unescape (zsub mem i (size - i))
  /\ (forall k, size' <= k < size -> zget mem' k = 0)
  /\ (forall k, size <= k -> zget mem' k = zget mem k).
Proof.
  revert mem i size. induction fuel as [|f IH]; intros mem i size Hi Hsz Hf Hs; simpl.
  { replace size with i by lia. rewrite zsub_nil by lia. rewrite app_nil_r.
    split_and!; try done; try lia. }
  destruct (Z.ltb_spec i size).
  2: { replace size with i by lia. rewrite zsub_nil by lia. rewrite app_nil_r.
       split_and!; try done; try lia. }
  unfold replace_escaped. destruct (is_escaped mem i) eqn:E.
  - assert (i + 2 < size) as Hi2.
    { destruct Hs. destruct (decide (i = size - 1)) as [->|]; [congruence|].
      destruct (decide (i = size - 2)) as [->|]; [congruence|lia]. }
    destruct (replace_loop_spec (Z.to_nat (size - i)) mem i size
      (s8 (sscanf_2x (zget mem (i + 1)) (zget mem (i + 2))))) as [Hl Hk]; [lia..|].
    set (mem1 := replace_loop _ _ _ _ _ _) in *.
    assert (Hz : forall k, size - 2 <= k < size -> zget mem1 k = 0)
      by (intros k Hk'; rewrite Hk; repeat (case_decide; try lia)).
    assert (Hs1 : no_straddle mem1 (size - 2)).
    { unfold no_straddle, is_escaped. replace (size - 2 - 1 + 1) with (size - 2) by lia.
      replace (size - 2 - 2 + 2) with (size - 2) by lia. rewrite (Hz (size - 2)) by lia.
      change (isxdigit 0) with false. split; by rewrite ?andb_false_r. }
    specialize (IH mem1 (i + 1) (size - 2) ltac:(lia) ltac:(lia) ltac:(lia) Hs1).
    destruct (remove_escaped_loop f mem1 (i + 1) (size - 2)) as [mem' size'].
    destruct IH as (Hl' & Hs' & Ht & H0 & Hr). split_and!; try lia.
    + rewrite Ht. rewrite (zsub_cons mem i), (zsub_cons mem (i + 1)), (zsub_cons mem (i + 1 + 1))
        by lia.
      unfold is_escaped in E. cbn [unescape]. replace (i + 1 + 1) with (i + 2) by lia.
      rewrite E.
      replace (ztake (i + 1) mem1) with (ztake i mem ++ [s8 (sscanf_2x (zget mem (i + 1)) (zget mem (i + 2)))]).
      2: { apply zget_eq; [zlia|]. intros k. zlen_norm. intros Hk'. rewrite (zget_ztake_lt mem1) by lia.
           rewrite Hk. repeat (case_decide; try lia).
           - subst. rewrite zget_app_r, zlen_ztake_le, zget_cons by zlia. case_decide; [done|lia].
           - by rewrite zget_app_l, zget_ztake_lt by zlia. }
      rewrite <- app_assoc. cbn [app]. do 2 f_equal. f_equal.
      apply zget_eq; [zlia|]. intros k. unfold zsub. zlen_norm. intros Hk'.
      rewrite !zget_ztake_lt, !zget_zdrop_nn by lia. rewrite Hk.
      repeat (case_decide; try lia). f_equal. lia.
    + intros k Hk'. destruct (decide (k < size - 2)); [apply H0; lia|].
      rewrite Hr by lia. apply Hz. lia.
    + intros k Hk'. rewrite Hr by lia. rewrite Hk. case_decide; [lia|done].
  - specialize (IH mem (i + 1) size ltac:(lia) ltac:(lia) ltac:(lia) Hs).
    destruct (remove_escaped_loop f mem (i + 1) size) as [mem' size'].
    destruct IH as (Hl' & Hs' & Ht & H0 & Hr). split_and!; try done; try lia.
    rewrite Ht, (zsub_cons mem i) by lia. rewrite unescape_cons.
    + replace (ztake (i + 1) mem) with (ztake i mem ++ [zget mem i]).
      2: { zext. rewrite zget_cons. case_decide; [f_equal|]; zlia. }
      rewrite <- app_assoc. cbn [app]. do 4 f_equal. lia.
    + intros a b r Hab. unfold is_escaped in E. rewrite <- E.
      assert (Hlr : zlen (zsub mem (i + 1) (size - i - 1)) = 2 + zlen r)
        by (rewrite Hab; zlia).
      unfold zsub in Hlr. rewrite zlen_ztake_le in Hlr by zlia. pose proof (zlen_nonneg r).
      rewrite (zsub_cons mem (i + 1)), (zsub_cons mem (i + 1 + 1)) in Hab by lia.
      injection Hab as <- <- _. by replace (i + 1 + 1) with (i + 2) by lia.
Qed.

(** ** Scanning loops *)

Lemma span_le p l : 0 <= span p l <= zlen l.
Proof. induction l as [|c l IH]; cbn [span]; [zlia|]. case_match; zlia. Qed.

Lemma span_all p l k : 0 <= k < span p l -> p (zget l k) = true.
Proof.
  revert k. induction l as [|c l IH]; cbn [span]; intros k Hk; [lia|].
  destruct (p c) eqn:E; [|lia]. rewrite zget_cons. case_decide; [done|]. case_decide; [lia|]. apply IH. lia.
Qed.

(** A scan whose test rejects the terminator stops there at the latest. *)
Lemma scan_stop p l i b :
  p 0 = false -> 0 <= i <= b -> zget l b = 0 -> i <= scan p l i <= b.
Proof.
  intros Hp Hi Hb. unfold scan. pose proof (span_le p (zdrop i l)).
  split; [lia|]. apply Z.nlt_ge. intros Hc.
  pose proof (span_all p (zdrop i l) (b - i)) as Hs.
  rewrite zget_zdrop_nn in Hs by lia. replace (b - i + i) with b in Hs by lia.
  rewrite Hb, Hp in Hs. specialize (Hs ltac:(lia)). done.
Qed.

Lemma strlen_before l i : 0 <= i <= strlen l -> zget l i <> 0 -> i < strlen l.
Proof.
  intros Hi Hn. destruct (decide (i = strlen l)) as [->|]; [|lia]. by rewrite zget_strlen in Hn.
Qed.

Lemma strlen_zdrop l i : 0 <= i <= strlen l -> strlen (zdrop i l) = strlen l - i.
Proof.
  intros Hi. revert i Hi. induction l as [|c l IH]; intros i Hi.
  { change (strlen []) with 0 in *. replace i with 0 by lia. done. }
  destruct (decide (i = 0)) as [->|Hn]; [rewrite zdrop_neg by lia; lia|].
  unfold strlen in Hi. cbn [cstr] in Hi.
  destruct (Z.eqb_spec c 0) as [->|Hc]; [change (zlen []) with 0 in Hi; lia|].
  rewrite zlen_cons in Hi. fold (strlen l) in Hi.
  replace (strlen (c :: l)) with (1 + strlen l).
  2: { unfold strlen at 2. cbn [cstr]. destruct (Z.eqb_spec c 0); [done|]. by rewrite zlen_cons. }
  unfold zdrop. replace (Z.to_nat i) with (S (Z.to_nat (i - 1))) by lia. cbn [drop].
  fold (zdrop (i - 1) l). rewrite IH by lia. lia.
Qed.

Lemma parse_uric_loop_spec fuel inp i max :
  i <= max -> max - i <= Z.of_nat fuel ->
  let r := parse_uric_loop fuel inp i max in
  i <= r <= max /\ (forall k, i <= k < r -> uric_at inp k max = true)
  /\ (r = max \/ uric_at inp r max = false).
Proof.
  revert i. induction fuel as [|f IH]; intros i Hi Hf; cbn [parse_uric_loop].
  { cbv zeta. split_and!; [lia|lia|intros; lia|left; lia]. }
  destruct (Z.ltb_spec i max); cbn [andb]; cbv zeta.
  2: { split_and!; [lia|lia|intros; lia|left; lia]. }
  destruct (uric_at inp i max) eqn:E; [|split_and!; [lia|lia|intros; lia|by right]].
  destruct (IH (i + 1)) as (Hr & Hk & Hend); [lia..|].
  split_and!; [lia|lia| |done]. intros k Hk'.
  destruct (decide (k = i)) as [->|]; [done|]. apply Hk. lia.
Qed.

Lemma parse_uric_spec inp base max :
  0 <= max <= zlen inp ->
  exists n, parse_uric inp base max = (n, Token base n) /\ 0 <= n <= max
    /\ (forall k, 0 <= k < n -> uric_at inp k max = true)
    /\ (n = max \/ uric_at inp n max = false).
Proof.
  intros Hm. destruct (parse_uric_loop_spec (length inp) inp 0 max) as (H1 & H2 & H3);
    [lia|unfold zlen in Hm; lia|]. eexists. split; [done|]. done.
Qed.

Lemma parse_scheme_loop_spec fuel inp i max r :
  i <= max -> parse_scheme_loop fuel inp i max = Some r ->
  i <= r <= max
  /\ forall k, i <= k < r -> is_scheme_char (zget inp k) = true /\ zget inp k <> COLON.
Proof.
  revert i. induction fuel as [|f IH]; intros i Hi; cbn [parse_scheme_loop].
  { intros [= ->]. split; [lia|]. intros; lia. }
  destruct (Z.ltb_spec i max); cbn [andb].
  2: { intros [= ->]. split; [lia|]. intros; lia. }
  destruct (Z.eqb_spec (zget inp i) COLON); cbn [negb].
  { intros [= ->]. split; [lia|]. intros; lia. }
  destruct (is_scheme_char (zget inp i)) eqn:E; cbn [negb]; [|done].
  intros H1. apply IH in H1 as [H2 H3]; [|lia]. split; [lia|]. intros k Hk.
  destruct (decide (k = i)) as [->|]; [done|]. apply H3. lia.
Qed.

Lemma parse_scheme_spec inp base max :
  0 <= max ->
  let '(n, t) := parse_scheme inp base max in
  (n = 0 /\ t = token0)
  \/ (0 < n < max /\ t = Token base n /\ isalpha (zget inp 0) = true
      /\ forall k, 1 <= k < n -> is_scheme_char (zget inp k) = true /\ zget inp k <> COLON).
Proof.
  intros Hm. unfold parse_scheme.
  destruct (Z.eqb_spec max 0); cbn [orb]; [by left|].
  destruct (isalpha (zget inp 0)) eqn:Ea; cbn [negb]; [|by left].
  destruct (parse_scheme_loop (length inp) inp 1 max) as [i|] eqn:E; [|by left].
  apply parse_scheme_loop_spec in E as [H1 H2]; [|lia].
  destruct (Z.ltb_spec i max); [right|by left]. split_and!; try done; lia.
Qed.

(** The end of the scan is the colon: the loop does not run out of fuel. *)
Lemma parse_scheme_loop_end fuel inp i max r :
  max - i <= Z.of_nat fuel -> parse_scheme_loop fuel inp i max = Some r -> r < max ->
  zget inp r = COLON.
Proof.
  revert i. induction fuel as [|f IH]; intros i Hf; cbn [parse_scheme_loop].
  { intros [= ->]. lia. }
  destruct (Z.ltb_spec i max); cbn [andb]; [|intros [= ->]; lia].
  destruct (Z.eqb_spec (zget inp i) COLON); cbn [negb]; [by intros [= ->]|].
  case_match; [done|]. apply IH. lia.
Qed.

Lemma parse_scheme_colon inp base max :
  0 <= max <= zlen inp -> 0 < (parse_scheme inp base max).1 ->
  zget inp (parse_scheme inp base max).1 = COLON.
Proof.
  intros Hm. unfold parse_scheme. case_match; [done|].
  destruct (parse_scheme_loop _ _ _ _) as [i|] eqn:E; [|done].
  destruct (Z.ltb_spec i max); [|done]. intros _. cbn.
  eapply parse_scheme_loop_end in E; [done| |done]. unfold zlen in Hm. lia.
Qed.

Lemma strlen_workbuf s n : 0 <= n -> strlen (strncpy_bytes s n ++ [0]) <= Z.min (strlen s) n.
Proof.
  intros Hn. apply Z.nlt_ge. intros Hc.
  pose proof (strlen_le (strncpy_bytes s n ++ [0])) as Hl. revert Hl.
  zlen_norm. rewrite zlen_strncpy_bytes by done. intros Hl.
  assert (Hs : strlen s < n \/ n <= strlen s) by lia. destruct Hs as [Hs|Hs].
  - apply (zget_before_strlen (strncpy_bytes s n ++ [0]) (strlen s)).
    { pose proof (strlen_nonneg s). lia. }
    unfold strncpy_bytes, strlen in *. zreads.
  - apply (zget_before_strlen (strncpy_bytes s n ++ [0]) n); [lia|].
    rewrite zget_app_r, zlen_strncpy_bytes by (rewrite ?zlen_strncpy_bytes; lia).
    by replace (n - n) with 0 by lia.
Qed.

Lemma scan_host_bound `{Resolver} wb hs :
  scan_host wb = Some hs ->
  0 <= hs_c hs <= strlen wb /\ zget (hs_work hs) (strlen wb) = 0.
Proof.
  intros Hh. pose proof (strlen_nonneg wb) as Hn. pose proof (zget_strlen wb) as Hz.
  unfold scan_host in Hh.
  destruct (Z.eqb_spec (zget wb 0) LBRACKET) as [Hb|Hb].
  - pose proof (strlen_before wb 0 ltac:(lia) ltac:(rewrite Hb; done)).
    destruct (scan_stop (fun x => negb (x =? 0) && negb (x =? RBRACKET)) wb 1 (strlen wb))
      as [H1 H2]; [done|lia|done|].
    set (c := scan _ wb 1) in *.
    destruct (Z.eqb_spec (zget wb c) 0) as [|Hc]; [done|].
    pose proof (strlen_before wb c ltac:(lia) Hc). simplify_eq/=.
    rewrite !zget_zset_ne by lia.
    split; [|done]. destruct (Z.eqb_spec (zget wb (c + 1)) COLON) as [Hcc|]; [|lia].
    pose proof (strlen_before wb (c + 1) ltac:(lia) ltac:(rewrite Hcc; done)). lia.
  - destruct (scan_stop is_host_char wb 0 (strlen wb)) as [H1 H2]; [done|lia|done|].
    set (c := scan _ wb 0) in *.
    assert (Hp : 0 <= (if zget wb c =? COLON then c + 1 else c) <= strlen wb).
    { destruct (Z.eqb_spec (zget wb c) COLON) as [Hcc|]; [|lia].
      pose proof (strlen_before wb c ltac:(lia) ltac:(rewrite Hcc; done)). lia. }
    assert (Hw : zget (zset wb c 0) (strlen wb) = 0).
    { rewrite zget_zset. case_decide; [done|done]. }
    case_tests; done.
Qed.

Lemma parse_hostport_bound `{Resolver} inp off base n hp :
  0 <= off <= strlen inp -> parse_hostport inp off base = inr (n, hp) ->
  0 <= n <= strlen inp - off /\ hp_text hp = Token (base + off) n.
Proof.
  intros Ho. unfold parse_hostport.
  destruct (scan_host _) as [hs|] eqn:E; [|done].
  apply scan_host_bound in E as [H1 H2].
  pose proof (strlen_workbuf (zdrop off inp) 255 ltac:(lia)) as Hw.
  rewrite strlen_zdrop in Hw by done.
  set (c := if hs_has_port hs then _ else hs_c hs).
  assert (Hc : 0 <= c <= strlen inp - off).
  { unfold c. destruct (hs_has_port hs); [|lia].
    epose proof (scan_stop (fun x => negb (x =? 0) && isdigit x) (hs_work hs) (hs_c hs) _
      eq_refl H1 H2). lia. }
  clearbody c. cbv zeta. intros Hx. case_tests; by split.
Qed.

(** ** The parts of a parsed URI *)

(** A token is empty or lies inside the string at [base]. *)
Definition token_in (inp : list Z) (base : Z) (t : token) : Prop :=
  t = token0 \/ (base <= tk_buff t /\ 0 <= tk_size t
                 /\ tk_buff t - base + tk_size t <= strlen inp).

(** What the parts of a URI are: the scheme is at the start and is followed by a
    colon, the path consists of URI characters, starts with a slash when the path
    type says so, and the fragment follows a hash sign. *)
Record uri_parts (inp : list Z) (base : Z) (u : uri_type) : Prop := {
  up_scheme_in : token_in inp base (uri_scheme u);
  up_path_in : token_in inp base (uri_pathquery u);
  up_fragment_in : token_in inp base (uri_fragment u);
  up_host_in : token_in inp base (hp_text (uri_hostport u));
  up_kind : uri_kind u = ABSOLUTE <-> 0 < tk_size (uri_scheme u);
  up_scheme : uri_kind u = ABSOLUTE ->
    tk_buff (uri_scheme u) = base /\ isalpha (zget inp 0) = true
    /\ (forall k, 1 <= k < tk_size (uri_scheme u) ->
          is_scheme_char (zget inp k) = true /\ zget inp k <> COLON)
    /\ zget inp (tk_size (uri_scheme u)) = COLON;
  up_layout : (if decide (uri_kind u = ABSOLUTE) then tk_size (uri_scheme u) + 1 else 0)
    + (if 0 <? tk_size (hp_text (uri_hostport u))
       then 2 + tk_size (hp_text (uri_hostport u)) else 0)
    <= tk_buff (uri_pathquery u) - base;
  up_path_type : uri_path_type u =
    if (0 <? tk_size (uri_pathquery u))
       && (zget inp (tk_buff (uri_pathquery u) - base) =? SLASH) then ABS_PATH
    else if decide (uri_kind u = ABSOLUTE) then OPAQUE_PART else REL_PATH;
  up_path : forall k, 0 <= k < tk_size (uri_pathquery u) ->
    uric_at inp (tk_buff (uri_pathquery u) - base + k) (strlen inp) = true;
  up_fragment : uri_fragment u <> token0 ->
    tk_buff (uri_fragment u) = tk_buff (uri_pathquery u) + tk_size (uri_pathquery u) + 1
    /\ zget inp (tk_buff (uri_fragment u) - base - 1) = HASH
}.

Lemma uric_at_zdrop inp i k max :
  0 <= i -> 0 <= k -> uric_at (zdrop i inp) k (max - i) = uric_at inp (i + k) max.
Proof.
  intros Hi Hk. unfold uric_at, is_escaped. rewrite !zget_zdrop_nn by lia.
  replace (k + 1 + i) with (i + k + 1) by lia. replace (k + 2 + i) with (i + k + 2) by lia.
  replace (k + i) with (i + k) by lia.
  by replace (k + 2 <? max - i) with (i + k + 2 <? max) by (apply eq_true_iff_eq; lia).
Qed.

(** Path and fragment after the scheme and the authority. *)
Lemma parse_uric_at inp base i max :
  0 <= i <= max -> max <= zlen inp -> max < 2 ^ 64 ->
  exists n, parse_uric (zdrop i inp) (base + i) (u64 (max - i)) = (n, Token (base + i) n)
    /\ 0 <= n <= max - i
    /\ forall k, 0 <= k < n -> uric_at inp (i + k) max = true.
Proof.
  intros Hi Hm Hw. rewrite u64_small by lia.
  destruct (parse_uric_spec (zdrop i inp) (base + i) (max - i)) as (n & Hn & Hr & Hk & _);
    [zlia|]. exists n. split_and!; try done; try lia.
  intros k Hk'. rewrite <- uric_at_zdrop by lia. by apply Hk.
Qed.

Lemma parse_uri_rest_parts inp base max type path_type scheme i hp :
  max = strlen inp -> max < 2 ^ 64 -> 0 <= i <= max ->
  path_type = (if decide (type = ABSOLUTE) then OPAQUE_PART else REL_PATH) ->
  token_in inp base scheme -> token_in inp base (hp_text hp) ->
  (type = ABSOLUTE <-> 0 < tk_size scheme) ->
  (type = ABSOLUTE ->
    tk_buff scheme = base /\ isalpha (zget inp 0) = true
    /\ (forall k, 1 <= k < tk_size scheme ->
          is_scheme_char (zget inp k) = true /\ zget inp k <> COLON)
    /\ zget inp (tk_size scheme) = COLON) ->
  (if decide (type = ABSOLUTE) then tk_size scheme + 1 else 0)
    + (if 0 <? tk_size (hp_text hp) then 2 + tk_size (hp_text hp) else 0) <= i ->
  uri_parts inp base (parse_uri_rest inp base max type path_type scheme i hp).
Proof.
  intros Hmax Hw Hi Hpt Hs Hh Hty Hsc Hlay. pose proof (strlen_le inp).
  unfold parse_uri_rest.
  destruct (parse_uric_at inp base i max) as (n & -> & Hn & Hk); [lia..|]. cbv zeta.
  cbn [tk_size].
  assert (Hfr : exists fr, (if (n + i <? max) && (zget inp (n + i) =? HASH)
      then (parse_uric (zdrop (n + i + 1) inp) (base + (n + i + 1)) (u64 (max - (n + i + 1)))).2
      else token0) = fr /\ (fr = token0 \/ exists m, fr = Token (base + (n + i + 1)) m
         /\ 0 <= m <= max - (n + i + 1) /\ zget inp (n + i) = HASH)).
  { eexists. split; [done|]. destruct (Z.ltb_spec (n + i) max); [|by left].
    destruct (Z.eqb_spec (zget inp (n + i)) HASH); [right|by left].
    destruct (parse_uric_at inp base (n + i + 1) max) as (m & -> & Hm & _); [lia..|].
    by exists m. }
  destruct Hfr as (fr & -> & Hfr).
  split; cbn [uri_scheme uri_pathquery uri_fragment uri_hostport uri_kind uri_path_type
              tk_size tk_buff]; try done; try lia.
  - right. cbn. lia.
  - destruct Hfr as [->|(m & -> & Hm & _)]; [by left|right; cbn; lia].
  - replace (base + i - base) with i by lia. rewrite Hpt.
    replace (negb (n =? 0)) with (0 <? n) by (apply eq_true_iff_eq; rewrite negb_true_iff; lia).
    done.
  - intros k Hk'. replace (base + i - base + k) with (i + k) by lia. rewrite <- Hmax. by apply Hk.
  - intros Hne. destruct Hfr as [->|(m & -> & Hm & Hz)]; [done|]. cbn. split; [lia|].
    by replace (base + (n + i + 1) - base - 1) with (n + i) by lia.
Qed.

Lemma parse_uri_spec `{Resolver} inp base :
  strlen inp < 2 ^ 31 ->
  match parse_uri inp base (strlen inp) with
  | inr u => uri_parts inp base u
  | inl e =>
      e = UPNP_E_INVALID_URL
      /\ exists k, 0 <= k < strlen inp - 1 /\ (k = 0 \/ zget inp (k - 1) = COLON)
           /\ zget inp k = SLASH /\ zget inp (k + 1) = SLASH
  end.
Proof.
  intros Hw. pose proof (strlen_nonneg inp) as H0. pose proof (strlen_le inp) as Hl.
  unfold parse_uri. pose proof (parse_scheme_spec inp base (strlen inp) H0) as Hs.
  pose proof (parse_scheme_colon inp base (strlen inp) ltac:(lia)) as Hc.
  destruct (parse_scheme inp base (strlen inp)) as [n t]. cbn [fst] in Hc.
  set (x := if negb (n =? 0) then _ else _).
  assert (Hx : exists ty pt bh, x = (ty, pt, bh)
    /\ pt = (if decide (ty = ABSOLUTE) then OPAQUE_PART else REL_PATH)
    /\ 0 <= bh <= strlen inp /\ (bh = 0 \/ zget inp (bh - 1) = COLON)
    /\ bh = (if decide (ty = ABSOLUTE) then tk_size t + 1 else 0)
    /\ token_in inp base t /\ (ty = ABSOLUTE <-> 0 < tk_size t)
    /\ (ty = ABSOLUTE -> tk_buff t = base /\ isalpha (zget inp 0) = true
        /\ (forall k, 1 <= k < tk_size t ->
              is_scheme_char (zget inp k) = true /\ zget inp k <> COLON)
        /\ zget inp (tk_size t) = COLON)).
  { unfold x. destruct Hs as [[-> ->]|(Hn & -> & Ha & Hk)].
    - exists RELATIVE, REL_PATH, 0. split_and!; try done; try lia; by left.
    - destruct (Z.eqb_spec n 0); [lia|]. exists ABSOLUTE, OPAQUE_PART, (n + 1).
      replace (n + 1 - 1) with n by lia. cbn [tk_size tk_buff].
      split_and!; try done; try lia; [right; cbn; lia|by split; intros; [lia|]|].
      intros _. split_and!; try done. apply Hc. lia. }
  destruct Hx as (ty & pt & bh & -> & Hpt & Hb & Hbc & Hbh & Ht & Hty & Hsc).
  destruct (Z.ltb_spec (bh + 1) (strlen inp)); cbn [andb];
    [|rewrite s32_small by lia; apply parse_uri_rest_parts; first [done|lia|by left|cbn; lia]].
  destruct (Z.eqb_spec (zget inp bh) SLASH); cbn [andb];
    [|rewrite s32_small by lia; apply parse_uri_rest_parts; first [done|lia|by left|cbn; lia]].
  destruct (Z.eqb_spec (zget inp (bh + 1)) SLASH); cbn [andb];
    [|rewrite s32_small by lia; apply parse_uri_rest_parts; first [done|lia|by left|cbn; lia]].
  destruct (parse_hostport inp (bh + 2) base) as [err|[n' hp]] eqn:E.
  - split; [|by exists bh; split_and!; try lia].
    revert E. unfold parse_hostport. cbv zeta. intros E. case_tests.
  - apply parse_hostport_bound in E as [Hn' Hhp]; [|lia].
    rewrite !s32_small by (rewrite ?s32_small; lia).
    apply parse_uri_rest_parts; rewrite ?Hhp; cbn [tk_size];
      try first [done|lia|right; cbn; lia].
    rewrite <- Hbh. destruct (0 <? n'); lia.
Qed.


(** An instance of the resolver: literal addresses only. *)
Definition resolver_literal : Resolver :=
  {| getaddrinfo := fun _ => None;
     inet_pton4 := fun s => if prefixb (zs "10.0.0.7") s then Some [10; 0; 0; 7] else None;
     inet_pton6 := fun _ => None;
     gIF_INDEX := 0 |}.


(** C39. [remove_escaped_chars] decodes in place: when no escape sequence
    straddles the end of the [size] bytes, the first [*size] bytes become the
    percent-decoded text, the bytes up to the old size become zero and nothing
    behind them changes. *)
Theorem remove_escaped_chars_decodes mem size :
  0 <= size <= zlen mem -> no_straddle mem size ->
  let '(rc, mem', size') := remove_escaped_chars mem size in
  rc = UPNP_E_SUCCESS /\ zlen mem' = zlen mem /\ 0 <= size' <= size
  /\ ztake size' mem' = unescape (ztake size mem)
  /\ (forall k, size' <= k < size -> zget mem' k = 0)
  /\ zdrop size mem' = zdrop size mem.
Proof.
  intros Hs Hn. unfold remove_escaped_chars.
  pose proof (remove_escaped_loop_spec (Z.to_nat size) mem 0 size ltac:(lia) ltac:(lia)
    ltac:(lia) Hn) as H.
  destruct (remove_escaped_loop _ _ _ _) as [mem' size']. destruct H as (Hl & Hr & Ht & Hz & Hk).
  unfold zsub in Ht. rewrite (ztake_neg 0 mem), (zdrop_neg 0 mem), Z.sub_0_r in Ht by lia.
  split_and!; try done; try lia.
  apply zget_eq; [zlia|]. intros k Hk'. rewrite !zget_zdrop_nn by lia. apply Hk. lia.
Qed.

Lemma remove_escaped_chars_decodes_witness :
  let '(rc, mem', size') := remove_escaped_chars (zs "a%20b%zz/%41;%2") 13 in
  rc = UPNP_E_SUCCESS /\ zlen mem' = zlen (zs "a%20b%zz/%41;%2") /\ 0 <= size' <= 13
  /\ ztake size' mem' = unescape (ztake 13 (zs "a%20b%zz/%41;%2"))
  /\ (forall k, size' <= k < 13 -> zget mem' k = 0)
  /\ zdrop 13 mem' = zdrop 13 (zs "a%20b%zz/%41;%2").
Proof.
  apply (remove_escaped_chars_decodes (zs "a%20b%zz/%41;%2") 13);
    [vm_compute; intuition congruence|split; reflexivity].
Defined.

(** ** Dot-segment removal on segments *)

(** The segments of a path, those that end in a slash first, and their text. *)
Fixpoint split_slash (l : list Z) : list (list Z) :=
  match l with
  | [] => [[]]
  | c :: l' =>
      match split_slash l' with
      | s :: r => if c =? SLASH then [] :: s :: r else (c :: s) :: r
      | [] => [[c]]
      end
  end.
Fixpoint join_slash (segs : list (list Z)) : list Z :=
  match segs with
  | [] => []
  | [s] => s
  | s :: r => s ++ SLASH :: join_slash r
  end.
Fixpoint joins (stk : list (list Z)) : list Z :=
  match stk with
  | [] => []
  | s :: r => s ++ SLASH :: joins r
  end.

(** The normal form of a path given as segments: [stk] holds the finished
    segments, ["."] is dropped, [".."] drops the last finished segment and needs
    two of them, the root being the first.  A final dot segment counts only when
    the path is not followed by a query or a fragment ([last]). *)
Fixpoint dots_norm (stk segs : list (list Z)) (last : bool) : option (list Z) :=
  match segs with
  | [] => Some (joins stk)
  | s :: r =>
      let term := match r with [] => last | _ :: _ => true end in
      if term && bool_decide (s = [DOT]) then dots_norm stk r last
      else if term && bool_decide (s = [DOT; DOT]) then
        if (2 <=? length stk)%nat then dots_norm (removelast stk) r last else None
      else
        match r with
        | [] => Some (joins stk ++ s)
        | _ :: _ => dots_norm (stk ++ [s]) r last
        end
  end.

Definition is_tail (c : Z) : bool := (c =? QMARK) || (c =? HASH).

(** The normal form of a path with its query and fragment. *)
Definition dots_spec (l : list Z) : option (list Z) :=
  let h := span (fun c => negb (is_tail c)) l in
  out ← dots_norm [] (split_slash (ztake h l)) (h =? zlen l);
  Some (out ++ zdrop h l).

Lemma split_join l : join_slash (split_slash l) = l /\ split_slash l <> [].
Proof.
  induction l as [|c l [IH Hne]]; [done|]. cbn [split_slash].
  destruct (split_slash l) as [|s r]; [done|].
  destruct (Z.eqb_spec c SLASH) as [->|]; split; try done.
  - cbn. by rewrite <- IH.
  - rewrite <- IH. by destruct r.
Qed.

Lemma split_noslash l s : s ∈ split_slash l -> SLASH ∉ s /\ s ⊆ l.
Proof.
  revert s. induction l as [|c l IH]; intros s Hs; cbn [split_slash] in Hs.
  { apply list_elem_of_singleton in Hs as ->. split; [apply not_elem_of_nil|done]. }
  destruct (split_join l) as [_ Hne]. destruct (split_slash l) as [|s0 r]; [done|].
  destruct (Z.eqb_spec c SLASH).
  - apply elem_of_cons in Hs as [->|Hs]; [split; [apply not_elem_of_nil|set_solver]|].
    destruct (IH s Hs). split; [done|set_solver].
  - apply elem_of_cons in Hs as [->|Hs].
    + destruct (IH s0 ltac:(set_solver)). split; [|set_solver].
      rewrite elem_of_cons. by intros [?|?].
    + destruct (IH s ltac:(set_solver)). split; [done|set_solver].
Qed.

Lemma joins_app a b : joins (a ++ b) = joins a ++ joins b.
Proof. induction a as [|s a IH]; [done|]. cbn. by rewrite IH, <- app_assoc. Qed.

Lemma joins_len stk : Z.of_nat (length stk) <= zlen (joins stk).
Proof. induction stk as [|s stk IH]; cbn [joins length]; zlia. Qed.

Section RemoveDots.
Context (inp : list Z) (size h : Z).
Context (Hsize : 0 <= h <= size) (Hinp : size <= zlen inp).
Context (Hhead : forall k, 0 <= k < h -> is_tail (zget inp k) = false).
Context (Htail : h = size \/ is_tail (zget inp h) = true).

(** The state of the loop at [from], with the output [joins stk ++ cur]. *)
Record dots_inv (d : dots) (from : Z) (stk : list (list Z)) (cur : list Z) : Prop := {
  di_from : d_copyFrom d = from;
  di_to : d_copyTo d = zlen (joins stk ++ cur);
  di_le : 0 <= d_copyTo d <= Z.min from h;
  di_h : from <= h \/ (h = size /\ from = h + 1);
  di_len : zlen (d_mem d) = zlen inp;
  di_out : ztake (d_copyTo d) (d_mem d) = joins stk ++ cur;
  di_in : forall k, from - 1 <= k -> zget (d_mem d) k = zget inp k;
  di_last : d_lastSegment d = Z.of_nat (length stk) - 1;
  di_nsegs : zlen (d_Segments d) = size;
  di_segs : forall k, (k < length stk)%nat ->
    zget (d_Segments d) (Z.of_nat k) = zlen (joins (take (S k) stk))
}.

Lemma dot_segment_in d from stk cur :
  dots_inv d from stk cur -> 0 <= from ->
  dot_segment (d_mem d) from size = dot_segment inp from size
  /\ dotdot_segment (d_mem d) from size = dotdot_segment inp from size.
Proof.
  intros Hd Hf. unfold dot_segment, dotdot_segment, at_dot.
  by rewrite !(di_in _ _ _ _ Hd) by lia.
Qed.

Lemma ztake_zset_snoc l i c : 0 <= i < zlen l -> ztake (i + 1) (zset l i c) = ztake i l ++ [c].
Proof.
  intros Hi. zext. rewrite zget_cons. case_decide; [done|zlia].
Qed.

(** One step on a character that is copied. *)
Lemma dots_copy_step f d from stk cur :
  dots_inv d from stk cur -> from < h ->
  dot_segment inp from size = false -> dotdot_segment inp from size = false ->
  exists d', remove_dots_loop (S f) size d = remove_dots_loop f size d'
    /\ if zget inp from =? SLASH then dots_inv d' (from + 1) (stk ++ [cur]) []
       else dots_inv d' (from + 1) stk (cur ++ [zget inp from]).
Proof.
  intros Hd Hf Hdot Hdd. pose proof (di_le _ _ _ _ Hd). pose proof (Hhead from ltac:(lia)) as Ht.
  destruct (dot_segment_in _ _ _ _ Hd ltac:(lia)) as [E1 E2].
  pose proof (di_in _ _ _ _ Hd from ltac:(lia)) as Hc.
  unfold is_tail in Ht. apply orb_false_iff in Ht as [Ht1 Ht2].
  pose proof (di_nsegs _ _ _ _ Hd). pose proof (joins_len stk).
  pose proof (di_to _ _ _ _ Hd) as Hto. rewrite zlen_app in Hto. pose proof (zlen_nonneg cur).
  cbn [remove_dots_loop]. rewrite (di_from _ _ _ _ Hd), Hc, Ht1, Ht2, E1, E2, Hdot, Hdd.
  destruct (Z.ltb_spec from size); [|lia]. cbn [andb negb].
  pose proof (di_len _ _ _ _ Hd) as Hlen. pose proof (di_out _ _ _ _ Hd) as Hout.
  pose proof (di_last _ _ _ _ Hd) as Hlast.
  assert (Hin : forall k, from <= k ->
    zget (zset (d_mem d) (d_copyTo d) (zget inp from)) k = zget inp k).
  { intros k Hk. rewrite zget_zset. case_decide; [f_equal; lia|].
    apply (di_in _ _ _ _ Hd). lia. }
  destruct (Z.eqb_spec (zget inp from) SLASH) as [Hs|Hs]; eexists; (split; [reflexivity|]).
  - rewrite Hs in *. split; cbn [d_copyFrom d_copyTo d_mem d_lastSegment d_Segments]; try lia.
    + rewrite app_nil_r, joins_app. cbn [joins]. zlia.
    + by rewrite zlen_zset.
    + rewrite ztake_zset_snoc, Hout, app_nil_r, joins_app by lia. cbn [joins].
      by rewrite <- app_assoc.
    + intros k Hk. apply Hin. lia.
    + rewrite length_app. cbn [length]. lia.
    + by rewrite zlen_zset.
    + intros k Hk. rewrite length_app in Hk. cbn [length] in Hk.
      destruct (decide (k = length stk)) as [->|].
      * rewrite Hlast. replace (Z.of_nat (length stk) - 1 + 1) with (Z.of_nat (length stk)) by lia.
        rewrite zget_zset_eq by lia. rewrite take_ge by (rewrite length_app; cbn; lia).
        rewrite joins_app. cbn [joins]. zlia.
      * rewrite zget_zset_ne by lia. rewrite (di_segs _ _ _ _ Hd) by lia.
        by rewrite take_app_le by lia.
  - split; cbn [d_copyFrom d_copyTo d_mem d_lastSegment d_Segments]; try lia; try done.
    + zlia.
    + by rewrite zlen_zset.
    + rewrite ztake_zset_snoc, Hout by lia. by rewrite <- app_assoc.
    + intros k Hk. apply Hin. lia.
    + apply (di_segs _ _ _ _ Hd).
Qed.

Definition at_text (from : Z) (l : list Z) : Prop :=
  forall k, 0 <= k < zlen l -> zget inp (from + k) = zget l k.

Lemma at_text_cons from c l :
  at_text from (c :: l) -> zget inp from = c /\ at_text (from + 1) l.
Proof.
  intros H. pose proof (zlen_nonneg l). split.
  - specialize (H 0). rewrite Z.add_0_r in H. rewrite H by zlia.
    by rewrite zget_cons.
  - intros k Hk. replace (from + 1 + k) with (from + (k + 1)) by lia. rewrite H by zlia.
    rewrite zget_cons. repeat (case_decide; try lia). f_equal. lia.
Qed.

Lemma at_text_app from a b :
  at_text from (a ++ b) -> at_text from a /\ at_text (from + zlen a) b.
Proof.
  intros H. split; intros k Hk.
  - rewrite H by zlia. by rewrite zget_app_l by lia.
  - replace (from + zlen a + k) with (from + (zlen a + k)) by lia. rewrite H by zlia.
    rewrite zget_app_r by zlia. f_equal. lia.
Qed.

(** Copying the characters of a segment after the first. *)
Lemma dots_run s : forall f d from stk cur,
  dots_inv d from stk cur -> at_text from s -> from + zlen s <= h -> SLASH ∉ s ->
  0 < from -> zget inp (from - 1) <> SLASH ->
  exists d', remove_dots_loop (length s + f) size d = remove_dots_loop f size d'
    /\ dots_inv d' (from + zlen s) stk (cur ++ s).
Proof.
  induction s as [|c s IH]; intros f d from stk cur Hd Ht Hl Hs H0 Hp.
  { exists d. rewrite app_nil_r, zlen_nil, Z.add_0_r. done. }
  apply at_text_cons in Ht as [Hc Ht]. rewrite zlen_cons in Hl. pose proof (zlen_nonneg s).
  apply not_elem_of_cons in Hs as [Hcs Hs].
  assert (Hat : at_dot inp from = false).
  { unfold at_dot. rewrite (proj2 (Z.eqb_neq from 0)), (proj2 (Z.eqb_neq _ _) Hp) by lia.
    apply andb_false_r. }
  destruct (dots_copy_step (length s + f) d from stk cur Hd) as (d1 & E1 & Hd1);
    [lia|unfold dot_segment; by rewrite Hat|unfold dotdot_segment; by rewrite Hat|].
  rewrite Hc, (proj2 (Z.eqb_neq c SLASH)) in Hd1 by congruence.
  destruct (IH f d1 (from + 1) stk (cur ++ [c])) as (d2 & E2 & Hd2); try done; try lia.
  { replace (from + 1 - 1) with from by lia. congruence. }
  exists d2. cbn [length Nat.add]. rewrite E1, E2. split; [done|].
  rewrite zlen_cons, Z.add_assoc. by rewrite <- app_assoc in Hd2.
Qed.

Definition seg_start (from : Z) : Prop := from = 0 \/ zget inp (from - 1) = SLASH.

(** What ends a segment: a slash, or the end of the head. *)
Definition seg_end (e : Z) (term : bool) : Prop :=
  if decide (e = h) then term = bool_decide (h = size) else e < h /\ zget inp e = SLASH /\ term = true.

Lemma seg_end_test e term :
  seg_end e term -> (e =? size) || (zget inp e =? SLASH) = term.
Proof.
  unfold seg_end. case_decide as Hd.
  - subst e. intros ->. case_bool_decide as Hh; [by rewrite (proj2 (Z.eqb_eq h size) Hh)|].
    rewrite (proj2 (Z.eqb_neq h size) Hh). destruct Htail as [?|Ht]; [done|].
    destruct (Z.eqb_spec (zget inp h) SLASH) as [E|]; [|done]. by rewrite E in Ht.
  - intros (H1 & -> & ->). by rewrite orb_true_r.
Qed.

Lemma seg_end_false e : seg_end e false -> (zget inp e =? DOT) = false.
Proof.
  unfold seg_end. case_decide as Hd; [subst e|by intros (? & ? & ?)].
  intros Hh. symmetry in Hh. apply bool_decide_eq_false in Hh. destruct Htail as [?|Ht]; [done|].
  destruct (Z.eqb_spec (zget inp h) DOT) as [E|]; [|done]. by rewrite E in Ht.
Qed.

(** The tests of the loop at the start of a segment. *)
Lemma seg_tests from s term :
  seg_start from -> 0 <= from -> at_text from s -> from + zlen s <= h -> SLASH ∉ s -> s <> [] ->
  seg_end (from + zlen s) term ->
  dot_segment inp from size = term && bool_decide (s = [DOT])
  /\ (dot_segment inp from size = false ->
      dotdot_segment inp from size = term && bool_decide (s = [DOT; DOT])).
Proof.
  intros Hst H0 Ht Hl Hs Hne He. pose proof (seg_end_test _ _ He) as Het.
  assert (Hat : at_dot inp from = (zget inp from =? DOT)).
  { unfold at_dot. destruct Hst as [-> | ->]; cbn; by rewrite ?orb_true_r, andb_true_r. }
  unfold dot_segment, dotdot_segment. rewrite Hat.
  destruct s as [|c1 [|c2 r]]; [done| |]; apply at_text_cons in Ht as [-> Ht].
  - change (zlen [c1]) with 1 in *. rewrite Het.
    rewrite (bool_decide_eq_false_2 ([c1] = [DOT; DOT])), (andb_false_r term) by done.
    destruct (Z.eqb_spec c1 DOT) as [->|Hc]; cbn [andb].
    + rewrite (bool_decide_eq_true_2 ([DOT] = [DOT])), andb_true_r by done.
      split; [done|]. intros ->. by rewrite (seg_end_false _ He).
    + rewrite bool_decide_eq_false_2 by congruence. by rewrite andb_false_r.
  - apply not_elem_of_cons in Hs as [Hs1 Hs]. apply not_elem_of_cons in Hs as [Hs2 Hs].
    apply at_text_cons in Ht as [Hc2 Ht]. rewrite Hc2.
    assert (from + 1 < size) as H1 by (revert Hl; zlen_norm; pose proof (zlen_nonneg r); lia).
    rewrite (proj2 (Z.eqb_neq (from + 1) size)), (proj2 (Z.eqb_neq c2 SLASH)) by (congruence || lia).
    rewrite (bool_decide_eq_false_2 ([c1; c2] ++ r = [DOT])), !andb_false_r by done.
    split; [done|]. intros _. destruct r as [|c3 r].
    + replace (from + zlen [c1; c2]) with (from + 2) in Het by done. rewrite Het, andb_comm.
      f_equal. apply eq_true_iff_eq. rewrite andb_true_iff, bool_decide_eq_true, !Z.eqb_eq.
      split; [by intros [-> ->]|by intros [= -> ->]].
    + rewrite (bool_decide_eq_false_2 (_ = [DOT; DOT])) by done.
      apply not_elem_of_cons in Hs as [Hs3 _]. apply at_text_cons in Ht as [Hc3 _].
      replace (from + 1 + 1) with (from + 2) in Hc3 by lia.
      rewrite Hc3, (proj2 (Z.eqb_neq c3 SLASH)), (proj2 (Z.eqb_neq (from + 2) size)).
      * by rewrite !andb_false_r.
      * revert Hl; zlen_norm; pose proof (zlen_nonneg r); lia.
      * congruence.
Qed.

(** A whole segment that is copied. *)
Lemma dots_seg_copy s term f d from stk :
  dots_inv d from stk [] -> seg_start from -> at_text from s -> from + zlen s <= h ->
  SLASH ∉ s -> seg_end (from + zlen s) term ->
  term && bool_decide (s = [DOT]) = false -> term && bool_decide (s = [DOT; DOT]) = false ->
  exists d', remove_dots_loop (length s + f) size d = remove_dots_loop f size d'
    /\ dots_inv d' (from + zlen s) stk s.
Proof.
  intros Hd Hst Ht Hl Hs He N1 N2. pose proof (di_le _ _ _ _ Hd).
  destruct s as [|c s]; [exists d; by rewrite zlen_nil, Z.add_0_r|].
  destruct (seg_tests from (c :: s) term) as [T1 T2]; try done; [lia|].
  rewrite N1 in T1. specialize (T2 T1). rewrite N2 in T2.
  apply at_text_cons in Ht as [Hc Ht]. apply not_elem_of_cons in Hs as [Hcs Hs].
  rewrite zlen_cons in Hl. pose proof (zlen_nonneg s).
  destruct (dots_copy_step (length s + f) d from stk [] Hd) as (d1 & E1 & Hd1);
    [lia|done|done|].
  rewrite Hc, (proj2 (Z.eqb_neq c SLASH)) in Hd1 by congruence.
  destruct (dots_run s f d1 (from + 1) stk [c]) as (d2 & E2 & Hd2); try done; try lia.
  { replace (from + 1 - 1) with from by lia. congruence. }
  exists d2. cbn [length Nat.add]. rewrite E1, E2. split; [done|].
  rewrite zlen_cons, Z.add_assoc. done.
Qed.

(** The loop stops at the end of the head. *)
Lemma dots_stop f d from stk cur :
  dots_inv d from stk cur -> h <= from -> remove_dots_loop f size d = (true, d).
Proof.
  intros Hd Hf. destruct f as [|f]; [done|]. cbn [remove_dots_loop].
  pose proof (di_h _ _ _ _ Hd). pose proof (di_le _ _ _ _ Hd).
  rewrite (di_from _ _ _ _ Hd). destruct (Z.ltb_spec from size); [|done].
  assert (from = h) as -> by lia. rewrite (di_in _ _ _ _ Hd) by lia.
  destruct Htail as [?|Ht]; [lia|]. unfold is_tail in Ht.
  apply orb_true_iff in Ht as [-> | ->]; cbn; by rewrite ?andb_false_r.
Qed.

(** The two dot segments. *)
Lemma dots_skip f d from stk :
  dots_inv d from stk [] -> from < h -> from + 2 <= h \/ (h = size /\ from + 1 = h) ->
  dot_segment inp from size = true ->
  exists d', remove_dots_loop (S f) size d = remove_dots_loop f size d'
    /\ dots_inv d' (from + 2) stk [].
Proof.
  intros Hd Hf Hend Hdot. pose proof (di_le _ _ _ _ Hd).
  destruct (dot_segment_in _ _ _ _ Hd ltac:(lia)) as [E1 E2].
  pose proof (Hhead from ltac:(lia)) as Ht. unfold is_tail in Ht.
  apply orb_false_iff in Ht as [Ht1 Ht2].
  cbn [remove_dots_loop]. rewrite (di_from _ _ _ _ Hd), (di_in _ _ _ _ Hd from) by lia.
  rewrite Ht1, Ht2, E1, Hdot. destruct (Z.ltb_spec from size); [|lia]. cbn [andb negb].
  eexists. split; [reflexivity|]. destruct Hd.
  split; cbn [d_copyFrom d_copyTo d_mem d_lastSegment d_Segments]; try done; try lia.
  intros k Hk. apply di_in0. lia.
Qed.

Lemma dots_pop f d from stk :
  dots_inv d from stk [] -> from < h -> from + 3 <= h \/ (h = size /\ from + 2 = h) ->
  dot_segment inp from size = false -> dotdot_segment inp from size = true ->
  if (2 <=? length stk)%nat then
    exists d', remove_dots_loop (S f) size d = remove_dots_loop f size d'
      /\ dots_inv d' (from + 3) (removelast stk) []
  else (remove_dots_loop (S f) size d).1 = false.
Proof.
  intros Hd Hf Hend Hdot Hdd. pose proof (di_le _ _ _ _ Hd).
  destruct (dot_segment_in _ _ _ _ Hd ltac:(lia)) as [E1 E2].
  pose proof (Hhead from ltac:(lia)) as Ht. unfold is_tail in Ht.
  apply orb_false_iff in Ht as [Ht1 Ht2].
  cbn [remove_dots_loop]. rewrite (di_from _ _ _ _ Hd), (di_in _ _ _ _ Hd from) by lia.
  rewrite Ht1, Ht2, E1, E2, Hdot, Hdd, (di_last _ _ _ _ Hd).
  destruct (Z.ltb_spec from size); [|lia]. cbn [andb negb].
  destruct (Nat.leb_spec 2 (length stk)); destruct (Z.ltb_spec 0 (Z.of_nat (length stk) - 1));
    try lia; [|done].
  eexists. split; [reflexivity|]. destruct Hd. rewrite app_nil_r in *.
  destruct (exists_last (l := stk)) as (stk' & s & ->); [by destruct stk|].
  rewrite removelast_last. rewrite length_app in *. cbn [length] in *.
  specialize (di_segs0 (length stk' - 1)%nat ltac:(lia)) as Hseg.
  replace (S (length stk' - 1)) with (length stk') in Hseg by lia.
  rewrite take_app_length in Hseg.
  replace (Z.of_nat (length stk' + 1) - 1 - 1) with (Z.of_nat (length stk' - 1)) by lia.
  pose proof (zlen_nonneg (joins stk')). rewrite joins_app, zlen_app in di_to0.
  pose proof (zlen_nonneg (joins [s])).
  split; cbn [d_copyFrom d_copyTo d_mem d_lastSegment d_Segments]; try done; try lia.
  - by rewrite app_nil_r.
  - rewrite Hseg, app_nil_r. rewrite joins_app in di_out0.
    rewrite <- (ztake_app_exact (joins stk') (joins [s])), <- di_out0.
    zext.
  - intros k Hk. apply di_in0. lia.
  - intros k Hk. rewrite di_segs0 by lia. by rewrite take_app_le by lia.
Qed.

(** What the loop leaves when it ends. *)
Definition dots_done (f : nat) (d : dots) (out : option (list Z)) : Prop :=
  match out with
  | None => (remove_dots_loop f size d).1 = false
  | Some o => exists d' from stk cur, remove_dots_loop f size d = (true, d')
      /\ h <= from /\ dots_inv d' from stk cur /\ o = joins stk ++ cur
  end.

Lemma dots_done_step f g d d' out :
  remove_dots_loop f size d = remove_dots_loop g size d' -> dots_done g d' out ->
  dots_done f d out.
Proof. unfold dots_done. by intros ->. Qed.

(** The segment at [from], its end and what follows. *)
Lemma seg_end_of from s r :
  at_text from (join_slash (s :: r)) -> from + zlen (join_slash (s :: r)) = h ->
  SLASH ∉ s ->
  at_text from s /\ from + zlen s <= h
  /\ seg_end (from + zlen s) (match r with [] => bool_decide (h = size) | _ :: _ => true end)
  /\ (r = [] -> from + zlen s = h)
  /\ (r <> [] -> from + zlen s + 1 <= h /\ zget inp (from + zlen s) = SLASH
      /\ at_text (from + zlen s + 1) (join_slash r)
      /\ from + zlen s + 1 + zlen (join_slash r) = h).
Proof.
  unfold seg_end. destruct r as [|s2 r]; intros Ht Hl Hs.
  { change (join_slash [s]) with s in *. rewrite decide_True by done.
    split_and!; done || lia. }
  change (at_text from (s ++ [SLASH] ++ join_slash (s2 :: r))) in Ht.
  apply at_text_app in Ht as [H1 H2]. apply at_text_cons in H2 as [H2 H3].
  change (from + zlen (s ++ SLASH :: join_slash (s2 :: r)) = h) in Hl.
  rewrite zlen_app, zlen_cons in Hl. pose proof (zlen_nonneg (join_slash (s2 :: r))).
  rewrite decide_False by lia. split_and!; try done; try lia. intros _. split_and!; done || lia.
Qed.

Lemma dots_segs segs : forall f d from stk,
  segs <> [] -> dots_inv d from stk [] -> seg_start from -> at_text from (join_slash segs) ->
  from + zlen (join_slash segs) = h -> Forall (fun s => SLASH ∉ s) segs ->
  size - from <= Z.of_nat f ->
  dots_done f d (dots_norm stk segs (bool_decide (h = size))).
Proof.
  induction segs as [|s r IH]; intros f d from stk Hne Hd Hst Ht Hl Hall Hf; [done|].
  apply Forall_cons in Hall as [Hs Hall].
  pose proof (di_le _ _ _ _ Hd).
  destruct (seg_end_of from s r Ht Hl Hs) as (Hts & Hls & Hse & Hr0 & Hr1).
  cbn [dots_norm]. set (term := match r with [] => _ | _ => _ end) in *.
  assert (Hend : forall n, term = true -> zlen s = n ->
    from + n + 1 <= h \/ (h = size /\ from + n = h)).
  { intros n Htm Hn. unfold term in Htm. destruct r; [right|left].
    - apply bool_decide_eq_true in Htm. specialize (Hr0 eq_refl). lia.
    - destruct Hr1; [done|]. lia. }
  assert (Hnext : forall f' d' stk' n, zlen s = n -> term = true ->
    dots_inv d' (from + n + 1) stk' [] -> size - (from + n + 1) <= Z.of_nat f' ->
    dots_done f' d' (dots_norm stk' r (bool_decide (h = size)))).
  { intros f' d' stk' n Hn Htm Hd' Hf'. destruct r as [|s2 r].
    - cbn [dots_norm]. specialize (Hr0 eq_refl). exists d', (from + n + 1), stk', [].
      rewrite app_nil_r. split_and!; try done; [|lia]. eapply dots_stop; [done|lia].
    - destruct Hr1 as (Q1 & Q2 & Q3 & Q4); [done|]. rewrite Hn in *.
      eapply IH; try done. right. by replace (from + n + 1 - 1) with (from + n) by lia. }
  destruct (term && bool_decide (s = [DOT])) eqn:B1;
    [|destruct (term && bool_decide (s = [DOT; DOT])) eqn:B2].
  - apply andb_true_iff in B1 as [Htm B1]. apply bool_decide_eq_true in B1.
    destruct (seg_tests from s term) as [T1 _]; try done; [lia|by subst s|].
    assert (zlen s = 1) as Hz by (by rewrite B1). destruct f as [|f]; [lia|].
    destruct (dots_skip f d from stk Hd) as (d1 & E1 & Hd1);
      [lia|specialize (Hend 1 Htm Hz); lia|by rewrite T1, Htm, B1|].
    eapply dots_done_step; [exact E1|]. apply (Hnext f d1 stk 1); try done; [|lia].
    by replace (from + 1 + 1) with (from + 2) by lia.
  - apply andb_true_iff in B2 as [Htm B2]. apply bool_decide_eq_true in B2.
    destruct (seg_tests from s term) as [T1 T2]; try done; [lia|by subst s|].
    rewrite T1, B1 in T2. specialize (T2 eq_refl).
    assert (zlen s = 2) as Hz by (by rewrite B2). destruct f as [|f]; [lia|].
    specialize (Hend 2 Htm Hz).
    pose proof (dots_pop f d from stk Hd ltac:(lia) ltac:(lia)) as P.
    rewrite T1, B1, T2, Htm, B2 in P. specialize (P eq_refl eq_refl).
    destruct (2 <=? length stk)%nat; [|done].
    destruct P as (d1 & E1 & Hd1). eapply dots_done_step; [exact E1|].
    apply (Hnext f d1 (removelast stk) 2); try done; [|lia].
    by replace (from + 2 + 1) with (from + 3) by lia.
  - assert (Hlen : Z.of_nat (length s) <= size - from) by (unfold zlen in Hls; lia).
    destruct (dots_seg_copy s term (f - length s) d from stk) as (d1 & E1 & Hd1); try done.
    replace (length s + (f - length s))%nat with f in E1 by lia.
    eapply dots_done_step; [exact E1|]. destruct r as [|s2 r].
    + exists d1, (from + zlen s), stk, s. specialize (Hr0 eq_refl).
      split_and!; try done; [|lia]. eapply dots_stop; [done|lia].
    + destruct Hr1 as (Q1 & Q2 & Q3 & Q4); [done|].
      destruct (f - length s)%nat as [|f'] eqn:Ef; [unfold zlen in Q1; lia|].
      assert (Hat : at_dot inp (from + zlen s) = false) by (unfold at_dot; by rewrite Q2).
      destruct (dots_copy_step f' d1 (from + zlen s) stk s Hd1) as (d2 & E2 & Hd2);
        [lia|unfold dot_segment; by rewrite Hat|unfold dotdot_segment; by rewrite Hat|].
      rewrite Q2 in Hd2. cbn in Hd2.
      eapply dots_done_step; [exact E2|]. eapply IH; try done; [|unfold zlen; lia].
      right. by replace (from + zlen s + 1 - 1) with (from + zlen s) by lia.
Qed.
End RemoveDots.

Lemma span_end p l : span p l = zlen l \/ p (zget l (span p l)) = false.
Proof.
  induction l as [|c l IH]; cbn [span]; [by left|].
  destruct (p c) eqn:E; [|by right]. pose proof (span_le p l). rewrite zlen_cons, zget_cons.
  repeat (case_decide; try lia). replace (1 + span p l - 1) with (span p l) by lia.
  destruct IH; [left; lia|by right].
Qed.

Lemma copy_rest_spec fuel max mem to from :
  0 <= to <= from -> max <= zlen mem -> max - from <= Z.of_nat fuel ->
  let '(mem', to') := copy_rest_loop fuel max mem to from in
  to' = to + Z.max 0 (max - from) /\ zlen mem' = zlen mem
  /\ ztake to' mem' = ztake to mem ++ zsub mem from (max - from)
  /\ forall k, to' <= k -> zget mem' k = zget mem k.
Proof.
  revert mem to from. induction fuel as [|f IH]; intros mem to from Ht Hm Hf;
    cbn [copy_rest_loop].
  { rewrite zsub_nil, app_nil_r by lia. replace (to + _) with to by lia. done. }
  destruct (Z.ltb_spec from max).
  2: { rewrite zsub_nil, app_nil_r by lia. replace (to + _) with to by lia. done. }
  specialize (IH (zset mem to (zget mem from)) (to + 1) (from + 1) ltac:(lia) ltac:(zlia)
    ltac:(lia)).
  destruct (copy_rest_loop _ _ _ _ _) as [mem' to']. destruct IH as (E1 & E2 & E3 & E4).
  split_and!; [lia|by rewrite E2, zlen_zset| |].
  - rewrite E3, ztake_zset_snoc, (zsub_cons mem from), <- app_assoc by lia. cbn [app].
    do 2 f_equal. unfold zsub. replace (max - (from + 1)) with (max - from - 1) by lia.
    f_equal. apply zget_eq; [zlia|]. zlen_norm. intros k Hk. rewrite !zget_zdrop_nn by lia.
    by rewrite zget_zset_ne by lia.
  - intros k Hk. rewrite E4 by lia. by rewrite zget_zset_ne by lia.
Qed.

(** The head of the text: up to the first query or fragment mark. *)
Lemma head_spec inp size :
  0 <= size <= zlen inp ->
  let h := span (fun c => negb (is_tail c)) (ztake size inp) in
  0 <= h <= size /\ (forall k, 0 <= k < h -> is_tail (zget inp k) = false)
  /\ (h = size \/ is_tail (zget inp h) = true) /\ ztake h (ztake size inp) = ztake h inp.
Proof.
  intros Hs h. pose proof (span_le (fun c => negb (is_tail c)) (ztake size inp)) as Hl.
  fold h in Hl. rewrite zlen_ztake_le in Hl by lia. split_and!; [lia|lia| | |].
  - intros k Hk. pose proof (span_all (fun c => negb (is_tail c)) (ztake size inp) k Hk) as Ha.
    cbn in Ha. rewrite zget_ztake_lt in Ha by lia. by apply negb_true_iff in Ha.
  - destruct (span_end (fun c => negb (is_tail c)) (ztake size inp)) as [He|He]; fold h in He.
    + left. rewrite zlen_ztake_le in He by lia. done.
    + destruct (decide (h = size)); [by left|right]. rewrite zget_ztake_lt in He by lia.
      by apply negb_false_iff in He.
  - zext.
Qed.

Lemma dots_inv_start inp size h :
  0 <= h <= size -> size <= zlen inp ->
  dots_inv inp size h (Dots inp 0 0 (zset (zrep size 0) 0 0) (-1)) 0 [] [].
Proof.
  intros Hh Hs.
  split; cbn [d_copyFrom d_copyTo d_mem d_lastSegment d_Segments length]; try done; try lia.
  zlia.
Qed.

(** The main loop on the whole text. *)
Lemma dots_loop_start inp size h :
  1 <= size <= zlen inp -> 0 <= h <= size ->
  (forall k, 0 <= k < h -> is_tail (zget inp k) = false) ->
  h = size \/ is_tail (zget inp h) = true ->
  dots_done inp size h (Z.to_nat size) (Dots inp 0 0 (zset (zrep size 0) 0 0) (-1))
    (dots_norm [] (split_slash (ztake h inp)) (h =? size)).
Proof.
  intros Hs Hh Hk Ht. destruct (split_join (ztake h inp)) as [Hj Hne].
  replace (h =? size) with (bool_decide (h = size))
    by (apply eq_true_iff_eq; rewrite bool_decide_eq_true; lia).
  eapply (dots_segs inp size h Hh); try done; [lia|apply dots_inv_start; lia|by left| | | |lia].
  - rewrite Hj. intros i. zlen_norm. intros Hi. by rewrite zget_ztake_lt by lia.
  - rewrite Hj. zlia.
  - apply list.Forall_forall. intros s Hsp. by apply split_noslash in Hsp as [? _].
Qed.

Lemma remove_dots_spec `{Malloc} inp size :
  1 <= size < zlen inp -> size < 2 ^ 61 -> alloc_ok (8 * size) = true ->
  match dots_spec (ztake size inp) with
  | None => (remove_dots inp size).1 = UPNP_E_INVALID_URL
  | Some out => exists mem, remove_dots inp size = (UPNP_E_SUCCESS, mem)
      /\ zlen mem = zlen inp /\ ztake (zlen out + 1) mem = out ++ [0]
      /\ zdrop (size + 1) mem = zdrop (size + 1) inp
  end.
Proof.
  intros Hs H61 Ha. unfold remove_dots, realloc. rewrite u64_small, Ha by lia.
  unfold dots_spec. rewrite zlen_ztake_le by lia.
  destruct (head_spec inp size ltac:(lia)) as (Hh & Hk & Ht & ->).
  set (h := span _ _) in *.
  pose proof (dots_loop_start inp size h ltac:(lia) Hh Hk Ht) as D.
  destruct (dots_norm [] (split_slash (ztake h inp)) (h =? size)) as [o|]; cbn [mbind option_bind].
  2: { cbn in D. by destruct (remove_dots_loop _ _ _) as [[] ?]. }
  destruct D as (d & from & stk & cur & -> & Hf & Hd & ->).
  pose proof (di_le _ _ _ _ _ _ _ Hd). pose proof (di_len _ _ _ _ _ _ _ Hd) as Hlen.
  pose proof (di_h _ _ _ _ _ _ _ Hd) as Hfh.
  pose proof (copy_rest_spec (Z.to_nat size) size (d_mem d) (d_copyTo d) (d_copyFrom d)) as C.
  rewrite (di_from _ _ _ _ _ _ _ Hd) in C |- *.
  specialize (C ltac:(lia) ltac:(lia) ltac:(lia)).
  destruct (copy_rest_loop _ _ _ _ _) as [mem to]. destruct C as (C1 & C2 & C3 & C4).
  rewrite (di_out _ _ _ _ _ _ _ Hd) in C3.
  assert (Htail : zsub (d_mem d) from (size - from) = zdrop h (ztake size inp)).
  { apply zget_eq; [zlia|]. unfold zsub. intros k. rewrite zlen_ztake, zlen_zdrop. intros Hk'.
    rewrite zget_ztake_lt, !zget_zdrop_nn by lia.
    rewrite (di_in _ _ _ _ _ _ _ Hd) by lia. rewrite zget_ztake_lt by lia. f_equal. lia. }
  rewrite Htail in C3. rewrite <- C3.
  assert (Hto : 0 <= to <= size) by lia.
  eexists. split; [reflexivity|]. rewrite zlen_ztake_le by lia. split_and!.
  - rewrite zlen_zset. lia.
  - apply ztake_zset_snoc. lia.
  - apply zget_eq; [zlia|]. intros k Hk'. rewrite !zget_zdrop_nn by lia.
    rewrite zget_zset_ne, C4 by lia. apply (di_in _ _ _ _ _ _ _ Hd). lia.
Qed.

(** C31. [remove_dots] computes the normal form of the path: it drops every ["."]
    segment, lets every [".."] segment drop the segment before it, keeps query and
    fragment, ends the result with a NUL in place and leaves the memory behind
    the path alone; it reports [UPNP_E_INVALID_URL] exactly when a [".."] has no
    segment to drop. *)
Theorem remove_dots_normal `{Malloc} inp size :
  1 <= size < zlen inp -> size < 2 ^ 61 -> alloc_ok (8 * size) = true ->
  match dots_spec (ztake size inp) with
  | None => (remove_dots inp size).1 = UPNP_E_INVALID_URL
  | Some out => exists mem, remove_dots inp size = (UPNP_E_SUCCESS, mem)
      /\ zlen mem = zlen inp /\ ztake (zlen out + 1) mem = out ++ [0]
      /\ zdrop (size + 1) mem = zdrop (size + 1) inp
  end.
Proof. apply remove_dots_spec. Qed.

(** ** The block of a resolved reference *)

Lemma remove_dots_loop_len f size d :
  zlen (d_mem (remove_dots_loop f size d).2) = zlen (d_mem d).
Proof.
  revert d. induction f as [|f IH]; intros d; [done|]. cbn [remove_dots_loop].
  repeat case_match; cbn [snd]; rewrite ?IH; cbn [d_mem]; rewrite ?zlen_zset; done.
Qed.

Lemma copy_rest_len f max mem to from : zlen (copy_rest_loop f max mem to from).1 = zlen mem.
Proof.
  revert mem to from. induction f as [|f IH]; intros mem to from; [done|].
  cbn [copy_rest_loop]. case_match; [|done]. by rewrite IH, zlen_zset.
Qed.

Lemma remove_dots_len `{Malloc} inp size : zlen (remove_dots inp size).2 = zlen inp.
Proof.
  unfold remove_dots. destruct (realloc _ _); [|done].
  pose proof (remove_dots_loop_len (Z.to_nat size) size
    (Dots inp 0 0 (zset (zrep size 0) 0 0) (-1))) as Hl.
  destruct (remove_dots_loop _ _ _) as [[] d]; cbn [snd d_mem] in *; [|done].
  pose proof (copy_rest_len (Z.to_nat size) size (d_mem d) (d_copyTo d) (d_copyFrom d)) as Hc.
  destruct (copy_rest_loop _ _ _ _ _) as [mem to]. cbn [fst snd] in *.
  rewrite zlen_zset. lia.
Qed.

Lemma last_index_bound x l i k : last_index x l i = Some k -> i <= k < i + zlen l.
Proof.
  revert i. induction l as [|c l IH]; intros i; cbn [last_index]; [done|].
  rewrite zlen_cons. pose proof (zlen_nonneg l).
  destruct (last_index x l (i + 1)) as [k'|] eqn:E.
  - intros [= ->]. apply IH in E. lia.
  - case_match; [|done]. intros [= ->]. lia.
Qed.

Lemma after_last_slash_bound path : 0 <= after_last_slash path <= zlen path.
Proof.
  unfold after_last_slash. pose proof (zlen_nonneg path).
  destruct (last_index SLASH path 0) as [k|] eqn:E; [|lia]. apply last_index_bound in E. lia.
Qed.

Lemma base_path_len p : zlen (base_path p) <= zlen p.
Proof. unfold base_path. rewrite zlen_ztake. pose proof (zlen_nonneg p). lia. Qed.

Lemma token_text_len bas base t :
  token_in bas base t -> 0 < tk_size t -> zlen (token_text bas base t) = tk_size t.
Proof.
  intros [->|Ht] Hz; [done|]. unfold token_text, zsub. pose proof (strlen_le bas).
  rewrite zlen_ztake, zlen_zdrop. lia.
Qed.

(** The sizes of the parts of an absolute base. *)
Lemma uri_sizes bas b :
  uri_parts bas 1 b -> uri_kind b = ABSOLUTE ->
  let s := tk_size (uri_scheme b) in
  let h := tk_size (hp_text (uri_hostport b)) in
  let p := tk_size (uri_pathquery b) in
  0 < s /\ 0 <= h /\ 0 <= p
  /\ (h = 0 -> s + 1 + p <= strlen bas) /\ (0 < h -> s + 1 + 2 + h + p <= strlen bas)
  /\ zlen (token_text bas 1 (uri_scheme b)) = s.
Proof.
  intros Hp Hk s h p. pose proof (up_kind _ _ _ Hp) as [Hs _]. specialize (Hs Hk).
  pose proof (up_layout _ _ _ Hp) as Hl. rewrite Hk in Hl. cbn [decide] in Hl.
  pose proof (token_text_len bas 1 _ (up_scheme_in _ _ _ Hp) Hs) as Hst.
  rewrite decide_True in Hl by done. fold s h in Hl.
  destruct (up_path_in _ _ _ Hp) as [E|E].
  { exfalso. rewrite E in Hl. cbn in Hl. fold s in Hs. destruct (Z.ltb_spec 0 h); lia. }
  assert (0 <= h) by (unfold h; destruct (up_host_in _ _ _ Hp) as [->|?]; cbn; lia).
  fold p in E. destruct (Z.ltb_spec 0 h); split_and!; try done; lia.
Qed.

Lemma resolve_path_block `{Malloc} out bas rel b finger :
  uri_parts bas 1 b -> uri_kind b = ABSOLUTE ->
  zlen out = strlen bas + strlen rel + 2 ->
  finger = tk_size (uri_scheme b) + 1
    + (if 0 <? tk_size (hp_text (uri_hostport b))
       then 2 + tk_size (hp_text (uri_hostport b)) else 0) ->
  match resolve_path out bas rel b finger with
  | Aborted => tk_size (hp_text (uri_hostport b)) = 0
  | Resolved (Some o) => zlen o = strlen bas + strlen rel + 2
  | Resolved None => True
  end.
Proof.
  intros Hp Hk Ho Hf. destruct (uri_sizes bas b Hp Hk) as (S1 & S2 & S3 & S4 & S5 & _).
  unfold resolve_path. set (pq := if tk_size (uri_pathquery b) =? 0 then _ else _).
  assert (Hpq : zlen pq = Z.max 1 (tk_size (uri_pathquery b))).
  { unfold pq. destruct (Z.eqb_spec (tk_size (uri_pathquery b)) 0); [zlia|].
    rewrite token_text_len by (apply Hp || lia). lia. }
  destruct (Z.leb_spec (tk_size (uri_scheme b) + 1 + tk_size (hp_text (uri_hostport b)) + 2
           + zlen pq) (strlen bas + 1)) as [Ha|Ha]; cbn [negb]; [|lia].
  pose proof (base_path_len pq). pose proof (after_last_slash_bound (base_path pq)).
  assert (Hfb : 0 <= finger /\ finger + zlen pq <= strlen bas + 1)
    by (destruct (Z.ltb_spec 0 (tk_size (hp_text (uri_hostport b)))); lia).
  pose proof (strlen_nonneg rel) as Hr.
  set (out1 := zwrite out finger (base_path pq)).
  assert (L1 : zlen out1 = zlen out) by (apply zlen_zwrite; lia).
  set (out2 := zwrite out1 _ _).
  assert (L2 : zlen out2 = zlen out1) by (apply zlen_zwrite; fold (strlen rel); lia).
  pose proof (remove_dots_len (zdrop finger out2) (strlen (zdrop finger out2))) as Hd.
  destruct (remove_dots _ _) as [rc part]. cbn [snd] in Hd.
  destruct (rc =? UPNP_E_SUCCESS); cbn [negb]; [|done]. rewrite zlen_app, Hd, zlen_ztake, zlen_zdrop. lia.
Qed.

Lemma resolve_with_block `{Malloc} out bas rel b r :
  uri_parts bas 1 b -> uri_kind b = ABSOLUTE ->
  zlen out = strlen bas + strlen rel + 2 ->
  match resolve_with out bas rel b r with
  | Aborted => tk_size (hp_text (uri_hostport b)) = 0
  | Resolved (Some o) => zlen o = strlen bas + strlen rel + 2
  | Resolved None => True
  end.
Proof.
  intros Hp Hk Hout. pose proof (strlen_nonneg bas). pose proof (strlen_nonneg rel).
  destruct (uri_sizes bas b Hp Hk) as (S1 & S2 & S3 & S4 & S5 & S6).
  unfold resolve_with. destruct (strlen rel =? 0). { rewrite zlen_zwrite; fold (strlen bas); lia. }
  destruct (Z.leb_spec (tk_size (uri_scheme b) + 1) (strlen bas)); cbn [negb]; [|lia].
  set (scheme := token_text bas 1 (uri_scheme b) ++ [COLON]).
  assert (Hs : zlen scheme = tk_size (uri_scheme b) + 1) by (unfold scheme; zlia).
  assert (L1 : zlen (zwrite out 0 scheme) = zlen out) by (apply zlen_zwrite; lia).
  destruct (0 <? tk_size (hp_text (uri_hostport r))).
  { rewrite zlen_zwrite; revert L1; zlen_norm; fold (strlen rel); lia. }
  set (h := tk_size (hp_text (uri_hostport b))) in *.
  destruct (_ && _) eqn:Ha.
  { apply andb_true_iff in Ha as [? Ha]. apply negb_true_iff in Ha. lia. }
  set (host := if 0 <? h then _ else _).
  assert (Hh : zlen host = if 0 <? h then 2 + h else 0).
  { unfold host. destruct (Z.ltb_spec 0 h); [|done].
    rewrite zlen_app, token_text_len by (apply Hp || done). done. }
  assert (L2 : zlen (zwrite (zwrite out 0 scheme) (zlen scheme) host) = zlen out).
  { rewrite zlen_zwrite; [done|lia|]. rewrite L1, Hh. destruct (Z.ltb_spec 0 h); lia. }
  case_decide.
  { rewrite zlen_zwrite; [lia|destruct (0 <? h); lia|fold (strlen rel); rewrite L2, Hh].
    destruct (Z.ltb_spec 0 h); lia. }
  pose proof (resolve_path_block (zwrite (zwrite out 0 scheme) (zlen scheme) host) bas rel b
    (zlen scheme + zlen host) Hp Hk ltac:(lia) ltac:(fold h; lia)) as R.
  exact R.
Qed.


(** A name with two addresses, so that the loop over them leaves a rest. *)
Definition resolver_two : Resolver :=
  {| getaddrinfo := fun _ => Some [Sockaddr AF_INET 0 [10; 0; 0; 7] 0;
                                   Sockaddr AF_INET 0 [10; 0; 0; 8] 0];
     inet_pton4 := fun _ => Some [10; 0; 0; 7];
     inet_pton6 := fun _ => None;
     gIF_INDEX := 0 |}.

Lemma remove_dots_normal_witness :
  exists mem, remove_dots (H0 := malloc_always) (zs "/a/./b/../c/x..?q/../y" ++ [0; 7]) 22
                = (UPNP_E_SUCCESS, mem)
    /\ zlen mem = 24 /\ ztake 16 mem = zs "/a/c/x..?q/../y" ++ [0]
    /\ zdrop 23 mem = [7].
Proof.
  pose proof (remove_dots_normal (H := malloc_always)
    (zs "/a/./b/../c/x..?q/../y" ++ [0; 7]) 22
    ltac:(vm_compute; intuition congruence) ltac:(reflexivity) eq_refl) as H.
  vm_compute in H |- *. destruct H as (mem & H1 & H2 & H3 & H4).
  exists mem. injection H1 as <-. repeat split.
Defined.


(** ** Where the code departs from what it means to do *)

(** The loop over the addresses of a host name moves on before it stops: a host
    with a single address is an invalid URL. *)
Example single_address_host :
  parse_hostport (H := {| getaddrinfo := fun _ => Some [Sockaddr AF_INET 0 [10; 0; 0; 7] 0];
                          inet_pton4 := fun _ => None; inet_pton6 := fun _ => None;
                          gIF_INDEX := 0 |}) (zs "host/") 0 1 = inl UPNP_E_INVALID_URL.
Proof. vm_compute. reflexivity. Qed.

(** The last segment of the base is overwritten but not cut. *)
Example resolve_stale_tail :
  match resolve_rel_url (H := resolver_two) (H0 := malloc_always)
          (Some (zs "http://h/a/bcdef")) (Some (zs "x")) with
  | Resolved (Some out) => cstr out = zs "http://h/a/xcdef"
  | _ => False
  end.
Proof. vm_compute. reflexivity. Qed.

(** The assertion counts the two slashes of an authority that is not there. *)
Example resolve_aborts :
  resolve_rel_url (H := resolver_two) (H0 := malloc_always)
    (Some (zs "x:y")) (Some (zs "z")) = Aborted.
Proof. vm_compute. reflexivity. Qed.

(** The authority is read up to the end of the string, not up to [max]: behind
    it the remaining size wraps around and the path runs past [max]. *)
Example parse_uri_past_max :
  match parse_uri (H := resolver_two) (zs "//10.0.0.7:80/a HTTP") 1 5 with
  | inr u => uri_pathquery u = Token 14 2
  | inl _ => False
  end.
Proof. vm_compute. reflexivity. Qed.

(** The terminator is a reserved character. *)
Example nul_is_reserved : is_reserved 0 = true /\ is_mark 0 = true.
Proof. split; reflexivity. Qed.
