(* ===== verification/Tables.v ===== *)
(** * Tables and fixed-size copies

    [upnp/src/genlib/util/strintmap.c] (binary search of a name, linear search of
    a number), [upnp/src/genlib/net/http/statcodes.c] (the texts of the HTTP
    status codes, decoded from one string per class on first use) and
    [upnp/src/genlib/util/util.c] (copies into buffers of a fixed size). *)

From S2P Require Import Prelude CLib Membuffer.
#[local] Open Scope Z_scope.

Module StrIntMap.

Record str_int_entry := Entry { name : list Z; id : Z }.

#[export] Instance entry_inhabited : Inhabited str_int_entry := populate (Entry [] 0).

(** [table[i]] *)
Definition entry (table : list str_int_entry) (i : Z) : str_int_entry :=
  table !!! Z.to_nat i.

Definition entry_cmp (nm : list Z) (name_len : Z) (table : list str_int_entry)
    (case_sensitive : bool) (i : Z) : Z :=
  if case_sensitive then memptr_cmp nm name_len (name (entry table i))
  else memptr_cmp_nocase nm name_len (name (entry table i)).

(** The [while] loop; [fuel] bounds its rounds. *)
Fixpoint search_loop (fuel : nat) (cmp : Z -> Z) (top bot : Z) : Z :=
  match fuel with
  | O => -1
  | S f =>
      if top <=? bot then
        let mid := (top + bot) / 2 in
        if 0 <? cmp mid then search_loop f cmp (mid + 1) bot
        else if cmp mid <? 0 then search_loop f cmp top (mid - 1)
        else mid
      else -1
  end.

Definition map_str_to_int (nm : list Z) (name_len : Z) (table : list str_int_entry)
    (num_entries : Z) (case_sensitive : bool) : Z :=
  search_loop (Z.to_nat num_entries) (entry_cmp nm name_len table case_sensitive)
              0 (num_entries - 1).

Fixpoint id_loop (fuel : nat) (i0 : Z) (table : list str_int_entry) (num_entries i : Z) : Z :=
  match fuel with
  | O => -1
  | S f =>
      if i <? num_entries then
        if id (entry table i) =? i0 then i else id_loop f i0 table num_entries (i + 1)
      else -1
  end.

Definition map_int_to_str (i0 : Z) (table : list str_int_entry) (num_entries : Z) : Z :=
  id_loop (Z.to_nat num_entries) i0 table num_entries 0.

End StrIntMap.

Module StatCodes.

Definition NUM_1XX_CODES : Z := 2.
Definition NUM_2XX_CODES : Z := 7.
Definition NUM_3XX_CODES : Z := 8.
Definition NUM_4XX_CODES : Z := 18.
Definition NUM_5XX_CODES : Z := 6.

(** The texts of a literal, each with its terminator. *)
Definition texts (l : list string) : list Z := flat_map (fun s => zs s ++ [0]) l.

Definition Http1xxStr : list Z := texts ["Continue"; "Switching Protocols"]%string.
Definition Http2xxStr : list Z :=
  texts ["OK"; "Created"; "Accepted"; "Non-Authoratative Information"; "No Content";
         "Reset Content"; "Partial Content"]%string.
Definition Http3xxStr : list Z :=
  texts ["Multiple Choices"; "Moved Permanently"; "Found"; "See Other"; "Not Modified";
         "Use Proxy"; ""; "Temporary Redirect"]%string.
Definition Http4xxStr : list Z :=
  texts ["Bad Request"; "Unauthorized"; "Payment Required"; "Forbidden"; "Not Found";
         "Method Not Allowed"; "Not Acceptable"; "Proxy Authentication Required";
         "Request Timeout"; "Conflict"; "Gone"; "Length Required"; "Precondition Failed";
         "Request Entity Too Large"; "Request-URI Too Long"; "Unsupported Media Type";
         "Requested Range Not Satisfiable"; "Expectation Failed"]%string.
Definition Http5xxStr : list Z :=
  texts ["Internal Server Error"; "Not Implemented"; "Bad Gateway"; "Service Unavailable";
         "Gateway Timeout"; "HTTP Version Not Supported"]%string.

(** The tables hold pointers into the strings: offsets. *)
Record tables := Tables {
  Http1xxCodes : list Z; Http2xxCodes : list Z; Http3xxCodes : list Z;
  Http4xxCodes : list Z; Http5xxCodes : list Z; gInitialized : bool }.

Definition tables0 : tables :=
  Tables (zrep NUM_1XX_CODES 0) (zrep NUM_2XX_CODES 0) (zrep NUM_3XX_CODES 0)
         (zrep NUM_4XX_CODES 0) (zrep NUM_5XX_CODES 0) false.

(** The loop of [init_table] from entry [i] on. *)
Fixpoint init_table_loop (fuel : nat) (encoded_str table : list Z) (i s : Z) : list Z :=
  match fuel with
  | O => table
  | S f =>
      init_table_loop f encoded_str (zset table i s) (i + 1)
                      (s + (strlen (zdrop s encoded_str) + 1))
  end.

Definition init_table (encoded_str table : list Z) (tbl_size : Z) : list Z :=
  init_table_loop (Z.to_nat tbl_size) encoded_str table 0 0.

Definition init_tables (t : tables) : tables :=
  Tables (init_table Http1xxStr (Http1xxCodes t) NUM_1XX_CODES)
         (init_table Http2xxStr (Http2xxCodes t) NUM_2XX_CODES)
         (init_table Http3xxStr (Http3xxCodes t) NUM_3XX_CODES)
         (init_table Http4xxStr (Http4xxCodes t) NUM_4XX_CODES)
         (init_table Http5xxStr (Http5xxCodes t) NUM_5XX_CODES) true.

(** The string that a pointer of a table points to. *)
Definition text_at (encoded_str : list Z) (p : Z) : list Z := cstr (zdrop p encoded_str).

Definition http_get_code_text (statusCode : Z) (t : tables) : option (list Z) * tables :=
  let t := if gInitialized t then t else init_tables t in
  if (statusCode <? 100) || (600 <=? statusCode) then (None, t)
  else
    let index := Z.rem statusCode 100 in
    let table_num := Z.quot statusCode 100 in
    if (table_num =? 1) && (index <? NUM_1XX_CODES)
    then (Some (text_at Http1xxStr (zget (Http1xxCodes t) index)), t)
    else if (table_num =? 2) && (index <? NUM_2XX_CODES)
    then (Some (text_at Http2xxStr (zget (Http2xxCodes t) index)), t)
    else if (table_num =? 3) && (index <? NUM_3XX_CODES)
    then (Some (text_at Http3xxStr (zget (Http3xxCodes t) index)), t)
    else if (table_num =? 4) && (index <? NUM_4XX_CODES)
    then (Some (text_at Http4xxStr (zget (Http4xxCodes t) index)), t)
    else if (table_num =? 5) && (index <? NUM_5XX_CODES)
    then (Some (text_at Http5xxStr (zget (Http5xxCodes t) index)), t)
    else (None, t).

End StatCodes.

Module FixedCopy.

Definition LINE_SIZE : Z := 180.
Definition NAME_SIZE : Z := 256.

Definition linecopy (dest src : list Z) : list Z :=
  zset (zwrite dest 0 (strncpy_bytes src (LINE_SIZE - 1))) (LINE_SIZE - 1) 0.
Definition namecopy (dest src : list Z) : list Z :=
  zset (zwrite dest 0 (strncpy_bytes src (NAME_SIZE - 1))) (NAME_SIZE - 1) 0.
Definition linecopylen (dest src : list Z) (srclen : Z) : list Z :=
  let len := if srclen <? LINE_SIZE - 1 then srclen else LINE_SIZE - 1 in
  zset (zwrite dest 0 (strncpy_bytes src len)) len 0.

End FixedCopy.

(** ** Lexicographic order of names *)

Module NameOrder.

Fixpoint lexz (a b : list Z) : comparison :=
  match a, b with
  | [], [] => Eq
  | [], _ :: _ => Lt
  | _ :: _, [] => Gt
  | x :: a', y :: b' => match x ?= y with Eq => lexz a' b' | c => c end
  end.

Lemma lexz_refl a : lexz a a = Eq.
Proof. induction a as [|x a IH]; [done|]. cbn. by rewrite Z.compare_refl. Qed.

Lemma lexz_eq a b : lexz a b = Eq -> a = b.
Proof.
  revert b. induction a as [|x a IH]; intros [|y b]; cbn; try done.
  destruct (Z.compare_spec x y) as [->| |]; try done. by intros ->%IH.
Qed.

Lemma lexz_antisym a b : lexz b a = CompOpp (lexz a b).
Proof.
  revert b. induction a as [|x a IH]; intros [|y b]; cbn; try done.
  rewrite (Z.compare_antisym x y). destruct (x ?= y); cbn; [apply IH|done|done].
Qed.

Lemma lexz_trans a b c : lexz a b = Lt -> lexz b c = Lt -> lexz a c = Lt.
Proof.
  revert b c. induction a as [|x a IH]; intros [|y b] [|z c]; cbn; try done.
  destruct (Z.compare_spec x y) as [->|H1|]; try done;
    destruct (Z.compare_spec y z) as [->|H2|]; try done; intros E1 E2.
  - by eapply IH.
  - by rewrite (proj2 (Z.compare_lt_iff x z)).
  - rewrite (proj2 (Z.compare_lt_iff x z)) by lia. done.
Qed.

(** The comparison of a slice with a name, for the two keys of the program. *)
Section Keys.
Context (key : Z -> Z) (key_zero : forall c, is_char c -> (key c = 0 <-> c = 0))
        (key_nn : forall c, 0 <= key c).

Definition keyed (l : list Z) : list Z := key <$> cstr l.

Lemma keyed_step c l : keyed (c :: l) = if decide (c = 0) then [] else key c :: keyed l.
Proof. unfold keyed. cbn [cstr]. repeat case_decide; destruct (Z.eqb_spec c 0); done. Qed.

Lemma keyed_hd l : keyed l = if decide (hd 0 l = 0) then [] else key (hd 0 l) :: keyed (tl l).
Proof. destruct l as [|c l]; [done|]. apply keyed_step. Qed.

Lemma keyed_take_S n l :
  keyed (take (S n) l)
  = if decide (hd 0 l = 0) then [] else key (hd 0 l) :: keyed (take n (tl l)).
Proof. destruct l as [|c l]; [done|]. cbn [take]. by rewrite keyed_step. Qed.

Lemma cmp_n_lex n a s :
  Forall is_char a -> Forall is_char s ->
  let c := cmp_n key n a s in
  ((if (c =? 0) && (Z.of_nat n <? zlen (cstr s)) then -1 else c) ?= 0)
  = lexz (keyed (take n a)) (keyed s).
Proof.
  revert a s. induction n as [|n IH]; intros a s Ha Hs; cbv zeta.
  { cbn [cmp_n take]. rewrite (keyed_hd s). destruct s as [|x s]; [done|]. cbn [cstr hd tl].
    destruct (Z.eqb_spec x 0) as [->|Hx]; [done|]. rewrite decide_False by done.
    rewrite zlen_cons. pose proof (zlen_nonneg (cstr s)).
    destruct (Z.ltb_spec (Z.of_nat 0) (1 + zlen (cstr s))); [done|lia]. }
  specialize (IH (tl a) (tl s) (tl_char a Ha) (tl_char s Hs)). cbv zeta in IH.
  pose proof (key_zero _ (hd_char a Ha)) as Za. pose proof (key_zero _ (hd_char s Hs)) as Zs.
  pose proof (key_nn (hd 0 a)). pose proof (key_nn (hd 0 s)).
  rewrite keyed_take_S, (keyed_hd s). cbn [cmp_n].
  destruct (Z.eqb_spec (key (hd 0 a)) (key (hd 0 s))) as [E|E]; cbn [negb].
  - destruct (Z.eqb_spec (hd 0 a) 0) as [E0|E0].
    + rewrite !decide_True by lia. destruct s as [|x s]; [done|]. cbn [hd] in *.
      assert (x = 0) as -> by lia. done.
    + rewrite !decide_False by lia. cbn [lexz]. rewrite E, Z.compare_refl.
      destruct s as [|x s]; [cbn [hd] in *; lia|]. cbn [hd tl cstr] in *.
      destruct (Z.eqb_spec x 0); [lia|]. rewrite zlen_cons.
      rewrite <- IH. destruct (Z.ltb_spec (Z.of_nat (S n)) (1 + zlen (cstr s))), (Z.ltb_spec (Z.of_nat n) (zlen (cstr s))); lia || done.
  - destruct (Z.eqb_spec (key (hd 0 a) - key (hd 0 s)) 0); [lia|]. cbn [andb].
    repeat case_decide; try lia; cbn [lexz].
    + apply Z.compare_lt_iff. lia.
    + apply Z.compare_gt_iff. lia.
    + destruct (Z.compare_spec (key (hd 0 a)) (key (hd 0 s))); [lia| |].
      * apply Z.compare_lt_iff. lia.
      * apply Z.compare_gt_iff. lia.
Qed.
End Keys.

Definition key_of (case_sensitive : bool) (c : Z) : Z :=
  u8 (if case_sensitive then c else tolower c).

Lemma key_of_zero b c : is_char c -> key_of b c = 0 <-> c = 0.
Proof.
  intros Hc. unfold key_of. split; [|by intros ->; destruct b].
  intros H. destruct b.
  - by apply (u8_inj_char c 0).
  - apply tolower_zero. apply (u8_inj_char _ 0); [by apply tolower_char|done|done].
Qed.

Lemma key_of_nn b c : 0 <= key_of b c.
Proof. unfold key_of, u8. apply Z.mod_pos_bound. lia. Qed.

Import StrIntMap.

(** A name as the search sees it. *)
Definition sort_key (b : bool) (l : list Z) : list Z := keyed (key_of b) l.

Lemma entry_cmp_lex nm len table b i :
  Forall is_char nm -> Forall is_char (name (entry table i)) -> 0 <= len ->
  (entry_cmp nm len table b i ?= 0)
  = lexz (sort_key b (ztake len nm)) (sort_key b (name (entry table i))).
Proof.
  intros Hn Ht Hl. unfold sort_key.
  pose proof (cmp_n_lex (key_of b) (key_of_zero b) (key_of_nn b) (Z.to_nat len) nm
    (name (entry table i)) Hn Ht) as H.
  rewrite Z2Nat.id in H by lia. unfold ztake. rewrite <- H.
  destruct b; reflexivity.
Qed.
End NameOrder.

(** ** Binary search *)

Module Search.
Import StrIntMap NameOrder.

(** The names of a table are strictly increasing, neighbour by neighbour. *)
Fixpoint sortedb (b : bool) (table : list str_int_entry) : bool :=
  match table with
  | e1 :: (e2 :: _) as r =>
      match lexz (sort_key b (name e1)) (sort_key b (name e2)) with
      | Lt => sortedb b r
      | _ => false
      end
  | _ => true
  end.

Definition table_ok (b : bool) (table : list str_int_entry) : Prop :=
  sortedb b table = true /\ Forall (fun e => Forall is_char (name e)) table.

#[export] Instance table_ok_dec b table : Decision (table_ok b table).
Proof. unfold table_ok. solve_decision. Defined.

Lemma sortedb_lt b table i j :
  sortedb b table = true -> (i < j < length table)%nat ->
  lexz (sort_key b (name (table !!! i))) (sort_key b (name (table !!! j))) = Lt.
Proof.
  revert i j. induction table as [|e1 [|e2 r] IH]; intros i j Hs Hij;
    [cbn in Hij; lia|cbn in Hij; lia|].
  cbn [sortedb] in Hs.
  destruct (lexz (sort_key b (name e1)) (sort_key b (name e2))) eqn:E; try done.
  destruct j as [|j]; [lia|]. cbn [length] in *. destruct i as [|i].
  - destruct j as [|j]; [done|].
    eapply lexz_trans; [exact E|]. apply (IH 0%nat (S j) Hs). cbn [length]. lia.
  - apply (IH i j Hs). cbn [length]. lia.
Qed.

Lemma search_loop_spec fuel cmp top bot :
  0 <= top -> bot + 1 - top <= Z.of_nat fuel ->
  (forall i j, top <= i < j -> j <= bot -> cmp i <= 0 -> cmp j < 0) ->
  let r := search_loop fuel cmp top bot in
  (top <= r <= bot /\ cmp r = 0) \/ (r = -1 /\ forall i, top <= i <= bot -> cmp i <> 0).
Proof.
  revert top bot. induction fuel as [|f IH]; intros top bot H0 Hf Hm; cbv zeta.
  { right. split; [done|]. intros; lia. }
  cbn [search_loop]. destruct (Z.leb_spec top bot); [|right; split; [done|intros; lia]].
  set (mid := (top + bot) / 2).
  assert (top <= mid <= bot) as Hmid by (unfold mid; Z.to_euclidean_division_equations; lia).
  destruct (Z.ltb_spec 0 (cmp mid)); [|destruct (Z.ltb_spec (cmp mid) 0)].
  - destruct (IH (mid + 1) bot) as [Hr|[Hr Hn]]; [lia|lia| |left; lia|].
    { intros i j Hi. apply Hm. lia. }
    right. split; [done|]. intros i Hi.
    destruct (decide (mid < i)); [apply Hn; lia|]. intros Hc.
    destruct (decide (i = mid)) as [->|]; [lia|].
    specialize (Hm i mid ltac:(lia) ltac:(lia) ltac:(lia)). lia.
  - destruct (IH top (mid - 1)) as [Hr|[Hr Hn]]; [lia|lia| |left; lia|].
    { intros i j Hi Hj. apply Hm; lia. }
    right. split; [done|]. intros i Hi.
    destruct (decide (i < mid)); [apply Hn; lia|].
    destruct (decide (i = mid)) as [->|]; [lia|].
    specialize (Hm mid i ltac:(lia) ltac:(lia) ltac:(lia)). lia.
  - left. lia.
Qed.

(** Binary search in a sorted table of names: [map_str_to_int] returns an
    index whose name is the slice, up to case when asked, and returns -1 exactly
    when there is none. *)
Theorem map_str_to_int_correct nm len table b :
  table_ok b table -> Forall is_char nm -> 0 <= len ->
  let r := map_str_to_int nm len table (zlen table) b in
  (0 <= r < zlen table /\ sort_key b (name (entry table r)) = sort_key b (ztake len nm))
  \/ (r = -1 /\ forall e, e ∈ table -> sort_key b (name e) <> sort_key b (ztake len nm)).
Proof.
  intros [Hs Hc] Hn Hl. cbv zeta. unfold map_str_to_int.
  assert (Hch : forall i, Forall is_char (name (entry table i))).
  { intros i. unfold entry. destruct (table !! Z.to_nat i) as [e|] eqn:E.
    - rewrite (list_lookup_total_correct _ _ _ E). eapply (Forall_lookup_1 _ _ _ _ Hc E).
    - rewrite list_lookup_total_alt, E. apply Forall_nil_2. }
  assert (He : forall i, entry_cmp nm len table b i = 0
     <-> sort_key b (name (entry table i)) = sort_key b (ztake len nm)).
  { intros i. etransitivity; [symmetry; apply Z.compare_eq_iff|].
    rewrite entry_cmp_lex by (done || lia).
    split; [by intros ->%lexz_eq|intros ->; apply lexz_refl]. }
  destruct (search_loop_spec (Z.to_nat (zlen table)) (entry_cmp nm len table b) 0
    (zlen table - 1)) as [[Hr H0]|[Hr H0]]; [lia|pose proof (zlen_nonneg table); lia| | |].
  - intros i j Hi Hj Hle.
    assert (lexz (sort_key b (name (entry table i))) (sort_key b (name (entry table j))) = Lt)
      as Hlt by (apply sortedb_lt; [done|unfold zlen in Hj; lia]).
    unfold Z.lt. rewrite entry_cmp_lex by (done || lia).
    pose proof (entry_cmp_lex nm len table b i Hn (Hch i) Hl) as E.
    destruct (Z.compare_spec (entry_cmp nm len table b i) 0); [|by eapply lexz_trans|lia].
    symmetry in E. by apply lexz_eq in E as ->.
  - left. split; [lia|]. by apply He.
  - right. split; [done|]. intros e [i Hi]%list_elem_of_lookup.
    apply lookup_lt_Some in Hi as Hlt.
    specialize (H0 (Z.of_nat i)). rewrite He in H0. unfold entry in H0.
    rewrite Nat2Z.id, (list_lookup_total_correct _ _ _ Hi) in H0. apply H0. unfold zlen. lia.
Qed.

Lemma map_str_to_int_correct_witness :
  let table := [Entry (zs "ACCEPT") 1; Entry (zs "HOST") 2; Entry (zs "USER-AGENT") 3] in
  (0 <= 1 < 3 /\ sort_key false (name (entry table 1)) = sort_key false (ztake 4 (zs "Host: x")))
  /\ map_str_to_int (zs "Host: x") 4 table 3 false = 1.
Proof.
  pose proof (map_str_to_int_correct (zs "Host: x") 4
    [Entry (zs "ACCEPT") 1; Entry (zs "HOST") 2; Entry (zs "USER-AGENT") 3] false
    ltac:(by_decide) ltac:(by_decide) ltac:(lia)) as H.
  destruct H as [H|[H _]]; [|by vm_compute in H].
  split; [exact H|reflexivity].
Defined.
End Search.

(** ** Status texts *)

Module StatText.
Import StatCodes.

(** The state of the tables that the program can be in. *)
Definition tables_ok (t : tables) : Prop := t = tables0 \/ t = init_tables tables0.

(** The texts of the classes 1xx to 5xx. *)
Definition code_texts : list (list string) :=
  [["Continue"; "Switching Protocols"];
   ["OK"; "Created"; "Accepted"; "Non-Authoratative Information"; "No Content";
    "Reset Content"; "Partial Content"];
   ["Multiple Choices"; "Moved Permanently"; "Found"; "See Other"; "Not Modified";
    "Use Proxy"; ""; "Temporary Redirect"];
   ["Bad Request"; "Unauthorized"; "Payment Required"; "Forbidden"; "Not Found";
    "Method Not Allowed"; "Not Acceptable"; "Proxy Authentication Required";
    "Request Timeout"; "Conflict"; "Gone"; "Length Required"; "Precondition Failed";
    "Request Entity Too Large"; "Request-URI Too Long"; "Unsupported Media Type";
    "Requested Range Not Satisfiable"; "Expectation Failed"];
   ["Internal Server Error"; "Not Implemented"; "Bad Gateway"; "Service Unavailable";
    "Gateway Timeout"; "HTTP Version Not Supported"]]%string.

Definition code_text (code : Z) : option (list Z) :=
  if decide (100 <= code < 600) then
    cls ← code_texts !! Z.to_nat (code / 100 - 1);
    s ← cls !! Z.to_nat (code mod 100);
    Some (zs s)
  else None.

(** The codes 100 to 599, checked one by one. *)
Lemma code_text_checked :
  forallb (fun k => let c := Z.of_nat k in
    bool_decide ((http_get_code_text c (init_tables tables0)).1 = code_text c))
    (seq 100 500) = true.
Proof. vm_compute. reflexivity. Qed.

Lemma get_keeps code t : gInitialized t = true -> (http_get_code_text code t).2 = t.
Proof. intros Ht. unfold http_get_code_text. rewrite Ht. repeat case_match; done. Qed.

(** [http_get_code_text] gives the text of each of the 41 codes it knows and
    [NULL] for every other integer, whether or not the tables were decoded before,
    and leaves them decoded. *)
Theorem http_get_code_text_correct code t :
  tables_ok t ->
  http_get_code_text code t = (code_text code, init_tables tables0).
Proof.
  intros Ht.
  assert (http_get_code_text code t = http_get_code_text code (init_tables tables0)) as ->
    by (destruct Ht as [-> | ->]; reflexivity).
  destruct (decide (100 <= code < 600)) as [Hc|Hc].
  - pose proof (proj1 (forallb_forall _ _) code_text_checked (Z.to_nat code)) as H.
    specialize (H ltac:(apply in_seq; lia)). cbv beta zeta in H.
    rewrite Z2Nat.id in H by lia. apply bool_decide_eq_true in H.
    rewrite <- H. pose proof (get_keeps code (init_tables tables0) eq_refl) as Hk.
    destruct (http_get_code_text code (init_tables tables0)). cbn [fst snd] in *. by subst.
  - unfold code_text. rewrite decide_False by done. unfold http_get_code_text.
    change (gInitialized (init_tables tables0)) with true. cbv iota.
    destruct (Z.ltb_spec code 100), (Z.leb_spec 600 code); done || lia.
Qed.

Lemma http_get_code_text_correct_witness :
  http_get_code_text 412 tables0 = (Some (zs "Precondition Failed"), init_tables tables0).
Proof. apply (http_get_code_text_correct 412 tables0). by left. Defined.
End StatText.

(** ** Copies into fixed buffers *)

Module CopyFacts.
Import FixedCopy.

Lemma cstr_strncpy src n r :
  0 <= n -> cstr (strncpy_bytes src n ++ 0 :: r) = ztake n (cstr src).
Proof.
  intros Hn. unfold strncpy_bytes. rewrite <- app_assoc.
  assert (exists q, zrep (n - strlen src) 0 ++ 0 :: r = 0 :: q) as [q ->].
  { unfold zrep. destruct (Z.to_nat (n - strlen src)) as [|m]; [by exists r|].
    cbn [replicate app]. by eexists. }
  apply cstr_app_nul. apply Forall_take, cstr_no_nul.
Qed.

(** A bounded copy with its terminator is the source cut to the bound. *)
Lemma bounded_copy dest src n :
  0 <= n < zlen dest ->
  let d := zset (zwrite dest 0 (strncpy_bytes src n)) n 0 in
  zlen d = zlen dest /\ cstr d = ztake n (cstr src) /\ zdrop (n + 1) d = zdrop (n + 1) dest.
Proof.
  intros Hn. cbv zeta. pose proof (zlen_strncpy_bytes src n ltac:(lia)) as Hs.
  assert (zset (zwrite dest 0 (strncpy_bytes src n)) n 0
          = strncpy_bytes src n ++ 0 :: zdrop (n + 1) dest) as ->.
  { zext; rewrite zget_cons; repeat (case_decide; try lia).
    rewrite zget_zdrop_nn by lia. f_equal. lia. }
  split_and!.
  - zlia.
  - apply cstr_strncpy. lia.
  - replace (n + 1) with (zlen (strncpy_bytes src n ++ [0])) at 1 by zlia.
    change (0 :: zdrop (n + 1) dest) with ([0] ++ zdrop (n + 1) dest).
    rewrite app_assoc. apply zdrop_app_exact.
Qed.

(** [linecopy], [namecopy] and [linecopylen] always leave a terminated
    string in the buffer: the source, cut to what fits, and they do not touch the
    memory behind the buffer. *)
Theorem fixed_copies dest src srclen :
  zlen dest = LINE_SIZE \/ zlen dest = NAME_SIZE -> 0 <= srclen ->
  cstr (linecopy dest src) = ztake (LINE_SIZE - 1) (cstr src)
  /\ zlen (linecopy dest src) = zlen dest
  /\ cstr (linecopylen dest src srclen) = ztake (Z.min srclen (LINE_SIZE - 1)) (cstr src)
  /\ zlen (linecopylen dest src srclen) = zlen dest
  /\ (zlen dest = NAME_SIZE -> cstr (namecopy dest src) = ztake (NAME_SIZE - 1) (cstr src)
      /\ zlen (namecopy dest src) = zlen dest
      /\ zdrop LINE_SIZE (linecopy dest src) = zdrop LINE_SIZE dest).
Proof.
  intros Hd Hl. assert (LINE_SIZE <= zlen dest) by (destruct Hd as [-> | ->]; done).
  unfold linecopylen.
  replace (if srclen <? LINE_SIZE - 1 then srclen else LINE_SIZE - 1)
    with (Z.min srclen (LINE_SIZE - 1)) by (destruct (Z.ltb_spec srclen (LINE_SIZE - 1)); lia).
  set (n := Z.min srclen (LINE_SIZE - 1)). assert (0 <= n < LINE_SIZE) by (unfold n, LINE_SIZE; lia).
  destruct (bounded_copy dest src (LINE_SIZE - 1)) as (A1 & A2 & A3); [unfold LINE_SIZE in *; lia|].
  destruct (bounded_copy dest src n) as (B1 & B2 & B3); [lia|].
  split_and!; try done. intros Hn.
  destruct (bounded_copy dest src (NAME_SIZE - 1)) as (C1 & C2 & C3); [rewrite Hn; done|].
  done.
Qed.

Lemma fixed_copies_witness :
  cstr (linecopylen (zrep 180 7) (zs "uuid:device-1::upnp") 13) = zs "uuid:device-1".
Proof.
  destruct (fixed_copies (zrep 180 7) (zs "uuid:device-1::upnp") 13) as (_ & _ & H & _);
    [by left|lia|].
  rewrite H. reflexivity.
Defined.
End CopyFacts.
