(* ===== verification/Scanner.v ===== *)
(** * The HTTP scanner and the pattern matcher

    [upnp/src/genlib/net/http/httpparser.c], from [scanner_init] to [matchstr]:
    the tokens of a message, the matchers of the patterns' directives and the
    interpreter [vfmatch] of the pattern strings.

    A scanner holds a pointer to the message buffer, a cursor and the flag
    [entire_msg_loaded].  No function of this file changes the buffer or the
    flag, so they are section variables: [mem] is the block, [len] the length of
    the message in it, [base] the address of the block, [entire] the flag.  A
    [memptr] into the message is an offset and a length.  A function takes the
    cursor and returns the new one.  What a failing call leaves in its output
    arguments is not modelled (the callers return the error without reading
    them), except for the integers of [vfmatch], which are stored early. *)

From S2P Require Import Prelude CLib Membuffer Uri.
#[local] Open Scope Z_scope.

Inductive token_type_t :=
  TT_IDENTIFIER | TT_WHITESPACE | TT_CRLF | TT_CTRL | TT_SEPARATOR | TT_QUOTEDSTRING.
Inductive parse_status_t :=
  PARSE_SUCCESS | PARSE_INCOMPLETE | PARSE_INCOMPLETE_ENTITY | PARSE_FAILURE | PARSE_OK
| PARSE_NO_MATCH | PARSE_CONTINUE_1.
#[export] Instance token_type_eq : EqDecision token_type_t.
Proof. solve_decision. Defined.
#[export] Instance parse_status_eq : EqDecision parse_status_t.
Proof. solve_decision. Defined.

Record memptr := Memptr { mp_buf : Z; mp_length : Z }.

Definition TOKCHAR_CR : Z := 13.
Definition TOKCHAR_LF : Z := 10.

Definition is_separator_char (c : Z) : bool := strchr ([SP; TAB] ++ zs "()<>@,;:\" ++ [DQUOTE] ++ zs "/[]?={}") c.
Definition is_identifier_char (c : Z) : bool :=
  (32 <=? c) && (c <=? 126) && negb (is_separator_char c).
Definition is_control_char (c : Z) : bool := ((0 <=? c) && (c <=? 31)) || (c =? 127).
Definition is_qdtext_char (c : Z) : bool :=
  ((32 <=? c) && negb (c =? 127)) || (c <? 0) || (c =? TOKCHAR_CR) || (c =? TOKCHAR_LF)
  || (c =? TAB).

(** Outcome of [scanner_get_token]: a token, its type, or an error.  On success
    the cursor moves by the length of the token. *)
Inductive tok_result :=
| TokOk (t : memptr) (ty : token_type_t)
| TokErr (s : parse_status_t).

(** Outcome of the loop over a quoted string: the position behind the closing
    quote, a bad character, or the end of the data. *)
Inductive quote_result := QuoteEnd (e : Z) | QuoteBad | QuoteMore.

(** What [vfmatch] stores through its arguments, in order. *)
Inductive arg := AStr (s : memptr) | AInt (z : Z) | AUri (u : uri_type).

(** A character literal of the source. *)
Definition is_char_lit (c : Z) (s : string) : bool := zs s !!! 0%nat =? c.

Section Scan.
Context `{Resolver} (base : Z) (mem : list Z) (len : Z) (entire : bool).

(** The [while] loops of [scanner_get_token] that stop at the end of the data. *)
Definition run (p : Z -> bool) (i : Z) : Z := i + span p (zsub mem i (len - i)).

Fixpoint quote_loop (fuel : nat) (cursor : Z) : quote_result :=
  match fuel with
  | O => QuoteMore
  | S f =>
      if cursor <? len then
        let c := zget mem cursor in
        let cursor := cursor + 1 in
        if c =? DQUOTE then QuoteEnd cursor
        else if c =? BSLASH then quote_loop f (if cursor <? len then cursor + 1 else cursor)
        else if is_qdtext_char c then quote_loop f cursor
        else QuoteBad
      else QuoteMore
  end.

Definition scanner_get_token (cursor : Z) : tok_result :=
  if cursor =? len then TokErr PARSE_INCOMPLETE
  else
    let c := zget mem cursor in
    if is_identifier_char c then
      let e := run is_identifier_char (cursor + 1) in
      if negb entire && (e =? len) then TokErr PARSE_INCOMPLETE
      else TokOk (Memptr cursor (e - cursor)) TT_IDENTIFIER
    else if (c =? SP) || (c =? TAB) then
      let e := run (fun x => (x =? SP) || (x =? TAB)) (cursor + 1) in
      if negb entire && (e =? len) then TokErr PARSE_INCOMPLETE
      else TokOk (Memptr cursor (e - cursor)) TT_WHITESPACE
    else if c =? TOKCHAR_CR then
      if cursor + 1 =? len then TokErr PARSE_INCOMPLETE
      else if negb (zget mem (cursor + 1) =? TOKCHAR_LF)
           then TokOk (Memptr cursor 1) TT_CTRL
           else TokOk (Memptr cursor 2) TT_CRLF
    else if c =? TOKCHAR_LF then TokOk (Memptr cursor 1) TT_CRLF
    else if c =? DQUOTE then
      match quote_loop (Z.to_nat (len - cursor)) (cursor + 1) with
      | QuoteEnd e => TokOk (Memptr cursor (e - cursor)) TT_QUOTEDSTRING
      | QuoteBad => TokErr PARSE_FAILURE
      | QuoteMore => TokErr PARSE_INCOMPLETE
      end
    else if is_separator_char c then TokOk (Memptr cursor 1) TT_SEPARATOR
    else if is_control_char c then TokOk (Memptr cursor 1) TT_CTRL
    else TokErr PARSE_FAILURE.

(** The fuel of the loops over tokens: each round consumes a character. *)
Definition toks (cursor : Z) : nat := S (Z.to_nat (len - cursor)).

Definition is_ws_or_crlf (ty : token_type_t) : bool :=
  match ty with TT_WHITESPACE | TT_CRLF => true | _ => false end.

Fixpoint skip_blank_lines_loop (fuel : nat) (cursor : Z) : parse_status_t * Z :=
  match fuel with
  | O => (PARSE_INCOMPLETE, cursor)
  | S f =>
      match scanner_get_token cursor with
      | TokOk t ty =>
          if is_ws_or_crlf ty then skip_blank_lines_loop f (cursor + mp_length t)
          else (* pushback a non-whitespace token *) (PARSE_OK, cursor)
      | TokErr s => (s, cursor)
      end
  end.
Definition skip_blank_lines (cursor : Z) : parse_status_t * Z :=
  skip_blank_lines_loop (toks cursor) cursor.

Fixpoint skip_lws_loop (fuel : nat) (cursor : Z) : parse_status_t * Z :=
  match fuel with
  | O => (PARSE_INCOMPLETE, cursor)
  | S f =>
      match scanner_get_token cursor with
      | TokErr s => (s, cursor)
      | TokOk t TT_CRLF =>
          match scanner_get_token (cursor + mp_length t) with
          | TokOk t2 TT_WHITESPACE => skip_lws_loop f (cursor + mp_length t + mp_length t2)
          | TokOk _ _ => (PARSE_OK, cursor)
          | TokErr s => (s, cursor)
          end
      | TokOk t TT_WHITESPACE => skip_lws_loop f (cursor + mp_length t)
      | TokOk _ _ => (PARSE_OK, cursor)
      end
  end.
Definition skip_lws (cursor : Z) : parse_status_t * Z :=
  let '(status, cursor) := skip_lws_loop (toks cursor) cursor in
  ((if bool_decide (status = PARSE_INCOMPLETE) && entire then PARSE_OK else status), cursor).

(** The loop of [match_non_ws_string]; [n] is [str->length]. *)
Fixpoint non_ws_loop (fuel : nat) (cursor n : Z) : parse_status_t * Z * Z :=
  match fuel with
  | O => (PARSE_INCOMPLETE, cursor, n)
  | S f =>
      match scanner_get_token cursor with
      | TokOk t ty =>
          if is_ws_or_crlf ty then (PARSE_OK, cursor, n)
          else non_ws_loop f (cursor + mp_length t) (n + mp_length t)
      | TokErr s => (s, cursor, n)
      end
  end.
Definition match_non_ws_string (save_cursor : Z) : parse_status_t * Z * memptr :=
  let '(status, cursor, n) := non_ws_loop (toks save_cursor) save_cursor 0 in
  let str := Memptr save_cursor n in
  if bool_decide (status = PARSE_OK) || (bool_decide (status = PARSE_INCOMPLETE) && entire)
  then ((if n =? 0 then PARSE_NO_MATCH else PARSE_OK), cursor, str)
  else (status, save_cursor, str).

(** The loop of [match_raw_value]; [crlf] is [pos_at_crlf] once a CRLF was seen. *)
Fixpoint raw_value_loop (fuel : nat) (save_pos cursor n : Z) (crlf : option Z)
  : parse_status_t * Z * Z :=
  match fuel with
  | O => (PARSE_INCOMPLETE, save_pos, n)
  | S f =>
      match scanner_get_token cursor with
      | TokErr s => (s, save_pos, n)
      | TokOk t ty =>
          let cursor' := cursor + mp_length t in
          match crlf with
          | None =>
              raw_value_loop f save_pos cursor' (n + mp_length t)
                (if decide (ty = TT_CRLF) then Some cursor else None)
          | Some pos =>
              if decide (ty = TT_WHITESPACE)
              then raw_value_loop f save_pos cursor' (n + mp_length t) None
              else (PARSE_OK, pos, n)
          end
      end
  end.

(** The loop that trims whitespace on the right of the value. *)
Definition is_trim_char (c : Z) : bool :=
  (c =? SP) || (c =? TAB) || (c =? TOKCHAR_CR) || (c =? TOKCHAR_LF).
Fixpoint trim_loop (fuel : nat) (buf n : Z) : Z :=
  match fuel with
  | O => n
  | S f =>
      if 0 <? n then
        if is_trim_char (zget mem (buf + n - 1)) then trim_loop f buf (n - 1) else n
      else n
  end.
Definition match_raw_value (save_pos : Z) : parse_status_t * Z * memptr :=
  let '(status, cursor, n) := raw_value_loop (toks save_pos) save_pos save_pos 0 None in
  let n := if decide (status = PARSE_OK) then trim_loop (Z.to_nat n) save_pos n else n in
  (status, cursor, Memptr save_pos n).

(** Third component: what is stored in [*value], if anything. *)
Definition match_int (save_pos ibase : Z) : parse_status_t * Z * option Z :=
  match scanner_get_token save_pos with
  | TokErr s => (s, save_pos, None)
  | TokOk t TT_IDENTIFIER =>
      let r := strtol (zdrop (mp_buf t) mem) ibase in
      let num := st_val r in
      if (num <? 0) || negb (st_end r =? mp_length t)
         || (((num =? LONG_MIN) || (num =? LONG_MAX)) && st_erange r)
      then (PARSE_NO_MATCH, save_pos, Some (s32 num))
      else (PARSE_OK, save_pos + mp_length t, Some (s32 num))
  | TokOk _ _ => (PARSE_NO_MATCH, save_pos, None)
  end.

Fixpoint until_crlf_loop (fuel : nat) (cursor : Z) : parse_status_t * Z :=
  match fuel with
  | O => (PARSE_INCOMPLETE, cursor)
  | S f =>
      match scanner_get_token cursor with
      | TokOk t TT_CRLF => (* pushback crlf in stream *) (PARSE_OK, cursor)
      | TokOk t _ => until_crlf_loop f (cursor + mp_length t)
      | TokErr s => (s, cursor)
      end
  end.
Definition read_until_crlf (start_pos : Z) : parse_status_t * Z * memptr :=
  let '(status, cursor) := until_crlf_loop (toks start_pos) start_pos in
  (status, cursor, Memptr start_pos (cursor - start_pos)).

Definition match_char (cursor c : Z) (case_sensitive : bool) : parse_status_t * Z :=
  if len <=? cursor then (PARSE_INCOMPLETE, cursor)
  else
    let scan_char := zget mem cursor in
    ((if (if case_sensitive then c =? scan_char else tolower c =? tolower scan_char)
      then PARSE_OK else PARSE_NO_MATCH), cursor + 1).

(** A token of a given type; the token is consumed even when the type differs. *)
Definition match_type (cursor : Z) (ty : token_type_t) : parse_status_t * Z * option memptr :=
  match scanner_get_token cursor with
  | TokOk t ty' =>
      ((if decide (ty' = ty) then PARSE_OK else PARSE_NO_MATCH), cursor + mp_length t, Some t)
  | TokErr s => (s, cursor, None)
  end.

(** A directive [%c]: the status, the cursor, the case flag and what is stored.
    [None] is the failed assertion on an unknown directive. *)
Definition vfmatch_dir (c cursor : Z) (case_sensitive : bool)
  : option (parse_status_t * Z * bool * list arg) :=
  let str (r : parse_status_t * Z * memptr) :=
    let '(st, cur, s) := r in Some (st, cur, case_sensitive, [AStr s]) in
  let typed (r : parse_status_t * Z * option memptr) :=
    let '(st, cur, s) := r in
    Some (st, cur, case_sensitive, match s with Some s => [AStr s] | None => [] end) in
  let skip (r : parse_status_t * Z) := Some (r, case_sensitive, []) in
  if is_char_lit c "R" then str (match_raw_value cursor)
  else if is_char_lit c "s" then typed (match_type cursor TT_IDENTIFIER)
  else if is_char_lit c "c" then skip (match_type cursor TT_CRLF).1
  else if is_char_lit c "d" || is_char_lit c "x" then
    let '(st, cur, v) := match_int cursor (if is_char_lit c "d" then 10 else 16) in
    Some (st, cur, case_sensitive, match v with Some v => [AInt v] | None => [] end)
  else if is_char_lit c "S" then str (match_non_ws_string cursor)
  else if is_char_lit c "U" then
    let '(st, cur, s) := match_non_ws_string cursor in
    if decide (st = PARSE_OK) then
      match parse_uri (zdrop (mp_buf s) mem) (base + mp_buf s) (mp_length s) with
      | inr u => Some (PARSE_OK, cur, case_sensitive, [AUri u])
      | inl _ => Some (PARSE_NO_MATCH, cur, case_sensitive, [])
      end
    else Some (st, cur, case_sensitive, [])
  else if is_char_lit c "L" then str (read_until_crlf cursor)
  else if (c =? SP) || (c =? PERCENT) then skip (match_char cursor c case_sensitive)
  else if is_char_lit c "n" then Some (PARSE_OK, cursor, true, [])
  else if is_char_lit c "i" then Some (PARSE_OK, cursor, false, [])
  else if is_char_lit c "q" then typed (match_type cursor TT_QUOTEDSTRING)
  else if is_char_lit c "w" then
    match scanner_get_token cursor with
    | TokOk t ty =>
        (* restore non-whitespace token *)
        Some (PARSE_OK, (if decide (ty = TT_WHITESPACE) then cursor + mp_length t else cursor),
              case_sensitive, [])
    | TokErr st => Some (st, cursor, case_sensitive, [])
    end
  else if is_char_lit c "P" then Some (PARSE_OK, cursor, case_sensitive, [AInt (s32 cursor)])
  else if is_char_lit c "0" then
    Some ((if (cursor =? len) && (zget mem cursor =? 0) then PARSE_OK else PARSE_NO_MATCH),
          cursor, case_sensitive, [])
  else None.

(** A character of the pattern that is not a directive. *)
Definition vfmatch_lit (c cursor : Z) (case_sensitive : bool) : parse_status_t * Z :=
  if c =? SP then skip_lws cursor
  else if c =? TAB then (match_type cursor TT_WHITESPACE).1
  else match_char cursor c case_sensitive.

Fixpoint vfmatch_loop (fmt : list Z) (cursor : Z) (case_sensitive : bool) (outs : list arg)
  : option (parse_status_t * Z * list arg) :=
  match fmt with
  | [] => Some (PARSE_OK, cursor, outs)
  | c :: r =>
      if c =? PERCENT then
        match r with
        | [] => None
        | d :: r' =>
            match vfmatch_dir d cursor case_sensitive with
            | None => None
            | Some (st, cur, cs, o) =>
                if decide (st = PARSE_OK) then vfmatch_loop r' cur cs (outs ++ o)
                else Some (st, cur, outs ++ o)
            end
        end
      else
        let '(st, cur) := vfmatch_lit c cursor case_sensitive in
        if decide (st = PARSE_OK) then vfmatch_loop r cur case_sensitive outs
        else Some (st, cur, outs)
  end.

(** [vfmatch] and [match]. *)
Definition vfmatch (fmt : list Z) (save_pos : Z) : option (parse_status_t * Z * list arg) :=
  match vfmatch_loop fmt save_pos true [] with
  | Some (st, cur, outs) =>
      (* on error, restore original scanner pos *)
      Some (st, (if decide (st = PARSE_OK) then cur else save_pos), outs)
  | None => None
  end.
End Scan.

(** [matchstr]: the byte behind the string is cleared during the match and put
    back; the string itself does not change. *)
Definition matchstr `{Resolver} (base : Z) (str : list Z) (slen : Z) (fmt : list Z)
  : option (parse_status_t * list arg) :=
  match vfmatch base (zset str slen 0) slen true fmt 0 with
  | Some (st, _, outs) => Some (st, outs)
  | None => None
  end.
