(* ===== verification/ScannerFacts.v ===== *)
(** * Facts about the HTTP scanner

    The tokens of a message and their bounds, the termination of the loops over
    tokens, the bounds of the pattern matcher, and its stability: a result other
    than [PARSE_INCOMPLETE] does not change when more data arrives. *)

From S2P Require Import Prelude CLib Membuffer Uri Scanner.
#[local] Open Scope Z_scope.

Section Tokens.
Context (mem : list Z) (len : Z) (entire : bool) (Hlen : 0 <= len <= zlen mem).

Lemma run_spec p i :
  0 <= i <= len ->
  let r := run mem len p i in
  i <= r <= len /\ (forall k, i <= k < r -> p (zget mem k) = true)
  /\ (r = len \/ p (zget mem r) = false).
Proof.
  intros Hi. unfold run. cbv zeta. pose proof (span_le p (zsub mem i (len - i))) as Hs.
  assert (Hz : zlen (zsub mem i (len - i)) = len - i)
    by (unfold zsub; rewrite zlen_ztake, zlen_zdrop; lia).
  rewrite Hz in Hs. split_and!; try lia.
  - intros k Hk. pose proof (span_all p (zsub mem i (len - i)) (k - i)) as Ha.
    unfold zsub in Ha at 2. rewrite zget_ztake_lt, zget_zdrop_nn in Ha by lia.
    replace (k - i + i) with k in Ha by lia. apply Ha. lia.
  - destruct (span_end p (zsub mem i (len - i))) as [He|He]; [left; lia|].
    destruct (decide (span p (zsub mem i (len - i)) = len - i)); [left; lia|right].
    unfold zsub in He at 1. rewrite zget_ztake_lt, zget_zdrop_nn in He by lia.
    rewrite Z.add_comm. done.
Qed.

(** What a token of each type is. *)
Definition token_shape (t : memptr) (ty : token_type_t) : Prop :=
  let e := mp_buf t + mp_length t in
  match ty with
  | TT_IDENTIFIER =>
      (forall k, mp_buf t <= k < e -> is_identifier_char (zget mem k) = true)
      /\ (e = len /\ entire = true \/ e < len /\ is_identifier_char (zget mem e) = false)
  | TT_WHITESPACE =>
      (forall k, mp_buf t <= k < e -> zget mem k = SP \/ zget mem k = TAB)
      /\ (e = len /\ entire = true \/ e < len /\ zget mem e <> SP /\ zget mem e <> TAB)
  | TT_CRLF =>
      (mp_length t = 1 /\ zget mem (mp_buf t) = TOKCHAR_LF)
      \/ (mp_length t = 2 /\ zget mem (mp_buf t) = TOKCHAR_CR
          /\ zget mem (mp_buf t + 1) = TOKCHAR_LF)
  | TT_CTRL =>
      mp_length t = 1 /\ is_control_char (zget mem (mp_buf t)) = true
      /\ (zget mem (mp_buf t) = TOKCHAR_CR -> zget mem (mp_buf t + 1) <> TOKCHAR_LF)
  | TT_SEPARATOR => mp_length t = 1 /\ is_separator_char (zget mem (mp_buf t)) = true
  | TT_QUOTEDSTRING =>
      2 <= mp_length t /\ zget mem (mp_buf t) = DQUOTE /\ zget mem (e - 1) = DQUOTE
  end.

Lemma quote_loop_spec fuel i :
  0 <= i <= len ->
  match quote_loop mem len fuel i with
  | QuoteEnd e => i < e <= len /\ zget mem (e - 1) = DQUOTE
  | _ => True
  end.
Proof.
  revert i. induction fuel as [|f IH]; intros i Hi; cbn [quote_loop]; [done|].
  destruct (Z.ltb_spec i len); [|done].
  destruct (Z.eqb_spec (zget mem i) DQUOTE).
  { split; [lia|]. by replace (i + 1 - 1) with i by lia. }
  assert (Hrec : forall j, i < j <= len -> match quote_loop mem len f j with
    | QuoteEnd e => i < e <= len /\ zget mem (e - 1) = DQUOTE | _ => True end).
  { intros j Hj. specialize (IH j ltac:(lia)). destruct (quote_loop mem len f j); try done.
    destruct IH. split; [lia|done]. }
  destruct (zget mem i =? BSLASH).
  { apply Hrec. destruct (Z.ltb_spec (i + 1) len); lia. }
  destruct (is_qdtext_char (zget mem i)); [|done]. apply Hrec. lia.
Qed.

(** The tokens: inside the data, not empty, of the shape of their type. *)
Lemma get_token_spec cursor :
  0 <= cursor <= len ->
  match scanner_get_token mem len entire cursor with
  | TokOk t ty => mp_buf t = cursor /\ 0 < mp_length t /\ cursor + mp_length t <= len
                  /\ token_shape t ty
  | TokErr s => s = PARSE_INCOMPLETE \/ s = PARSE_FAILURE
  end.
Proof.
  intros Hc. unfold scanner_get_token. destruct (Z.eqb_spec cursor len); [by left|].
  destruct (is_identifier_char (zget mem cursor)) eqn:Ei.
  { destruct (run_spec is_identifier_char (cursor + 1)) as (R1 & R2 & R3); [lia|].
    set (e := run mem len is_identifier_char (cursor + 1)) in *.
    destruct (negb entire && (e =? len)) eqn:E; [by left|]. unfold token_shape. cbn.
    replace (cursor + (e - cursor)) with e by lia. split_and!; try lia.
    - intros k Hk. destruct (decide (k = cursor)) as [->|]; [done|]. apply R2. lia.
    - destruct (decide (e = len)); [left|right; split; [lia|by destruct R3]].
      split; [done|]. destruct entire; [done|]. cbn in E. lia. }
  destruct ((zget mem cursor =? SP) || (zget mem cursor =? TAB)) eqn:Ew.
  { set (p := fun x => (x =? SP) || (x =? TAB)).
    destruct (run_spec p (cursor + 1)) as (R1 & R2 & R3); [lia|].
    set (e := run mem len p (cursor + 1)) in *.
    destruct (negb entire && (e =? len)) eqn:E; [by left|]. unfold token_shape. cbn.
    replace (cursor + (e - cursor)) with e by lia. split_and!; try lia.
    - intros k Hk. destruct (decide (k = cursor)) as [->|]; [lia|].
      specialize (R2 k ltac:(lia)). unfold p in R2. lia.
    - destruct (decide (e = len)); [left|right; split; [lia|]].
      + split; [done|]. destruct entire; [done|]. cbn in E. lia.
      + destruct R3 as [?|R3]; [done|]. unfold p in R3. lia. }
  destruct (Z.eqb_spec (zget mem cursor) TOKCHAR_CR) as [Er|].
  { destruct (Z.eqb_spec (cursor + 1) len); [by left|].
    destruct (Z.eqb_spec (zget mem (cursor + 1)) TOKCHAR_LF); cbn [negb];
      unfold token_shape; cbn; rewrite ?Er; split_and!; try done; try lia. }
  destruct (Z.eqb_spec (zget mem cursor) TOKCHAR_LF) as [El|].
  { unfold token_shape; cbn. split_and!; try lia. }
  destruct (Z.eqb_spec (zget mem cursor) DQUOTE) as [Eq|].
  { pose proof (quote_loop_spec (Z.to_nat (len - cursor)) (cursor + 1) ltac:(lia)) as Q.
    destruct (quote_loop _ _ _ _) as [e| |]; [|by right|by left]. destruct Q as [Q1 Q2].
    unfold token_shape; cbn. replace (cursor + (e - cursor) - 1) with (e - 1) by lia.
    split_and!; try done; try lia. }
  destruct (is_separator_char (zget mem cursor)) eqn:Es.
  { unfold token_shape; cbn. split_and!; try done; lia. }
  destruct (is_control_char (zget mem cursor)) eqn:Ec; [|by right].
  unfold token_shape; cbn. split_and!; try done; lia.
Qed.
End Tokens.

(** ** Bounds *)

Section Bounds.
Context (mem : list Z) (len : Z) (entire : bool) (Hlen : 0 <= len <= zlen mem).

Ltac tok cursor :=
  let H := fresh "Htok" in
  pose proof (get_token_spec mem len entire Hlen cursor ltac:(lia)) as H;
  destruct (scanner_get_token mem len entire cursor) as [?t ?ty|?s];
  [destruct H as (? & ? & ? & _)|].

Lemma skip_blank_bound f cursor :
  0 <= cursor <= len -> cursor <= (skip_blank_lines_loop mem len entire f cursor).2 <= len.
Proof.
  revert cursor. induction f as [|f IH]; intros cursor Hc; cbn [skip_blank_lines_loop snd]; [lia|].
  tok cursor; [|cbn; lia]. destruct (is_ws_or_crlf ty); [|cbn; lia].
  specialize (IH (cursor + mp_length t)). lia.
Qed.

Lemma skip_lws_bound f cursor :
  0 <= cursor <= len -> cursor <= (skip_lws_loop mem len entire f cursor).2 <= len.
Proof.
  revert cursor. induction f as [|f IH]; intros cursor Hc; cbn [skip_lws_loop snd]; [lia|].
  tok cursor; [|cbn; lia]. destruct ty; try (cbn; lia).
  - specialize (IH (cursor + mp_length t)). lia.
  - tok (cursor + mp_length t); [|cbn; lia]. destruct ty; try (cbn; lia).
    specialize (IH (cursor + mp_length t + mp_length t0)). lia.
Qed.

Lemma non_ws_bound f cursor n :
  0 <= cursor <= len ->
  let '(_, cur, n') := non_ws_loop mem len entire f cursor n in
  cursor <= cur <= len /\ n' = n + (cur - cursor).
Proof.
  revert cursor n. induction f as [|f IH]; intros cursor n Hc; cbn [non_ws_loop]; [lia|].
  tok cursor; [|lia]. destruct (is_ws_or_crlf ty); [lia|].
  specialize (IH (cursor + mp_length t) (n + mp_length t) ltac:(lia)).
  destruct (non_ws_loop _ _ _ _ _ _) as [[] ?]. lia.
Qed.

Lemma raw_value_bound f save cursor n crlf :
  0 <= save <= cursor -> cursor <= len -> n = cursor - save ->
  (forall pos, crlf = Some pos -> save <= pos <= len) ->
  let '(_, cur, n') := raw_value_loop mem len entire f save cursor n crlf in
  save <= cur <= len /\ 0 <= n' <= len - save.
Proof.
  revert cursor n crlf. induction f as [|f IH]; intros cursor n crlf Hs Hc Hn Hp;
    cbn [raw_value_loop]; [lia|].
  tok cursor; [|lia]. destruct crlf as [pos|].
  - specialize (Hp pos eq_refl). case_decide; [|lia]. apply IH; try lia. done.
  - apply IH; try lia. intros pos. case_decide; [|done]. intros [= <-]. lia.
Qed.

Lemma trim_bound f buf n : 0 <= n -> 0 <= trim_loop mem f buf n <= n.
Proof.
  revert n. induction f as [|f IH]; intros n Hn; cbn [trim_loop]; [lia|].
  destruct (Z.ltb_spec 0 n); [|lia]. case_match; [|lia]. specialize (IH (n - 1)). lia.
Qed.

Lemma until_crlf_bound f cursor :
  0 <= cursor <= len -> cursor <= (until_crlf_loop mem len entire f cursor).2 <= len.
Proof.
  revert cursor. induction f as [|f IH]; intros cursor Hc; cbn [until_crlf_loop snd]; [lia|].
  tok cursor; [|cbn; lia].
  specialize (IH (cursor + mp_length t)). destruct ty; cbn [snd]; lia.
Qed.

(** A slice of the data from [cursor] on. *)
Definition slice_in (cursor : Z) (s : memptr) : Prop :=
  cursor <= mp_buf s /\ 0 <= mp_length s /\ mp_buf s + mp_length s <= len.

Lemma skip_lws_in cursor :
  0 <= cursor <= len -> cursor <= (skip_lws mem len entire cursor).2 <= len.
Proof.
  intros Hc. unfold skip_lws. pose proof (skip_lws_bound (toks len cursor) cursor Hc).
  by destruct (skip_lws_loop _ _ _ _ _).
Qed.

Lemma match_non_ws_in cursor :
  0 <= cursor <= len ->
  let '(_, cur, s) := match_non_ws_string mem len entire cursor in
  cursor <= cur <= len /\ slice_in cursor s.
Proof.
  intros Hc. unfold match_non_ws_string, slice_in.
  pose proof (non_ws_bound (toks len cursor) cursor 0 Hc) as H.
  destruct (non_ws_loop _ _ _ _ _ _) as [[st cur] n]. destruct H.
  destruct (bool_decide _ || _); cbn [mp_buf mp_length]; lia.
Qed.

Lemma match_raw_value_in cursor :
  0 <= cursor <= len ->
  let '(_, cur, s) := match_raw_value mem len entire cursor in
  cursor <= cur <= len /\ slice_in cursor s.
Proof.
  intros Hc. unfold match_raw_value, slice_in.
  pose proof (raw_value_bound (toks len cursor) cursor cursor 0 None ltac:(lia) ltac:(lia)
    ltac:(lia) ltac:(done)) as H.
  destruct (raw_value_loop _ _ _ _ _ _ _ _) as [[st cur] n]. destruct H.
  case_decide; cbn [mp_buf mp_length]; [|lia].
  pose proof (trim_bound (Z.to_nat n) cursor n). lia.
Qed.

Lemma read_until_crlf_in cursor :
  0 <= cursor <= len ->
  let '(_, cur, s) := read_until_crlf mem len entire cursor in
  cursor <= cur <= len /\ slice_in cursor s.
Proof.
  intros Hc. unfold read_until_crlf, slice_in.
  pose proof (until_crlf_bound (toks len cursor) cursor Hc) as H.
  destruct (until_crlf_loop _ _ _ _ _) as [st cur]. cbn in *. lia.
Qed.

Lemma match_type_in cursor ty :
  0 <= cursor <= len ->
  let '(_, cur, s) := match_type mem len entire cursor ty in
  cursor <= cur <= len /\ forall t, s = Some t -> slice_in cursor t.
Proof.
  intros Hc. unfold match_type, slice_in. tok cursor; [|split; [lia|done]].
  split; [lia|]. intros t' [= <-]. lia.
Qed.

Lemma match_int_in cursor b :
  0 <= cursor <= len ->
  let '(_, cur, _) := match_int mem len entire cursor b in cursor <= cur <= len.
Proof.
  intros Hc. unfold match_int. tok cursor; [|lia]. destruct ty; try lia.
  destruct (_ || _); lia.
Qed.

Lemma match_char_in cursor c cs :
  0 <= cursor <= len -> cursor <= (match_char mem len cursor c cs).2 <= len.
Proof. intros Hc. unfold match_char. destruct (Z.leb_spec len cursor); cbn; lia. Qed.
End Bounds.

(** ** Numbers inside a token *)

Lemma digit_identifier b c v : b <= 36 -> digit_val b c = Some v -> is_identifier_char c = true.
Proof.
  unfold digit_val. intros Hb H.
  assert (Ha : 48 <= c <= 57 \/ 65 <= c <= 90 \/ 97 <= c <= 122).
  { revert H. unfold isdigit, isupper, islower. repeat case_match; intros; simplify_eq; lia. }
  unfold is_identifier_char. assert (is_separator_char c = false) as ->; [|lia].
  unfold is_separator_char, strchr. rewrite s8_small by lia.
  set (l := cstr _). vm_compute in l. subst l. cbn [existsb]. lia.
Qed.

Lemma isspace_not_identifier c : isspace c = true -> is_identifier_char c = false.
Proof.
  unfold isspace. intros H. assert (c = 32 \/ 9 <= c <= 13) as [->|Hc] by lia; [reflexivity|].
  unfold is_identifier_char. lia.
Qed.

Lemma tolower_x_identifier c : tolower c =? 120 = true -> is_identifier_char c = true.
Proof.
  unfold tolower, isupper. intros H.
  assert (c = 120 \/ c = 88) as [->| ->]; [|reflexivity..].
  destruct ((65 <=? c) && (c <=? 90)) eqn:E; lia.
Qed.

Lemma isxdigit_identifier c : isxdigit c = true -> is_identifier_char c = true.
Proof.
  intros H. apply (digit_identifier 16 c (if isdigit c then c - 48 else if islower c then c - 87 else c - 55)); [lia|].
  unfold isxdigit, digit_val, isdigit, islower, isupper in *.
  repeat case_match; try done; lia.
Qed.

Section TokenNumber.
Context (x : Z) (Hx : is_identifier_char x = false).

Lemma digit_val_stop b : b <= 36 -> digit_val b x = None.
Proof.
  intros Hb. destruct (digit_val b x) eqn:E; [|done].
  apply digit_identifier in E; [congruence|done].
Qed.

Lemma read_digits_stop b acc tok :
  b <= 36 -> exists v s, forall rest,
    read_digits b acc (tok ++ x :: rest) = (v, s ++ x :: rest).
Proof.
  intros Hb. revert acc. induction tok as [|c tok IH]; intros acc; cbn [app read_digits].
  { exists acc, []. intros rest. by rewrite digit_val_stop. }
  destruct (digit_val b c) as [d|]; [apply IH|]. by exists acc, (c :: tok).
Qed.

(** The hexadecimal prefix is skipped inside the token or not at all. *)
Lemma hex_prefix_stop b tok :
  exists tok', forall rest,
    (match tok ++ x :: rest with
     | z :: x' :: d :: _ =>
         if (b =? 16) && (z =? 48) && (tolower x' =? 120) && isxdigit d
         then drop 2 (tok ++ x :: rest) else tok ++ x :: rest
     | _ => tok ++ x :: rest end) = tok' ++ x :: rest.
Proof.
  assert (Hn : isxdigit x = false).
  { destruct (isxdigit x) eqn:E; [|done]. apply isxdigit_identifier in E. congruence. }
  assert (Ht : (tolower x =? 120) = false).
  { destruct (tolower x =? 120) eqn:E; [|done]. apply tolower_x_identifier in E. congruence. }
  assert (H0 : (x =? 48) = false).
  { destruct (Z.eqb_spec x 48) as [->|]; [done|done]. }
  destruct tok as [|z [|c [|d tok]]]; cbn [app].
  - exists []. intros [|y [|w r]]; try done. by rewrite H0, andb_false_r.
  - exists [z]. intros [|y r]; try done. by rewrite Ht, andb_false_r.
  - exists [z; c]. intros r. by rewrite Hn, andb_false_r.
  - destruct ((b =? 16) && (z =? 48) && (tolower c =? 120) && isxdigit d);
      [by exists (d :: tok)|by exists (z :: c :: d :: tok)].
Qed.

(** [strtol] on a token depends on the token and the character behind it only. *)
Lemma strtol_token b tok :
  b <= 36 -> tok <> [] -> Forall (fun c => is_identifier_char c = true) tok ->
  exists r, forall rest, strtol (tok ++ x :: rest) b = r.
Proof.
  intros Hb Hne Hid. destruct tok as [|c tok]; [done|].
  apply Forall_cons in Hid as [Hc Hid].
  assert (Hs : forall rest, skip_space (c :: tok ++ x :: rest) = c :: tok ++ x :: rest).
  { intros rest. cbn [skip_space]. destruct (isspace c) eqn:E; [|done].
    apply isspace_not_identifier in E. congruence. }
  unfold strtol. cbn [app].
  set (l2 := if (c =? MINUS) || (c =? PLUS) then tok else c :: tok).
  assert (Hl2 : forall rest, (if (c =? MINUS) || (c =? PLUS) then tok ++ x :: rest
     else c :: tok ++ x :: rest) = l2 ++ x :: rest)
    by (intros rest; unfold l2; by destruct ((c =? MINUS) || (c =? PLUS))).
  destruct (hex_prefix_stop b l2) as [l3 Hl3].
  destruct (read_digits_stop b 0 l3 Hb) as (v & s & Hv).
  eexists. intros rest. rewrite Hs, Hl2, Hl3, Hv. rewrite !zlen_cons, !zlen_app, !zlen_cons.
  replace (zlen s + (1 + zlen rest) =? zlen l3 + (1 + zlen rest)) with (zlen s =? zlen l3)
    by (apply eq_true_iff_eq; rewrite !Z.eqb_eq; lia).
  replace (1 + (zlen tok + (1 + zlen rest)) - (zlen s + (1 + zlen rest)))
    with (1 + zlen tok - zlen s) by lia.
  reflexivity.
Qed.
End TokenNumber.

(** ** More data: the scanner is stable *)

Section More.
Context (mem mem' : list Z) (len len' : Z) (entire' : bool).
Context (Hlen : 0 <= len <= len') (Hmem : len <= zlen mem) (Hmem' : len' <= zlen mem').
Context (Hsame : forall k, 0 <= k < len -> zget mem' k = zget mem k).

Lemma run_more p i :
  0 <= i <= len -> run mem len p i <> len -> run mem' len' p i = run mem len p i.
Proof.
  intros Hi Hne.
  destruct (run_spec mem len ltac:(lia) p i Hi) as (R1 & R2 & R3).
  destruct (run_spec mem' len' ltac:(lia) p i ltac:(lia)) as (Q1 & Q2 & Q3).
  set (r := run mem len p i) in *. set (q := run mem' len' p i) in *.
  destruct R3 as [?|R3]; [done|].
  destruct (Z.lt_trichotomy q r) as [H|[H|H]]; [|done|].
  - destruct Q3 as [?|Q3]; [lia|]. rewrite Hsame, R2 in Q3 by lia. done.
  - specialize (Q2 r ltac:(lia)). rewrite Hsame in Q2 by lia. congruence.
Qed.

Lemma quote_loop_more f f' i :
  0 <= i -> quote_loop mem len f i <> QuoteMore -> (f <= f')%nat ->
  quote_loop mem' len' f' i = quote_loop mem len f i.
Proof.
  revert f' i. induction f as [|f IH]; intros f' i Hi Hne Hf; [done|].
  destruct f' as [|f']; [lia|]. cbn [quote_loop] in *.
  destruct (Z.ltb_spec i len); [|done]. destruct (Z.ltb_spec i len'); [|lia].
  rewrite Hsame by lia. destruct (zget mem i =? DQUOTE); [done|].
  destruct (zget mem i =? BSLASH).
  - destruct (Z.ltb_spec (i + 1) len) as [Hl|Hl].
    + destruct (Z.ltb_spec (i + 1) len'); [|lia]. apply IH; [lia|done|lia].
    + destruct f as [|f]; [done|]. cbn [quote_loop] in Hne.
      destruct (Z.ltb_spec (i + 1) len); [lia|done].
  - destruct (is_qdtext_char (zget mem i)); [|done]. apply IH; [lia|done|lia].
Qed.

Lemma get_token_more cursor :
  0 <= cursor <= len ->
  scanner_get_token mem len false cursor <> TokErr PARSE_INCOMPLETE ->
  scanner_get_token mem' len' entire' cursor = scanner_get_token mem len false cursor.
Proof.
  intros Hc. unfold scanner_get_token. cbn [negb andb].
  destruct (Z.eqb_spec cursor len); [done|]. destruct (Z.eqb_spec cursor len'); [lia|].
  rewrite (Hsame cursor) by lia.
  assert (Hrun : forall p, run mem len p (cursor + 1) <> len ->
    run mem' len' p (cursor + 1) = run mem len p (cursor + 1)
    /\ (run mem len p (cursor + 1) =? len') = false).
  { intros p Hr. rewrite run_more by (lia || done). split; [done|].
    destruct (run_spec mem len ltac:(lia) p (cursor + 1)) as (R1 & _ & _); lia. }
  destruct (is_identifier_char (zget mem cursor)).
  { destruct (Z.eqb_spec (run mem len is_identifier_char (cursor + 1)) len); [done|].
    destruct (Hrun is_identifier_char) as [-> ->]; [done|]. by rewrite andb_false_r. }
  destruct ((zget mem cursor =? SP) || (zget mem cursor =? TAB)).
  { set (p := fun x => _). destruct (Z.eqb_spec (run mem len p (cursor + 1)) len); [done|].
    destruct (Hrun p) as [-> ->]; [done|]. by rewrite andb_false_r. }
  destruct (zget mem cursor =? TOKCHAR_CR).
  { destruct (Z.eqb_spec (cursor + 1) len); [done|].
    destruct (Z.eqb_spec (cursor + 1) len'); [lia|]. by rewrite Hsame by lia. }
  destruct (zget mem cursor =? TOKCHAR_LF); [done|].
  destruct (zget mem cursor =? DQUOTE); [|done].
  intros Hq. rewrite (quote_loop_more (Z.to_nat (len - cursor))) by (lia || (intros E; by rewrite E in Hq)).
  done.
Qed.

(** The matchers, one by one: unless the result is [PARSE_INCOMPLETE] it stays.
    Every loop starts with a token that stays and goes on inside the data. *)
Lemma get_token_next cursor t ty :
  0 <= cursor <= len -> scanner_get_token mem len false cursor = TokOk t ty ->
  0 <= cursor + mp_length t <= len.
Proof.
  intros Hc E. pose proof (get_token_spec mem len false ltac:(lia) cursor Hc) as H.
  rewrite E in H. lia.
Qed.

Ltac tok_more cursor :=
  let E := fresh "E" in
  let Et := fresh "Et" in
  pose proof (get_token_more cursor ltac:(lia)) as E;
  destruct (scanner_get_token mem len false cursor) as [?t ?ty|?s] eqn:Et;
  [rewrite (E ltac:(done)); pose proof (get_token_next cursor _ _ ltac:(lia) Et)
  |destruct (decide (s = PARSE_INCOMPLETE)) as [->|];
    [cbn [fst]; try done | rewrite (E ltac:(congruence))]];
  clear E.

Lemma skip_blank_more f f' cursor :
  0 <= cursor <= len -> (f <= f')%nat ->
  (skip_blank_lines_loop mem len false f cursor).1 <> PARSE_INCOMPLETE ->
  skip_blank_lines_loop mem' len' entire' f' cursor
  = skip_blank_lines_loop mem len false f cursor.
Proof.
  revert f' cursor. induction f as [|f IH]; intros f' cursor Hc Hf; [done|].
  destruct f' as [|f']; [lia|]. cbn [skip_blank_lines_loop]. tok_more cursor; [|done].
  destruct (is_ws_or_crlf ty); [|done]. apply IH; [lia|lia].
Qed.
Lemma skip_lws_more f f' cursor :
  0 <= cursor <= len -> (f <= f')%nat ->
  (skip_lws_loop mem len false f cursor).1 <> PARSE_INCOMPLETE ->
  skip_lws_loop mem' len' entire' f' cursor = skip_lws_loop mem len false f cursor.
Proof.
  revert f' cursor. induction f as [|f IH]; intros f' cursor Hc Hf; [done|].
  destruct f' as [|f']; [lia|]. cbn [skip_lws_loop]. tok_more cursor; [|done].
  destruct ty; try done.
  - apply IH; [lia|lia].
  - tok_more (cursor + mp_length t); [|done]. destruct ty; try done. apply IH; [lia|lia].
Qed.

Lemma non_ws_more f f' cursor n :
  0 <= cursor <= len -> (f <= f')%nat ->
  (non_ws_loop mem len false f cursor n).1.1 <> PARSE_INCOMPLETE ->
  non_ws_loop mem' len' entire' f' cursor n = non_ws_loop mem len false f cursor n.
Proof.
  revert f' cursor n. induction f as [|f IH]; intros f' cursor n Hc Hf; [done|].
  destruct f' as [|f']; [lia|]. cbn [non_ws_loop]. tok_more cursor; [|done].
  destruct (is_ws_or_crlf ty); [done|]. apply IH; [lia|lia].
Qed.

Lemma raw_value_more f f' save cursor n crlf :
  0 <= cursor <= len -> (f <= f')%nat ->
  (raw_value_loop mem len false f save cursor n crlf).1.1 <> PARSE_INCOMPLETE ->
  raw_value_loop mem' len' entire' f' save cursor n crlf
  = raw_value_loop mem len false f save cursor n crlf.
Proof.
  revert f' cursor n crlf. induction f as [|f IH]; intros f' cursor n crlf Hc Hf; [done|].
  destruct f' as [|f']; [lia|]. cbn [raw_value_loop]. tok_more cursor; [|done].
  destruct crlf; [case_decide; [|done]|]; (apply IH; [lia|lia]).
Qed.

Lemma until_crlf_more f f' cursor :
  0 <= cursor <= len -> (f <= f')%nat ->
  (until_crlf_loop mem len false f cursor).1 <> PARSE_INCOMPLETE ->
  until_crlf_loop mem' len' entire' f' cursor = until_crlf_loop mem len false f cursor.
Proof.
  revert f' cursor. induction f as [|f IH]; intros f' cursor Hc Hf; [done|].
  destruct f' as [|f']; [lia|]. cbn [until_crlf_loop]. tok_more cursor; [|done].
  destruct ty; try done; (apply IH; [lia|lia]).
Qed.

Lemma trim_more f buf n :
  0 <= buf -> buf + n <= len -> trim_loop mem' f buf n = trim_loop mem f buf n.
Proof.
  revert n. induction f as [|f IH]; intros n Hb Hn; cbn [trim_loop]; [done|].
  destruct (Z.ltb_spec 0 n); [|done]. rewrite Hsame by lia. case_match; [|done]. apply IH; lia.
Qed.

Lemma toks_le cursor : (toks len cursor <= toks len' cursor)%nat.
Proof. unfold toks. lia. Qed.

Lemma skip_lws_stable cursor :
  0 <= cursor <= len -> (skip_lws mem len false cursor).1 <> PARSE_INCOMPLETE ->
  skip_lws mem' len' entire' cursor = skip_lws mem len false cursor.
Proof.
  intros Hc Hn. unfold skip_lws in *.
  pose proof (skip_lws_more (toks len cursor) (toks len' cursor) cursor Hc (toks_le _)) as H.
  destruct (skip_lws_loop mem len false _ _) as [st cur]. cbn [fst] in *.
  rewrite andb_false_r in *. rewrite H by done.
  by rewrite bool_decide_eq_false_2 by done.
Qed.

Lemma match_non_ws_stable cursor :
  0 <= cursor <= len -> (match_non_ws_string mem len false cursor).1.1 <> PARSE_INCOMPLETE ->
  match_non_ws_string mem' len' entire' cursor = match_non_ws_string mem len false cursor.
Proof.
  intros Hc Hn. unfold match_non_ws_string in *.
  pose proof (non_ws_more (toks len cursor) (toks len' cursor) cursor 0 Hc (toks_le _)) as H.
  destruct (non_ws_loop mem len false _ _ _) as [[st cur] n]. cbn [fst] in *.
  rewrite andb_false_r in *.
  destruct (decide (st = PARSE_INCOMPLETE)) as [->|]; [done|]. rewrite H by done.
  by rewrite (bool_decide_eq_false_2 (st = PARSE_INCOMPLETE)) by done.
Qed.

Lemma match_raw_value_stable cursor :
  0 <= cursor <= len -> (match_raw_value mem len false cursor).1.1 <> PARSE_INCOMPLETE ->
  match_raw_value mem' len' entire' cursor = match_raw_value mem len false cursor.
Proof.
  intros Hc Hn. unfold match_raw_value in *.
  pose proof (raw_value_more (toks len cursor) (toks len' cursor) cursor cursor 0 None Hc
    (toks_le _)) as H.
  pose proof (raw_value_bound mem len false ltac:(lia) (toks len cursor) cursor cursor 0 None
    ltac:(lia) ltac:(lia) ltac:(lia) ltac:(done)) as B.
  destruct (raw_value_loop mem len false _ _ _ _ _) as [[st cur] n]. destruct B as [_ B].
  cbn [fst] in *. rewrite H by done. case_decide; [|done]. by rewrite trim_more by lia.
Qed.

Lemma read_until_crlf_stable cursor :
  0 <= cursor <= len -> (read_until_crlf mem len false cursor).1.1 <> PARSE_INCOMPLETE ->
  read_until_crlf mem' len' entire' cursor = read_until_crlf mem len false cursor.
Proof.
  intros Hc Hn. unfold read_until_crlf in *.
  pose proof (until_crlf_more (toks len cursor) (toks len' cursor) cursor Hc (toks_le _)) as H.
  destruct (until_crlf_loop mem len false _ _) as [st cur]. cbn [fst] in *. by rewrite H.
Qed.

Lemma match_type_stable cursor ty :
  0 <= cursor <= len -> (match_type mem len false cursor ty).1.1 <> PARSE_INCOMPLETE ->
  match_type mem' len' entire' cursor ty = match_type mem len false cursor ty.
Proof. intros Hc. unfold match_type. by tok_more cursor. Qed.

Lemma match_char_stable cursor c cs :
  0 <= cursor <= len -> (match_char mem len cursor c cs).1 <> PARSE_INCOMPLETE ->
  match_char mem' len' cursor c cs = match_char mem len cursor c cs.
Proof.
  intros Hc. unfold match_char. destruct (Z.leb_spec len cursor); [done|].
  destruct (Z.leb_spec len' cursor); [lia|]. by rewrite Hsame by lia.
Qed.
(** The text of a token and what follows, before and after more data arrived. *)
Lemma split_at b n l :
  0 <= b -> 0 <= n -> b + n < zlen l ->
  zdrop b l = zsub l b n ++ zget l (b + n) :: zdrop (b + n + 1) l.
Proof.
  intros Hb Hn Hl. rewrite <- zdrop_cons by lia. unfold zsub.
  rewrite <- (ztake_zdrop n (zdrop b l)) at 1. f_equal.
  rewrite zdrop_zdrop by lia. f_equal. lia.
Qed.

Lemma match_int_stable cursor b :
  b <= 36 -> 0 <= cursor <= len ->
  (match_int mem len false cursor b).1.1 <> PARSE_INCOMPLETE ->
  match_int mem' len' entire' cursor b = match_int mem len false cursor b.
Proof.
  intros Hb Hc. unfold match_int.
  pose proof (get_token_spec mem len false ltac:(lia) cursor Hc) as Hs.
  tok_more cursor; [|done]. destruct ty; try done. intros _.
  destruct Hs as (Ht & Hpos & Hle & Hid & He). rewrite Ht in *.
  destruct He as [[_ ?]|[He Hx]]; [done|].
  destruct (strtol_token (zget mem (cursor + mp_length t)) Hx b (zsub mem cursor (mp_length t)))
    as [r Hr]; [done| | |].
  - intros E0. apply (f_equal zlen) in E0. revert E0. unfold zsub.
    rewrite zlen_ztake, zlen_zdrop, (@zlen_nil Z). lia.
  - apply Forall_lookup_2. intros i c Hi. pose proof (lookup_lt_Some _ _ _ Hi) as Hlt.
    assert (Hlz : zlen (zsub mem cursor (mp_length t)) = mp_length t)
      by (unfold zsub; rewrite zlen_ztake, zlen_zdrop; lia).
    replace c with (zget (zsub mem cursor (mp_length t)) (Z.of_nat i)).
    2: { unfold zget. destruct (Z.ltb_spec (Z.of_nat i) 0); [lia|].
         rewrite Nat2Z.id. by apply nth_lookup_Some. }
    unfold zlen in Hlz. unfold zsub. rewrite zget_ztake_lt, zget_zdrop_nn by lia.
    apply Hid. lia.
  - assert (Hm : zsub mem' cursor (mp_length t) = zsub mem cursor (mp_length t)).
    { apply zget_eq; unfold zsub; [rewrite !zlen_ztake, !zlen_zdrop; lia|].
      intros k. rewrite zlen_ztake, zlen_zdrop. intros Hk.
      rewrite !zget_ztake_lt, !zget_zdrop_nn by lia. apply Hsame. lia. }
    rewrite (split_at cursor (mp_length t) mem), (split_at cursor (mp_length t) mem') by lia.
    rewrite Hm, (Hsame (cursor + mp_length t)), !Hr by lia. done.
Qed.
End More.

(** ** The pattern matcher *)

(** What [vfmatch] stores points into the data. *)
Definition arg_in (len cursor : Z) (a : arg) : Prop :=
  match a with AStr s => slice_in len cursor s | AInt _ | AUri _ => True end.

(** A directive whose meaning depends on nothing but the scanned characters:
    [%0] looks at the end of the data and [%U] lets the URI parser read on. *)
Definition dir_local (c : Z) : bool := negb (is_char_lit c "0") && negb (is_char_lit c "U").

Fixpoint fmt_local (fmt : list Z) : bool :=
  match fmt with
  | [] => true
  | c :: r =>
      if c =? PERCENT then
        match r with [] => true | d :: r' => dir_local d && fmt_local r' end
      else fmt_local r
  end.

(** Induction on pattern strings. *)
Lemma fmt_ind (P : list Z -> Prop) :
  P [] -> P [PERCENT] ->
  (forall d r, P r -> P (PERCENT :: d :: r)) ->
  (forall c r, c <> PERCENT -> P r -> P (c :: r)) ->
  forall fmt, P fmt.
Proof.
  intros H0 H1 H2 H3 fmt.
  enough (forall n l, (length l <= n)%nat -> P l) as H by (by eapply H).
  intros n. induction n as [|n IH]; intros [|c r] Hl; cbn [length] in Hl; try done; [lia|].
  destruct (Z.eq_dec c PERCENT) as [->|Hc]; [|apply H3; [done|apply IH; lia]].
  destruct r as [|d r]; [done|]. apply H2, IH. cbn [length] in Hl. lia.
Qed.

Section Patterns.
Context `{Resolver} (base : Z) (mem : list Z) (len : Z) (entire : bool).
Context (Hlen : 0 <= len <= zlen mem).

Lemma vfmatch_dir_in c cursor cs st cur cs' outs :
  0 <= cursor <= len ->
  vfmatch_dir base mem len entire c cursor cs = Some (st, cur, cs', outs) ->
  cursor <= cur <= len /\ Forall (arg_in len cursor) outs.
Proof.
  intros Hc. unfold vfmatch_dir.
  pose proof (match_raw_value_in mem len entire Hlen cursor Hc) as HR.
  pose proof (match_type_in mem len entire Hlen cursor TT_IDENTIFIER Hc) as HI.
  pose proof (match_type_in mem len entire Hlen cursor TT_CRLF Hc) as HC.
  pose proof (match_type_in mem len entire Hlen cursor TT_QUOTEDSTRING Hc) as HQ.
  pose proof (match_int_in mem len entire Hlen cursor (if is_char_lit c "d" then 10 else 16) Hc) as HN.
  pose proof (match_non_ws_in mem len entire Hlen cursor Hc) as HS.
  pose proof (read_until_crlf_in mem len entire Hlen cursor Hc) as HL.
  pose proof (match_char_in mem len cursor c cs Hc) as HM.
  pose proof (get_token_spec mem len entire Hlen cursor Hc) as HT.
  assert (Hopt : forall o, (forall t, o = Some t -> slice_in len cursor t) ->
    Forall (arg_in len cursor) (match o with Some s => [AStr s] | None => [] end)).
  { intros [t|] Ho; [|by apply Forall_nil]. apply Forall_singleton. by apply Ho. }
  destruct (match_raw_value _ _ _ _) as [[??] ?], (match_type _ _ _ _ TT_IDENTIFIER) as [[??] ?],
    (match_type _ _ _ _ TT_CRLF) as [[??] ?], (match_type _ _ _ _ TT_QUOTEDSTRING) as [[??] ?],
    (match_int _ _ _ _ _) as [[??] ?], (match_non_ws_string _ _ _ _) as [[??] ?],
    (read_until_crlf _ _ _ _) as [[??] ?], (match_char _ _ _ _ _) as [??].
  cbn [fst snd] in *.
  repeat match goal with |- (if ?b then _ else _) = _ -> _ => destruct b end; try done;
    try (intros [= <- <- <- <-]; split; [lia|]; try (by apply Forall_nil);
         try (apply Forall_singleton; by intuition); by apply Hopt).
  - intros [= <- <- <- <-]. split; [lia|]. destruct o2; by apply Forall_nil || apply Forall_singleton.
  - destruct (parse_uri _ _ _); intros [= <- <- <- <-]; (split; [lia|]);
      [by apply Forall_nil|by apply Forall_singleton].
  - destruct (scanner_get_token _ _ _ _); intros [= <- <- <- <-]; (split; [|by apply Forall_nil]).
    + case_decide; lia.
    + lia.
Qed.

Lemma vfmatch_lit_in c cursor cs :
  0 <= cursor <= len ->
  cursor <= (vfmatch_lit mem len entire c cursor cs).2 <= len.
Proof.
  intros Hc. unfold vfmatch_lit.
  pose proof (skip_lws_in mem len entire Hlen cursor Hc).
  pose proof (match_type_in mem len entire Hlen cursor TT_WHITESPACE Hc) as HW.
  pose proof (match_char_in mem len cursor c cs Hc).
  destruct (c =? SP); [done|]. destruct (c =? TAB); [|done].
  destruct (match_type _ _ _ _ _) as [[??] ?]. cbn. lia.
Qed.

Lemma arg_in_mono i j a : i <= j -> arg_in len j a -> arg_in len i a.
Proof. destruct a; try done. unfold arg_in, slice_in. lia. Qed.

Lemma vfmatch_loop_in fmt cursor cs outs st cur outs' :
  0 <= cursor <= len ->
  vfmatch_loop base mem len entire fmt cursor cs outs = Some (st, cur, outs') ->
  cursor <= cur <= len /\ exists new, outs' = outs ++ new /\ Forall (arg_in len cursor) new.
Proof.
  revert cursor cs outs. induction fmt as [| |d r IH|c r Hp IH] using fmt_ind;
    intros cursor cs outs Hc; cbn [vfmatch_loop].
  - intros [= <- <- <-]. split; [lia|]. exists []. by rewrite app_nil_r.
  - by rewrite Z.eqb_refl.
  - rewrite Z.eqb_refl.
    destruct (vfmatch_dir _ _ _ _ _ _ _) as [[[[st1 cur1] cs1] o]|] eqn:E; [|done].
    apply vfmatch_dir_in in E as [E1 E2]; [|done]. case_decide.
    + intros E. apply IH in E as (E3 & new & -> & E4); [|lia]. split; [lia|].
      exists (o ++ new). rewrite app_assoc. split; [done|]. apply Forall_app. split; [done|].
      eapply Forall_impl; [exact E4|]. intros a. apply arg_in_mono. lia.
    + intros [= <- <- <-]. split; [lia|]. by exists o.
  - rewrite (proj2 (Z.eqb_neq c PERCENT)) by done.
    pose proof (vfmatch_lit_in c cursor cs Hc) as HL.
    destruct (vfmatch_lit _ _ _ _ _ _) as [st1 cur1]. cbn [snd] in HL. case_decide.
    + intros E. apply IH in E as (E3 & new & -> & E4); [|lia]. split; [lia|].
      exists new. split; [done|]. eapply Forall_impl; [exact E4|]. intros a. apply arg_in_mono. lia.
    + intros [= <- <- <-]. split; [lia|]. exists []. by rewrite app_nil_r.
Qed.

Lemma vfmatch_in fmt cursor st cur outs :
  0 <= cursor <= len -> vfmatch base mem len entire fmt cursor = Some (st, cur, outs) ->
  cursor <= cur <= len /\ (st <> PARSE_OK -> cur = cursor) /\ Forall (arg_in len cursor) outs.
Proof.
  intros Hc. unfold vfmatch. destruct (vfmatch_loop _ _ _ _ _ _ _ _) as [[[st1 cur1] o]|] eqn:E;
    [|done].
  apply vfmatch_loop_in in E as (E1 & new & -> & E2); [|done]. intros [= <- <- <-].
  case_decide; split_and!; try done; lia.
Qed.
End Patterns.

(** ** The statuses of the matchers *)

Definition match_status (st : parse_status_t) : Prop :=
  st = PARSE_OK \/ st = PARSE_INCOMPLETE \/ st = PARSE_FAILURE \/ st = PARSE_NO_MATCH.

Section Statuses.
Context `{Resolver} (base : Z) (mem : list Z) (len : Z) (entire : bool).

Lemma get_token_err cursor s :
  scanner_get_token mem len entire cursor = TokErr s -> match_status s.
Proof.
  unfold scanner_get_token, match_status. repeat case_match; intros; simplify_eq; auto.
Qed.

Ltac tok_st :=
  match goal with
  | |- context [scanner_get_token ?m ?l ?e ?c] =>
      let E := fresh "E" in
      destruct (scanner_get_token m l e c) eqn:E; [|apply get_token_err in E; try done]
  end.

Lemma skip_blank_st f cursor : match_status (skip_blank_lines_loop mem len entire f cursor).1.
Proof.
  revert cursor. induction f as [|f IH]; intros cursor; cbn [skip_blank_lines_loop];
    [right; by left|]. tok_st. case_match; [apply IH|by left].
Qed.

Lemma skip_lws_st cursor : match_status (skip_lws mem len entire cursor).1.
Proof.
  unfold skip_lws. generalize (toks len cursor). intros f.
  assert (match_status (skip_lws_loop mem len entire f cursor).1) as HB.
  { revert cursor. induction f as [|f IH]; intros cursor; cbn [skip_lws_loop]; [right; by left|].
    tok_st. destruct ty; try (by left); [apply IH|]. tok_st. destruct ty; try (by left). apply IH. }
  destruct (skip_lws_loop _ _ _ _ _) as [st cur]. cbn in *. case_match; [by left|done].
Qed.

Lemma match_non_ws_st cursor : match_status (match_non_ws_string mem len entire cursor).1.1.
Proof.
  unfold match_non_ws_string. generalize (toks len cursor). intros f.
  assert (forall c n, match_status (non_ws_loop mem len entire f c n).1.1) as HB.
  { induction f as [|f IH]; intros c n; cbn [non_ws_loop]; [right; by left|].
    tok_st. case_match; [by left|apply IH]. }
  specialize (HB cursor 0). destruct (non_ws_loop _ _ _ _ _ _) as [[st cur] k]. cbn in HB.
  destruct (_ || _); [|done]. cbn. destruct (k =? 0); [right; right; by right|by left].
Qed.

Lemma match_raw_value_st cursor : match_status (match_raw_value mem len entire cursor).1.1.
Proof.
  unfold match_raw_value. generalize (toks len cursor). intros f.
  assert (forall s c n k, match_status (raw_value_loop mem len entire f s c n k).1.1) as HB.
  { induction f as [|f IH]; intros s c n k; cbn [raw_value_loop]; [right; by left|].
    tok_st. destruct k; [case_decide; [|by left]|]; apply IH. }
  specialize (HB cursor cursor 0 None).
  by destruct (raw_value_loop _ _ _ _ _ _ _ _) as [[st cur] k].
Qed.

Lemma read_until_crlf_st cursor : match_status (read_until_crlf mem len entire cursor).1.1.
Proof.
  unfold read_until_crlf. generalize (toks len cursor). intros f.
  assert (forall c, match_status (until_crlf_loop mem len entire f c).1) as HB.
  { induction f as [|f IH]; intros c; cbn [until_crlf_loop]; [right; by left|].
    tok_st. destruct ty; try apply IH. by left. }
  specialize (HB cursor). by destruct (until_crlf_loop _ _ _ _ _) as [st cur].
Qed.

Lemma match_type_st cursor ty : match_status (match_type mem len entire cursor ty).1.1.
Proof.
  unfold match_type. tok_st. cbn. case_decide; [by left|right; right; by right].
Qed.

Lemma match_int_st cursor b : match_status (match_int mem len entire cursor b).1.1.
Proof.
  unfold match_int. tok_st. destruct ty; try (right; right; by right).
  case_match; [right; right; by right|by left].
Qed.

Lemma match_char_st cursor c cs : match_status (match_char mem len cursor c cs).1.
Proof.
  unfold match_char. case_match; [right; by left|]. cbn. case_match; [by left|right; right; by right].
Qed.

Lemma vfmatch_dir_st c cursor cs r :
  vfmatch_dir base mem len entire c cursor cs = Some r -> match_status r.1.1.1.
Proof.
  unfold vfmatch_dir.
  pose proof (match_raw_value_st cursor). pose proof (match_type_st cursor).
  pose proof (match_int_st cursor). pose proof (match_non_ws_st cursor).
  pose proof (read_until_crlf_st cursor). pose proof (match_char_st cursor c cs).
  assert (match_status PARSE_OK) by (by left).
  assert (match_status PARSE_NO_MATCH) by (right; right; by right).
  pose proof (H1 TT_IDENTIFIER). pose proof (H1 TT_CRLF). pose proof (H1 TT_QUOTEDSTRING).
  pose proof (H2 (if is_char_lit c "d" then 10 else 16)).
  destruct (match_raw_value _ _ _ _) as [[??] ?], (match_type _ _ _ _ TT_IDENTIFIER) as [[??] ?],
    (match_type _ _ _ _ TT_CRLF) as [[??] ?], (match_type _ _ _ _ TT_QUOTEDSTRING) as [[??] ?],
    (match_int _ _ _ _ _) as [[??] ?], (match_non_ws_string _ _ _ _) as [[??] ?],
    (read_until_crlf _ _ _ _) as [[??] ?], (match_char _ _ _ _ _) as [??].
  cbn [fst snd] in *.
  repeat match goal with |- (if ?b then _ else _) = _ -> _ => destruct b end; try done;
    try (intros [= <-]; done).
  - destruct (parse_uri _ _ _); by intros [= <-].
  - tok_st; by intros [= <-].
  - intros [= <-]. cbn. by case_match.
Qed.

Lemma vfmatch_loop_st fmt cursor cs outs st cur outs' :
  vfmatch_loop base mem len entire fmt cursor cs outs = Some (st, cur, outs') -> match_status st.
Proof.
  revert cursor cs outs. induction fmt as [| |d r IH|c r Hp IH] using fmt_ind;
    intros cursor cs outs; cbn [vfmatch_loop].
  - intros [= <- <- <-]. by left.
  - by rewrite Z.eqb_refl.
  - rewrite Z.eqb_refl.
    destruct (vfmatch_dir _ _ _ _ _ _ _) as [[[[st1 cur1] cs1] o]|] eqn:E; [|done].
    apply vfmatch_dir_st in E. case_decide; [apply IH|by intros [= <- <- <-]].
  - rewrite (proj2 (Z.eqb_neq c PERCENT)) by done.
    assert (match_status (vfmatch_lit mem len entire c cursor cs).1) as HL.
    { unfold vfmatch_lit. destruct (c =? SP); [apply skip_lws_st|].
      destruct (c =? TAB); [apply match_type_st|apply match_char_st]. }
    destruct (vfmatch_lit _ _ _ _ _ _) as [st1 cur1]. cbn [fst] in HL.
    case_decide; [apply IH|by intros [= <- <- <-]].
Qed.

Lemma vfmatch_st fmt cursor st cur outs :
  vfmatch base mem len entire fmt cursor = Some (st, cur, outs) -> match_status st.
Proof.
  unfold vfmatch. destruct (vfmatch_loop _ _ _ _ _ _ _ _) as [[[??] ?]|] eqn:E; [|done].
  apply vfmatch_loop_st in E. by intros [= <- _ _].
Qed.
End Statuses.

Section PatternsMore.
Context `{Resolver} (base : Z) (mem mem' : list Z) (len len' : Z) (entire' : bool).
Context (Hlen : 0 <= len <= len') (Hmem : len <= zlen mem) (Hmem' : len' <= zlen mem').
Context (Hsame : forall k, 0 <= k < len -> zget mem' k = zget mem k).

(** A result that is not [PARSE_INCOMPLETE]. *)
Definition decided {A} (st : A -> parse_status_t) (r : option A) : Prop :=
  match r with Some x => st x <> PARSE_INCOMPLETE | None => False end.

Lemma vfmatch_dir_stable c cursor cs :
  0 <= cursor <= len -> dir_local c = true ->
  decided (fun x => x.1.1.1) (vfmatch_dir base mem len false c cursor cs) ->
  vfmatch_dir base mem' len' entire' c cursor cs = vfmatch_dir base mem len false c cursor cs.
Proof.
  intros Hc Hl. unfold dir_local in Hl. apply andb_true_iff in Hl as [H0 HU].
  apply negb_true_iff in H0, HU. unfold vfmatch_dir. rewrite H0, HU.
  pose proof (match_raw_value_stable mem mem' len len' entire' Hlen Hmem Hmem' Hsame cursor Hc) as HR.
  pose proof (match_type_stable mem mem' len len' entire' Hlen Hmem Hmem' Hsame cursor) as HT.
  pose proof (match_int_stable mem mem' len len' entire' Hlen Hmem Hmem' Hsame cursor
    (if is_char_lit c "d" then 10 else 16) ltac:(by case_match) Hc) as HN.
  pose proof (match_non_ws_stable mem mem' len len' entire' Hlen Hmem Hmem' Hsame cursor Hc) as HS.
  pose proof (read_until_crlf_stable mem mem' len len' entire' Hlen Hmem Hmem' Hsame cursor Hc) as HL.
  pose proof (match_char_stable mem mem' len len' Hlen Hsame cursor c cs Hc) as HM.
  pose proof (get_token_more mem mem' len len' entire' Hlen Hmem Hmem' Hsame cursor Hc) as HW.
  set (ib := if is_char_lit c "d" then 10 else 16) in *.
  destruct (is_char_lit c "R").
  { intros Hd. rewrite HR; [done|]. by destruct (match_raw_value _ _ _ _) as [[??] ?]. }
  destruct (is_char_lit c "s").
  { intros Hd. rewrite HT; [done|done|]. by destruct (match_type _ _ _ _ _) as [[??] ?]. }
  destruct (is_char_lit c "c").
  { intros Hd. rewrite HT; [done|done|]. by destruct (match_type _ _ _ _ _) as [[??] ?]. }
  destruct (is_char_lit c "d" || is_char_lit c "x").
  { intros Hd. rewrite HN; [done|]. by destruct (match_int _ _ _ _ _) as [[??] ?]. }
  destruct (is_char_lit c "S").
  { intros Hd. rewrite HS; [done|]. by destruct (match_non_ws_string _ _ _ _) as [[??] ?]. }
  destruct (is_char_lit c "L").
  { intros Hd. rewrite HL; [done|]. by destruct (read_until_crlf _ _ _ _) as [[??] ?]. }
  destruct ((c =? SP) || (c =? PERCENT)).
  { intros Hd. rewrite HM; [done|]. by destruct (match_char _ _ _ _ _) as [??]. }
  destruct (is_char_lit c "n"); [done|]. destruct (is_char_lit c "i"); [done|].
  destruct (is_char_lit c "q").
  { intros Hd. rewrite HT; [done|done|]. by destruct (match_type _ _ _ _ _) as [[??] ?]. }
  destruct (is_char_lit c "w"); [|done].
  intros Hd. rewrite HW; [done|]. intros E. by rewrite E in Hd.
Qed.

Lemma vfmatch_lit_stable c cursor cs :
  0 <= cursor <= len -> (vfmatch_lit mem len false c cursor cs).1 <> PARSE_INCOMPLETE ->
  vfmatch_lit mem' len' entire' c cursor cs = vfmatch_lit mem len false c cursor cs.
Proof.
  intros Hc. unfold vfmatch_lit. destruct (c =? SP).
  { by apply skip_lws_stable. }
  destruct (c =? TAB); [|by apply match_char_stable].
  intros Hn. rewrite (match_type_stable mem mem' len len' entire' Hlen Hmem Hmem' Hsame); try done.
Qed.

Lemma vfmatch_loop_stable fmt cursor cs outs :
  0 <= cursor <= len -> fmt_local fmt = true ->
  decided (fun x => x.1.1) (vfmatch_loop base mem len false fmt cursor cs outs) ->
  vfmatch_loop base mem' len' entire' fmt cursor cs outs
  = vfmatch_loop base mem len false fmt cursor cs outs.
Proof.
  revert cursor cs outs. induction fmt as [| |d r IH|c r Hp IH] using fmt_ind;
    intros cursor cs outs Hc Hl; cbn [vfmatch_loop fmt_local] in *; try done.
  - rewrite Z.eqb_refl in *. apply andb_true_iff in Hl as [Hd Hl].
    pose proof (vfmatch_dir_stable d cursor cs Hc Hd) as HD.
    pose proof (vfmatch_dir_in base mem len false ltac:(lia) d cursor cs) as HI.
    destruct (vfmatch_dir base mem len false d cursor cs) as [[[[st1 cur1] cs1] o]|]; [|done].
    intros Hdec. rewrite HD by (cbn; case_decide; [congruence|done]).
    case_decide; [|done]. apply IH; [|done|done].
    destruct (HI _ _ _ _ Hc eq_refl). lia.
  - rewrite (proj2 (Z.eqb_neq c PERCENT)) in * by done.
    pose proof (vfmatch_lit_stable c cursor cs Hc) as HD.
    pose proof (vfmatch_lit_in mem len false ltac:(lia) c cursor cs Hc) as HI.
    destruct (vfmatch_lit mem len false c cursor cs) as [st1 cur1]. cbn [fst snd] in *.
    intros Hdec. rewrite HD by (case_decide; [congruence|done]).
    case_decide; [|done]. apply IH; [lia|done|done].
Qed.

Lemma vfmatch_stable fmt cursor :
  0 <= cursor <= len -> fmt_local fmt = true ->
  decided (fun x => x.1.1) (vfmatch base mem len false fmt cursor) ->
  vfmatch base mem' len' entire' fmt cursor = vfmatch base mem len false fmt cursor.
Proof.
  intros Hc Hl Hd. unfold vfmatch in *. rewrite vfmatch_loop_stable; [done|done|done|].
  by destruct (vfmatch_loop _ _ _ _ _ _ _ _) as [[[??] ?]|].
Qed.
End PatternsMore.

(** ** Termination *)

Section Terminates.
Context (mem : list Z) (len : Z) (entire : bool) (Hlen : 0 <= len <= zlen mem).

Ltac tok cursor :=
  let H := fresh "Htok" in
  pose proof (get_token_spec mem len entire Hlen cursor ltac:(lia)) as H;
  destruct (scanner_get_token mem len entire cursor) as [?t ?ty|?s];
  [destruct H as (? & ? & ? & _)|].

Lemma quote_loop_fuel f g i :
  0 <= i <= len -> len - i < Z.of_nat f -> len - i < Z.of_nat g ->
  quote_loop mem len f i = quote_loop mem len g i.
Proof.
  revert g i. induction f as [|f IH]; intros [|g] i Hi Hf Hg; try lia. cbn [quote_loop].
  destruct (Z.ltb_spec i len); [|done]. repeat case_match; try done; apply IH; lia.
Qed.

Lemma skip_blank_fuel f g cursor :
  0 <= cursor <= len -> len - cursor < Z.of_nat f -> len - cursor < Z.of_nat g ->
  skip_blank_lines_loop mem len entire f cursor = skip_blank_lines_loop mem len entire g cursor.
Proof.
  revert g cursor. induction f as [|f IH]; intros [|g] cursor Hc Hf Hg; try lia.
  cbn [skip_blank_lines_loop]. tok cursor; [|done].
  destruct (is_ws_or_crlf ty); [|done]. apply IH; lia.
Qed.

Lemma skip_lws_fuel f g cursor :
  0 <= cursor <= len -> len - cursor < Z.of_nat f -> len - cursor < Z.of_nat g ->
  skip_lws_loop mem len entire f cursor = skip_lws_loop mem len entire g cursor.
Proof.
  revert g cursor. induction f as [|f IH]; intros [|g] cursor Hc Hf Hg; try lia.
  cbn [skip_lws_loop]. tok cursor; [|done]. destruct ty; try done; [apply IH; lia|].
  tok (cursor + mp_length t); [|done]. destruct ty; try done. apply IH; lia.
Qed.

Lemma non_ws_fuel f g cursor n :
  0 <= cursor <= len -> len - cursor < Z.of_nat f -> len - cursor < Z.of_nat g ->
  non_ws_loop mem len entire f cursor n = non_ws_loop mem len entire g cursor n.
Proof.
  revert g cursor n. induction f as [|f IH]; intros [|g] cursor n Hc Hf Hg; try lia.
  cbn [non_ws_loop]. tok cursor; [|done]. destruct (is_ws_or_crlf ty); [done|]. apply IH; lia.
Qed.

Lemma raw_value_fuel f g save cursor n crlf :
  0 <= cursor <= len -> len - cursor < Z.of_nat f -> len - cursor < Z.of_nat g ->
  raw_value_loop mem len entire f save cursor n crlf
  = raw_value_loop mem len entire g save cursor n crlf.
Proof.
  revert g cursor n crlf. induction f as [|f IH]; intros [|g] cursor n crlf Hc Hf Hg; try lia.
  cbn [raw_value_loop]. tok cursor; [|done].
  destruct crlf; [case_decide; [|done]|]; apply IH; lia.
Qed.

Lemma until_crlf_fuel f g cursor :
  0 <= cursor <= len -> len - cursor < Z.of_nat f -> len - cursor < Z.of_nat g ->
  until_crlf_loop mem len entire f cursor = until_crlf_loop mem len entire g cursor.
Proof.
  revert g cursor. induction f as [|f IH]; intros [|g] cursor Hc Hf Hg; try lia.
  cbn [until_crlf_loop]. tok cursor; [|done]. destruct ty; try done; apply IH; lia.
Qed.
End Terminates.

Module Scanning.

(** The tokens of the scanner: on every message and at every position inside
    it, a token starts at the cursor, is not empty, ends inside the data and has
    the shape of its type, identifiers and white space being as long as
    possible; the only errors are [PARSE_INCOMPLETE] and [PARSE_FAILURE]. *)
Theorem token_correct mem len entire cursor :
  0 <= cursor <= len -> len <= zlen mem ->
  match scanner_get_token mem len entire cursor with
  | TokOk t ty => mp_buf t = cursor /\ 0 < mp_length t /\ cursor + mp_length t <= len
                  /\ token_shape mem len entire t ty
  | TokErr s => s = PARSE_INCOMPLETE \/ s = PARSE_FAILURE
  end.
Proof. intros Hc Hl. apply get_token_spec; lia. Qed.

Lemma token_correct_witness :
  scanner_get_token (zs "HOST: x") 7 false 0 = TokOk (Memptr 0 4) TT_IDENTIFIER
  /\ token_shape (zs "HOST: x") 7 false (Memptr 0 4) TT_IDENTIFIER.
Proof.
  pose proof (token_correct (zs "HOST: x") 7 false 0 ltac:(lia)
    ltac:(vm_compute; congruence)) as H.
  change (scanner_get_token (zs "HOST: x") 7 false 0)
    with (TokOk (Memptr 0 4) TT_IDENTIFIER) in *.
  split; [reflexivity|]. apply H.
Defined.

(** The loops over tokens end: each of the five loops and the loop over a
    quoted string consumes a character per round, so with the fuel they get the
    result is the result for any larger fuel. *)
Theorem loops_terminate mem len entire cursor f :
  0 <= cursor <= len -> len <= zlen mem -> (toks len cursor <= f)%nat ->
  skip_blank_lines mem len entire cursor = skip_blank_lines_loop mem len entire f cursor
  /\ skip_lws_loop mem len entire (toks len cursor) cursor
     = skip_lws_loop mem len entire f cursor
  /\ non_ws_loop mem len entire (toks len cursor) cursor 0
     = non_ws_loop mem len entire f cursor 0
  /\ raw_value_loop mem len entire (toks len cursor) cursor cursor 0 None
     = raw_value_loop mem len entire f cursor cursor 0 None
  /\ until_crlf_loop mem len entire (toks len cursor) cursor
     = until_crlf_loop mem len entire f cursor
  /\ quote_loop mem len (toks len cursor) cursor = quote_loop mem len f cursor.
Proof.
  intros Hc Hl Hf. unfold skip_blank_lines, toks in *.
  split_and!; [apply skip_blank_fuel|apply skip_lws_fuel|apply non_ws_fuel|apply raw_value_fuel
    |apply until_crlf_fuel|apply quote_loop_fuel]; lia.
Qed.

Lemma loops_terminate_witness :
  skip_blank_lines [CR; LF; SP; 71] 4 false 0 = skip_blank_lines_loop [CR; LF; SP; 71] 4 false 9 0.
Proof.
  apply (loops_terminate [CR; LF; SP; 71] 4 false 0 9);
    [lia|vm_compute; congruence|vm_compute; repeat constructor].
Defined.

(** The pattern matcher stays inside the data and restores the cursor: the
    cursor it leaves is between the old one and the end of the data, it is the old
    one unless the result is [PARSE_OK], and every string it stores is a slice of
    the data behind the old cursor. *)
Theorem vfmatch_bounds `{Resolver} base mem len entire fmt cursor st cur outs :
  0 <= cursor <= len -> len <= zlen mem ->
  vfmatch base mem len entire fmt cursor = Some (st, cur, outs) ->
  cursor <= cur <= len /\ (st <> PARSE_OK -> cur = cursor)
  /\ Forall (arg_in len cursor) outs.
Proof. intros Hc Hl. apply vfmatch_in; lia. Qed.

Definition sample_line : list Z := zs "M-SEARCH * HTTP/1.1" ++ [CR; LF].

Lemma vfmatch_bounds_witness :
  exists cur outs,
    vfmatch (H := resolver_two) 1 sample_line 21 false
      (zs "%s" ++ [TAB] ++ zs "%S" ++ [TAB] ++ zs "%ihttp%w/%w%L%c") 0 = Some (PARSE_OK, cur, outs)
    /\ 0 <= cur <= 21 /\ Forall (arg_in 21 0) outs.
Proof.
  eexists _, _. split; [vm_compute; reflexivity|].
  destruct (vfmatch_bounds (H := resolver_two) 1 sample_line 21 false
    (zs "%s" ++ [TAB] ++ zs "%S" ++ [TAB] ++ zs "%ihttp%w/%w%L%c") 0 PARSE_OK 21
    [AStr (Memptr 0 8); AStr (Memptr 9 1); AStr (Memptr 16 3)]) as (H1 & _ & H3);
    [lia|vm_compute; congruence|vm_compute; reflexivity|]. by split.
Defined.

(** C5. Data may arrive in pieces: for a pattern without [%0] and [%U], a result
    other than [PARSE_INCOMPLETE] on the data received so far (status, cursor and
    stored values) is the result on any longer message that starts with these
    data. *)
Theorem vfmatch_incremental `{Resolver} base mem mem' len len' entire' fmt cursor r :
  0 <= cursor <= len -> len <= len' -> len <= zlen mem -> len' <= zlen mem' ->
  ztake len mem' = ztake len mem -> fmt_local fmt = true ->
  vfmatch base mem len false fmt cursor = Some r -> r.1.1 <> PARSE_INCOMPLETE ->
  vfmatch base mem' len' entire' fmt cursor = Some r.
Proof.
  intros Hc Hl Hm Hm' Ht Hf Hr Hn. rewrite <- Hr.
  apply vfmatch_stable; try done; try lia; [|by rewrite Hr].
  intros k Hk. apply (f_equal (fun l => zget l k)) in Ht. by rewrite !zget_ztake_lt in Ht by lia.
Qed.

Lemma vfmatch_incremental_witness :
  vfmatch (H := resolver_two) 1 (zs "1a;x" ++ [CR; LF] ++ zs "payload") 13 false (zs "%x%L%c") 0
  = Some (PARSE_OK, 6, [AInt 26; AStr (Memptr 2 2)]).
Proof.
  apply (vfmatch_incremental (H := resolver_two) 1 (zs "1a;x" ++ [CR; LF])
    (zs "1a;x" ++ [CR; LF] ++ zs "payload") 6 13 false (zs "%x%L%c") 0);
    try (vm_compute; intuition congruence).
Defined.
End Scanning.
