(* ===== verification/HttpParser.v ===== *)
(** * HTTP messages and their parser

    [upnp/src/genlib/net/http/httpparser.c] from [httpmsg_init] on, with the
    tables at its head, and [parsetools.c].

    The message buffer is a [membuffer]; the scanner of a parser points to that
    buffer, so only its cursor is a field here.  [entity.buf] is an offset into
    the message buffer.  The header list is the list of its items in order
    ([ListAddTail], [ListFind] from the head); its allocations are those of a
    header (88 bytes) and of a list node (24 bytes).  The block of [urlbuf] has
    address 1 for the tokens of [uri].  The assertions of this file hold by the
    way the functions are called, except for [parser_parse] on a complete message,
    where the release build returns [PARSE_FAILURE]. *)

From S2P Require Import Prelude CLib Membuffer Uri Tables Scanner.
#[local] Open Scope Z_scope.

(** [http_method_t] *)
Definition HTTPMETHOD_POST : Z := 0.
Definition HTTPMETHOD_MPOST : Z := 1.
Definition HTTPMETHOD_SUBSCRIBE : Z := 2.
Definition HTTPMETHOD_UNSUBSCRIBE : Z := 3.
Definition HTTPMETHOD_NOTIFY : Z := 4.
Definition HTTPMETHOD_GET : Z := 5.
Definition HTTPMETHOD_HEAD : Z := 6.
Definition HTTPMETHOD_MSEARCH : Z := 7.
Definition HTTPMETHOD_UNKNOWN : Z := 8.
Definition SOAPMETHOD_POST : Z := 9.
Definition HTTPMETHOD_SIMPLEGET : Z := 10.

(** The header identifiers the parser itself uses. *)
Definition HDR_UNKNOWN : Z := -1.
Definition HDR_CONTENT_LENGTH : Z := 3.
Definition HDR_CONTENT_TYPE : Z := 4.
Definition HDR_SOAPACTION : Z := 19.
Definition HDR_TRANSFER_ENCODING : Z := 22.

Definition HTTP_BAD_REQUEST : Z := 400.
Definition HTTP_LENGTH_REQUIRED : Z := 411.
Definition HTTP_INTERNAL_SERVER_ERROR : Z := 500.
Definition HTTP_NOT_IMPLEMENTED : Z := 501.
Definition HTTP_HTTP_VERSION_NOT_SUPPORTED : Z := 505.

Import StrIntMap.

Definition NUM_HTTP_METHODS : Z := 9.
Definition Http_Method_Table : list str_int_entry :=
  [Entry (zs "GET") HTTPMETHOD_GET; Entry (zs "HEAD") HTTPMETHOD_HEAD;
   Entry (zs "M-POST") HTTPMETHOD_MPOST; Entry (zs "M-SEARCH") HTTPMETHOD_MSEARCH;
   Entry (zs "NOTIFY") HTTPMETHOD_NOTIFY; Entry (zs "POST") HTTPMETHOD_POST;
   Entry (zs "SUBSCRIBE") HTTPMETHOD_SUBSCRIBE;
   Entry (zs "UNSUBSCRIBE") HTTPMETHOD_UNSUBSCRIBE; Entry (zs "POST") SOAPMETHOD_POST].

Definition NUM_HTTP_HEADER_NAMES : Z := 34.
Definition Http_Header_Names : list str_int_entry :=
  [Entry (zs "ACCEPT") 25; Entry (zs "ACCEPT-CHARSET") 27; Entry (zs "ACCEPT-ENCODING") 26;
   Entry (zs "ACCEPT-LANGUAGE") 28; Entry (zs "ACCEPT-RANGES") 29;
   Entry (zs "CACHE-CONTROL") 1; Entry (zs "CALLBACK") 2; Entry (zs "CONTENT-ENCODING") 30;
   Entry (zs "CONTENT-LANGUAGE") 31; Entry (zs "CONTENT-LENGTH") 3;
   Entry (zs "CONTENT-LOCATION") 32; Entry (zs "CONTENT-RANGE") 33;
   Entry (zs "CONTENT-TYPE") 4; Entry (zs "DATE") 5; Entry (zs "DT") 23; Entry (zs "EXT") 6;
   Entry (zs "HOST") 7; Entry (zs "IF-RANGE") 34; Entry (zs "LOCATION") 11;
   Entry (zs "MAN") 12; Entry (zs "MX") 13; Entry (zs "NT") 14; Entry (zs "NTS") 15;
   Entry (zs "RANGE") 35; Entry (zs "SEQ") 17; Entry (zs "SERVER") 16; Entry (zs "SID") 18;
   Entry (zs "SOAPACTION") 19; Entry (zs "ST") 20; Entry (zs "TE") 36;
   Entry (zs "TIMEOUT") 21; Entry (zs "TRANSFER-ENCODING") 22; Entry (zs "UID") 37;
   Entry (zs "USER-AGENT") 24].

Inductive parser_pos_t :=
  POS_REQUEST_LINE | POS_RESPONSE_LINE | POS_HEADERS | POS_ENTITY | POS_COMPLETE.
Inductive entread :=
  ENTREAD_DETERMINE_READ_METHOD | ENTREAD_USING_CLEN | ENTREAD_USING_CHUNKED
| ENTREAD_UNTIL_CLOSE | ENTREAD_CHUNKY_BODY | ENTREAD_CHUNKY_HEADERS.
#[export] Instance parser_pos_eq : EqDecision parser_pos_t.
Proof. solve_decision. Defined.
#[export] Instance entread_eq : EqDecision entread.
Proof. solve_decision. Defined.

(** [name] always is the contents of [name_buf]. *)
Record http_header_t := Header {
  name_id : Z;
  value : membuffer;
  name_buf : membuffer
}.

Record http_message_t := Message {
  initialized : bool;
  method : Z;
  uri : uri_type;
  request_method : Z;
  status_code : Z;
  status_msg : membuffer;
  amount_discarded : Z;
  is_request : bool;
  major_version : Z;
  minor_version : Z;
  headers : list http_header_t;
  entity_buf : option Z;
  entity_length : Z;
  msg : membuffer;
  urlbuf : option (list Z)
}.

Record http_parser_t := Parser {
  pmsg : http_message_t;
  http_error_code : Z;
  valid_ssdp_notify_hack : bool;
  position : parser_pos_t;
  ent_position : entread;
  content_length : Z;
  chunk_size : Z;
  entity_start_position : Z;
  cursor : Z
}.

(** Field updates. *)
Definition with_msg (p : http_parser_t) (f : http_message_t -> http_message_t) : http_parser_t :=
  Parser (f (pmsg p)) (http_error_code p) (valid_ssdp_notify_hack p) (position p)
         (ent_position p) (content_length p) (chunk_size p) (entity_start_position p) (cursor p).
Definition set_error (e : Z) (p : http_parser_t) : http_parser_t :=
  Parser (pmsg p) e (valid_ssdp_notify_hack p) (position p)
         (ent_position p) (content_length p) (chunk_size p) (entity_start_position p) (cursor p).
Definition set_position (x : parser_pos_t) (p : http_parser_t) : http_parser_t :=
  Parser (pmsg p) (http_error_code p) (valid_ssdp_notify_hack p) x
         (ent_position p) (content_length p) (chunk_size p) (entity_start_position p) (cursor p).
Definition set_ent (x : entread) (p : http_parser_t) : http_parser_t :=
  Parser (pmsg p) (http_error_code p) (valid_ssdp_notify_hack p) (position p)
         x (content_length p) (chunk_size p) (entity_start_position p) (cursor p).
Definition set_clen (x : Z) (p : http_parser_t) : http_parser_t :=
  Parser (pmsg p) (http_error_code p) (valid_ssdp_notify_hack p) (position p)
         (ent_position p) x (chunk_size p) (entity_start_position p) (cursor p).
Definition set_chunk (x : Z) (p : http_parser_t) : http_parser_t :=
  Parser (pmsg p) (http_error_code p) (valid_ssdp_notify_hack p) (position p)
         (ent_position p) (content_length p) x (entity_start_position p) (cursor p).
Definition set_start (x : Z) (p : http_parser_t) : http_parser_t :=
  Parser (pmsg p) (http_error_code p) (valid_ssdp_notify_hack p) (position p)
         (ent_position p) (content_length p) (chunk_size p) x (cursor p).
Definition set_cursor (x : Z) (p : http_parser_t) : http_parser_t :=
  Parser (pmsg p) (http_error_code p) (valid_ssdp_notify_hack p) (position p)
         (ent_position p) (content_length p) (chunk_size p) (entity_start_position p) x.
Definition set_hack (p : http_parser_t) : http_parser_t :=
  Parser (pmsg p) (http_error_code p) true (position p)
         (ent_position p) (content_length p) (chunk_size p) (entity_start_position p) (cursor p).

Definition set_method (x : Z) (m : http_message_t) : http_message_t :=
  Message (initialized m) x (uri m) (request_method m) (status_code m) (status_msg m)
          (amount_discarded m) (is_request m) (major_version m) (minor_version m) (headers m)
          (entity_buf m) (entity_length m) (msg m) (urlbuf m).
Definition set_uri (x : uri_type) (m : http_message_t) : http_message_t :=
  Message (initialized m) (method m) x (request_method m) (status_code m) (status_msg m)
          (amount_discarded m) (is_request m) (major_version m) (minor_version m) (headers m)
          (entity_buf m) (entity_length m) (msg m) (urlbuf m).
Definition set_urlbuf (x : option (list Z)) (m : http_message_t) : http_message_t :=
  Message (initialized m) (method m) (uri m) (request_method m) (status_code m) (status_msg m)
          (amount_discarded m) (is_request m) (major_version m) (minor_version m) (headers m)
          (entity_buf m) (entity_length m) (msg m) x.
Definition set_request (r : bool) (x : Z) (m : http_message_t) : http_message_t :=
  Message (initialized m) (method m) (uri m) x (status_code m) (status_msg m)
          (amount_discarded m) r (major_version m) (minor_version m) (headers m)
          (entity_buf m) (entity_length m) (msg m) (urlbuf m).
Definition set_version (j n : Z) (m : http_message_t) : http_message_t :=
  Message (initialized m) (method m) (uri m) (request_method m) (status_code m) (status_msg m)
          (amount_discarded m) (is_request m) j n (headers m)
          (entity_buf m) (entity_length m) (msg m) (urlbuf m).
Definition set_status (c : Z) (m : http_message_t) : http_message_t :=
  Message (initialized m) (method m) (uri m) (request_method m) c (status_msg m)
          (amount_discarded m) (is_request m) (major_version m) (minor_version m) (headers m)
          (entity_buf m) (entity_length m) (msg m) (urlbuf m).
Definition set_status_msg (x : membuffer) (m : http_message_t) : http_message_t :=
  Message (initialized m) (method m) (uri m) (request_method m) (status_code m) x
          (amount_discarded m) (is_request m) (major_version m) (minor_version m) (headers m)
          (entity_buf m) (entity_length m) (msg m) (urlbuf m).
Definition set_discarded (x : Z) (m : http_message_t) : http_message_t :=
  Message (initialized m) (method m) (uri m) (request_method m) (status_code m) (status_msg m)
          x (is_request m) (major_version m) (minor_version m) (headers m)
          (entity_buf m) (entity_length m) (msg m) (urlbuf m).
Definition set_headers (x : list http_header_t) (m : http_message_t) : http_message_t :=
  Message (initialized m) (method m) (uri m) (request_method m) (status_code m) (status_msg m)
          (amount_discarded m) (is_request m) (major_version m) (minor_version m) x
          (entity_buf m) (entity_length m) (msg m) (urlbuf m).
Definition set_entity (b : option Z) (n : Z) (m : http_message_t) : http_message_t :=
  Message (initialized m) (method m) (uri m) (request_method m) (status_code m) (status_msg m)
          (amount_discarded m) (is_request m) (major_version m) (minor_version m) (headers m)
          b n (msg m) (urlbuf m).
Definition set_buf (x : membuffer) (m : http_message_t) : http_message_t :=
  Message (initialized m) (method m) (uri m) (request_method m) (status_code m) (status_msg m)
          (amount_discarded m) (is_request m) (major_version m) (minor_version m) (headers m)
          (entity_buf m) (entity_length m) x (urlbuf m).

Definition uri0 : uri_type := Uri RELATIVE token0 ABS_PATH token0 token0 hostport0.
Definition membuffer0 : membuffer := Membuffer None 0 0 0.
Definition memptr0 : memptr := Memptr 0 0.

(** The string that a stored slice denotes, and the string that starts there. *)
Definition arg_str (outs : list arg) (i : nat) : memptr :=
  match outs !! i with Some (AStr s) => s | _ => memptr0 end.
Definition arg_int (outs : list arg) (i : nat) : option Z :=
  match outs !! i with Some (AInt z) => Some z | _ => None end.
Definition slice (mem : list Z) (s : memptr) : list Z := zsub mem (mp_buf s) (mp_length s).
Definition from (mem : list Z) (s : memptr) : list Z := zdrop (mp_buf s) mem.

Section HttpParser.
Context `{Malloc, Resolver}.

(** ** Messages *)

Definition httpmsg_init (m : http_message_t) : http_message_t :=
  Message true (method m) (uri m) (request_method m) (status_code m)
          (membuffer_init (status_msg m)) (amount_discarded m) (is_request m)
          (major_version m) (minor_version m) [] None 0 (membuffer_init (msg m)) (urlbuf m).

(** The headers and the three buffers are freed; [urlbuf] keeps its value. *)
Definition httpmsg_destroy (m : http_message_t) : http_message_t :=
  if initialized m then
    Message false (method m) (uri m) (request_method m) (status_code m)
            (membuffer_destroy (status_msg m)) (amount_discarded m) (is_request m)
            (major_version m) (minor_version m) [] (entity_buf m) (entity_length m)
            (membuffer_destroy (msg m)) (urlbuf m)
  else m.

Definition httpmsg_compare (h1 h2 : http_header_t) : bool := name_id h1 =? name_id h2.

(** The position of the first header that satisfies a test. *)
Fixpoint find_hdr (p : http_header_t -> bool) (l : list http_header_t) : option nat :=
  match l with
  | [] => None
  | h :: r => if p h then Some 0%nat else S <$> find_hdr p r
  end.

Definition httpmsg_find_hdr_str (m : http_message_t) (header_name : list Z) : option nat :=
  find_hdr (fun h => memptr_cmp_nocase (mb_block (name_buf h)) (mb_length (name_buf h))
                       header_name =? 0) (headers m).
Definition httpmsg_find_hdr (m : http_message_t) (header_name_id : Z) : option nat :=
  find_hdr (fun h => httpmsg_compare h (Header header_name_id membuffer0 membuffer0)) (headers m).

(** ** Raw values *)

Definition raw_to_int (buf : list Z) (length base : Z) : Z :=
  if length =? 0 then -1
  else
    let r := strtol buf base in
    if (st_val r <? 0) || negb (st_end r =? length)
       || (((st_val r =? LONG_MIN) || (st_val r =? LONG_MAX)) && st_erange r)
    then -1 else s32 (st_val r).

(** The index and the block, in lower case up to its first NUL. *)
Definition raw_find_str (buf : list Z) (length : Z) (str : list Z) : Z * list Z :=
  let low := map tolower (cstr buf) ++ zdrop (strlen buf) buf in
  (match strstr (zset low length 0) str with Some i => s32 i | None => -1 end,
   (* restore the length byte *) zset low length (zget buf length)).

(** ** Request and response lines *)

Definition parser0 (m : http_message_t) : http_parser_t :=
  Parser m HTTP_BAD_REQUEST false POS_REQUEST_LINE ENTREAD_DETERMINE_READ_METHOD 0 0 0 0.

(** The structure is cleared first. *)
Definition parser_init : http_parser_t :=
  parser0 (httpmsg_init (Message false 0 uri0 0 0 membuffer0 0 false 0 0 [] None 0
                                 membuffer0 None)).

Definition parser_request_init : http_parser_t :=
  set_position POS_REQUEST_LINE
    (with_msg parser_init (fun m => set_request true (request_method m) m)).
Definition parser_response_init (request_method : Z) : http_parser_t :=
  set_position POS_RESPONSE_LINE
    (with_msg parser_init (fun m => set_discarded 0 (set_request false request_method m))).

(** The scanner's view of the message. *)
Definition pmem (p : http_parser_t) : list Z := mb_block (msg (pmsg p)).
Definition plen (p : http_parser_t) : Z := mb_length (msg (pmsg p)).

(** [match (&parser->scanner, fmt, ...)]: status, parser and stored values. *)
Definition pmatch (p : http_parser_t) (fmt : list Z)
  : parse_status_t * http_parser_t * list arg :=
  match vfmatch 1 (pmem p) (plen p) false fmt (cursor p) with
  | Some (st, cur, outs) => (st, set_cursor cur p, outs)
  | None => (PARSE_FAILURE, p, [])
  end.

Definition fmt_simple_request : list Z := zs "%s" ++ [TAB] ++ zs "%S%w%c".
Definition fmt_request : list Z := zs "%s" ++ [TAB] ++ zs "%S" ++ [TAB] ++ zs "%ihttp%w/%w%L%c".
Definition fmt_response : list Z := zs "%ihttp%w/%w%L%c".
Definition fmt_header : list Z := zs " : %R%c".
Definition fmt_crlf : list Z := zs "%c".
Definition fmt_chunk : list Z := zs "%x%L%c".

Definition method_index (p : http_parser_t) (s : memptr) : Z :=
  map_str_to_int (from (pmem p) s) (mp_length s) Http_Method_Table NUM_HTTP_METHODS true.

(** [urlbuf] and [uri] from the URL string; [false]: the parse fails (the fields that
    [parse_uri] had already written by then stay unread and are not recorded). *)
Definition store_url (p : http_parser_t) (url_str : memptr) : bool * http_parser_t :=
  match str_alloc (from (pmem p) url_str) (mp_length url_str) with
  | None =>
      (false, set_error HTTP_INTERNAL_SERVER_ERROR (with_msg p (set_urlbuf None)))
  | Some b =>
      let p := with_msg p (set_urlbuf (Some b)) in
      match parse_uri b 1 (mp_length url_str) with
      | inl _ => (false, p)
      | inr u => (true, with_msg p (set_uri u))
      end
  end.

Definition request_simple (p : http_parser_t) (outs : list arg) : parse_status_t * http_parser_t :=
  let index := method_index p (arg_str outs 0) in
  if index <? 0 then (PARSE_FAILURE, set_error HTTP_NOT_IMPLEMENTED p)
  else if negb (id (entry Http_Method_Table index) =? HTTPMETHOD_GET)
  then (PARSE_FAILURE, set_error HTTP_BAD_REQUEST p)
  else
    let p := with_msg p (set_method HTTPMETHOD_SIMPLEGET) in
    let '(ok, p) := store_url p (arg_str outs 1) in
    if ok then (PARSE_SUCCESS, set_position POS_COMPLETE p) else (PARSE_FAILURE, p).

Definition request_full (p : http_parser_t) (outs : list arg) : parse_status_t * http_parser_t :=
  let '(ok, p) := store_url p (arg_str outs 1) in
  if negb ok then (PARSE_FAILURE, p)
  else
    let index := method_index p (arg_str outs 0) in
    if index <? 0 then (PARSE_FAILURE, set_error HTTP_NOT_IMPLEMENTED p)
    else
      (* scan version *)
      let nums := (sscanf_d_dot_d (slice (pmem p) (arg_str outs 2))).1 in
      let p := with_msg p (fun m => set_version (nth 0 nums (major_version m))
                                                (nth 1 nums (minor_version m)) m) in
      let mid := id (entry Http_Method_Table index) in
      if negb (zlen nums =? 2) || (major_version (pmsg p) <? 0)
         || ((major_version (pmsg p) =? 1) && (minor_version (pmsg p) <? 1)
             && (mid =? HTTPMETHOD_MSEARCH))
      then (PARSE_FAILURE, set_error HTTP_HTTP_VERSION_NOT_SUPPORTED p)
      else (PARSE_OK, set_position POS_HEADERS (with_msg p (set_method mid))).

Definition parser_parse_requestline (p : http_parser_t) : parse_status_t * http_parser_t :=
  let '(status, cur) := skip_blank_lines (pmem p) (plen p) false (cursor p) in
  let p := set_cursor cur p in
  if negb (bool_decide (status = PARSE_OK)) then (status, p)
  else
    let '(status, p, outs) := pmatch p fmt_simple_request in
    if decide (status = PARSE_OK) then request_simple p outs
    else
      let '(status, p, outs) := pmatch p fmt_request in
      if negb (bool_decide (status = PARSE_OK)) then (status, p)
      else request_full p outs.

(** The pointer behind the third number of the line. *)
Fixpoint skip_ints (n : nat) (mem : list Z) (p : Z) : Z :=
  match n with
  | O => p
  | S n' => skip_ints n' mem (scan isdigit mem (scan (fun c => negb (isdigit c)) mem p))
  end.

Definition response_line (p : http_parser_t) (line : memptr) : parse_status_t * http_parser_t :=
  let nums := sscanf_d_dot_d_d (slice (pmem p) line) in
  let p := with_msg p (fun m => set_status (nth 2 nums (status_code m))
             (set_version (nth 0 nums (major_version m)) (nth 1 nums (minor_version m)) m)) in
  let m := pmsg p in
  if negb (zlen nums =? 3) || (major_version m <? 0) || (minor_version m <? 0)
     || (status_code m <? 0) then (PARSE_FAILURE, p)
  else
    let mem := pmem p in
    (* point to status msg *)
    let q := skip_ints 3 mem (mp_buf line) in
    if negb (zget mem q =? SP) && negb (zget mem q =? TAB) then (PARSE_FAILURE, p)
    else
      let q := scan (fun c => (c =? SP) || (c =? TAB)) mem q in
      let n := u64 (mp_length line - (q - mp_buf line)) in
      let '(rc, sm) := membuffer_assign (status_msg m) (Some (zdrop q mem)) n in
      let p := with_msg p (set_status_msg sm) in
      if negb (rc =? 0) then (PARSE_FAILURE, set_error HTTP_INTERNAL_SERVER_ERROR p)
      else (PARSE_OK, set_position POS_HEADERS p).

Definition parser_parse_responseline (p : http_parser_t) : parse_status_t * http_parser_t :=
  let '(status, cur) := skip_blank_lines (pmem p) (plen p) false (cursor p) in
  let p := set_cursor cur p in
  if negb (bool_decide (status = PARSE_OK)) then (status, p)
  else
    let '(status, p, outs) := pmatch p fmt_response in
    if negb (bool_decide (status = PARSE_OK)) then (status, p)
    else response_line p (arg_str outs 0).

(** ** Headers *)

Definition sizeof_http_header_t : Z := 88.
Definition sizeof_ListNode : Z := 24.

(** [ListAddTail] on the header list: the node is allocated. *)
Definition headers_add (h : http_header_t) (m : http_message_t) : bool * http_message_t :=
  if alloc_ok sizeof_ListNode then (true, set_headers (headers m ++ [h]) m) else (false, m).

(** A header that is not in the list yet. *)
Definition add_header (p : http_parser_t) (token hdr_value : memptr) (header_id : Z)
  : option parse_status_t * http_parser_t :=
  if negb (alloc_ok sizeof_http_header_t)
  then (Some PARSE_FAILURE, set_error HTTP_INTERNAL_SERVER_ERROR p)
  else
    let nb := membuffer_init membuffer0 in
    let vb := membuffer_init membuffer0 in
    (* value can be 0 length *)
    let '(vbuf, vlen) :=
      if mp_length hdr_value =? 0 then ([0; 0], 1)
      else (from (pmem p) hdr_value, mp_length hdr_value) in
    let '(rc1, nb) := membuffer_assign nb (Some (from (pmem p) token)) (mp_length token) in
    if negb (rc1 =? 0) then (Some PARSE_FAILURE, set_error HTTP_INTERNAL_SERVER_ERROR p)
    else
      let '(rc2, vb) := membuffer_assign vb (Some vbuf) vlen in
      if negb (rc2 =? 0) then (Some PARSE_FAILURE, set_error HTTP_INTERNAL_SERVER_ERROR p)
      else
        let '(ok, m) := headers_add (Header header_id vb nb) (pmsg p) in
        if ok then (None, with_msg p (fun _ => m))
        else (Some PARSE_FAILURE, set_error HTTP_INTERNAL_SERVER_ERROR p).

(** The value is appended to header [i] of the list. *)
Definition append_value (p : http_parser_t) (i : nat) (hdr_value : memptr)
  : option parse_status_t * http_parser_t :=
  match headers (pmsg p) !! i with
  | None => (None, p)
  | Some h =>
      let '(ret, v) := membuffer_append_str (value h) (zs ", ") in
      let '(ret2, v) := membuffer_append v (Some (from (pmem p) hdr_value)) (mp_length hdr_value) in
      let p := with_msg p (fun m =>
                 set_headers (<[i := Header (name_id h) v (name_buf h)]> (headers m)) m) in
      if (ret =? UPNP_E_OUTOF_MEMORY) || (ret2 =? UPNP_E_OUTOF_MEMORY)
      then (Some PARSE_FAILURE, set_error HTTP_INTERNAL_SERVER_ERROR p)
      else (None, p)
  end.

(** The identifier of a header name and the header it extends. *)
Definition header_index (p : http_parser_t) (token : memptr) : Z :=
  map_str_to_int (from (pmem p) token) (mp_length token) Http_Header_Names
                 NUM_HTTP_HEADER_NAMES false.
Definition header_target (p : http_parser_t) (token : memptr) : Z * option nat * http_parser_t :=
  let index := header_index p token in
  if negb (index =? -1) then
    let header_id := id (entry Http_Header_Names index) in
    let p := if header_id =? HDR_SOAPACTION
             then with_msg p (set_method SOAPMETHOD_POST) else p in
    (header_id, httpmsg_find_hdr (pmsg p) header_id, p)
  else (HDR_UNKNOWN, httpmsg_find_hdr_str (pmsg p) (slice (pmem p) token), p).

(** One header: [None] when the loop goes on. *)
Definition store_header (p : http_parser_t) (token hdr_value : memptr)
  : option parse_status_t * http_parser_t :=
  let '(header_id, orig_header, p) := header_target p token in
  match orig_header with
  | None => add_header p token hdr_value header_id
  | Some i => if 0 <? mp_length hdr_value then append_value p i hdr_value else (None, p)
  end.

(** The end of the headers. *)
Definition headers_end (p : http_parser_t) : parse_status_t * http_parser_t :=
  if is_request (pmsg p) && (method (pmsg p) =? HTTPMETHOD_POST)
  then (* post entity parsing is handled separately *) (PARSE_SUCCESS, set_position POS_COMPLETE p)
  else (PARSE_OK, set_position POS_ENTITY p).

Fixpoint parse_headers_loop (fuel : nat) (p : http_parser_t) : parse_status_t * http_parser_t :=
  match fuel with
  | O => (PARSE_INCOMPLETE, p)
  | S f =>
      let save_pos := cursor p in
      match scanner_get_token (pmem p) (plen p) false save_pos with
      | TokErr st => (st, p)
      | TokOk token ty =>
          let p := set_cursor (save_pos + mp_length token) p in
          match ty with
          | TT_CRLF => headers_end p
          | TT_IDENTIFIER =>
              let '(status, p, outs) := pmatch p fmt_header in
              if negb (bool_decide (status = PARSE_OK)) then (status, set_cursor save_pos p)
              else
                match store_header p token (arg_str outs 0) with
                | (Some st, p) => (st, p)
                | (None, p) => parse_headers_loop f p
                end
          | _ => (PARSE_FAILURE, p)
          end
      end
  end.

Definition parser_parse_headers (p : http_parser_t) : parse_status_t * http_parser_t :=
  parse_headers_loop (toks (plen p) (cursor p)) p.

(** ** The message body *)

Definition parser_parse_entity_using_clen (p : http_parser_t) : parse_status_t * http_parser_t :=
  let len := u64 (plen p - entity_start_position p + amount_discarded (pmsg p)) in
  let p := with_msg p (fun m => set_entity (entity_buf m) len m) in
  if len <? content_length p then (PARSE_INCOMPLETE, p)
  else
    let p := if content_length p <? len then
               (* silently discard extra data *)
               let k := u64 (entity_start_position p + content_length p
                             - amount_discarded (pmsg p)) in
               with_msg p (fun m => set_buf (set_block (msg m) (fun b => zset b k 0)) m)
             else p in
    let p := with_msg p (set_entity (Some (entity_start_position p)) (content_length p)) in
    (PARSE_SUCCESS, set_position POS_COMPLETE p).

Definition delete_range (a b : Z) (p : http_parser_t) : http_parser_t :=
  with_msg p (fun m => set_buf (membuffer_delete (msg m) a (b - a)) m).

Definition parser_parse_chunky_body (p : http_parser_t) : parse_status_t * http_parser_t :=
  if chunk_size p <=? u64 (plen p - cursor p) then
    (* move to next chunk *)
    let save_pos := cursor p + chunk_size p in
    let '(status, p, _) := pmatch (set_cursor save_pos p) fmt_crlf in
    if negb (bool_decide (status = PARSE_OK))
    then (status, set_cursor (cursor p - chunk_size p) p)
    else
      let p := set_cursor save_pos (delete_range save_pos (cursor p) p) in
      let p := with_msg p (fun m => set_entity (entity_buf m)
                                               (u64 (entity_length m + chunk_size p)) m) in
      (PARSE_CONTINUE_1, set_ent ENTREAD_USING_CHUNKED p)
  else (PARSE_INCOMPLETE, p).

Definition parser_parse_chunky_headers (p : http_parser_t) : parse_status_t * http_parser_t :=
  let save_pos := cursor p in
  let '(status, p) := parser_parse_headers p in
  if decide (status = PARSE_OK) then
    let p := set_cursor save_pos (delete_range save_pos (cursor p) (set_position POS_COMPLETE p)) in
    (PARSE_SUCCESS,
     with_msg p (fun m => set_entity (Some (entity_start_position p)) (entity_length m) m))
  else (status, p).

(** [(int * ) &parser->chunk_size]: the low half of the field is written. *)
Definition store_low_int (old v : Z) : Z := old / 2 ^ 32 * 2 ^ 32 + u32 v.

Definition parser_parse_chunky_entity (p : http_parser_t) : parse_status_t * http_parser_t :=
  let save_pos := cursor p in
  let '(status, p, outs) := pmatch p fmt_chunk in
  let p := match arg_int outs 0 with
           | Some v => set_chunk (store_low_int (chunk_size p) v) p
           | None => p
           end in
  if negb (bool_decide (status = PARSE_OK)) then (status, set_cursor save_pos p)
  else
    (* remove chunk info just matched; just retain data *)
    let p := set_cursor save_pos (delete_range save_pos (cursor p) p) in
    if chunk_size p =? 0 then
      let len := u64 (cursor p - entity_start_position p + amount_discarded (pmsg p)) in
      (PARSE_CONTINUE_1,
       set_ent ENTREAD_CHUNKY_HEADERS (with_msg p (fun m => set_entity (entity_buf m) len m)))
    else (PARSE_CONTINUE_1, set_ent ENTREAD_CHUNKY_BODY p).

Definition parser_parse_entity_until_close (p : http_parser_t) : parse_status_t * http_parser_t :=
  let len := u64 (plen p - entity_start_position p + amount_discarded (pmsg p)) in
  (PARSE_INCOMPLETE_ENTITY,
   set_cursor (plen p) (with_msg p (set_entity (Some (entity_start_position p)) len))).

(** No body for HEAD, GET, SUBSCRIBE, UNSUBSCRIBE and M-SEARCH requests ... *)
Definition request_no_body (meth : Z) : bool :=
  (meth =? HTTPMETHOD_HEAD) || (meth =? HTTPMETHOD_GET) || (meth =? HTTPMETHOD_SUBSCRIBE)
  || (meth =? HTTPMETHOD_UNSUBSCRIBE) || (meth =? HTTPMETHOD_MSEARCH).
(** ... and for responses 1xx, 204, 304 and those to some requests. *)
Definition response_no_body (response_code req : Z) : bool :=
  (response_code =? 204) || (response_code =? 304)
  || ((100 <=? response_code) && (response_code <=? 199))
  || (req =? HTTPMETHOD_HEAD) || (req =? HTTPMETHOD_MSEARCH) || (req =? HTTPMETHOD_SUBSCRIBE)
  || (req =? HTTPMETHOD_UNSUBSCRIBE) || (req =? HTTPMETHOD_NOTIFY).

(** [raw_find_str (&hdr_value, "chunked") >= 0] on header [i]; the value of the
    header is turned into lower case. *)
Definition is_chunked (i : nat) (m : http_message_t) : bool * http_message_t :=
  match headers m !! i with
  | None => (false, m)
  | Some h =>
      let '(k, low) := raw_find_str (mb_block (value h)) (mb_length (value h)) (zs "chunked") in
      (0 <=? k, set_headers (<[i := Header (name_id h) (set_block (value h) (fun _ => low))
                                           (name_buf h)]> (headers m)) m)
  end.

Definition parser_get_entity_read_method (p : http_parser_t) : parse_status_t * http_parser_t :=
  let p := set_start (cursor p) (with_msg p (set_entity (Some (cursor p)) 0)) in
  if (if is_request (pmsg p) then request_no_body (method (pmsg p))
      else response_no_body (status_code (pmsg p)) (request_method (pmsg p)))
  then (PARSE_SUCCESS, set_position POS_COMPLETE p)
  else
    let '(chunked, m) :=
      match httpmsg_find_hdr (pmsg p) HDR_TRANSFER_ENCODING with
      | Some i => is_chunked i (pmsg p)
      | None => (false, pmsg p)
      end in
    let p := with_msg p (fun _ => m) in
    if chunked then (PARSE_CONTINUE_1, set_ent ENTREAD_USING_CHUNKED p)
    else
      match httpmsg_find_hdr (pmsg p) HDR_CONTENT_LENGTH ≫= (fun i => headers (pmsg p) !! i) with
      | Some h =>
          let n := u32 (raw_to_int (mb_block (value h)) (mb_length (value h)) 10) in
          (PARSE_CONTINUE_1, set_ent ENTREAD_USING_CLEN (set_clen n p))
      | None =>
          if is_request (pmsg p) then
            let p := if method (pmsg p) =? HTTPMETHOD_NOTIFY then set_hack p else p in
            (PARSE_FAILURE, set_error HTTP_LENGTH_REQUIRED p)
          else (PARSE_CONTINUE_1, set_ent ENTREAD_UNTIL_CLOSE p)
      end.

Definition parse_entity_step (p : http_parser_t) : parse_status_t * http_parser_t :=
  match ent_position p with
  | ENTREAD_USING_CLEN => parser_parse_entity_using_clen p
  | ENTREAD_USING_CHUNKED => parser_parse_chunky_entity p
  | ENTREAD_CHUNKY_BODY => parser_parse_chunky_body p
  | ENTREAD_CHUNKY_HEADERS => parser_parse_chunky_headers p
  | ENTREAD_UNTIL_CLOSE => parser_parse_entity_until_close p
  | ENTREAD_DETERMINE_READ_METHOD => parser_get_entity_read_method p
  end.

(** The loop of [parser_parse_entity]; [None]: out of fuel. *)
Fixpoint parse_entity_loop (fuel : nat) (p : http_parser_t)
  : option (parse_status_t * http_parser_t) :=
  match fuel with
  | O => None
  | S f =>
      let '(status, p) := parse_entity_step p in
      if decide (status = PARSE_CONTINUE_1) then parse_entity_loop f p else Some (status, p)
  end.

(** Two rounds per byte of the message are enough. *)
Definition entity_fuel (p : http_parser_t) : nat := S (S (S (Z.to_nat (2 * (plen p - cursor p))))).
Definition parser_parse_entity (p : http_parser_t) : option (parse_status_t * http_parser_t) :=
  parse_entity_loop (entity_fuel p) p.

(** ** The parser *)

Definition parse_step (p : http_parser_t) : option (parse_status_t * http_parser_t) :=
  match position p with
  | POS_ENTITY => parser_parse_entity p
  | POS_HEADERS => Some (parser_parse_headers p)
  | POS_REQUEST_LINE => Some (parser_parse_requestline p)
  | POS_RESPONSE_LINE => Some (parser_parse_responseline p)
  | POS_COMPLETE => Some (PARSE_FAILURE, p)
  end.

Fixpoint parse_loop (fuel : nat) (p : http_parser_t) : option (parse_status_t * http_parser_t) :=
  match fuel with
  | O => None
  | S f =>
      match parse_step p with
      | None => None
      | Some (status, p) =>
          if decide (status = PARSE_OK) then parse_loop f p else Some (status, p)
      end
  end.
Definition parser_parse (p : http_parser_t) : option (parse_status_t * http_parser_t) :=
  parse_loop 4 p.

Definition parser_append (p : http_parser_t) (buf : list Z) (buf_length : Z)
  : option (parse_status_t * http_parser_t) :=
  let '(ret_code, b) := membuffer_append (msg (pmsg p)) (Some buf) buf_length in
  let p := with_msg p (set_buf b) in
  if negb (ret_code =? 0) then Some (PARSE_FAILURE, set_error HTTP_INTERNAL_SERVER_ERROR p)
  else parser_parse p.

Definition method_to_str (meth : Z) : option (list Z) :=
  let index := map_int_to_str meth Http_Method_Table NUM_HTTP_METHODS in
  if index =? -1 then None else Some (name (entry Http_Method_Table index)).

(** [has_xml_content_type] of [parsetools.c]. *)
Definition has_xml_content_type (m : http_message_t) : bool :=
  match httpmsg_find_hdr m HDR_CONTENT_TYPE ≫= (fun i => headers m !! i) with
  | Some h =>
      match matchstr 1 (mb_block (value h)) (mb_length (value h)) (zs "%itext%w/%wxml") with
      | Some (PARSE_OK, _) => true
      | _ => false
      end
  | None => false
  end.
End HttpParser.
