(* ===== verification/HttpFacts.v ===== *)
(** * Facts about the HTTP parser

    The parser always returns and keeps its cursor inside the message; which way
    the body is read; how headers are stored; the chunked body. *)

From S2P Require Import Prelude CLib Membuffer Uri Tables Scanner ScannerFacts HttpParser.
#[local] Open Scope Z_scope.

Section Facts.
Context `{HM : Malloc, HR : Resolver}.

(** What the message buffer, the cursor and the chunk size satisfy. *)
Record parser_wf (p : http_parser_t) : Prop := {
  pw_msg : mb_wf (msg (pmsg p));
  pw_cursor : 0 <= cursor p <= plen p;
  pw_len : plen p < 2 ^ 31;
  pw_chunk : 0 <= chunk_size p < 2 ^ 32
}.

(** Two parsers that agree on these fields and on the position. *)
Definition same_core (p q : http_parser_t) : Prop :=
  msg (pmsg q) = msg (pmsg p) /\ chunk_size q = chunk_size p /\ ent_position q = ent_position p.

Lemma same_core_refl p : same_core p p.
Proof. done. Qed.

Lemma same_core_trans p q r : same_core p q -> same_core q r -> same_core p r.
Proof. unfold same_core. intros (?&?&?) (?&?&?). split_and!; congruence. Qed.

Lemma core_wf p q :
  parser_wf p -> same_core p q -> 0 <= cursor q <= plen p -> parser_wf q.
Proof.
  intros [H1 H2 H3 H4] (E1 & E2 & E3) Hc. unfold plen in *.
  split; unfold plen; rewrite ?E1, ?E2; done.
Qed.

Lemma wf_ext p q :
  parser_wf p -> msg (pmsg q) = msg (pmsg p) -> chunk_size q = chunk_size p ->
  0 <= cursor q <= plen p -> parser_wf q.
Proof.
  intros [H1 H2 H3 H4] E1 E2 Hc. unfold plen in *.
  split; unfold plen; rewrite ?E1, ?E2; done.
Qed.

Lemma pmem_len p : parser_wf p -> plen p <= zlen (pmem p).
Proof. intros Hp. apply room_length, (pw_msg p Hp). Qed.

Lemma pmatch_spec p fmt :
  parser_wf p ->
  let '(st, q, outs) := pmatch p fmt in
  q = set_cursor (cursor q) p /\ cursor p <= cursor q <= plen p
  /\ (st <> PARSE_OK -> cursor q = cursor p) /\ Forall (arg_in (plen p) (cursor p)) outs
  /\ match_status st.
Proof.
  intros Hp. unfold pmatch. pose proof (pw_cursor p Hp). pose proof (pmem_len p Hp).
  destruct (vfmatch _ _ _ _ _ _) as [[[st cur] outs]|] eqn:E.
  - pose proof (vfmatch_st _ _ _ _ _ _ _ _ _ E).
    apply vfmatch_in in E as (E1 & E2 & E3); [|lia|lia]. cbn. split_and!; try done; lia.
  - split_and!; try done; try lia; try (by destruct p || apply Forall_nil).
    right; right; by left.
Qed.

(** ** The lines of the head *)

Lemma store_url_core p s : same_core p (store_url p s).2 /\ cursor (store_url p s).2 = cursor p.
Proof. unfold store_url. repeat case_match; done. Qed.

Lemma request_simple_core p outs :
  same_core p (request_simple p outs).2 /\ cursor (request_simple p outs).2 = cursor p
  /\ (request_simple p outs).1 <> PARSE_OK.
Proof.
  unfold request_simple. destruct (_ <? 0); [done|]. destruct (negb _); [done|].
  pose proof (store_url_core (with_msg p (set_method HTTPMETHOD_SIMPLEGET)) (arg_str outs 1)) as [H1 H2].
  destruct (store_url _ _) as [ok q]. cbn [snd] in *. destruct ok; done.
Qed.

Lemma request_full_core p outs :
  let '(st, q) := request_full p outs in
  same_core p q /\ cursor q = cursor p /\ (st = PARSE_OK -> position q = POS_HEADERS).
Proof.
  unfold request_full. pose proof (store_url_core p (arg_str outs 1)) as [H1 H2].
  destruct (store_url _ _) as [ok q]. cbn [snd] in *.
  destruct ok; cbn [negb]; [|done]. destruct (_ <? 0); [done|]. destruct (_ || _); done.
Qed.

Lemma response_line_core p line :
  let '(st, q) := response_line p line in
  same_core p q /\ cursor q = cursor p /\ (st = PARSE_OK -> position q = POS_HEADERS).
Proof.
  unfold response_line. destruct (_ || _); [done|]. destruct (_ && _); [done|].
  destruct (membuffer_assign _ _ _) as [rc sm]. destruct (negb _); done.
Qed.

(** A step of the parser: it keeps the message or shrinks it, and leaves the
    cursor inside. *)
Lemma skip_blank_wf p :
  parser_wf p ->
  let '(st, cur) := skip_blank_lines (pmem p) (plen p) false (cursor p) in
  parser_wf (set_cursor cur p) /\ cursor p <= cur.
Proof.
  intros Hp. pose proof (pw_cursor p Hp). pose proof (pmem_len p Hp).
  pose proof (skip_blank_bound (pmem p) (plen p) false ltac:(lia) (toks (plen p) (cursor p))
    (cursor p) ltac:(lia)) as HB. unfold skip_blank_lines.
  destruct (skip_blank_lines_loop _ _ _ _ _) as [st cur]. cbn [snd] in HB.
  split; [|lia]. eapply core_wf; [exact Hp|done|cbn; lia].
Qed.

Lemma pmatch_wf p fmt :
  parser_wf p ->
  let '(st, q, _) := pmatch p fmt in
  match_status st /\
  parser_wf q /\ same_core p q /\ position q = position p /\ cursor p <= cursor q <= plen p
  /\ plen q = plen p.
Proof.
  intros Hp. pose proof (pmatch_spec p fmt Hp) as HB. pose proof (pw_cursor p Hp).
  destruct (pmatch p fmt) as [[st q] outs]. destruct HB as (E & H1 & _ & _ & Hst).
  assert (same_core p q /\ position q = position p) as [? ?] by (rewrite E; done).
  assert (plen q = plen p) by (rewrite E; done).
  split_and!; try done; try lia. eapply core_wf; [done|done|lia].
Qed.

(** What a call of the parser can end with. *)
Definition final_status (st : parse_status_t) : Prop := st <> PARSE_OK /\ st <> PARSE_CONTINUE_1.
Lemma match_status_final st : match_status st -> st <> PARSE_CONTINUE_1.
Proof. by intros [-> | [-> | [-> | ->]]]. Qed.

Lemma skip_blank_final mem len cur : match_status (skip_blank_lines mem len false cur).1.
Proof.
  unfold skip_blank_lines. generalize (toks len cur) as f. intros f. revert cur.
  induction f as [|f IH]; intros cur; cbn [skip_blank_lines_loop]; [right; by left|].
  destruct (scanner_get_token _ _ _ _) eqn:E; [destruct (is_ws_or_crlf _); [apply IH|by left]|].
  by eapply get_token_err.
Qed.
Lemma requestline_st p : parser_wf p -> (parser_parse_requestline p).1 <> PARSE_CONTINUE_1.
Proof.
  intros Hp. unfold parser_parse_requestline. pose proof (skip_blank_wf p Hp) as H.
  pose proof (skip_blank_final (pmem p) (plen p) (cursor p)) as Hs.
  destruct (skip_blank_lines _ _ _ _) as [st cur]. destruct H as [Hp1 _]. cbn [fst] in Hs.
  case_bool_decide; cbn [negb]; [|by apply match_status_final].
  pose proof (pmatch_wf _ fmt_simple_request Hp1) as H2.
  destruct (pmatch _ fmt_simple_request) as [[st2 p2] outs]. destruct H2 as (_ & Hp2 & _). case_decide.
  - unfold request_simple; repeat case_match; cbn; congruence.
  - pose proof (pmatch_wf _ fmt_request Hp2) as H4.
    destruct (pmatch _ fmt_request) as [[st4 p4] outs4]. destruct H4 as (H4 & _).
    case_bool_decide; cbn [negb]; [|by apply match_status_final].
    unfold request_full; repeat case_match; cbn; congruence.
Qed.
Lemma responseline_st p : parser_wf p -> (parser_parse_responseline p).1 <> PARSE_CONTINUE_1.
Proof.
  intros Hp. unfold parser_parse_responseline. pose proof (skip_blank_wf p Hp) as H.
  pose proof (skip_blank_final (pmem p) (plen p) (cursor p)) as Hs.
  destruct (skip_blank_lines _ _ _ _) as [st cur]. destruct H as [Hp1 _]. cbn [fst] in Hs.
  case_bool_decide; cbn [negb]; [|by apply match_status_final].
  pose proof (pmatch_wf _ fmt_response Hp1) as H2.
  destruct (pmatch _ fmt_response) as [[st2 p2] outs]. destruct H2 as (H2 & _).
  case_bool_decide; cbn [negb]; [|by apply match_status_final].
  unfold response_line; repeat case_match; cbn; congruence.
Qed.

Lemma core_len p q : same_core p q -> plen q = plen p.
Proof. unfold plen. by intros (-> & _). Qed.

Lemma requestline_wf p :
  parser_wf p ->
  let '(st, q) := parser_parse_requestline p in
  parser_wf q /\ plen q = plen p /\ (st = PARSE_OK -> position q = POS_HEADERS).
Proof.
  intros Hp. unfold parser_parse_requestline. pose proof (skip_blank_wf p Hp) as H.
  destruct (skip_blank_lines _ _ _ _) as [st cur]. destruct H as [Hp1 _].
  case_bool_decide; cbn [negb]; [|done]. pose proof (pmatch_wf _ fmt_simple_request Hp1) as H2.
  destruct (pmatch _ fmt_simple_request) as [[st2 p2] outs]. destruct H2 as (_ & Hp2 & _ & _ & _ & L2).
  change (plen (set_cursor cur p)) with (plen p) in L2.
  pose proof (pw_cursor p2 Hp2). case_decide.
  - pose proof (request_simple_core p2 outs) as (C1 & C2 & C3).
    destruct (request_simple p2 outs) as [st3 q]. cbn [fst snd] in *.
    pose proof (core_len _ _ C1). split_and!; [|congruence|done]. eapply core_wf; [exact Hp2|done|lia].
  - pose proof (pmatch_wf _ fmt_request Hp2) as H4.
    destruct (pmatch _ fmt_request) as [[st4 p4] outs4]. destruct H4 as (_ & Hp4 & _ & _ & _ & L4).
    pose proof (pw_cursor p4 Hp4). case_bool_decide; cbn [negb]; [|split; [done|split; [congruence|done]]].
    pose proof (request_full_core p4 outs4) as C.
    destruct (request_full p4 outs4) as [st5 q]. destruct C as (C1 & C2 & C3).
    pose proof (core_len _ _ C1). split_and!; [|congruence|done]. eapply core_wf; [exact Hp4|done|lia].
Qed.

Lemma responseline_wf p :
  parser_wf p ->
  let '(st, q) := parser_parse_responseline p in
  parser_wf q /\ plen q = plen p /\ (st = PARSE_OK -> position q = POS_HEADERS).
Proof.
  intros Hp. unfold parser_parse_responseline. pose proof (skip_blank_wf p Hp) as H.
  destruct (skip_blank_lines _ _ _ _) as [st cur]. destruct H as [Hp1 _].
  case_bool_decide; cbn [negb]; [|done]. pose proof (pmatch_wf _ fmt_response Hp1) as H2.
  destruct (pmatch _ fmt_response) as [[st2 p2] outs]. destruct H2 as (_ & Hp2 & _ & _ & _ & L2).
  change (plen (set_cursor cur p)) with (plen p) in L2.
  pose proof (pw_cursor p2 Hp2). case_bool_decide; cbn [negb]; [|split; [done|split; [congruence|done]]].
  pose proof (response_line_core p2 (arg_str outs 0)) as C.
  destruct (response_line p2 _) as [st5 q]. destruct C as (C1 & C2 & C3).
  pose proof (core_len _ _ C1). split_and!; [|congruence|done]. eapply core_wf; [exact Hp2|done|lia].
Qed.

(** ** Headers *)

Lemma add_header_core p t v i :
  let q := (add_header p t v i).2 in same_core p q /\ cursor q = cursor p.
Proof.
  unfold add_header. destruct (alloc_ok _); cbn [negb]; [|done].
  destruct (if mp_length v =? 0 then _ else _) as [vb vl].
  destruct (membuffer_assign _ _ (mp_length t)) as [rc1 nb]. destruct (negb _); [done|].
  destruct (membuffer_assign _ _ vl) as [rc2 nv]. destruct (negb _); [done|].
  unfold headers_add. by destruct (alloc_ok _).
Qed.

Lemma append_value_core p i v :
  let q := (append_value p i v).2 in same_core p q /\ cursor q = cursor p.
Proof.
  unfold append_value. destruct (headers _ !! i); [|done].
  destruct (membuffer_append_str _ _) as [r1 w]. destruct (membuffer_append w _ _) as [r2 w2].
  by destruct (_ || _).
Qed.

Lemma header_target_core p t :
  let q := (header_target p t).2 in same_core p q /\ cursor q = cursor p.
Proof. unfold header_target. destruct (negb _); [by destruct (_ =? HDR_SOAPACTION)|done]. Qed.

Lemma store_header_core p t v :
  let q := (store_header p t v).2 in same_core p q /\ cursor q = cursor p.
Proof.
  unfold store_header. pose proof (header_target_core p t) as [H1 H2].
  destruct (header_target p t) as [[hid o] q]. cbn [snd] in *.
  assert (forall r, same_core q r /\ cursor r = cursor q -> same_core p r /\ cursor r = cursor p)
    as Ht by (intros r [? ?]; split; [by eapply same_core_trans|congruence]).
  destruct o; [destruct (0 <? _); [|done]|]; apply Ht;
    [apply append_value_core|apply add_header_core].
Qed.

Lemma add_header_st p t v i st : (add_header p t v i).1 = Some st -> st = PARSE_FAILURE.
Proof.
  unfold add_header. destruct (alloc_ok _); cbn [negb]; [|by intros [= <-]].
  destruct (if mp_length v =? 0 then _ else _) as [vb vl].
  destruct (membuffer_assign _ _ (mp_length t)) as [rc1 nb]. destruct (negb _); [by intros [= <-]|].
  destruct (membuffer_assign _ _ vl) as [rc2 nv]. destruct (negb _); [by intros [= <-]|].
  unfold headers_add. destruct (alloc_ok _); [done|by intros [= <-]].
Qed.

Lemma append_value_st p i v st : (append_value p i v).1 = Some st -> st = PARSE_FAILURE.
Proof.
  unfold append_value. destruct (headers _ !! i); [|done].
  destruct (membuffer_append_str _ _) as [r1 w]. destruct (membuffer_append w _ _) as [r2 w2].
  destruct (_ || _); [by intros [= <-]|done].
Qed.

Lemma store_header_st p t v st : (store_header p t v).1 = Some st -> st = PARSE_FAILURE.
Proof.
  unfold store_header. destruct (header_target p t) as [[hid o] q].
  destruct o; [destruct (0 <? _); [apply append_value_st|done]|apply add_header_st].
Qed.


Lemma parse_headers_wf f p :
  parser_wf p ->
  let '(st, q) := parse_headers_loop f p in
  parser_wf q /\ same_core p q /\ cursor p <= cursor q
  /\ (st = PARSE_OK -> position q = POS_ENTITY) /\ (match_status st \/ st = PARSE_SUCCESS).
Proof.
  revert p. induction f as [|f IH]; intros p Hp; cbn [parse_headers_loop].
  { split_and!; try done; try lia. left; right; by left. }
  pose proof (pw_cursor p Hp). pose proof (pmem_len p Hp).
  pose proof (get_token_spec (pmem p) (plen p) false ltac:(lia) (cursor p) ltac:(lia)) as Ht.
  destruct (scanner_get_token _ _ _ _) as [t ty|st] eqn:Et.
  2: { apply get_token_err in Et. split_and!; try done; try lia; [by destruct Ht as [-> | ->]|by left]. }
  destruct Ht as (Hb & Hpos & Hle & _).
  set (p1 := set_cursor (cursor p + mp_length t) p).
  assert (Hp1 : parser_wf p1) by (eapply core_wf; [exact Hp|done|cbn; lia]).
  assert (Hc1 : cursor p1 = cursor p + mp_length t) by done.
  assert (Hl1 : plen p1 = plen p) by done.
  assert (Hf : match_status PARSE_FAILURE) by (right; right; by left).
  destruct ty; try (split_and!; try done; try lia; by left).
  - pose proof (pmatch_wf p1 fmt_header Hp1) as H2.
    destruct (pmatch p1 fmt_header) as [[st2 p2] outs].
    destruct H2 as (Hst2 & Hp2 & C2 & _ & Hc2 & Hl2).
    assert (C2' : same_core p p2) by (eapply same_core_trans; [|exact C2]; done).
    case_bool_decide as Hst; cbn [negb].
    2: { split_and!; first [done|by left|cbn; lia|eapply core_wf; [exact Hp|done|cbn; lia]]. }
    pose proof (store_header_core p2 t (arg_str outs 0)) as [C3 Hc3].
    pose proof (store_header_st p2 t (arg_str outs 0)) as Hst3.
    destruct (store_header p2 t (arg_str outs 0)) as [o p3]. cbn [fst snd] in *.
    assert (C3' : same_core p p3) by (by eapply same_core_trans).
    assert (Hp3 : parser_wf p3).
    { pose proof (pw_cursor p2 Hp2). eapply core_wf; [exact Hp2|done|lia]. }
    destruct o as [st3|].
    + rewrite (Hst3 st3 eq_refl). split_and!; try done; [lia|by left].
    + specialize (IH p3 Hp3). destruct (parse_headers_loop f p3) as [st4 p4].
      destruct IH as (I1 & I2 & I3 & I4 & I5). split_and!; try done; [|lia].
      by eapply same_core_trans.
  - unfold headers_end. destruct (_ && _);
      split_and!; first [done|by right|left; by left|lia|eapply core_wf; [exact Hp1|done|cbn; lia]|cbn; lia].
Qed.

(** ** The body *)

(** Progress of a matched pattern that starts with a number or a line end. *)
Lemma match_int_progress mem len cursor b :
  0 <= cursor <= len -> len <= zlen mem ->
  let '(st, cur, _) := match_int mem len false cursor b in
  st = PARSE_OK -> cursor < cur.
Proof.
  intros Hc Hl. unfold match_int.
  pose proof (get_token_spec mem len false ltac:(lia) cursor Hc) as Ht.
  destruct (scanner_get_token _ _ _ _) as [t ty|s] eqn:E.
  - destruct Ht as (_ & Hpos & _). destruct ty; try done. destruct (_ || _); [done|]. lia.
  - by destruct Ht as [-> | ->].
Qed.

Lemma match_type_progress mem len cursor ty :
  0 <= cursor <= len -> len <= zlen mem ->
  let '(st, cur, _) := match_type mem len false cursor ty in
  st = PARSE_OK -> cursor < cur.
Proof.
  intros Hc Hl. unfold match_type.
  pose proof (get_token_spec mem len false ltac:(lia) cursor Hc) as Ht.
  destruct (scanner_get_token _ _ _ _) as [t ty'|s]; [lia|].
  by destruct Ht as [-> | ->].
Qed.

Lemma chunk_progress p :
  parser_wf p -> let '(st, q, _) := pmatch p fmt_chunk in st = PARSE_OK -> cursor p < cursor q.
Proof.
  intros Hp. pose proof (pw_cursor p Hp). pose proof (pmem_len p Hp). unfold pmatch.
  destruct (vfmatch _ _ _ _ _ _) as [[[st cur] outs]|] eqn:E; [|done]. cbn. intros ->.
  revert E. unfold vfmatch. destruct (vfmatch_loop _ _ _ _ _ _ _ _) as [[[st1 c1] o1]|] eqn:E; [|done].
  intros [= -> E2 <-]. cbn in E2. rewrite decide_True in E2 by done. subst c1.
  revert E. change fmt_chunk with (PERCENT :: 120 :: zs "%L%c").
  cbn [vfmatch_loop]. rewrite Z.eqb_refl.
  change (vfmatch_dir 1 (pmem p) (plen p) false 120 (cursor p) true)
    with (let '(st, cur, v) := match_int (pmem p) (plen p) false (cursor p) 16 in
          Some (st, cur, true, match v with Some v => [AInt v] | None => [] end)).
  pose proof (match_int_progress (pmem p) (plen p) (cursor p) 16 ltac:(lia) ltac:(lia)) as HP.
  pose proof (match_int_in (pmem p) (plen p) false ltac:(lia) (cursor p) 16 ltac:(lia)) as HI.
  destruct (match_int _ _ _ _ _) as [[st2 c2] v2]. case_decide; [|congruence].
  intros E. apply vfmatch_loop_in in E as [E _]; [|lia|lia]. specialize (HP ltac:(done)). lia.
Qed.

Lemma crlf_progress p :
  parser_wf p -> let '(st, q, _) := pmatch p fmt_crlf in st = PARSE_OK -> cursor p < cursor q.
Proof.
  intros Hp. pose proof (pw_cursor p Hp). pose proof (pmem_len p Hp). unfold pmatch, vfmatch.
  change fmt_crlf with [PERCENT; 99]. cbn [vfmatch_loop]. rewrite Z.eqb_refl.
  change (vfmatch_dir 1 (pmem p) (plen p) false 99 (cursor p) true)
    with (Some ((match_type (pmem p) (plen p) false (cursor p) TT_CRLF).1, true, [] : list arg)).
  pose proof (match_type_progress (pmem p) (plen p) (cursor p) TT_CRLF ltac:(lia) ltac:(lia)) as HP.
  destruct (match_type _ _ _ _ _) as [[st2 c2] v2]. cbn [fst].
  destruct (decide (st2 = PARSE_OK)) as [->|]; cbn; [|done]. rewrite decide_True by done.
  intros _. by apply HP.
Qed.

Hypothesis Halloc : forall n, alloc_ok n = true.

Lemma delete_range_wf p a b :
  parser_wf p -> 0 <= a <= b -> b <= plen p -> cursor p = b -> 0 < plen p ->
  let q := set_cursor a (delete_range a b p) in
  parser_wf q /\ plen q = plen p - (b - a) /\ cursor q = a.
Proof.
  intros Hp Ha Hb Hc Hl. unfold delete_range. cbv zeta.
  destruct (membuffer_delete_spec (msg (pmsg p)) a (b - a) (pw_msg p Hp)) as (D1 & D2 & D3 & D4 & D5 & D6);
    try (unfold plen in *; lia); [apply Halloc|].
  pose proof (pw_len p Hp). pose proof (pw_chunk p Hp). unfold plen in *.
  split_and!; try done; [split; unfold plen; cbn; try done; lia].
Qed.

(** The rounds that are left. *)
Definition ent_weight (e : entread) : Z :=
  match e with ENTREAD_DETERMINE_READ_METHOD => 2 | ENTREAD_USING_CHUNKED => 0 | _ => 1 end.
Definition measure (p : http_parser_t) : Z := 2 * (plen p - cursor p) + ent_weight (ent_position p).

(** What a round does: it keeps the parser well formed, ends with a status that is
    neither [PARSE_OK] nor [PARSE_CONTINUE_1], or makes progress. *)
Definition round_ok (p : http_parser_t) (r : parse_status_t * http_parser_t) : Prop :=
  let '(st, q) := r in
  parser_wf q /\ st <> PARSE_OK /\ (st = PARSE_CONTINUE_1 -> 0 <= measure q < measure p).

Lemma clen_round p :
  parser_wf p -> round_ok p (parser_parse_entity_using_clen p).
Proof.
  intros Hp. unfold parser_parse_entity_using_clen, round_ok. destruct Hp.
  destruct (_ <? _); [split_and!; try done; by split|].
  split_and!; try done.
  destruct (content_length _ <? _); split; try done. cbn.
  unfold mb_wf, room, set_block in *. cbn. destruct (mb_buf _); cbn; rewrite ?zlen_zset; done.
Qed.

Lemma until_close_round p : parser_wf p -> round_ok p (parser_parse_entity_until_close p).
Proof.
  intros Hp. unfold parser_parse_entity_until_close, round_ok. split_and!; try done.
  destruct Hp. split; try done. unfold plen in *. cbn. lia.
Qed.

Lemma determine_round p :
  parser_wf p -> ent_position p = ENTREAD_DETERMINE_READ_METHOD ->
  round_ok p (parser_get_entity_read_method p).
Proof.
  intros Hp He. unfold parser_get_entity_read_method.
  set (p1 := set_start _ _). assert (Hp1 : parser_wf p1) by (eapply core_wf; [exact Hp|done|apply Hp]).
  assert (Hm1 : measure p1 = measure p) by done.
  assert (Hw : measure p = 2 * (plen p - cursor p) + 2) by (unfold measure; by rewrite He).
  pose proof (pw_cursor p Hp) as Hc. unfold round_ok.
  destruct (if is_request (pmsg p1) then _ else _).
  { split_and!; try done. eapply wf_ext; [exact Hp1|done|done|done]. }
  destruct (match httpmsg_find_hdr (pmsg p1) HDR_TRANSFER_ENCODING with
            | Some i => is_chunked i (pmsg p1) | None => (false, pmsg p1) end) as [chunked m] eqn:E.
  assert (Hm : msg m = msg (pmsg p)).
  { destruct (httpmsg_find_hdr _ _); [|by simplify_eq]. revert E. unfold is_chunked.
    destruct (headers _ !! n); [|by intros [= _ <-]]. destruct (raw_find_str _ _ _).
    by intros [= _ <-]. }
  assert (Hwf : forall q, msg (pmsg q) = msg m -> chunk_size q = chunk_size p ->
    cursor q = cursor p -> parser_wf q).
  { intros q Q1 Q2 Q3. destruct Hp. split; unfold plen in *; rewrite ?Q1, ?Q2, ?Q3, ?Hm; done. }
  assert (Hpl : forall q, msg (pmsg q) = msg m -> plen q = plen p)
    by (intros q Q; unfold plen; by rewrite Q, Hm).
  destruct chunked.
  { split_and!; try done; [by apply Hwf|]. intros _. unfold measure.
    rewrite (Hpl (set_ent ENTREAD_USING_CHUNKED _)) by done. cbn. unfold measure in Hw. lia. }
  destruct (_ ≫= _).
  { split_and!; try done; [by apply Hwf|]. intros _. unfold measure.
    rewrite (Hpl (set_ent ENTREAD_USING_CLEN _)) by done. cbn. unfold measure in Hw. lia. }
  cbn [pmsg with_msg]. destruct (is_request m).
  { split_and!; try done. by destruct (_ =? HTTPMETHOD_NOTIFY); apply Hwf. }
  split_and!; try done; [by apply Hwf|]. intros _. unfold measure.
  rewrite (Hpl (set_ent ENTREAD_UNTIL_CLOSE _)) by done. cbn. unfold measure in Hw. lia.
Qed.

Lemma store_low_int_range old v : 0 <= old < 2 ^ 32 -> 0 <= store_low_int old v < 2 ^ 32.
Proof.
  intros Ho. unfold store_low_int. rewrite Z.div_small by lia. pose proof (u32_range v). lia.
Qed.

Lemma chunky_entity_round p :
  parser_wf p -> ent_position p = ENTREAD_USING_CHUNKED ->
  round_ok p (parser_parse_chunky_entity p).
Proof.
  intros Hp He. unfold parser_parse_chunky_entity.
  pose proof (pw_cursor p Hp) as Hc. pose proof (pmatch_wf p fmt_chunk Hp) as HB.
  pose proof (chunk_progress p Hp) as HP.
  destruct (pmatch p fmt_chunk) as [[st p1] outs]. destruct HB as (Hst & Hp1 & C1 & _ & Hc1 & Hl1).
  set (p2 := match arg_int outs 0 with Some _ => _ | None => _ end).
  assert (H2 : parser_wf p2 /\ cursor p2 = cursor p1 /\ plen p2 = plen p).
  { unfold p2. destruct (arg_int outs 0) as [v|]; [|done]. split; [|done].
    destruct Hp1. split; unfold plen in *; cbn; try done. by apply store_low_int_range. }
  destruct H2 as (Hp2 & Hc2 & Hl2). clearbody p2. unfold round_ok.
  case_bool_decide as Hok; cbn [negb].
  2: { split_and!; try done.
       - eapply wf_ext; [exact Hp2|done|done|cbn; lia].
       - intros ->. by destruct Hst as [|[|[|]]]. }
  specialize (HP Hok).
  destruct (delete_range_wf p2 (cursor p) (cursor p2)) as (D1 & D2 & D3); try lia; [done|].
  set (p3 := set_cursor (cursor p) _) in *.
  assert (Hw : measure p = 2 * (plen p - cursor p)) by (unfold measure; rewrite He; cbn; lia).
  pose proof (pw_cursor p3 D1) as Hc3.
  destruct (chunk_size p3 =? 0).
  - split_and!; try done; [eapply wf_ext; [exact D1|done|done|exact Hc3]|].
    intros _. rewrite Hw. unfold measure. cbn [ent_weight set_ent ent_position].
    change (plen (set_ent _ _)) with (plen p3). change (cursor (set_ent _ _)) with (cursor p3). lia.
  - split_and!; try done; [eapply wf_ext; [exact D1|done|done|exact Hc3]|].
    intros _. rewrite Hw. unfold measure. cbn [ent_weight set_ent ent_position].
    change (plen (set_ent _ _)) with (plen p3). change (cursor (set_ent _ _)) with (cursor p3). lia.
Qed.

Lemma chunky_body_round p :
  parser_wf p -> ent_position p = ENTREAD_CHUNKY_BODY -> round_ok p (parser_parse_chunky_body p).
Proof.
  intros Hp He. unfold parser_parse_chunky_body.
  pose proof (pw_cursor p Hp) as Hc. pose proof (pw_chunk p Hp) as Hk. pose proof (pw_len p Hp).
  rewrite u64_small by lia. unfold round_ok.
  destruct (Z.leb_spec (chunk_size p) (plen p - cursor p)); [|done].
  set (p0 := set_cursor (cursor p + chunk_size p) p).
  assert (Hp0 : parser_wf p0) by (eapply core_wf; [exact Hp|done|cbn; lia]).
  pose proof (pmatch_wf p0 fmt_crlf Hp0) as HB. pose proof (pmatch_spec p0 fmt_crlf Hp0) as HS.
  pose proof (crlf_progress p0 Hp0) as HP.
  destruct (pmatch p0 fmt_crlf) as [[st p1] outs].
  destruct HB as (Hst & Hp1 & (C1 & C2 & C3) & _ & Hc1 & Hl1). destruct HS as (_ & _ & HS & _).
  change (cursor p0) with (cursor p + chunk_size p) in *.
  change (chunk_size p0) with (chunk_size p) in *. change (plen p0) with (plen p) in *.
  clearbody p0.
  case_bool_decide as Hok; cbn [negb].
  2: { split_and!; try done.
       - eapply wf_ext; [exact Hp1|done|done|]. cbn. rewrite HS, C2 by done. lia.
       - intros ->. by destruct Hst as [|[|[|]]]. }
  specialize (HP Hok).
  destruct (delete_range_wf p1 (cursor p + chunk_size p) (cursor p1)) as (D1 & D2 & D3);
    try lia; [done|].
  set (p3 := set_cursor (cursor p + chunk_size p) _) in *. pose proof (pw_cursor p3 D1) as Hc3.
  split_and!; try done; [eapply wf_ext; [exact D1|done|done|exact Hc3]|].
  intros _. unfold measure. rewrite He. cbn [ent_weight set_ent ent_position].
  change (plen (set_ent _ _)) with (plen p3). change (cursor (set_ent _ _)) with (cursor p3). lia.
Qed.

Lemma chunky_headers_round p :
  parser_wf p -> round_ok p (parser_parse_chunky_headers p).
Proof.
  intros Hp. unfold parser_parse_chunky_headers, parser_parse_headers.
  pose proof (pw_cursor p Hp) as Hc.
  pose proof (parse_headers_wf (toks (plen p) (cursor p)) p Hp) as HB.
  destruct (parse_headers_loop _ p) as [st q]. destruct HB as (Hq & C & Hle & _ & Hst).
  pose proof (core_len _ _ C). pose proof (pw_cursor q Hq). unfold round_ok.
  case_decide.
  2: { split_and!; try done. intros ->. by destruct Hst as [[|[|[|]]]|]. }
  assert (Hq' : parser_wf (set_position POS_COMPLETE q)) by (eapply wf_ext; [exact Hq|done|done|done]).
  split_and!; try done.
  destruct (decide (0 < plen q)).
  - destruct (delete_range_wf (set_position POS_COMPLETE q) (cursor p) (cursor q)) as (D1 & D2 & D3);
      try (unfold plen in *; cbn in *; lia); [done|].
    eapply wf_ext; [exact D1|done|done|]. rewrite D2. unfold plen in *. cbn in *. lia.
  - assert (Hz : mb_length (msg (pmsg q)) = 0) by (unfold plen in *; lia).
    eapply core_wf; [exact Hq| |cbn; unfold plen in *; lia].
    unfold same_core, delete_range. cbn. unfold membuffer_delete. by rewrite Hz.
Qed.

Lemma entity_round p : parser_wf p -> round_ok p (parse_entity_step p).
Proof.
  intros Hp. unfold parse_entity_step. destruct (ent_position p) eqn:E.
  - by apply determine_round.
  - by apply clen_round.
  - by apply chunky_entity_round.
  - by apply until_close_round.
  - by apply chunky_body_round.
  - by apply chunky_headers_round.
Qed.

(** No round makes the message longer. *)
Lemma delete_range_len p a b :
  parser_wf p -> 0 <= a <= b -> b <= plen p -> plen (delete_range a b p) <= plen p.
Proof.
  intros Hp Ha Hb. pose proof (pw_len p Hp) as Hl. unfold plen, delete_range in *. cbn.
  destruct (decide (mb_length (msg (pmsg p)) = 0)) as [E|E]; [unfold membuffer_delete; rewrite E; cbn; lia|].
  destruct (membuffer_delete_spec (msg (pmsg p)) a (b - a) (pw_msg p Hp)) as (D & _);
    first [lia|apply Halloc].
Qed.
Lemma read_method_len p : plen (parser_get_entity_read_method p).2 = plen p.
Proof.
  assert (Hch : forall i m, msg (is_chunked i m).2 = msg m)
    by (intros i m; unfold is_chunked; by repeat case_match).
  unfold parser_get_entity_read_method. set (p1 := set_start _ _). change (plen p) with (plen p1).
  destruct (if is_request (pmsg p1) then _ else _); [done|].
  destruct (httpmsg_find_hdr (pmsg p1) HDR_TRANSFER_ENCODING) as [i|].
  - specialize (Hch i (pmsg p1)). destruct (is_chunked i (pmsg p1)) as [c m]. cbn [snd] in Hch.
    assert (Hm : mb_length (msg m) = plen p1) by (unfold plen; by rewrite Hch).
    repeat case_match; exact Hm.
  - by repeat case_match.
Qed.
Lemma entity_step_len p : parser_wf p -> plen (parse_entity_step p).2 <= plen p.
Proof.
  intros Hp. pose proof (pw_cursor p Hp) as Hc. unfold parse_entity_step. destruct (ent_position p).
  - rewrite read_method_len. lia.
  - unfold parser_parse_entity_using_clen, plen. repeat case_match; simplify_eq; cbn; lia.
  - unfold parser_parse_chunky_entity. pose proof (pmatch_spec p fmt_chunk Hp) as HS.
    destruct (pmatch p fmt_chunk) as [[st q] outs]. destruct HS as (E & Hcq & _).
    set (c := cursor q) in *. rewrite E. cbv zeta. clearbody c. clear q E.
    set (p2 := match arg_int outs 0 with Some _ => _ | None => _ end).
    assert (H2 : parser_wf p2 /\ cursor p2 = c /\ plen p2 = plen p).
    { assert (W : parser_wf (set_cursor c p)) by (eapply core_wf; [exact Hp|done|change (0 <= c <= plen p); lia]).
      unfold p2. destruct (arg_int outs 0) as [v|]; [|done]. split; [|done].
      destruct W. split; unfold plen in *; cbn in *; try done. by apply store_low_int_range. }
    destruct H2 as (W2 & C2 & L2). clearbody p2. rewrite C2.
    pose proof (delete_range_len p2 (cursor p) c W2 ltac:(lia) ltac:(lia)). unfold plen in *.
    repeat case_match; cbn in *; lia.
  - unfold parser_parse_entity_until_close, plen. cbn. lia.
  - unfold parser_parse_chunky_body. destruct (chunk_size p <=? u64 (plen p - cursor p)) eqn:E; [|reflexivity]. apply Z.leb_le in E.
    pose proof (pw_chunk p Hp). pose proof (pw_len p Hp). rewrite u64_small in E by lia.
    set (p0 := set_cursor (cursor p + chunk_size p) p). assert (Hp0 : parser_wf p0) by (eapply core_wf; [exact Hp|done|cbn; lia]).
    pose proof (pmatch_wf p0 fmt_crlf Hp0) as HS. destruct (pmatch p0 fmt_crlf) as [[st q] outs].
    destruct HS as (_ & Wq & _ & _ & Cq & Lq). change (plen p0) with (plen p) in *.
    change (cursor p0) with (cursor p + chunk_size p) in Cq.
    pose proof (delete_range_len q (cursor p + chunk_size p) (cursor q) Wq ltac:(lia) ltac:(lia)).
    unfold plen in *. repeat case_match; cbn in *; lia.
  - unfold parser_parse_chunky_headers, parser_parse_headers.
    pose proof (parse_headers_wf (toks (plen p) (cursor p)) p Hp) as HB.
    destruct (parse_headers_loop _ p) as [st q]. destruct HB as (Wq & Cq & Hle & _). apply core_len in Cq.
    pose proof (pw_cursor q Wq). case_decide; [|cbn [snd]; lia].
    assert (W : parser_wf (set_position POS_COMPLETE q)) by (eapply wf_ext; [exact Wq|done|done|done]).
    pose proof (delete_range_len _ (cursor p) (cursor q) W ltac:(lia)
      ltac:(change (plen (set_position POS_COMPLETE q)) with (plen q); lia)).
    unfold plen in *. cbn in *. lia.
Qed.

Lemma measure_nonneg p : parser_wf p -> 0 <= measure p.
Proof.
  intros Hp. pose proof (pw_cursor p Hp). unfold measure. destruct (ent_position p); cbn; lia.
Qed.

Lemma parse_entity_ok f p :
  parser_wf p -> measure p < Z.of_nat f ->
  exists st q, parse_entity_loop f p = Some (st, q) /\ parser_wf q
    /\ st <> PARSE_OK /\ st <> PARSE_CONTINUE_1 /\ plen q <= plen p.
Proof.
  revert p. induction f as [|f IH]; intros p Hp Hf.
  { pose proof (measure_nonneg p Hp). lia. }
  cbn [parse_entity_loop]. pose proof (entity_round p Hp) as HB.
  pose proof (entity_step_len p Hp) as HL. destruct (parse_entity_step p) as [st q]. cbn [snd] in HL. destruct HB as (Hq & Hn & Hd). case_decide as Hst.
  - specialize (Hd Hst). destruct (IH q Hq ltac:(lia)) as (st' & r & -> & Hr & Hn1 & Hn2 & Hl).
    exists st', r. split_and!; done || lia.
  - by exists st, q.
Qed.

(** The positions before [POS_COMPLETE], in order. *)
Definition stage (p : http_parser_t) : nat :=
  match position p with
  | POS_REQUEST_LINE | POS_RESPONSE_LINE => 3 | POS_HEADERS => 2 | POS_ENTITY => 1
  | POS_COMPLETE => 0 end%nat.

Lemma parse_loop_ok f p :
  parser_wf p -> (stage p < f)%nat ->
  exists st q, parse_loop f p = Some (st, q) /\ parser_wf q /\ final_status st /\ plen q <= plen p.
Proof.
  revert p. induction f as [|f IH]; intros p Hp Hf; [lia|]. cbn [parse_loop].
  assert (Hs : exists st q, parse_step p = Some (st, q) /\ parser_wf q
            /\ (st = PARSE_OK -> (stage q < stage p)%nat) /\ st <> PARSE_CONTINUE_1 /\ plen q <= plen p).
  { unfold parse_step, stage. destruct (position p).
    - pose proof (requestline_wf p Hp) as HB. pose proof (requestline_st p Hp).
      destruct (parser_parse_requestline p) as [st q]. destruct HB as (H1 & H2 & H3). exists st, q. split_and!; try done; [intros ->; rewrite H3 by done; lia|lia].
    - pose proof (responseline_wf p Hp) as HB. pose proof (responseline_st p Hp).
      destruct (parser_parse_responseline p) as [st q]. destruct HB as (H1 & H2 & H3). exists st, q. split_and!; try done; [intros ->; rewrite H3 by done; lia|lia].
    - unfold parser_parse_headers.
      pose proof (parse_headers_wf (toks (plen p) (cursor p)) p Hp) as HB.
      destruct (parse_headers_loop _ p) as [st q]. destruct HB as (H1 & HC & _ & H2 & H3). apply core_len in HC.
      exists st, q. split_and!; try done; [intros ->; rewrite H2 by done; lia| |lia].
      destruct H3 as [H3 | ->]; [by apply match_status_final|done].
    - destruct (parse_entity_ok (entity_fuel p) p Hp) as (st & q & E & Hq & Hn & Hn' & Hl).
      { unfold entity_fuel, measure. destruct (ent_position p); cbn; lia. }
      exists st, q. split_and!; done.
    - by exists PARSE_FAILURE, p. }
  destruct Hs as (st & q & -> & Hq & Hd & Hn & Hl). case_decide as Hst; [|by exists st, q].
  specialize (Hd Hst). destruct (IH q Hq ltac:(lia)) as (st' & r & -> & Hr & Hn' & Hl').
  exists st', r. split_and!; done || lia.
Qed.

(** ** Appending data *)

Lemma parser_append_ok p b n :
  parser_wf p -> 0 <= n <= zlen b -> plen p + n < 2 ^ 31 ->
  exists st q, parser_append p b n = Some (st, q) /\ parser_wf q /\ final_status st /\ plen q <= plen p + n.
Proof.
  intros Hp Hn Hs. unfold parser_append, membuffer_append.
  pose proof (pw_msg p Hp) as Hm. pose proof (pw_cursor p Hp) as Hc.
  assert (HB : let '(rc, m) := membuffer_insert (msg (pmsg p)) (Some b) n (mb_length (msg (pmsg p))) in
     mb_wf m /\ plen p <= mb_length m < 2 ^ 31 /\ mb_length m <= plen p + n).
  { destruct (decide (n = 0)) as [->|].
    - unfold membuffer_insert. rewrite (proj2 (Z.ltb_ge _ _)) by lia. cbn.
      split; [done|]. unfold plen in *. lia.
    - destruct (membuffer_insert _ _ _ _) as [rc m] eqn:E.
      apply membuffer_insert_spec in E as [[_ ->]|(_ & _ & E & _ & E' & _)]; try done;
        unfold plen in *; try lia; split; done || lia. }
  destruct (membuffer_insert _ _ _ _) as [rc m]. destruct HB as (Hm' & Hl' & Hl'').
  set (p1 := with_msg p (set_buf m)).
  assert (Hp1 : parser_wf p1).
  { destruct Hp. split; unfold plen in *; cbn; try done; lia. }
  destruct (negb (rc =? 0)).
  - exists PARSE_FAILURE, (set_error HTTP_INTERNAL_SERVER_ERROR p1). split_and!; try done.
    eapply wf_ext; [exact Hp1|done|done|apply (pw_cursor p1 Hp1)].
  - destruct (parse_loop_ok 4 p1 Hp1) as (st & q & E & Hq & Hst & Hl); [unfold stage; destruct (position p1); lia|].
    exists st, q. split_and!; try done. change (plen p1) with (mb_length m) in Hl. lia.
Qed.
End Facts.

(** A parser and the data it gets, in pieces. *)
Inductive parser_reach `{Malloc, Resolver} : http_parser_t -> Prop :=
| reach_request : parser_reach parser_request_init
| reach_response m : parser_reach (parser_response_init m)
| reach_append p b n st q :
    parser_reach p -> 0 <= n <= zlen b -> plen p + n < 2 ^ 31 ->
    parser_append p b n = Some (st, q) -> parser_reach q
(** the user sets the position to read the body of a POST request *)
| reach_post p : parser_reach p -> parser_reach (set_position POS_ENTITY p).

Lemma parser_reach_wf `{Malloc, Resolver} p :
  (forall n, alloc_ok n = true) -> parser_reach p -> parser_wf p.
Proof.
  intros Ha. induction 1 as [|m|p b n st q Hr IH Hn Hs E|p Hr IH].
  - split; vm_compute; intuition congruence.
  - split; vm_compute; intuition congruence.
  - destruct (parser_append_ok Ha p b n IH Hn Hs) as (st' & q' & E' & Hq & _). congruence.
  - eapply wf_ext; [exact IH|done|done|apply IH].
Qed.

(** ** The header list *)

Lemma find_hdr_some P l i :
  find_hdr P l = Some i -> exists h, l !! i = Some h /\ P h = true.
Proof.
  revert i. induction l as [|h l IH]; intros i; cbn [find_hdr]; [done|].
  destruct (P h) eqn:E; [intros [= <-]; by exists h|].
  destruct (find_hdr P l) as [j|]; [|done]. intros [= <-]. by apply IH.
Qed.

Lemma find_hdr_none P l : find_hdr P l = None -> forall h, h ∈ l -> P h = false.
Proof.
  induction l as [|h l IH]; cbn [find_hdr]; [intros _ h Hh; by apply not_elem_of_nil in Hh|].
  destruct (P h) eqn:E; [done|]. destruct (find_hdr P l); [done|]. intros _ h' Hh.
  apply elem_of_cons in Hh as [->|Hh]; [done|]. by apply IH.
Qed.

(** The header a name stands for: the one with its identifier, or, for a name the
    program does not know, the one with the same name up to case. *)
Definition same_header `{Malloc} (p : http_parser_t) (token : memptr) (h : http_header_t) : bool :=
  let index := header_index p token in
  if index =? -1
  then memptr_cmp_nocase (mb_block (name_buf h)) (mb_length (name_buf h)) (slice (pmem p) token) =? 0
  else name_id h =? StrIntMap.id (StrIntMap.entry Http_Header_Names index).

Definition header_id `{Malloc} (p : http_parser_t) (token : memptr) : Z :=
  if header_index p token =? -1 then HDR_UNKNOWN
  else StrIntMap.id (StrIntMap.entry Http_Header_Names (header_index p token)).

Lemma find_hdr_ext P Q l : (forall h, P h = Q h) -> find_hdr P l = find_hdr Q l.
Proof.
  intros HE. induction l as [|h l IH]; [done|]. cbn [find_hdr]. by rewrite HE, IH.
Qed.

Lemma header_target_spec `{Malloc} p token :
  let '(hid, o, q) := header_target p token in
  hid = header_id p token /\ headers (pmsg q) = headers (pmsg p)
  /\ msg (pmsg q) = msg (pmsg p) /\ o = find_hdr (same_header p token) (headers (pmsg p)).
Proof.
  unfold header_target, header_id, same_header.
  destruct (header_index p token =? -1); cbn [negb]; [done|].
  assert (Hf : forall m i, httpmsg_find_hdr m i = find_hdr (fun h => name_id h =? i) (headers m))
    by done.
  rewrite Hf. by destruct (_ =? HDR_SOAPACTION).
Qed.

Section Headers.
Context `{HM : Malloc} (Halloc : forall n, alloc_ok n = true).

Lemma assign_ok m b n :
  mb_wf m -> 0 <= n <= zlen b -> n < 2 ^ 31 ->
  exists m', membuffer_assign m (Some b) n = (0, m') /\ mb_contents m' = ztake n b /\ mb_wf m'
    /\ mb_length m' = n.
Proof.
  intros Hm Hn Hs. destruct (membuffer_assign m (Some b) n) as [rc m'] eqn:E.
  pose proof (membuffer_assign_spec m b n rc m' Hm Hn Hs E) as [[-> ->]|(-> & H1 & H2 & _ & H3 & _)].
  - exfalso. revert E. unfold membuffer_assign.
    pose proof (set_size_ok m n ltac:(lia) (Halloc _)) as Hz.
    destruct (membuffer_set_size m n) as [r m1]. cbn in Hz. by rewrite Hz.
  - by exists m'.
Qed.

Lemma insert_ok m b n :
  mb_wf m -> 0 < n <= zlen b -> mb_length m + n < 2 ^ 31 ->
  exists m', membuffer_insert m (Some b) n (mb_length m) = (0, m')
    /\ mb_contents m' = mb_contents m ++ ztake n b /\ mb_wf m' /\ mb_length m' = mb_length m + n.
Proof.
  intros Hm Hn Hs. pose proof Hm as [Hl _].
  destruct (membuffer_insert m (Some b) n (mb_length m)) as [rc m'] eqn:E.
  pose proof (membuffer_insert_spec m b n (mb_length m) rc m' Hm ltac:(lia) Hn Hs E)
    as [[-> ->]|(-> & H1 & H2 & _ & H3 & _)].
  - apply membuffer_insert_oom in E; try done; try lia. by rewrite Halloc in E.
  - exists m'. split_and!; try done. rewrite H1.
    rewrite ztake_all, zdrop_all, app_nil_r by (rewrite zlen_contents by done; lia). done.
Qed.

Lemma slice_len p s :
  parser_wf p -> slice_in (plen p) 0 s -> zlen (from (pmem p) s) >= mp_length s.
Proof.
  intros Hp (H1 & H2 & H3). pose proof (pmem_len p Hp). unfold from. rewrite zlen_zdrop. lia.
Qed.

Lemma add_header_spec p token v i :
  parser_wf p -> slice_in (plen p) 0 token -> slice_in (plen p) 0 v ->
  exists h q, add_header p token v i = (None, q)
    /\ headers (pmsg q) = headers (pmsg p) ++ [h]
    /\ name_id h = i /\ mb_contents (name_buf h) = slice (pmem p) token
    /\ mb_contents (value h) = (if mp_length v =? 0 then [0] else slice (pmem p) v)
    /\ mb_wf (name_buf h) /\ mb_wf (value h).
Proof.
  intros Hp Ht Hv. unfold add_header, headers_add. rewrite !Halloc. cbn [negb].
  pose proof (slice_len p token Hp Ht). pose proof (slice_len p v Hp Hv).
  pose proof (pw_len p Hp). destruct Ht as (T1 & T2 & T3), Hv as (V1 & V2 & V3).
  set (vb := if mp_length v =? 0 then ([0; 0], 1) else _).
  assert (Hvb : 0 <= vb.2 <= zlen vb.1 /\ vb.2 < 2 ^ 31
     /\ ztake vb.2 vb.1 = if mp_length v =? 0 then [0] else slice (pmem p) v).
  { unfold vb. destruct (Z.eqb_spec (mp_length v) 0); cbn; [split_and!; [lia|zlia|lia|done]|].
    split_and!; try lia. done. }
  destruct vb as [b n]. cbn in Hvb. destruct Hvb as (B1 & B2 & B3).
  destruct (assign_ok (membuffer_init membuffer0) (from (pmem p) token) (mp_length token))
    as (m1 & -> & C1 & W1 & _); [apply membuffer_init_wf|lia|lia|].
  destruct (assign_ok (membuffer_init membuffer0) b n) as (m2 & -> & C2 & W2 & _);
    [apply membuffer_init_wf|lia|lia|]. cbn [negb Z.eqb].
  eexists (Header i m2 m1), _. split; [reflexivity|]. split_and!; try done. by cbn [value]; rewrite C2.
Qed.

Lemma append_value_spec p i h v :
  parser_wf p -> headers (pmsg p) !! i = Some h -> mb_wf (value h) ->
  slice_in (plen p) 0 v -> 0 < mp_length v -> mb_length (value h) + 2 + mp_length v < 2 ^ 31 ->
  exists w q, append_value p i v = (None, q)
    /\ headers (pmsg q) = <[i := Header (name_id h) w (name_buf h)]> (headers (pmsg p))
    /\ mb_contents w = mb_contents (value h) ++ zs ", " ++ slice (pmem p) v /\ mb_wf w.
Proof.
  intros Hp Hh Hw Hv Hpos Hs. unfold append_value, membuffer_append_str, membuffer_append.
  rewrite Hh. pose proof (slice_len p v Hp Hv).
  change (strlen (zs ", ")) with 2.
  destruct (insert_ok (value h) (zs ", ") 2) as (w1 & -> & C1 & W1 & L1);
    [done|split; [lia|by vm_compute]|lia|].
  destruct (insert_ok w1 (from (pmem p) v) (mp_length v)) as (w2 & -> & C2 & W2 & L2);
    [done|lia|lia|]. cbn [orb Z.eqb].
  exists w2. eexists. split; [reflexivity|]. split_and!; try done.
  rewrite C2, C1, <- app_assoc. done.
Qed.
End Headers.

(** ** The test for a chunked body *)

Lemma find_sub_complete w a b i : exists j, find_sub w (a ++ w ++ b) i = Some j.
Proof.
  revert i. induction a as [|c a IH]; intros i; cbn [app].
  - assert (prefixb w (w ++ b) = true) as HP by (apply prefixb_app; by exists b).
    destruct (w ++ b) as [|x l]; cbn [find_sub]; rewrite HP; by eexists.
  - cbn [find_sub]. destruct (prefixb w (c :: a ++ w ++ b)); [by eexists|apply IH].
Qed.

Lemma find_sub_max w l i j : find_sub w l i = Some j -> j <= i + zlen l.
Proof.
  revert i. induction l as [|c l IH]; intros i; cbn [find_sub].
  - destruct (prefixb w []); [|done]. intros [= <-]. change (zlen (@nil Z)) with 0. lia.
  - rewrite zlen_cons. pose proof (zlen_nonneg l). destruct (prefixb w (c :: l)).
    + intros [= <-]. lia.
    + intros E. apply IH in E. lia.
Qed.

Lemma tolower_nonzero l : Forall (fun c => c <> 0) l -> Forall (fun c => c <> 0) (map tolower l).
Proof.
  intros Hl. apply Forall_map. eapply Forall_impl; [exact Hl|]. intros c Hc E.
  apply Hc. by apply tolower_zero.
Qed.

(** The value of a header contains a word, up to case. *)
Definition mentions (v : membuffer) (word : list Z) : Prop :=
  exists a b, map tolower (mb_contents v) = a ++ word ++ b.

(** A header value as the parser stores it. *)
Definition plain_value (v : membuffer) : Prop :=
  mb_wf v /\ mb_terminated v /\ mb_length v < 2 ^ 31
  /\ Forall (fun c => c <> 0) (mb_contents v).

Lemma raw_find_str_spec v w :
  plain_value v -> Forall (fun c => c <> 0) w ->
  0 <= (raw_find_str (mb_block v) (mb_length v) w).1 <-> mentions v w.
Proof.
  intros (Hw & Ht & Hl & Hn) Hnw. unfold raw_find_str, strlen.
  rewrite (mb_terminated_strlen v Hw Ht Hn). cbn [fst].
  pose proof (zlen_contents v Hw) as Hlen. pose proof Hw as [[Hl0 _] _].
  set (rest := zdrop _ (mb_block v)). set (low := map tolower (mb_contents v)).
  assert (Hlow : zlen low = mb_length v).
  { unfold low, zlen. rewrite length_map. unfold zlen in Hlen. done. }
  assert (Hc : cstr (zset (low ++ rest) (mb_length v) 0) = low).
  { destruct rest as [|c r] eqn:Er.
    - unfold zset. destruct (Z.ltb_spec (mb_length v) 0); [lia|].
      rewrite app_nil_r, list_insert_ge by (unfold zlen in Hlow; lia).
      apply cstr_id, tolower_nonzero, Hn.
    - assert (zset (low ++ c :: r) (mb_length v) 0 = low ++ 0 :: r) as ->.
      { unfold zset. destruct (Z.ltb_spec (mb_length v) 0); [lia|].
        rewrite insert_app_r_alt by (unfold zlen in Hlow; lia).
        replace (Z.to_nat (mb_length v) - length low)%nat with 0%nat by (unfold zlen in Hlow; lia).
        done. }
      apply cstr_app_nul, tolower_nonzero, Hn. }
  unfold strstr. rewrite Hc, (cstr_id w Hnw). unfold mentions. fold low.
  destruct (find_sub w low 0) as [j|] eqn:E.
  - pose proof (find_sub_max _ _ _ _ E). apply find_sub_spec in E as (E1 & E2 & _).
    rewrite s32_small by lia. split; [intros _|lia].
    apply prefixb_app in E2 as [b E2]. exists (ztake j low), b.
    rewrite <- E2. replace (j - 0) with j by lia. by rewrite ztake_zdrop.
  - split; [lia|]. intros (a & b & Ea). rewrite Ea in E.
    destruct (find_sub_complete w a b 0) as [j Ej]. congruence.
Qed.

(** A change of one header that keeps its identifier does not move another. *)
Lemma find_hdr_insert k i h h' l :
  l !! i = Some h -> name_id h' = name_id h -> name_id h <> k ->
  (find_hdr (fun x => name_id x =? k) (<[i := h']> l) ≫= (fun j => <[i := h']> l !! j))
  = (find_hdr (fun x => name_id x =? k) l ≫= (fun j => l !! j)).
Proof.
  revert i. induction l as [|x l IH]; intros [|i] Hi Hid Hne; cbn in Hi; try done.
  - injection Hi as ->. change (<[0%nat := h']> (h :: l)) with (h' :: l). cbn [find_hdr].
    rewrite Hid, (proj2 (Z.eqb_neq _ _)) by done. by destruct (find_hdr _ l).
  - change (<[S i := h']> (x :: l)) with (x :: <[i := h']> l). cbn [find_hdr].
    destruct (name_id x =? k); [done|]. specialize (IH i Hi Hid Hne).
    destruct (find_hdr _ (<[i := h']> l)), (find_hdr _ l); cbn in *; done.
Qed.

(** ** Chunks *)

Lemma contents_split m (a b c : list Z) :
  mb_wf m -> mb_contents m = a ++ b ++ c ->
  ztake (zlen a) (mb_contents m) ++ zdrop (zlen a + zlen b) (mb_contents m) = a ++ c.
Proof.
  intros _ ->. rewrite ztake_app_exact. f_equal.
  replace (zlen a + zlen b) with (zlen (a ++ b)) by zlia.
  rewrite app_assoc. apply zdrop_app_exact.
Qed.

Lemma zget_contents m i : mb_wf m -> i < mb_length m -> zget (mb_block m) i = zget (mb_contents m) i.
Proof. intros _ Hi. unfold mb_contents. by rewrite zget_ztake_lt. Qed.

Section Chunks.
Context `{HM : Malloc, HR : Resolver} (Halloc : forall n, alloc_ok n = true).

Lemma delete_range_contents p (a b c : list Z) :
  parser_wf p -> mb_contents (msg (pmsg p)) = a ++ b ++ c -> 0 < plen p ->
  mb_contents (msg (pmsg (delete_range (zlen a) (zlen a + zlen b) p))) = a ++ c.
Proof.
  intros Hp Hc Hl. pose proof (zlen_contents _ (pw_msg p Hp)) as Hz. rewrite Hc in Hz.
  revert Hz. zlen_norm. intros Hz. unfold delete_range. cbn [pmsg with_msg msg set_buf].
  pose proof (zlen_nonneg a). pose proof (zlen_nonneg b). pose proof (zlen_nonneg c).
  destruct (membuffer_delete_spec (msg (pmsg p)) (zlen a) (zlen a + zlen b - zlen a)
    (pw_msg p Hp)) as (_ & D2 & _); try lia; [unfold plen in Hl; lia|apply Halloc|].
  rewrite D2. replace (zlen a + (zlen a + zlen b - zlen a)) with (zlen a + zlen b) by lia.
  by apply contents_split; [apply Hp|].
Qed.

(** The line end after the data of a chunk. *)
Lemma pmatch_crlf p a crlf c :
  parser_wf p -> mb_contents (msg (pmsg p)) = a ++ crlf ++ c -> cursor p = zlen a ->
  crlf = [CR; LF] \/ crlf = [LF] ->
  pmatch p fmt_crlf = (PARSE_OK, set_cursor (zlen a + zlen crlf) p, []).
Proof.
  intros Hp Hc Hcur Hcr. pose proof (zlen_contents _ (pw_msg p Hp)) as Hz. rewrite Hc in Hz.
  revert Hz. zlen_norm. intros Hz. pose proof (zlen_nonneg a). pose proof (zlen_nonneg c).
  assert (Hlc : 0 < zlen crlf) by (destruct Hcr as [-> | ->]; done).
  assert (Hg : forall k, 0 <= k < zlen crlf -> zget (pmem p) (zlen a + k) = zget crlf k).
  { intros k Hk. unfold pmem. rewrite zget_contents by (apply Hp || lia).
    rewrite Hc, zget_app_r, zget_app_l by lia. f_equal. lia. }
  assert (Ht : scanner_get_token (pmem p) (plen p) false (cursor p)
               = TokOk (Memptr (zlen a) (zlen crlf)) TT_CRLF).
  { rewrite Hcur. unfold scanner_get_token, plen.
    rewrite (proj2 (Z.eqb_neq (zlen a) _)) by lia.
    pose proof (Hg 0 ltac:(lia)) as Hg0. rewrite Z.add_0_r in Hg0. rewrite Hg0.
    destruct Hcr as [-> | ->]; [|done]. change (zget [CR; LF] 0) with TOKCHAR_CR. cbn [orb].
    change (is_identifier_char TOKCHAR_CR) with false. cbn iota.
    change (TOKCHAR_CR =? SP) with false. change (TOKCHAR_CR =? TAB) with false. cbn iota.
    rewrite (Z.eqb_refl TOKCHAR_CR), (proj2 (Z.eqb_neq (zlen a + 1) _)) by (revert Hz; zlen_norm; lia).
    rewrite (Hg 1 ltac:(done)). done. }
  unfold pmatch, vfmatch. change fmt_crlf with [PERCENT; 99]. cbn [vfmatch_loop].
  rewrite Z.eqb_refl.
  change (vfmatch_dir 1 (pmem p) (plen p) false 99 (cursor p) true)
    with (Some ((match_type (pmem p) (plen p) false (cursor p) TT_CRLF).1, true, [] : list arg)).
  unfold match_type. rewrite Ht. cbn. by rewrite Hcur.
Qed.

(** The round that reads the size line of a chunk. *)
Lemma chunk_header_round p p1 outs pre hdr body :
  parser_wf p -> ent_position p = ENTREAD_USING_CHUNKED ->
  mb_contents (msg (pmsg p)) = pre ++ hdr ++ body -> cursor p = zlen pre -> 0 < zlen body ->
  pmatch p fmt_chunk = (PARSE_OK, p1, outs) -> cursor p1 = zlen pre + zlen hdr ->
  forall n, arg_int outs 0 = Some n -> 0 < n < 2 ^ 31 ->
  exists q, parse_entity_step p = (PARSE_CONTINUE_1, q) /\ parser_wf q
    /\ mb_contents (msg (pmsg q)) = pre ++ body /\ cursor q = zlen pre
    /\ ent_position q = ENTREAD_CHUNKY_BODY /\ chunk_size q = n
    /\ entity_length (pmsg q) = entity_length (pmsg p).
Proof.
  intros Hp He Hc Hcur Hb Hm Hcur1 n Ho Hn.
  pose proof (pmatch_spec p fmt_chunk Hp) as HS. rewrite Hm in HS. destruct HS as (E1 & _).
  pose proof (zlen_contents _ (pw_msg p Hp)) as Hz. rewrite Hc in Hz.
  revert Hz. zlen_norm. intros Hz. pose proof (zlen_nonneg hdr). pose proof (zlen_nonneg pre).
  pose proof (pw_chunk p Hp) as Hk.
  assert (Hcs : store_low_int (chunk_size p) n = n).
  { unfold store_low_int. rewrite Z.div_small, u32_small by lia. lia. }
  set (p2 := set_chunk n p1).
  assert (Hp2 : parser_wf p2 /\ msg (pmsg p2) = msg (pmsg p)
                /\ entity_length (pmsg p2) = entity_length (pmsg p)).
  { unfold p2. rewrite E1. split; [|done]. destruct Hp. split; unfold plen in *; cbn; done || lia. }
  destruct Hp2 as (Hp2 & Hm2 & Hel).
  assert (Hcur2 : cursor p2 = zlen pre + zlen hdr) by done.
  set (p3 := set_cursor (zlen pre) (delete_range (zlen pre) (zlen pre + zlen hdr) p2)).
  assert (Hp3 : parser_wf p3).
  { apply (delete_range_wf Halloc); try done; unfold plen; rewrite ?Hm2; lia. }
  assert (Hc3 : mb_contents (msg (pmsg p3)) = pre ++ body).
  { apply delete_range_contents; [done|by rewrite Hm2|unfold plen; rewrite Hm2; lia]. }
  exists (set_ent ENTREAD_CHUNKY_BODY p3). split_and!; try done.
  - unfold parse_entity_step. rewrite He. unfold parser_parse_chunky_entity.
    rewrite Hm, Ho, bool_decide_eq_true_2 by done. cbn [negb].
    assert (chunk_size p1 = chunk_size p) as -> by (by rewrite E1). rewrite Hcs. fold p2.
    rewrite Hcur2, Hcur. fold p3.
    change (chunk_size p3) with n. by rewrite (proj2 (Z.eqb_neq n 0)) by lia.
  - eapply wf_ext; [exact Hp3|done|done|apply Hp3].
Qed.

(** The round that reads the data of a chunk. *)
Lemma chunk_data_round p pre data crlf rest :
  parser_wf p -> ent_position p = ENTREAD_CHUNKY_BODY ->
  mb_contents (msg (pmsg p)) = pre ++ data ++ crlf ++ rest -> cursor p = zlen pre ->
  chunk_size p = zlen data -> crlf = [CR; LF] \/ crlf = [LF] ->
  exists q, parse_entity_step p = (PARSE_CONTINUE_1, q) /\ parser_wf q
    /\ mb_contents (msg (pmsg q)) = pre ++ data ++ rest /\ cursor q = zlen pre + zlen data
    /\ ent_position q = ENTREAD_USING_CHUNKED
    /\ entity_length (pmsg q) = u64 (entity_length (pmsg p) + zlen data).
Proof.
  intros Hp He Hc Hcur Hk Hcr.
  pose proof (zlen_contents _ (pw_msg p Hp)) as Hz. rewrite Hc in Hz.
  revert Hz. zlen_norm. intros Hz. pose proof (zlen_nonneg data). pose proof (zlen_nonneg pre).
  pose proof (zlen_nonneg rest). pose proof (pw_len p Hp) as Hlen. unfold plen in Hlen.
  assert (Hlc : 0 < zlen crlf) by (destruct Hcr as [-> | ->]; done).
  set (e := zlen pre + zlen data).
  set (p0 := set_cursor e p).
  assert (Hp0 : parser_wf p0)
    by (eapply wf_ext; [exact Hp|done|done|unfold plen; cbn; unfold e; lia]).
  assert (He0 : zlen (pre ++ data) = e) by (rewrite zlen_app; done).
  pose proof (pmatch_crlf p0 (pre ++ data) crlf rest Hp0) as HPM.
  rewrite He0 in HPM. specialize (HPM ltac:(by rewrite <- app_assoc) eq_refl Hcr).
  set (p1 := set_cursor (e + zlen crlf) p0) in *.
  assert (Hp1 : parser_wf p1)
    by (eapply wf_ext; [exact Hp|done|done|unfold plen; cbn; unfold e; lia]).
  set (p2 := set_cursor e (delete_range e (e + zlen crlf) p1)).
  assert (Hp2 : parser_wf p2)
    by (apply (delete_range_wf Halloc); try done; unfold plen, e in *; cbn; lia).
  assert (Hc2 : mb_contents (msg (pmsg p2)) = pre ++ data ++ rest).
  { unfold p2. cbn [pmsg set_cursor]. rewrite <- He0, app_assoc.
    apply delete_range_contents; [done| |unfold plen; cbn; lia].
    cbn. rewrite Hc. by rewrite <- app_assoc. }
  eexists. split; [|split_and!].
  - unfold parse_entity_step. rewrite He. unfold parser_parse_chunky_body.
    rewrite Hk, Hcur, u64_small by (unfold plen; lia).
    rewrite (proj2 (Z.leb_le _ _)) by (unfold plen; lia). fold e. fold p0. rewrite HPM.
    rewrite bool_decide_eq_true_2 by done. cbn [negb].
    change (cursor p1) with (e + zlen crlf). fold p2. reflexivity.
  - eapply wf_ext; [exact Hp2|done|done|apply Hp2].
  - exact Hc2.
  - done.
  - done.
  - cbn [pmsg set_ent with_msg set_entity entity_length].
    change (chunk_size p2) with (chunk_size p). by rewrite Hk.
Qed.
End Chunks.

Module Http.


Definition sample_request : list Z :=
  zs "M-SEARCH * HTTP/1.1" ++ [CR; LF] ++ zs "HOST: 239.255.255.250:1900" ++ [CR; LF]
  ++ zs "Mx: 3" ++ [CR; LF; CR; LF].


(** A body with a content length: unless more data are needed the parse is
    complete, the entity has exactly the announced length and lies inside the
    message; what follows is cut off with a NUL. *)
Theorem clen_entity `{Malloc, Resolver} p :
  parser_wf p -> amount_discarded (pmsg p) = 0 ->
  0 <= entity_start_position p <= plen p -> 0 <= content_length p < 2 ^ 32 ->
  let '(st, q) := parser_parse_entity_using_clen p in
  if decide (plen p < entity_start_position p + content_length p)
  then st = PARSE_INCOMPLETE /\ position q = position p
       /\ entity_length (pmsg q) = plen p - entity_start_position p
  else st = PARSE_SUCCESS /\ position q = POS_COMPLETE
       /\ entity_buf (pmsg q) = Some (entity_start_position p)
       /\ entity_length (pmsg q) = content_length p
       /\ zsub (pmem q) (entity_start_position p) (content_length p)
          = zsub (pmem p) (entity_start_position p) (content_length p)
       /\ (entity_start_position p + content_length p < plen p ->
           zget (pmem q) (entity_start_position p + content_length p) = 0).
Proof.
  intros Hp Hd Hs Hc. pose proof (pmem_len p Hp) as Hml. pose proof (pw_len p Hp).
  unfold parser_parse_entity_using_clen. rewrite Hd, Z.add_0_r, u64_small by lia.
  set (len := plen p - entity_start_position p). set (p1 := with_msg p _).
  change (content_length p1) with (content_length p).
  destruct (Z.ltb_spec len (content_length p)); case_decide; try lia.
  { split_and!; done. }
  destruct (Z.ltb_spec (content_length p) len);
    [|split_and!; try done; intros; unfold len in *; lia].
  unfold pmem in *. cbn [pmsg with_msg set_position p1 set_entity set_buf msg amount_discarded
    entity_start_position].
  rewrite Hd, Z.sub_0_r, u64_small by lia.
  assert (Hz : forall blk, mb_block (set_block (msg (pmsg p)) (fun b => zset b blk 0))
                           = zset (mb_block (msg (pmsg p))) blk 0).
  { intros k. unfold mb_block, set_block. cbn. destruct (mb_buf _); cbn; [done|].
    unfold zset. by destruct (k <? 0). }
  split_and!; try done; cbn [pmsg with_msg set_position set_entity set_buf msg]; rewrite Hz.
  - apply zget_eq; unfold zsub; [rewrite !zlen_ztake, !zlen_zdrop, zlen_zset; lia|].
    intros k. rewrite zlen_ztake, zlen_zdrop, zlen_zset. intros Hk.
    rewrite !zget_ztake_lt, !zget_zdrop_nn, zget_zset_ne by lia. done.
  - intros Hlt. apply zget_zset_eq. lia.
Qed.

(** A parser with a given message, cursor and body position. *)
Definition sample_parser (text : list Z) (start cur : Z) (ent : entread) : http_parser_t :=
  set_cursor cur (set_start start (set_ent ent (set_position POS_ENTITY
    (with_msg (parser_response_init HTTPMETHOD_GET)
      (set_buf (Membuffer (Some (text ++ [0])) (zlen text) (zlen text) 5)))))).

Lemma clen_entity_witness :
  let p := set_clen 3 (sample_parser (zs "..abcXYZ") 2 2 ENTREAD_USING_CLEN) in
  exists q, parser_parse_entity_using_clen p = (PARSE_SUCCESS, q)
    /\ zsub (pmem q) 2 3 = zs "abc" /\ zget (pmem q) 5 = 0 /\ entity_length (pmsg q) = 3.
Proof.
  intros p. pose proof (clen_entity (H := malloc_always) (H0 := resolver_two) p) as T.
  specialize (T ltac:(split; vm_compute; intuition congruence) eq_refl
    ltac:(vm_compute; intuition congruence) ltac:(vm_compute; intuition congruence)).
  vm_compute in T. destruct T as (T1 & T2 & T3 & T4 & T5 & T6).
  eexists. split; [vm_compute; reflexivity|]. split; [exact T5|].
  split; [exact (T6 eq_refl)|exact T4].
Defined.

(** C28. Storing a header: a header whose name has not occurred before (by its
    identifier, or by its name up to case when the program does not know it) is
    added at the end, with its name and value (an empty value becomes one NUL
    byte); otherwise the first such header gets the value appended behind a comma
    and a blank, unless the value is empty.  No other header changes. *)
Theorem store_header_correct `{Malloc} p token v :
  (forall n, alloc_ok n = true) -> parser_wf p ->
  slice_in (plen p) 0 token -> slice_in (plen p) 0 v ->
  (forall h, h ∈ headers (pmsg p) ->
     mb_wf (value h) /\ mb_length (value h) + 2 + mp_length v < 2 ^ 31) ->
  exists q, store_header p token v = (None, q) /\
  match find_hdr (same_header p token) (headers (pmsg p)) with
  | None =>
      (forall h, h ∈ headers (pmsg p) -> same_header p token h = false)
      /\ exists h, headers (pmsg q) = headers (pmsg p) ++ [h]
           /\ name_id h = header_id p token /\ mb_contents (name_buf h) = slice (pmem p) token
           /\ mb_contents (value h) = (if mp_length v =? 0 then [0] else slice (pmem p) v)
  | Some i =>
      exists h, headers (pmsg p) !! i = Some h /\ same_header p token h = true
        /\ if mp_length v =? 0 then headers (pmsg q) = headers (pmsg p)
           else exists w,
             headers (pmsg q) = <[i := Header (name_id h) w (name_buf h)]> (headers (pmsg p))
             /\ mb_contents w = mb_contents (value h) ++ zs ", " ++ slice (pmem p) v
  end.
Proof.
  intros Ha Hp Ht Hv Hh. unfold store_header. pose proof (header_target_spec p token) as HT.
  pose proof (header_target_core p token) as HC.
  destruct (header_target p token) as [[hid o] p1]. cbn [snd] in HC.
  destruct HT as (-> & T1 & T2 & ->), HC as [C1 C2].
  assert (Hp1 : parser_wf p1) by (eapply core_wf; [exact Hp|done|rewrite C2; apply Hp]).
  pose proof (core_len _ _ C1) as Hl.
  assert (Hm : pmem p1 = pmem p) by (unfold pmem; by rewrite T2).
  destruct (find_hdr _ _) as [i|] eqn:E.
  - apply find_hdr_some in E as (h & E1 & E2).
    destruct (Hh h) as [W1 W2]; [by eapply list_elem_of_lookup_2|].
    destruct Hv as (V1 & V2 & V3). destruct (Z.eqb_spec (mp_length v) 0) as [E0|E0].
    + rewrite E0. exists p1. split; [done|]. by exists h.
    + rewrite (proj2 (Z.ltb_lt 0 _)) by lia.
      destruct (append_value_spec Ha p1 i h v) as (w & q & -> & Q1 & Q2 & _);
        rewrite ?T1, ?Hl; try done; try lia.
      exists q. split; [done|]. exists h. split_and!; try done. exists w.
      by rewrite Q1, T1, Q2, Hm.
  - destruct (add_header_spec Ha p1 token v (header_id p token)) as (h & q & -> & Q1 & Q2 & Q3 & Q4 & _);
      rewrite ?Hl; try done.
    exists q. split; [done|]. split; [by apply find_hdr_none|]. exists h.
    by rewrite Q1, T1, Q3, Q4, Hm.
Qed.

Definition sample_buf (t : list Z) : membuffer := Membuffer (Some (t ++ [0])) (zlen t) (zlen t) 5.
Definition with_headers (hs : list http_header_t) (p : http_parser_t) : http_parser_t :=
  with_msg p (set_headers hs).

Lemma store_header_correct_witness :
  let p := with_headers [Header 7 (sample_buf (zs "a")) (sample_buf (zs "HOST"))]
             (sample_parser (zs "hOsT: b") 0 0 ENTREAD_DETERMINE_READ_METHOD) in
  exists q w, store_header (H := malloc_always) p (Memptr 0 4) (Memptr 6 1) = (None, q)
    /\ headers (pmsg q) = [Header 7 w (sample_buf (zs "HOST"))] /\ mb_contents w = zs "a, b".
Proof.
  intros p. destruct (store_header_correct (H := malloc_always) p (Memptr 0 4) (Memptr 6 1))
    as (q & E & T).
  - done.
  - split; vm_compute; intuition congruence.
  - vm_compute; intuition congruence.
  - vm_compute; intuition congruence.
  - intros h Hh. apply list_elem_of_singleton in Hh as ->. vm_compute; intuition congruence.
  - exists q. change (find_hdr _ _) with (Some 0%nat) in T. destruct T as (h & E1 & _ & w & E2 & E3).
    cbn in E1. injection E1 as <-. exists w. split; [exact E|]. split; [exact E2|exact E3].
Defined.

(** The messages without a body, as a proposition. *)
Definition no_body_rule (req : bool) (meth code rmeth : Z) : Prop :=
  if req : bool then meth ∈ [HTTPMETHOD_HEAD; HTTPMETHOD_GET; HTTPMETHOD_SUBSCRIBE;
                      HTTPMETHOD_UNSUBSCRIBE; HTTPMETHOD_MSEARCH]
  else code ∈ [204; 304] \/ 100 <= code <= 199
       \/ rmeth ∈ [HTTPMETHOD_HEAD; HTTPMETHOD_MSEARCH; HTTPMETHOD_SUBSCRIBE;
                   HTTPMETHOD_UNSUBSCRIBE; HTTPMETHOD_NOTIFY].
#[local] Instance no_body_rule_dec (req : bool) (meth code rmeth : Z) : Decision (no_body_rule req meth code rmeth).
Proof. destruct req; cbn; apply _. Defined.

Lemma no_body_spec (req : bool) (meth code rmeth : Z) :
  (if req then request_no_body meth else response_no_body code rmeth)
  = bool_decide (no_body_rule req meth code rmeth).
Proof.
  apply eq_true_iff_eq. rewrite bool_decide_eq_true.
  destruct req; unfold no_body_rule, request_no_body, response_no_body;
    rewrite !list_elem_of_In; cbn [In]; rewrite ?orb_true_iff, ?andb_true_iff, ?Z.eqb_eq, ?Z.leb_le;
    intuition congruence.
Qed.

(** How the body is read: not at all for the requests and responses without
    a body; else in chunks when the first Transfer-Encoding header mentions
    "chunked" in any case; else by the number of the first Content-Length header;
    else a request fails with 411 (and is flagged when it is a NOTIFY), and a
    response is read until the connection closes. *)
Theorem read_method_correct p :
  (forall h, h ∈ headers (pmsg p) ->
     mb_wf (value h) /\ mb_terminated (value h) /\ mb_length (value h) < 2 ^ 31
     /\ Forall (fun c => c <> 0) (mb_contents (value h))) ->
  let '(st, q) := parser_get_entity_read_method p in
  let hs := headers (pmsg p) in
  let by_id k := find_hdr (fun h => name_id h =? k) hs ≫= (fun i => hs !! i) in
  let no_body := no_body_rule (is_request (pmsg p)) (method (pmsg p))
                              (status_code (pmsg p)) (request_method (pmsg p)) in
  entity_start_position q = cursor p
  /\ if decide no_body then st = PARSE_SUCCESS /\ position q = POS_COMPLETE
     else (exists h, by_id HDR_TRANSFER_ENCODING = Some h /\ mentions (value h) (zs "chunked")
             /\ st = PARSE_CONTINUE_1 /\ ent_position q = ENTREAD_USING_CHUNKED)
       \/ ((forall h, by_id HDR_TRANSFER_ENCODING = Some h -> ~ mentions (value h) (zs "chunked"))
           /\ match by_id HDR_CONTENT_LENGTH with
              | Some h =>
                  st = PARSE_CONTINUE_1 /\ ent_position q = ENTREAD_USING_CLEN
                  /\ content_length q
                     = u32 (raw_to_int (mb_block (value h)) (mb_length (value h)) 10)
              | None =>
                  if is_request (pmsg p)
                  then st = PARSE_FAILURE /\ http_error_code q = HTTP_LENGTH_REQUIRED
                       /\ valid_ssdp_notify_hack q
                          = valid_ssdp_notify_hack p || (method (pmsg p) =? HTTPMETHOD_NOTIFY)
                  else st = PARSE_CONTINUE_1 /\ ent_position q = ENTREAD_UNTIL_CLOSE
              end).
Proof.
  intros Hv. unfold parser_get_entity_read_method. set (p1 := set_start _ _). cbv zeta.
  change (is_request (pmsg p1)) with (is_request (pmsg p)).
  change (method (pmsg p1)) with (method (pmsg p)).
  change (status_code (pmsg p1)) with (status_code (pmsg p)).
  change (request_method (pmsg p1)) with (request_method (pmsg p)).
  rewrite (no_body_spec (is_request (pmsg p))).
  unfold bool_decide. destruct (no_body_rule_dec _ _ _ _) as [Hb|Hb].
  { split; [done|]. by rewrite decide_True by exact Hb. }
  change (httpmsg_find_hdr (pmsg p1) HDR_TRANSFER_ENCODING)
    with (find_hdr (fun h => name_id h =? HDR_TRANSFER_ENCODING) (headers (pmsg p))).
  destruct (find_hdr (fun h => name_id h =? HDR_TRANSFER_ENCODING) (headers (pmsg p)))
    as [i|] eqn:E.
  - destruct (find_hdr_some _ _ _ E) as (h & Hh & Hid). apply Z.eqb_eq in Hid.
    unfold is_chunked. change (headers (pmsg p1)) with (headers (pmsg p)). rewrite Hh.
    pose proof (raw_find_str_spec (value h) (zs "chunked")
      (Hv h (list_elem_of_lookup_2 _ _ _ Hh)) ltac:(by_decide)) as HM.
    destruct (raw_find_str (mb_block (value h)) (mb_length (value h)) (zs "chunked")) as [k low].
    cbn [fst] in HM. destruct (Z.leb_spec 0 k) as [Hk|Hk].
    + split; [done|]. left. exists h. cbn. by rewrite Hh, <- HM.
    + set (h' := Header (name_id h) (set_block (value h) (fun _ => low)) (name_buf h)).
      unfold httpmsg_find_hdr, httpmsg_compare.
      cbn [headers pmsg with_msg set_headers name_id].
      rewrite (find_hdr_insert HDR_CONTENT_LENGTH i h h' (headers (pmsg p)) Hh eq_refl)
        by (rewrite Hid; done).
      assert (Hno : forall h0, (Some i ≫= (fun j => headers (pmsg p) !! j)) = Some h0 ->
        ~ mentions (value h0) (zs "chunked")).
      { intros h0 Eh. cbn in Eh. rewrite Hh in Eh. injection Eh as <-. rewrite <- HM. lia. }
      destruct (find_hdr (fun x => name_id x =? HDR_CONTENT_LENGTH) (headers (pmsg p)) ≫= _);
      [by split; [|right]|].
      cbn [is_request method set_headers pmsg p1 set_start with_msg set_entity].
    destruct (is_request (pmsg p)); [|by split; [|right]].
      split; [by case_match|]. right. split; [done|].
      by destruct (method (pmsg p) =? HTTPMETHOD_NOTIFY); rewrite ?orb_true_r, ?orb_false_r.
  - unfold httpmsg_find_hdr, httpmsg_compare. cbn [headers pmsg with_msg name_id].
    change (headers (pmsg p1)) with (headers (pmsg p)).
    change (is_request (pmsg p1)) with (is_request (pmsg p)).
    change (method (pmsg p1)) with (method (pmsg p)).
    assert (Hno : forall h0, (None ≫= (fun j : nat => headers (pmsg p) !! j)) = Some h0 ->
        ~ mentions (value h0) (zs "chunked")) by done.
    destruct (find_hdr (fun x => name_id x =? HDR_CONTENT_LENGTH) (headers (pmsg p)) ≫= _);
      [by split; [|right]|].
    cbn [is_request method set_headers pmsg p1 set_start with_msg set_entity].
    destruct (is_request (pmsg p)); [|by split; [|right]].
    split; [by case_match|]. right. split; [done|].
    by destruct (method (pmsg p) =? HTTPMETHOD_NOTIFY); rewrite ?orb_true_r, ?orb_false_r.
Qed.

(** C4. Chunked bodies: when the size line of a chunk announces the length of the
    data that follow and the data end with CRLF or LF, two rounds of the body
    parser remove the framing: the message holds the data in place of the chunk,
    the cursor is behind them and the next chunk is expected. *)
Theorem chunk_decoded `{Malloc, Resolver} p p1 outs pre hdr data crlf rest f :
  (forall n, alloc_ok n = true) -> parser_wf p -> ent_position p = ENTREAD_USING_CHUNKED ->
  mb_contents (msg (pmsg p)) = pre ++ hdr ++ data ++ crlf ++ rest -> cursor p = zlen pre ->
  pmatch p fmt_chunk = (PARSE_OK, p1, outs) -> cursor p1 = zlen pre + zlen hdr ->
  arg_int outs 0 = Some (zlen data) -> 0 < zlen data -> crlf = [CR; LF] \/ crlf = [LF] ->
  exists q, parse_entity_loop (S (S f)) p = parse_entity_loop f q
    /\ mb_contents (msg (pmsg q)) = pre ++ data ++ rest
    /\ cursor q = zlen pre + zlen data /\ ent_position q = ENTREAD_USING_CHUNKED
    /\ entity_length (pmsg q) = u64 (entity_length (pmsg p) + zlen data).
Proof.
  intros Ha Hp He Hc Hcur Hm Hcur1 Ho Hd Hcr.
  pose proof (zlen_contents _ (pw_msg p Hp)) as Hz. rewrite Hc in Hz.
  revert Hz. zlen_norm. intros Hz. pose proof (pw_len p Hp) as Hlen. unfold plen in Hlen.
  destruct (chunk_header_round Ha p p1 outs pre hdr (data ++ crlf ++ rest) Hp He Hc Hcur
    ltac:(zlia) Hm Hcur1 (zlen data) Ho ltac:(pose_zlens; lia))
    as (q1 & E1 & W1 & C1 & U1 & P1 & K1 & L1).
  destruct (chunk_data_round Ha q1 pre data crlf rest W1 P1 C1 U1 K1 Hcr)
    as (q2 & E2 & W2 & C2 & U2 & P2 & L2).
  exists q2. cbn [parse_entity_loop]. rewrite E1. cbn [decide]. rewrite decide_True by done.
  rewrite E2, decide_True by done. split_and!; try done. by rewrite L2, L1.
Qed.

Lemma chunk_decoded_witness :
  let p := sample_parser (zs "##4;ext" ++ [CR; LF] ++ zs "Wiki" ++ [CR; LF] ++ zs "0")
             2 2 ENTREAD_USING_CHUNKED in
  exists q, parse_entity_loop (H := malloc_always) (H0 := resolver_two) 3 p
            = parse_entity_loop (H := malloc_always) (H0 := resolver_two) 1 q
    /\ mb_contents (msg (pmsg q)) = zs "##Wiki0".
Proof.
  intros p.
  destruct (chunk_decoded (H := malloc_always) (H0 := resolver_two) p
    (set_cursor 9 p) [AInt 4; AStr (Memptr 3 4)] (zs "##") (zs "4;ext" ++ [CR; LF])
    (zs "Wiki") [CR; LF] (zs "0") 1) as (q & E1 & E2 & _).
  - done.
  - split; vm_compute; intuition congruence.
  - reflexivity.
  - vm_compute; reflexivity.
  - reflexivity.
  - vm_compute; reflexivity.
  - reflexivity.
  - reflexivity.
  - reflexivity.
  - by left.
  - exists q. split; [exact E1|rewrite E2; reflexivity].
Defined.

Lemma read_method_correct_witness :
  let p := with_headers [Header 22 (sample_buf (zs "gzip, CHUNKED")) (sample_buf (zs "TE"))]
             (sample_parser (zs "body") 0 0 ENTREAD_DETERMINE_READ_METHOD) in
  let '(st, q) := parser_get_entity_read_method p in
  entity_start_position q = 0 /\ st = PARSE_CONTINUE_1 /\ ent_position q = ENTREAD_USING_CHUNKED.
Proof.
  intros p.
  assert (forall h, h ∈ headers (pmsg p) -> mb_wf (value h) /\ mb_terminated (value h)
    /\ mb_length (value h) < 2 ^ 31 /\ Forall (fun c => c <> 0) (mb_contents (value h))) as HV.
  { intros h Hh. apply list_elem_of_singleton in Hh as ->.
    split_and!; [split; vm_compute; intuition congruence|reflexivity|reflexivity|].
    vm_compute; repeat constructor; discriminate. }
  pose proof (read_method_correct p HV) as T. clear HV.
  destruct (parser_get_entity_read_method p) as [st q] eqn:E.
  destruct T as [T1 T2]. split; [exact T1|].
  revert T2. change (is_request (pmsg p)) with false.
  change (response_no_body _ _) with false. cbn iota.
  intros [(h & _ & _ & T)|[T _]]; [exact T|].
  exfalso. eapply T; [reflexivity|]. exists (zs "gzip, "), []. reflexivity.
Defined.
End Http.
