(* ===== verification/Sock.v ===== *)
(** * Sockets

    [upnp/src/genlib/net/sock.c] and, from [httpreadwrite.c], the connecting of a
    socket.  The system's answers are inputs: what [select], [recv] and [send] return,
    one after the other, and the time a transfer takes.  After the listed answers the
    peer has closed its end, [select] is ready and [send] takes everything; the bytes
    the peer got are collected. *)

From S2P Require Import Prelude CLib Codes Membuffer Uri.
#[local] Open Scope Z_scope.

Definition INVALID_SOCKET : Z := -1.

Record SOCKINFO := Sockinfo { socket : Z; foreign_sockaddr : sockaddr }.

Definition sock_init (sockfd : Z) : Z * SOCKINFO := (UPNP_E_SUCCESS, Sockinfo sockfd sockaddr0).
Definition sock_init_with_ip (sockfd : Z) (foreign : sockaddr) : Z * SOCKINFO :=
  let '(ret, info) := sock_init sockfd in
  if negb (ret =? UPNP_E_SUCCESS) then (ret, info)
  else (UPNP_E_SUCCESS, Sockinfo (socket info) foreign).

(** [close_rc]: what [close] returns. *)
Definition sock_close (close_rc sock : Z) : Z :=
  if negb (sock =? INVALID_SOCKET) then close_rc else -1.
Definition sock_destroy (close_rc : Z) (info : SOCKINFO) : Z * SOCKINFO :=
  if negb (socket info =? INVALID_SOCKET) then
    (if sock_close close_rc (socket info) =? -1 then UPNP_E_SOCKET_ERROR else UPNP_E_SUCCESS,
     Sockinfo INVALID_SOCKET (foreign_sockaddr info))
  else (UPNP_E_SUCCESS, info).

(** ** Transfers *)

Inductive selected := Ready | TimedOut | Interrupted | SelectError.

Record net := Net {
  n_select : list selected;
  n_recv : list (option (list Z));  (* [None]: an error; [Some []]: closed *)
  n_send : list (option Z);         (* [None]: an error; otherwise the most it takes *)
  n_time : list Z;                  (* seconds *)
  n_sent : list Z
}.

(** Interrupted calls are repeated. *)
Fixpoint wait_ready (l : list selected) : selected * list selected :=
  match l with
  | [] => (Ready, [])
  | Interrupted :: l => wait_ready l
  | r :: l => (r, l)
  end.

(** What does not fit into the buffer is left for the next call. *)
Definition recv (bufsize : Z) (l : list (option (list Z))) : option (list Z) * list (option (list Z)) :=
  match l with
  | [] => (Some [], [])
  | None :: l => (None, l)
  | Some b :: l => (Some (ztake bufsize b), if zlen b <=? bufsize then l else Some (zdrop bufsize b) :: l)
  end.

(** Sends until nothing is left: success, the other answers, the bytes sent. *)
Fixpoint send_loop (l : list (option Z)) (buffer : list Z) : bool * list (option Z) * list Z :=
  if zlen buffer =? 0 then (true, l, [])
  else
    match l with
    | [] => (true, [], buffer)
    | None :: l => (false, l, [])
    | Some k :: l =>
        let '(ok, l, sent) := send_loop l (zdrop k buffer) in
        (ok, l, ztake k buffer ++ sent)
    end.

Definition time_used (n : net) : Z * list Z :=
  match n_time n with [] => (0, []) | t :: l => (t, l) end.

(** The result, the bytes read, the time left and the network. *)
Definition sock_read_write (buffer : list Z) (bufsize timeoutSecs : Z) (bRead : bool) (n : net)
  : Z * list Z * Z * net :=
  if timeoutSecs <? 0 then (UPNP_E_TIMEDOUT, [], timeoutSecs, n)
  else
    let '(retCode, sel) := wait_ready (n_select n) in
    let n := Net sel (n_recv n) (n_send n) (n_time n) (n_sent n) in
    match retCode with
    | TimedOut => (UPNP_E_TIMEDOUT, [], timeoutSecs, n)
    | Interrupted | SelectError => (UPNP_E_SOCKET_ERROR, [], timeoutSecs, n)
    | Ready =>
        let left t := if negb (timeoutSecs =? 0) then timeoutSecs - t else timeoutSecs in
        if bRead then
          let '(r, rs) := recv bufsize (n_recv n) in
          let n := Net sel rs (n_send n) (n_time n) (n_sent n) in
          match r with
          | None => (UPNP_E_SOCKET_ERROR, [], timeoutSecs, n)
          | Some b =>
              let '(t, ts) := time_used n in
              (zlen b, b, left t, Net sel rs (n_send n) ts (n_sent n))
          end
        else
          let '(ok, ss, b) := send_loop (n_send n) (ztake bufsize buffer) in
          let n := Net sel (n_recv n) ss (n_time n) (n_sent n ++ b) in
          if negb ok then (-1, [], timeoutSecs, n)
          else
            let '(t, ts) := time_used n in
            (zlen b, [], left t, Net sel (n_recv n) ss ts (n_sent n))
    end.

Definition sock_read (bufsize timeoutSecs : Z) (n : net) : Z * list Z * Z * net :=
  sock_read_write [] bufsize timeoutSecs true n.
Definition sock_write (buffer : list Z) (bufsize timeoutSecs : Z) (n : net) : Z * Z * net :=
  let '(ret, _, t, n) := sock_read_write buffer bufsize timeoutSecs false n in (ret, t, n).

(** ** Connecting *)

(** [cn_errno]: [EINPROGRESS] or another error of [connect]; [cn_select]: what the wait
    for it returns; [cn_error]: the pending error of the socket, [None] when it cannot be
    read. *)
Record conn := Conn {
  cn_nonblock : bool;
  cn_connect : Z;
  cn_inprogress : bool;
  cn_select : Z;
  cn_error : option Z;
  cn_block : bool
}.

Definition sock_make_no_blocking (c : conn) : Z := if cn_nonblock c then 0 else -1.
Definition sock_make_blocking (c : conn) : Z := if cn_block c then 0 else -1.

Definition Check_Connect_And_Wait_Connection (c : conn) (connect_res : Z) : Z :=
  if connect_res <? 0 then
    if cn_inprogress c then
      if cn_select c <=? 0 then -1
      else match cn_error c with
           | None => -1
           | Some valopt => if negb (valopt =? 0) then -1 else 0
           end
    else 0
  else 0.

Definition private_connect (c : conn) : Z :=
  let ret := sock_make_no_blocking c in
  if negb (ret =? -1) then
    let ret := Check_Connect_And_Wait_Connection c (cn_connect c) in
    if negb (ret =? -1) then sock_make_blocking c else ret
  else ret.

(** ** Facts *)

Lemma wait_ready_not_interrupted l : (wait_ready l).1 <> Interrupted.
Proof. by induction l as [|[] l IH]. Qed.

(** Bytes that can still arrive. *)
Definition incoming (n : net) : list Z := flat_map (default []) (n_recv n).
(** The reads of a loop that stops at the end or at an error. *)
Definition recv_fuel (n : net) : nat := S (length (n_recv n) + length (incoming n)).

Lemma recv_some k l b l' :
  recv k l = (Some b, l') -> 0 < k -> 0 < zlen b ->
  flat_map (default []) l = b ++ flat_map (default []) l' /\ zlen b <= k
  /\ (length l' + length (flat_map (default []) l') < length l + length (flat_map (default []) l))%nat.
Proof.
  intros E Hk Hb. destruct l as [|[c|] l]; cbn in E; simplify_eq; [by cbn in Hb| ].
  destruct (Z.leb_spec (zlen c) k).
  - rewrite ztake_all by lia. cbn. rewrite length_app. split; [done|]. split; [lia|].
    rewrite ztake_all in Hb by lia. unfold zlen in Hb. lia.
  - cbn. rewrite app_assoc, ztake_zdrop. split; [done|]. rewrite zlen_ztake. split; [lia|].
    rewrite !length_app. unfold zdrop. rewrite length_drop. unfold zlen in *. lia.
Qed.

(** A read that returns data: its size, and the bytes taken off the stream. *)
Lemma sock_read_pos k t n r b t' n' :
  sock_read k t n = (r, b, t', n') -> 0 < k -> 0 < r ->
  r = zlen b /\ zlen b <= k /\ incoming n = b ++ incoming n' /\ (recv_fuel n' < recv_fuel n)%nat
  /\ n_sent n' = n_sent n.
Proof.
  unfold sock_read, sock_read_write. intros E Hk Hr.
  destruct (t <? 0); [simplify_eq; done|]. destruct (wait_ready (n_select n)) as [[] sel];
    simplify_eq; try done. cbn [n_recv n_send n_time n_sent] in E.
  destruct (recv k (n_recv n)) as [[c|] rs] eqn:Er; [|simplify_eq; done].
  unfold time_used in E. cbn [n_time] in E.
  assert (Hc : r = zlen c /\ b = c /\ n_recv n' = rs /\ n_sent n' = n_sent n)
    by (destruct (n_time n); simplify_eq; done).
  destruct Hc as (-> & -> & En & Es). clear E.
  apply recv_some in Er as (E1 & E2 & E3); [|done|done].
  unfold incoming, recv_fuel, incoming. rewrite En. split; [done|]. split; [done|]. split; [done|].
  split; [lia|done].
Qed.

Lemma send_loop_ok l b : let '(ok, _, sent) := send_loop l b in exists rest, b = sent ++ rest /\ (ok = true -> rest = []).
Proof.
  revert b. induction l as [|[k|] l IH]; intros b; cbn [send_loop];
    (destruct (Z.eqb_spec (zlen b) 0) as [Hz|Hz]; [apply zlen_zero in Hz as ->; by exists []|]).
  - exists []. by rewrite app_nil_r.
  - specialize (IH (zdrop k b)). destruct (send_loop l (zdrop k b)) as [[ok l'] s].
    destruct IH as (rest & E & Hok). exists rest. split; [|done].
    by rewrite <- app_assoc, <- E, ztake_zdrop.
  - exists b. by split.
Qed.

(** A write sends a prefix, and all of it when it reports success. *)
Lemma sock_write_ok b k t n r t' n' :
  sock_write b k t n = (r, t', n') -> 0 <= k <= zlen b ->
  exists s rest, ztake k b = s ++ rest /\ n_sent n' = n_sent n ++ s /\ n_recv n' = n_recv n
    /\ (0 <= r -> rest = [] /\ r = k).
Proof.
  unfold sock_write, sock_read_write. intros E Hk.
  assert (H0 : forall m, n_sent m = n_sent n -> n_recv m = n_recv n -> r < 0 ->
    m = n' -> exists s rest, ztake k b = s ++ rest /\ n_sent n' = n_sent n ++ s /\ n_recv n' = n_recv n
      /\ (0 <= r -> rest = [] /\ r = k)).
  { intros m E1 E2 Hr <-. exists [], (ztake k b). rewrite E1, app_nil_r. split; [done|]. split; [done|].
    split; [done|lia]. }
  destruct (t <? 0); [simplify_eq; by eapply H0|].
  destruct (wait_ready (n_select n)) as [[] sel]; [|simplify_eq; refine (H0 _ _ _ _ eq_refl); done..].
  cbn [n_recv n_send n_time n_sent] in E. pose proof (send_loop_ok (n_send n) (ztake k b)) as Hs.
  destruct (send_loop (n_send n) (ztake k b)) as [[ok ss] s]. destruct Hs as (rest & Es & Hok).
  exists s, rest. split; [done|]. unfold time_used in E. cbn [n_time] in E.
  destruct ok; cbn [negb] in E.
  - assert (Hn : n_sent n' = n_sent n ++ s /\ n_recv n' = n_recv n /\ r = zlen s)
      by (destruct (n_time n); simplify_eq; done).
    destruct Hn as (-> & -> & ->). split; [done|]. split; [done|]. intros _.
    rewrite Hok in Es by done. rewrite app_nil_r in Es. split; [by apply Hok|].
    rewrite <- Es, zlen_ztake. lia.
  - simplify_eq. cbn. split; [done|]. split; [done|]. lia.
Qed.

(** A refused connection: [connect] fails at once, and the result says success. *)
Example refused_is_connected : private_connect (Conn true (-1) false 0 None true) = 0.
Proof. reflexivity. Qed.
(** A transfer that takes all of the time leaves a time of 0, which means no limit. *)
Example time_runs_out :
  let '(r, b, t, n) := sock_read 10 5 (Net [] [Some (zs "ab")] [] [5] []) in (r, t) = (2, 0).
Proof. reflexivity. Qed.
