(* ===== verification/HttpMsg.v ===== *)
(** * HTTP messages that are sent

    [upnp/src/genlib/net/http/httpreadwrite.c]: the URL that is asked for,
    [http_MakeMessage] with every directive of its format language, and the requests
    built with it.  The variable arguments are a list of [va]; an assertion that fails,
    a missing argument or one of another type is a fault ([None]).  The clock, [uname]
    and the version of the package are the environment [http_env].  The table of status
    texts is as before its first use ([http_get_code_text] gives the same answer
    afterwards). *)

From S2P Require Import Prelude CLib Codes Membuffer Uri Tables Scanner HttpParser.
#[local] Open Scope Z_scope.
Import StatCodes.

Record http_env := HttpEnv {
  he_now : Z;
  he_sysname : list Z;
  he_release : list Z;
  he_version : list Z
}.

(** [struct SendInstruction]; a character array is its bytes. *)
Record SendInstruction := Instr {
  IsVirtualFile : bool;
  IsChunkActive : bool;
  IsRangeActive : bool;
  IsTrailers : bool;
  RangeHeader : list Z;
  AcceptLanguageHeader : list Z;
  RangeOffset : Z;
  ReadSendSize : Z;
  RecvWriteSize : Z
}.

Definition WEB_SERVER_CONTENT_LANGUAGE : list Z := [].

(** ** The URL of a request *)

(** A URL whose path may be the literal ["/"]: [fx_path] is the text of its path. *)
Record fixed_url := Fixed { fx_uri : uri_type; fx_path : list Z }.

Definition http_FixUrl (mem : list Z) (base : Z) (url : uri_type) : Z * fixed_url :=
  let path := token_text mem base (uri_pathquery url) in
  if negb (token_string_casecmp (zdrop (tk_buff (uri_scheme url) - base) mem) (tk_size (uri_scheme url))
                                (zs "http") =? 0)
  then (UPNP_E_INVALID_URL, Fixed url path)
  else if tk_size (hp_text (uri_hostport url)) =? 0 then (UPNP_E_INVALID_URL, Fixed url path)
  else (UPNP_E_SUCCESS, Fixed url (if tk_size (uri_pathquery url) =? 0 then zs "/" else path)).

Definition http_FixStrUrl `{Resolver} (urlstr : list Z) (urlstrlen : Z) : Z * fixed_url :=
  match parse_uri urlstr 1 urlstrlen with
  | inl _ => (UPNP_E_INVALID_URL, Fixed uri0 [])
  | inr url => http_FixUrl urlstr 1 url
  end.

(** ** Dates *)

Record tm := Tm {
  tm_year : Z; tm_mon : Z; tm_mday : Z; tm_hour : Z; tm_min : Z; tm_sec : Z; tm_wday : Z
}.

(** [gmtime_r]: the proleptic Gregorian calendar; [tm_year] is an [int]. *)
Definition http_gmtime_r (t : Z) : option tm :=
  let days := t / 86400 in
  let s := t mod 86400 in
  (* years that start on the first of March, in eras of 400 *)
  let z := days + 719468 in
  let era := z / 146097 in
  let doe := z mod 146097 in
  let yoe := (doe - doe / 1460 + doe / 36524 - doe / 146096) / 365 in
  let doy := doe - (365 * yoe + yoe / 4 - yoe / 100) in
  let mp := (5 * doy + 2) / 153 in
  let mon := if mp <? 10 then mp + 2 else mp - 10 in
  let year := yoe + era * 400 + (if mon <? 2 then 1 else 0) - 1900 in
  if (year <? - 2 ^ 31) || (2 ^ 31 <=? year) then None
  else Some (Tm year mon (doy - (153 * mp + 2) / 5 + 1) (s / 3600) (s / 60 mod 60) (s mod 60)
                ((days + 4) mod 7)).

Definition weekday_str : list Z :=
  texts ["Sun"; "Mon"; "Tue"; "Wed"; "Thu"; "Fri"; "Sat"]%string.
Definition month_str : list Z :=
  texts ["Jan"; "Feb"; "Mar"; "Apr"; "May"; "Jun"; "Jul"; "Aug"; "Sep"; "Oct"; "Nov"; "Dec"]%string.

Definition date_text (start_str end_str : list Z) (d : tm) : list Z :=
  start_str ++ cstr (zdrop (tm_wday d * 4) weekday_str) ++ zs ", " ++ dec_02 (tm_mday d) ++ [SP]
  ++ cstr (zdrop (tm_mon d * 4) month_str) ++ [SP] ++ dec_s (s32 (tm_year d + 1900)) ++ [SP]
  ++ dec_02 (tm_hour d) ++ [COLON] ++ dec_02 (tm_min d) ++ [COLON] ++ dec_02 (tm_sec d)
  ++ zs " GMT" ++ end_str.

(** ** [http_MakeMessage] *)

Inductive va :=
| VaStr (s : option (list Z))
| VaSize (n : Z)
| VaInt (n : Z)
| VaOff (n : Z)
| VaTime (t : Z)
| VaInstr (i : SendInstruction)
| VaUri (mem : list Z) (base : Z) (u : uri_type).

(** The bytes behind a pointer, for a C string. *)
Definition VaText (s : list Z) : va := VaStr (Some s).

Definition tempbuf_size : Z := 200.

(** [snprintf] into a buffer of [size] bytes: what is in it afterwards. *)
Definition snprintf (size : Z) (text : list Z) : list Z := ztake (size - 1) text.

Definition get_sdk_info (env : http_env) (infoSize : Z) : list Z :=
  snprintf infoSize (cstr (he_sysname env) ++ [SLASH] ++ cstr (he_release env)
    ++ zs ", UPnP/1.0, Portable SDK for UPnP devices/" ++ he_version env ++ crlf).

Definition status_code_text (status_code : Z) : option (list Z) :=
  (http_get_code_text status_code tables0).1.

Section MakeMessage.
Context `{Malloc, Resolver}.
Variable env : http_env.
Variables http_major_version http_minor_version : Z.

(** A directive: [0], or the error; the arguments that are left; the buffer. *)
Definition step_result : Type := Z * list va * membuffer.

Definition append (text : list Z) (length : Z) (args : list va) (buf : membuffer)
  : option step_result :=
  let '(rc, b) := membuffer_append buf (Some text) length in
  Some (if rc =? 0 then 0 else UPNP_E_OUTOF_MEMORY, args, b).
Definition append_str (text : list Z) args buf := append text (strlen text) args buf.

(** [snprintf] into [tempbuf], which must hold all of it. *)
Definition append_temp (text : list Z) args buf : option step_result :=
  if tempbuf_size <=? zlen text then Some (UPNP_E_OUTOF_MEMORY, args, buf)
  else append_str text args buf.

(** A nested [http_MakeMessage]. *)
Definition nested (r : option (Z * membuffer)) (args : list va) : option step_result :=
  '(rc, b) ← r; Some (if rc =? 0 then 0 else UPNP_E_OUTOF_MEMORY, args, b).

Definition connection_close : bool :=
  (1 <? http_major_version) || ((http_major_version =? 1) && (http_minor_version =? 1)).

Section Directives.
Variable make : list Z -> list va -> membuffer -> option (Z * membuffer).

Definition make_date (start_str end_str : list Z) (t : Z) args buf : option step_result :=
  match http_gmtime_r t with
  | None => Some (UPNP_E_OUTOF_MEMORY, args, buf)
  | Some date => append_temp (date_text start_str end_str date) args buf
  end.
Definition make_agent (temp_str : list Z) args buf : option step_result :=
  nested (make (zs "ss") [VaText temp_str; VaText (get_sdk_info env tempbuf_size)] buf) args.
Definition make_simple_body (status_code : Z) args buf : option step_result :=
  let text := zs "<html><body><h1>" ++ dec_s status_code ++ [SP]
              ++ cstr (default (zs "(null)") (status_code_text status_code)) ++ zs "</h1></body></html>" in
  if tempbuf_size <=? zlen text then Some (UPNP_E_OUTOF_MEMORY, args, buf)
  else nested (make (zs "NTcs") [VaOff (strlen text); VaText (zs "text/html"); VaText text] buf) args.
Definition make_response_line (status_code : Z) args buf : option step_result :=
  if status_code <=? 0 then None
  else
    let text := zs "HTTP/" ++ dec_s http_major_version ++ [DOT] ++ dec_s http_minor_version ++ [SP]
                ++ dec_s status_code ++ [SP] in
    if tempbuf_size <=? zlen text then Some (UPNP_E_OUTOF_MEMORY, args, buf)
    else nested (make (zs "ssc") [VaText text; VaStr (status_code_text status_code)] buf) args.
Definition make_request_line (method : Z) (url_str : list Z) (num : Z) args buf : option step_result :=
  nested (make (zs "ssbsdsdc")
            [VaStr (method_to_str method); VaText [SP]; VaText url_str; VaSize num;
             VaText (zs " HTTP/"); VaInt http_major_version; VaText [DOT]; VaInt http_minor_version]
            buf) args.
Definition make_request_host (method : Z) (mem : list Z) (base : Z) (u : uri_type) args buf
  : option step_result :=
  let '(rc, url) := http_FixUrl mem base u in
  if negb (rc =? 0) then Some (UPNP_E_INVALID_URL, args, buf)
  else
    let host := hp_text (uri_hostport (fx_uri url)) in
    nested (make (zs "Qsbc")
              [VaInt method; VaText (fx_path url); VaSize (zlen (fx_path url)); VaText (zs "HOST: ");
               VaText (zdrop (tk_buff host - base) mem); VaSize (tk_size host)] buf) args.

Definition directive (c : Z) (args : list va) (buf : membuffer) : option step_result :=
  let dir x := is_char_lit c x in
  if dir "s" then
    match args with VaStr (Some s) :: args => append_str s args buf | _ => None end
  else if dir "K" then append_str (zs "TRANSFER-ENCODING: chunked" ++ crlf) args buf
  else if dir "G" then
    match args with VaInstr i :: args => append_str (RangeHeader i) args buf | _ => None end
  else if dir "b" then
    match args with VaStr (Some s) :: VaSize n :: args => append s n args buf | _ => None end
  else if dir "c" then append crlf 2 args buf
  else if dir "d" then
    match args with VaInt n :: args => append_temp (dec (u64 n)) args buf | _ => None end
  else if dir "h" then
    match args with VaOff n :: args => append_temp (dec_s n) args buf | _ => None end
  else if dir "t" then
    match args with VaTime t :: args => make_date [] [] t args buf | _ => None end
  else if dir "D" then make_date (zs "DATE: ") crlf (he_now env) args buf
  else if dir "L" then
    match args with
    | VaInstr i :: args =>
        if negb (strcmp (AcceptLanguageHeader i) [] =? 0)
           && negb (strcmp WEB_SERVER_CONTENT_LANGUAGE [] =? 0)
        then nested (make (zs "ssc") [VaText (zs "CONTENT-LANGUAGE: ");
                                      VaText WEB_SERVER_CONTENT_LANGUAGE] buf) args
        else Some (0, args, buf)
    | _ => None
    end
  else if dir "C" then
    if connection_close then append_str (zs "CONNECTION: close" ++ crlf) args buf
    else Some (0, args, buf)
  else if dir "N" then
    match args with
    | VaOff n :: args =>
        if n <? 0 then None
        else nested (make (zs "shc") [VaText (zs "CONTENT-LENGTH: "); VaOff n] buf) args
    | _ => None
    end
  else if dir "S" then make_agent (zs "SERVER: ") args buf
  else if dir "U" then make_agent (zs "USER-AGENT: ") args buf
  else if dir "X" then
    match args with
    | VaStr (Some s) :: args =>
        '(rc, args, buf) ← append_str (zs "X-User-Agent: ") args buf;
        if negb (rc =? 0) then Some (rc, args, buf) else append_str s args buf
    | _ => None
    end
  else if dir "R" then
    match args with VaInt code :: args => make_response_line code args buf | _ => None end
  else if dir "B" then
    match args with VaInt code :: args => make_simple_body code args buf | _ => None end
  else if dir "Q" then
    match args with
    | VaInt method :: VaStr (Some url) :: VaSize n :: args => make_request_line method url n args buf
    | _ => None
    end
  else if dir "q" then
    match args with
    | VaInt method :: VaUri mem base u :: args => make_request_host method mem base u args buf
    | _ => None
    end
  else if dir "T" then
    match args with
    | VaStr s :: args =>
        nested (make (zs "ssc") [VaText (zs "CONTENT-TYPE: "); VaStr s] buf) args
    | _ => None
    end
  else None.

Fixpoint make_loop (fmt : list Z) (args : list va) (buf : membuffer) : option (Z * membuffer) :=
  match fmt with
  | [] => Some (0, buf)
  | c :: fmt =>
      '(rc, args, buf) ← directive c args buf;
      if negb (rc =? 0) then Some (rc, membuffer_destroy buf) else make_loop fmt args buf
  end.
End Directives.

(** [depth]: how far the calls nest. *)
Fixpoint make_message (depth : nat) (fmt : list Z) (args : list va) (buf : membuffer)
  : option (Z * membuffer) :=
  match depth with
  | O => None
  | S d => make_loop (make_message d) fmt args buf
  end.
End MakeMessage.

(** No directive needs more than three nested calls. *)
Definition http_MakeMessage `{Malloc, Resolver} (env : http_env) (buf : membuffer)
    (http_major_version http_minor_version : Z) (fmt : list Z) (args : list va)
  : option (Z * membuffer) :=
  make_message env http_major_version http_minor_version 4 fmt args buf.

Definition http_CalcResponseVersion (request_major_vers request_minor_vers : Z) : Z * Z :=
  if (1 <? request_major_vers) || ((request_major_vers =? 1) && (1 <=? request_minor_vers))
  then (1, 1) else (request_major_vers, request_minor_vers).

(** ** Requests *)

Definition buffer0 `{Malloc} : membuffer := membuffer_init membuffer0.

(** The host of a URL: the string behind ["//"] and its length up to the next slash;
    [slash]: there must be one. *)
Definition url_host (slash : bool) (url_str : list Z) : option (list Z * Z) :=
  i ← strstr url_str (zs "//");
  let hoststr := cstr (zdrop (i + 2) url_str) in
  match strstr hoststr (zs "/") with
  | Some k => Some (hoststr, k)
  | None => if slash then None else Some (hoststr, zlen hoststr)
  end.

(** [None]: a fault; the result, the request and the URL. *)
Section Requests.
Context `{Malloc, Resolver}.
Variable env : http_env.

Definition host_args (url : fixed_url) (host : list Z * Z) (meth : Z) : list va :=
  [VaInt meth; VaText (fx_path url); VaSize (zlen (fx_path url)); VaText (zs "HOST: ");
   VaText host.1; VaSize host.2].

(** On an error the message is destroyed once more. *)
Definition finish_request (r : option (Z * membuffer)) (url : fixed_url)
  : option (Z * membuffer * fixed_url) :=
  '(rc, request) ← r;
  Some (if negb (rc =? 0) then (rc, membuffer_destroy request, url)
        else (UPNP_E_SUCCESS, request, url)).

Definition MakePostMessage (url_str : list Z) (contentLength : Z) (contentType : list Z)
  : option (Z * membuffer * fixed_url) :=
  let '(ret_code, url) := http_FixStrUrl (cstr url_str) (strlen url_str) in
  if negb (ret_code =? UPNP_E_SUCCESS) then Some (ret_code, membuffer0, url)
  else
    match url_host true (cstr url_str) with
    | None => Some (UPNP_E_INVALID_URL, buffer0, url)
    | Some host =>
        let args := host_args url host HTTPMETHOD_POST ++ [VaText contentType] in
        if 0 <=? contentLength then
          finish_request (http_MakeMessage env buffer0 1 1 (zs "QsbcDCUTNc")
                            (args ++ [VaOff contentLength])) url
        else if contentLength =? UPNP_USING_CHUNKED then
          finish_request (http_MakeMessage env buffer0 1 1 (zs "QsbcDCUTKc") args) url
        else if contentLength =? UPNP_UNTIL_CLOSE then
          finish_request (http_MakeMessage env buffer0 1 1 (zs "QsbcDCUTc") args) url
        else Some (UPNP_E_INVALID_PARAM, membuffer_destroy buffer0, url)
    end.

Definition MakeGetMessage (url_str : list Z) (proxy_str : option (list Z))
  : option (Z * membuffer * fixed_url) :=
  let '(ret_code, url) := http_FixStrUrl (cstr url_str) (strlen url_str) in
  if negb (ret_code =? UPNP_E_SUCCESS) then Some (ret_code, membuffer0, url)
  else
    match url_host true (cstr url_str) with
    | None => Some (UPNP_E_INVALID_URL, buffer0, url)
    | Some host =>
        let query := match proxy_str with Some _ => cstr url_str | None => fx_path url end in
        finish_request (http_MakeMessage env buffer0 1 1 (zs "QsbcDCUc")
                          (host_args (Fixed (fx_uri url) query) host HTTPMETHOD_GET)) url
    end.

Definition MakeGetMessageEx (url_str : list Z) (pRangeSpecifier : SendInstruction)
  : option (Z * membuffer * fixed_url) :=
  let '(errCode, url) := http_FixStrUrl (cstr url_str) (strlen url_str) in
  if negb (errCode =? UPNP_E_SUCCESS) then Some (errCode, membuffer0, url)
  else
    match url_host true (cstr url_str) with
    | None => Some (UPNP_E_INVALID_URL, buffer0, url)
    | Some host =>
        finish_request (http_MakeMessage env buffer0 1 1 (zs "QsbcGDCUc")
                          (host_args url host HTTPMETHOD_GET ++ [VaInstr pRangeSpecifier])) url
    end.

(** The request of [http_Download]: the host may be the end of the URL. *)
Definition download_request (url_str : list Z) : option (Z * membuffer * fixed_url) :=
  let '(ret_code, url) := http_FixStrUrl (cstr url_str) (strlen url_str) in
  if negb (ret_code =? UPNP_E_SUCCESS) then Some (ret_code, membuffer0, url)
  else
    match url_host false (cstr url_str) with
    | None => Some (UPNP_E_INVALID_URL, buffer0, url)
    | Some host =>
        finish_request (http_MakeMessage env buffer0 1 1 (zs "QsbcDCUc")
                          (host_args url host HTTPMETHOD_GET)) url
    end.

(** The message of [http_SendStatusResponse]. *)
Definition status_response (http_status_code request_major request_minor : Z)
  : option (Z * membuffer) :=
  let '(major, minor) := http_CalcResponseVersion request_major request_minor in
  let membuf := Membuffer (mb_buf buffer0) (mb_length buffer0) (mb_capacity buffer0) 70 in
  http_MakeMessage env membuf major minor (zs "RSCB") [VaInt http_status_code; VaInt http_status_code].
End Requests.
