(* ===== verification/HttpMsgFacts.v ===== *)
(** * Facts about the messages that are sent

    What each directive of [http_MakeMessage] adds to the message, and that the nested
    calls, the temporary buffer and the growing buffer add just that or leave nothing. *)

From S2P Require Import Prelude CLib Codes Membuffer Uri Tables Scanner HttpParser HttpFacts HttpMsg.
#[local] Open Scope Z_scope.

(** ** Numbers in decimal *)

Definition no_nul (l : list Z) : Prop := Forall (fun c => c <> 0) l.

Lemma dec_digits_nz f n acc : 0 <= n -> no_nul acc -> no_nul (dec_digits f n acc).
Proof.
  revert n acc. induction f as [|f IH]; intros n acc Hn Ha; [done|]. cbn [dec_digits].
  pose proof (Z.mod_pos_bound n 10 ltac:(lia)).
  destruct (n <? 10); [constructor; [lia|done]|]. apply IH; [by apply Z.div_pos|]. constructor; [lia|done].
Qed.
Lemma dec_nz n : 0 <= n -> no_nul (dec n).
Proof. intros. apply dec_digits_nz; [done|constructor]. Qed.
Lemma dec_digits_len f n acc : zlen (dec_digits f n acc) <= Z.of_nat f + zlen acc.
Proof.
  revert n acc. induction f as [|f IH]; intros n acc; cbn [dec_digits]; [lia|].
  destruct (n <? 10); [rewrite zlen_cons; lia|].
  etrans; [apply IH|]. rewrite zlen_cons. lia.
Qed.
Lemma dec_len n : zlen (dec n) <= 20.
Proof. apply (dec_digits_len 20 n []). Qed.
Lemma dec_s_len n : zlen (dec_s n) <= 21.
Proof. unfold dec_s. pose proof (dec_len n). pose proof (dec_len (- n)). destruct (n <? 0); rewrite ?zlen_cons; lia. Qed.
Lemma dec_s_nz n : no_nul (dec_s n).
Proof. unfold dec_s. destruct (Z.ltb_spec n 0); [constructor; [done|]|]; apply dec_nz; lia. Qed.
Lemma dec_02_nz n : no_nul (dec_02 n).
Proof.
  unfold dec_02. destruct ((0 <=? n) && (n <? 10)) eqn:E; [|apply dec_s_nz].
  constructor; [done|]. apply dec_nz. lia.
Qed.
Lemma cstr_nz l : no_nul (cstr l).
Proof. apply cstr_no_nul. Qed.

Lemma no_nul_app a b : no_nul a -> no_nul b -> no_nul (a ++ b).
Proof. intros. by apply Forall_app. Qed.
Lemma date_text_nz s e d : no_nul s -> no_nul e -> no_nul (date_text s e d).
Proof.
  intros Hs He. unfold date_text.
  repeat apply no_nul_app; auto using cstr_nz, dec_02_nz, dec_s_nz; repeat constructor; done.
Qed.

(** ** The text of a message *)

Section Text.
Context `{Malloc, Resolver}.
Variable env : http_env.
Variables major minor : Z.

Definition fits_temp (t : list Z) : option (list Z) := if tempbuf_size <=? zlen t then None else Some t.

Definition header (name value : list Z) : list Z := name ++ value ++ crlf.
Definition length_text (n : Z) : list Z := header (zs "CONTENT-LENGTH: ") (dec_s n).
Definition type_text (s : list Z) : list Z := header (zs "CONTENT-TYPE: ") (cstr s).
Definition request_text (method url : list Z) : list Z :=
  method ++ [SP] ++ url ++ zs " HTTP/" ++ dec (u64 major) ++ [DOT] ++ dec (u64 minor) ++ crlf.
Definition status_text (code : Z) (t : list Z) : list Z :=
  (zs "HTTP/" ++ dec_s major ++ [DOT] ++ dec_s minor ++ [SP] ++ dec_s code ++ [SP]) ++ cstr t ++ crlf.
Definition body_text (code : Z) (t : list Z) : list Z :=
  zs "<html><body><h1>" ++ dec_s code ++ [SP] ++ cstr t ++ zs "</h1></body></html>".

(** What a directive adds, and the arguments it leaves. *)
Definition dir_text (c : Z) (args : list va) : option (list Z * list va) :=
  let dir x := is_char_lit c x in
  if dir "s" then match args with VaStr (Some s) :: args => Some (cstr s, args) | _ => None end
  else if dir "K" then Some (zs "TRANSFER-ENCODING: chunked" ++ crlf, args)
  else if dir "G" then match args with VaInstr i :: args => Some (cstr (RangeHeader i), args) | _ => None end
  else if dir "b" then
    match args with
    | VaStr (Some s) :: VaSize n :: args =>
        if (0 <=? n) && (n <=? zlen s) then Some (ztake n s, args) else None
    | _ => None
    end
  else if dir "c" then Some (crlf, args)
  else if dir "d" then
    match args with VaInt n :: args => Some (dec (u64 n), args) | _ => None end
  else if dir "h" then
    match args with VaOff n :: args => Some (dec_s n, args) | _ => None end
  else if dir "t" then
    match args with
    | VaTime t :: args => d ← http_gmtime_r t; t ← fits_temp (date_text [] [] d); Some (t, args)
    | _ => None
    end
  else if dir "D" then
    d ← http_gmtime_r (he_now env); t ← fits_temp (date_text (zs "DATE: ") crlf d); Some (t, args)
  else if dir "L" then match args with VaInstr _ :: args => Some ([], args) | _ => None end
  else if dir "C" then
    Some (if connection_close major minor then zs "CONNECTION: close" ++ crlf else [], args)
  else if dir "N" then
    match args with
    | VaOff n :: args => if n <? 0 then None else Some (length_text n, args)
    | _ => None
    end
  else if dir "S" then Some (zs "SERVER: " ++ cstr (get_sdk_info env tempbuf_size), args)
  else if dir "U" then Some (zs "USER-AGENT: " ++ cstr (get_sdk_info env tempbuf_size), args)
  else if dir "X" then
    match args with VaStr (Some s) :: args => Some (zs "X-User-Agent: " ++ cstr s, args) | _ => None end
  else if dir "R" then
    match args with
    | VaInt code :: args =>
        t ← status_code_text code;
        if code <=? 0 then None else Some (status_text code t, args)
    | _ => None
    end
  else if dir "B" then
    match args with
    | VaInt code :: args =>
        t ← status_code_text code;
        t ← fits_temp (body_text code t);
        Some (length_text (zlen t) ++ type_text (zs "text/html") ++ crlf ++ t, args)
    | _ => None
    end
  else if dir "Q" then
    match args with
    | VaInt method :: VaStr (Some url) :: VaSize n :: args =>
        name ← method_to_str method;
        if (0 <=? n) && (n <=? zlen url) then Some (request_text (cstr name) (ztake n url), args) else None
    | _ => None
    end
  else if dir "q" then
    match args with
    | VaInt method :: VaUri mem base u :: args =>
        let '(rc, url) := http_FixUrl mem base u in
        let host := hp_text (uri_hostport u) in
        let text := zdrop (tk_buff host - base) mem in
        name ← method_to_str method;
        if (rc =? 0) && (0 <=? tk_size host) && (tk_size host <=? zlen text)
        then Some (request_text (cstr name) (fx_path url)
                   ++ header (zs "HOST: ") (ztake (tk_size host) text), args)
        else None
    | _ => None
    end
  else if dir "T" then
    match args with VaStr (Some s) :: args => Some (type_text s, args) | _ => None end
  else None.

Fixpoint message_text (fmt : list Z) (args : list va) : option (list Z * list va) :=
  match fmt with
  | [] => Some ([], args)
  | c :: fmt =>
      '(t, args) ← dir_text c args;
      '(ts, args) ← message_text fmt args;
      Some (t ++ ts, args)
  end.

Lemma dir_length n args : 0 <= n -> dir_text 78 (VaOff n :: args) = Some (length_text n, args).
Proof.
  intros Hn. transitivity (if n <? 0 then None else Some (length_text n, args)); [reflexivity|].
  by rewrite (proj2 (Z.ltb_ge n 0)).
Qed.
Lemma dir_block s n args :
  0 <= n <= zlen s -> dir_text 98 (VaStr (Some s) :: VaSize n :: args) = Some (ztake n s, args).
Proof.
  intros Hn. transitivity (if (0 <=? n) && (n <=? zlen s) then Some (ztake n s, args) else None); [reflexivity|].
  by rewrite (proj2 (Z.leb_le 0 n)), (proj2 (Z.leb_le n (zlen s))) by lia.
Qed.
Lemma dir_request meth name url n args :
  method_to_str meth = Some name -> 0 <= n <= zlen url ->
  dir_text 81 (VaInt meth :: VaStr (Some url) :: VaSize n :: args)
  = Some (request_text (cstr name) (ztake n url), args).
Proof.
  intros Em Hn.
  transitivity (name ← method_to_str meth;
    if (0 <=? n) && (n <=? zlen url) then Some (request_text (cstr name) (ztake n url), args) else None);
    [reflexivity|].
  rewrite Em. cbn [mbind option_bind]. by rewrite (proj2 (Z.leb_le 0 n)), (proj2 (Z.leb_le n (zlen url))) by lia.
Qed.
Lemma message_text_cons c fmt args t args1 ts rest :
  dir_text c args = Some (t, args1) -> message_text fmt args1 = Some (ts, rest) ->
  message_text (c :: fmt) args = Some (t ++ ts, rest).
Proof. intros E1 E2. cbn [message_text]. by rewrite E1; cbn [mbind option_bind]; rewrite E2. Qed.
End Text.

(** ** What is appended *)

Section Append.
Context `{Malloc, Resolver}.
Variable env : http_env.
Variables major minor : Z.

Definition oom : Prop := exists n, alloc_ok n = false.
Definition emptied : membuffer := Membuffer None 0 0 MEMBUF_DEF_SIZE_INC.

(** A directive adds [text], or reports that memory is short. *)
Definition adds (r : option step_result) (buf : membuffer) (text : list Z) (args : list va) : Prop :=
  exists rc args' b, r = Some (rc, args', b)
    /\ (rc = 0 /\ args' = args /\ mb_contents b = mb_contents buf ++ text /\ mb_wf b
        \/ rc = UPNP_E_OUTOF_MEMORY /\ oom).

(** A message is [text], or the buffer is emptied. *)
Definition made (r : option (Z * membuffer)) (buf : membuffer) (text : list Z) : Prop :=
  exists rc b, r = Some (rc, b)
    /\ (rc = 0 /\ mb_contents b = mb_contents buf ++ text /\ mb_wf b
        \/ rc = UPNP_E_OUTOF_MEMORY /\ b = emptied /\ oom).

Definition room_for (buf : membuffer) (text : list Z) : Prop :=
  mb_wf buf /\ mb_length buf + zlen text < 2 ^ 31.

Lemma append_adds text n args buf :
  0 <= n <= zlen text -> room_for buf (ztake n text) -> adds (append text n args buf) buf (ztake n text) args.
Proof.
  intros Hn [Hwf Hl]. unfold append, membuffer_append. rewrite zlen_ztake in Hl.
  destruct (decide (n = 0)) as [->|Hne].
  { unfold membuffer_insert. rewrite (proj2 (Z.ltb_ge _ _)) by lia. cbn.
    eexists _, _, _. split; [reflexivity|]. left. rewrite ztake_neg, app_nil_r by lia. done. }
  destruct (membuffer_insert buf (Some text) n (mb_length buf)) as [rc b] eqn:E.
  pose proof Hwf as [Hlen _]. eexists _, _, _. split; [reflexivity|].
  pose proof E as E'. apply membuffer_insert_spec in E as [[-> ->]|(-> & Hc & _ & _ & Hw & _)];
    [right|left| |done..|lia|lia|lia]; try lia.
  - split; [done|]. apply membuffer_insert_oom in E'; [by eexists|done|lia..].
  - split; [done|]. split; [done|]. split; [|done]. rewrite Hc, ztake_all, zdrop_all, app_nil_r; [done|..];
      rewrite zlen_contents by done; lia.
  - done.
Qed.

Lemma append_str_adds text args buf :
  room_for buf (cstr text) -> adds (append_str text args buf) buf (cstr text) args.
Proof.
  intros Hr. unfold append_str. rewrite cstr_ztake. apply append_adds; [|by rewrite <- cstr_ztake].
  pose proof (strlen_nonneg text). pose proof (strlen_le text). lia.
Qed.

Lemma append_text_adds text args buf :
  no_nul text -> room_for buf text -> adds (append_str text args buf) buf text args.
Proof. intros Hn Hr. rewrite <- (cstr_id text Hn) at 2. apply append_str_adds. by rewrite (cstr_id text Hn). Qed.

Lemma append_temp_adds text args buf :
  zlen text < tempbuf_size -> no_nul text -> room_for buf text ->
  adds (append_temp text args buf) buf text args.
Proof.
  intros Hl Hn Hr. unfold append_temp. rewrite (proj2 (Z.leb_gt _ _)) by lia. by apply append_text_adds.
Qed.

Lemma nested_adds r buf text args : made r buf text -> adds (nested r args) buf text args.
Proof.
  intros (rc & b & -> & [(-> & Hc & Hw)|(-> & _ & Ho)]); eexists _, _, _; (split; [reflexivity|]); [left|right]; done.
Qed.

(** How deep the calls of a directive nest. *)
Definition rank (c : Z) : nat :=
  let dir x := is_char_lit c x in
  if dir "q" || dir "B" then 2%nat
  else if dir "N" || dir "S" || dir "U" || dir "R" || dir "Q" || dir "T" then 1%nat else 0%nat.

Lemma room_more buf b t1 t2 :
  room_for buf (t1 ++ t2) -> mb_contents b = mb_contents buf ++ t1 -> mb_wf b -> room_for b t2.
Proof.
  intros [Hw Hl] Hc Hb. split; [done|]. rewrite <- (zlen_contents b Hb), Hc, zlen_app, (zlen_contents buf Hw).
  rewrite zlen_app in Hl. lia.
Qed.
Lemma room_prefix buf t1 t2 : room_for buf (t1 ++ t2) -> room_for buf t1.
Proof. intros [Hw Hl]. split; [done|]. rewrite zlen_app in Hl. pose proof (zlen_nonneg t2). lia. Qed.

Section Step.
Variable make : list Z -> list va -> membuffer -> option (Z * membuffer).
Variable depth : nat.
(** The nested calls of a smaller depth. *)
Hypothesis make_ok : forall fmt args buf text rest, (0 < depth)%nat ->
  Forall (fun c => (rank c < depth)%nat) fmt ->
  message_text env major minor fmt args = Some (text, rest) -> room_for buf text ->
  made (make fmt args buf) buf text.

Lemma nested_ok fmt inner args buf text text' rest :
  (1 + list_max (rank <$> fmt) <= depth)%nat ->
  message_text env major minor fmt inner = Some (text', rest) -> text' = text -> room_for buf text ->
  adds (nested (make fmt inner buf) args) buf text args.
Proof.
  intros Hd E <- Hr. apply nested_adds. eapply make_ok; [lia| |done|done].
  pose proof (proj1 (list_max_le (rank <$> fmt) (depth - 1)) ltac:(lia)) as Hf.
  apply Forall_fmap in Hf. eapply Forall_impl; [exact Hf|]. cbn. lia.
Qed.

Lemma text_line s : no_nul s -> cstr s = s.
Proof. apply cstr_id. Qed.

(** The fixed words. *)
Ltac words := repeat constructor; done.
Ltac ranks :=
  match goal with
  | |- (1 + list_max ?l <= _)%nat =>
      let v := eval vm_compute in (list_max l) in change (list_max l) with v; lia
  end.
Ltac nest := eapply nested_ok; [ranks|reflexivity| |done].

Lemma agent_adds w args buf :
  (1 <= depth)%nat -> no_nul w -> room_for buf (w ++ cstr (get_sdk_info env tempbuf_size)) ->
  adds (make_agent env make w args buf) buf (w ++ cstr (get_sdk_info env tempbuf_size)) args.
Proof.
  intros Hd Hw Hr. unfold make_agent. nest. by rewrite app_nil_r, (text_line w Hw).
Qed.

Lemma date_adds s e d t args buf :
  no_nul s -> no_nul e -> fits_temp (date_text s e d) = Some t -> room_for buf t ->
  adds (append_temp (date_text s e d) args buf) buf t args.
Proof.
  unfold fits_temp. intros Hs He. destruct (Z.leb_spec tempbuf_size (zlen (date_text s e d))); [done|].
  intros [= <-] Hr. apply append_temp_adds; [lia| |done]. by apply date_text_nz.
Qed.

Lemma status_adds code t args buf :
  (1 <= depth)%nat -> status_code_text code = Some t -> 0 < code -> room_for buf (status_text major minor code t) ->
  adds (make_response_line major minor make code args buf) buf (status_text major minor code t) args.
Proof.
  intros Hd Et Hc Hr. unfold make_response_line. rewrite (proj2 (Z.leb_gt _ _)) by lia. cbv zeta.
  set (text := zs "HTTP/" ++ _).
  assert (Hn : no_nul text).
  { unfold text. repeat apply no_nul_app; auto using dec_s_nz; words. }
  assert (Hl : zlen text < tempbuf_size).
  { unfold text. rewrite !zlen_app. pose proof (dec_s_len major). pose proof (dec_s_len minor).
    pose proof (dec_s_len code). unfold tempbuf_size. change (zlen (zs "HTTP/")) with 5.
    change (zlen [DOT]) with 1. change (zlen [SP]) with 1. lia. }
  rewrite (proj2 (Z.leb_gt _ _)) by lia. rewrite Et. nest. by rewrite (text_line text Hn).
Qed.

Lemma body_adds code t body args buf :
  (2 <= depth)%nat -> status_code_text code = Some t -> fits_temp (body_text code t) = Some body ->
  room_for buf (length_text (zlen body) ++ type_text (zs "text/html") ++ crlf ++ body) ->
  adds (make_simple_body make code args buf) buf
       (length_text (zlen body) ++ type_text (zs "text/html") ++ crlf ++ body) args.
Proof.
  intros Hd Et Hf Hr. unfold make_simple_body. rewrite Et. cbn [default from_option]. unfold id. cbv zeta.
  unfold fits_temp in Hf. change (zs "<html><body><h1>" ++ _) with (body_text code t).
  destruct (tempbuf_size <=? zlen (body_text code t)); [done|]. injection Hf as <-.
  assert (Hn : no_nul (body_text code t)).
  { unfold body_text. repeat apply no_nul_app; auto using dec_s_nz, cstr_nz; words. }
  assert (Hs : strlen (body_text code t) = zlen (body_text code t)).
  { unfold strlen. by rewrite text_line. }
  rewrite Hs. set (b := body_text code t) in *.
  eapply nested_ok; [ranks| | |exact Hr].
  - change (zs "NTcs") with (78 :: zs "Tcs").
    eapply message_text_cons; [apply dir_length, zlen_nonneg|reflexivity].
  - rewrite app_nil_r, (text_line b Hn). done.
Qed.

Lemma request_adds meth name url n args buf :
  (1 <= depth)%nat -> method_to_str meth = Some name -> 0 <= n <= zlen url ->
  room_for buf (request_text major minor (cstr name) (ztake n url)) ->
  adds (make_request_line major minor make meth url n args buf) buf
       (request_text major minor (cstr name) (ztake n url)) args.
Proof.
  intros Hd Em Hn Hr. unfold make_request_line. rewrite Em.
  eapply nested_ok; [ranks| | |exact Hr].
  - change (zs "ssbsdsdc") with (115 :: 115 :: 98 :: zs "sdsdc").
    do 2 (eapply message_text_cons; [reflexivity|]).
    eapply message_text_cons; [by apply dir_block|reflexivity].
  - done.
Qed.

Lemma host_adds meth name mem base u args buf :
  (2 <= depth)%nat -> method_to_str meth = Some name -> (http_FixUrl mem base u).1 = 0 ->
  let path := fx_path (http_FixUrl mem base u).2 in
  let host := hp_text (uri_hostport u) in
  let text := zdrop (tk_buff host - base) mem in
  0 <= tk_size host <= zlen text ->
  room_for buf (request_text major minor (cstr name) path ++ header (zs "HOST: ") (ztake (tk_size host) text)) ->
  adds (make_request_host make meth mem base u args buf) buf
       (request_text major minor (cstr name) path ++ header (zs "HOST: ") (ztake (tk_size host) text)) args.
Proof.
  intros Hd Em Hf. cbv zeta. unfold make_request_host.
  assert (Hu : fx_uri (http_FixUrl mem base u).2 = u) by (unfold http_FixUrl; by repeat case_match).
  destruct (http_FixUrl mem base u) as [rc url]. cbn [fst snd] in *. subst rc u. cbn [Z.eqb negb].
  set (host := hp_text (uri_hostport (fx_uri url))). intros Hh Hr.
  eapply nested_ok; [ranks| | |exact Hr].
  - change (zs "Qsbc") with (81 :: 115 :: 98 :: zs "c").
    eapply message_text_cons; [apply dir_request; [exact Em|split; [apply zlen_nonneg|done]]|].
    eapply message_text_cons; [reflexivity|].
    eapply message_text_cons; [by apply dir_block|reflexivity].
  - rewrite (ztake_all (zlen (fx_path url))) by done. done.
Qed.

(** The directive of a character is the one that [dir_text] reads. *)
Ltac dir_case s :=
  let E := fresh in
  destruct (is_char_lit _ s) eqn:E; [apply Z.eqb_eq in E; subst;
    match goal with
    | R : (rank ?r <= _)%nat |- _ => let v := eval vm_compute in (rank r) in change (rank r) with v in R
    end|clear E].

Lemma directive_adds c args buf text args' :
  (rank c <= depth)%nat ->
  dir_text env major minor c args = Some (text, args') -> room_for buf text ->
  adds (directive env major minor make c args buf) buf text args'.
Proof.
  intros Hrank E Hr. unfold directive. unfold dir_text in E. cbv zeta in *.
  dir_case "s". { destruct args as [|[[s|]|?|?|?|?|?|?] args]; simplify_eq. by apply append_str_adds. }
  dir_case "K". { simplify_eq. apply append_text_adds; [words|done]. }
  dir_case "G". { destruct args as [|[]]; simplify_eq. by apply append_str_adds. }
  dir_case "b". {
    destruct args as [|[[s|]|?|?|?|?|?|?] [|[|n|?|?|?|?|?] args]]; try done.
    destruct (_ && _) eqn:Hn; [|done]. simplify_eq. apply append_adds; [lia|done]. }
  dir_case "c". { simplify_eq. by apply (append_adds crlf 2). }
  dir_case "d". {
    destruct args as [|[]]; simplify_eq. apply append_temp_adds; [|apply dec_nz, u64_range|done].
    pose proof (dec_len (u64 n)). unfold tempbuf_size. lia. }
  dir_case "h". {
    destruct args as [|[]]; simplify_eq. apply append_temp_adds; [|apply dec_s_nz|done].
    pose proof (dec_s_len n). unfold tempbuf_size. lia. }
  dir_case "t". {
    destruct args as [|[]]; try done. unfold make_date. destruct (http_gmtime_r t); [|done].
    cbn [mbind option_bind] in E. destruct (fits_temp _) eqn:Ef; [|done]. cbn [mbind option_bind] in E.
    simplify_eq. apply date_adds; [constructor|constructor|done|done]. }
  dir_case "D". {
    unfold make_date. destruct (http_gmtime_r (he_now env)); [|done].
    cbn [mbind option_bind] in E. destruct (fits_temp _) eqn:Ef; [|done]. cbn [mbind option_bind] in E.
    simplify_eq. apply date_adds; [words|words|done|done]. }
  dir_case "L". {
    destruct args as [|[]]; simplify_eq. rewrite andb_false_r.
    eexists _, _, _. split; [reflexivity|]. left. rewrite app_nil_r. by destruct Hr. }
  dir_case "C". {
    simplify_eq. destruct (connection_close major minor); [apply append_text_adds; [words|done]|].
    eexists _, _, _. split; [reflexivity|]. left. rewrite app_nil_r. by destruct Hr. }
  dir_case "N". {
    destruct args as [|[]]; try done. destruct (Z.ltb_spec n 0); simplify_eq. nest. done. }
  dir_case "S". { simplify_eq. apply agent_adds; [done|words|done]. }
  dir_case "U". { simplify_eq. apply agent_adds; [done|words|done]. }
  dir_case "X". {
    destruct args as [|[[s|]|?|?|?|?|?|?] args]; simplify_eq.
    destruct (append_text_adds (zs "X-User-Agent: ") args' buf) as (rc & a & b & -> & Hb);
      [words|by eapply room_prefix|]. cbn [mbind option_bind].
    destruct Hb as [(-> & -> & Hc & Hw)|(-> & Ho)]; cbn [Z.eqb negb].
    - destruct (append_str_adds s args' b) as (rc & a & b' & -> & Hb'); [by eapply room_more|].
      eexists _, _, _. split; [reflexivity|].
      destruct Hb' as [(-> & -> & Hc' & Hw')|(-> & Ho)]; [left|by right].
      by rewrite Hc', Hc, app_assoc.
    - eexists _, _, _. split; [reflexivity|]. by right. }
  dir_case "R". {
    destruct args as [|[]]; try done. destruct (status_code_text n) eqn:Et; [|done].
    cbn [mbind option_bind] in E. destruct (Z.leb_spec n 0); simplify_eq. by apply status_adds. }
  dir_case "B". {
    destruct args as [|[]]; try done. destruct (status_code_text n) eqn:Et; [|done].
    cbn [mbind option_bind] in E. destruct (fits_temp _) eqn:Ef; [|done]. cbn [mbind option_bind] in E.
    simplify_eq. by eapply body_adds. }
  dir_case "Q". {
    destruct args as [|[|?|meth|?|?|?|?] [|[[url|]|?|?|?|?|?|?] [|[|n|?|?|?|?|?] args]]]; try done.
    destruct (method_to_str meth) eqn:Em; [|done]. cbn [mbind option_bind] in E.
    destruct (_ && _) eqn:Hn; simplify_eq. apply request_adds; [done|done|lia|done]. }
  dir_case "q". {
    destruct args as [|[|?|meth|?|?|?|?] [|[|?|?|?|?|?|mem base u] args]]; try done.
    pose proof (host_adds meth) as Hh.
    specialize (Hh (default [] (method_to_str meth)) mem base u args buf Hrank).
    destruct (http_FixUrl mem base u) as [rc url]. cbn [fst snd] in Hh. cbv zeta in E.
    destruct (method_to_str meth) as [name|]; [|done]. cbn [mbind option_bind default from_option] in E, Hh.
    destruct ((rc =? 0) && _ && _) eqn:Hn; simplify_eq.
    apply Hh; [done|lia|lia|done]. }
  dir_case "T". { destruct args as [|[[s|]|?|?|?|?|?|?] args]; simplify_eq. nest. done. }
  done.
Qed.

Lemma make_loop_made fmt args buf text rest :
  Forall (fun c => (rank c <= depth)%nat) fmt ->
  message_text env major minor fmt args = Some (text, rest) -> room_for buf text ->
  made (make_loop env major minor make fmt args buf) buf text.
Proof.
  intros Hf. revert args buf text. induction Hf as [|c fmt Hc _ IH]; intros args buf text E Hr; cbn in E |- *.
  - simplify_eq. eexists _, _. split; [reflexivity|]. left. rewrite app_nil_r. by destruct Hr.
  - destruct (dir_text env major minor c args) as [[t args1]|] eqn:Et; [|done]. cbn [mbind option_bind] in E.
    destruct (message_text env major minor fmt args1) as [[ts r]|] eqn:Es; [|done].
    cbn [mbind option_bind] in E. simplify_eq.
    destruct (directive_adds c args buf t args1 Hc Et) as (rc & a & b & -> & Hb); [by eapply room_prefix|].
    cbn [mbind option_bind]. destruct Hb as [(-> & -> & Hcb & Hw)|(-> & Ho)]; cbn [Z.eqb negb].
    + destruct (IH args1 b ts Es) as (rc & b' & -> & Hb'); [by eapply room_more|].
      eexists _, _. split; [reflexivity|]. destruct Hb' as [(-> & Hc' & Hw')|?]; [left|by right].
      by rewrite Hc', Hcb, app_assoc.
    + eexists _, _. split; [reflexivity|]. by right.
Qed.
End Step.

Lemma make_message_made d fmt args buf text rest :
  (0 < d)%nat -> Forall (fun c => (rank c < d)%nat) fmt ->
  message_text env major minor fmt args = Some (text, rest) -> room_for buf text ->
  made (make_message env major minor d fmt args buf) buf text.
Proof.
  revert fmt args buf text rest. induction d as [|d IH]; intros fmt args buf text rest Hd Hf E Hr; [lia|].
  cbn [make_message]. eapply make_loop_made; [exact IH| |exact E|done].
  eapply Forall_impl; [exact Hf|]. cbn. lia.
Qed.
End Append.

Lemma rank_small c : (rank c < 4)%nat.
Proof. unfold rank. repeat case_match; lia. Qed.

Lemma http_MakeMessage_made `{Malloc, Resolver} env buf major minor fmt args text rest :
  message_text env major minor fmt args = Some (text, rest) -> room_for buf text ->
  made (http_MakeMessage env buf major minor fmt args) buf text.
Proof.
  intros E Hr. unfold http_MakeMessage. eapply make_message_made; [lia| |exact E|done].
  apply Forall_forall. intros c _. apply rank_small.
Qed.

Module Messages.
(** C12. [http_MakeMessage] is the function [message_text] of its format and arguments:
    for every format of the twenty directives whose arguments fit it, it returns 0 and
    has appended exactly that text, the nested calls and the temporary buffer
    notwithstanding; or an allocation failed, and it returns [UPNP_E_OUTOF_MEMORY] and
    leaves an empty buffer, never a part of the message. *)
Theorem make_message_correct `{Malloc, Resolver} env buf major minor fmt args text rest :
  mb_wf buf -> message_text env major minor fmt args = Some (text, rest) ->
  mb_length buf + zlen text < 2 ^ 31 ->
  exists rc b, http_MakeMessage env buf major minor fmt args = Some (rc, b)
    /\ (rc = 0 /\ mb_contents b = mb_contents buf ++ text
        \/ rc = UPNP_E_OUTOF_MEMORY /\ mb_contents b = [] /\ exists n, alloc_ok n = false).
Proof.
  intros Hw E Hl.
  destruct (http_MakeMessage_made env buf major minor fmt args text rest E (conj Hw Hl))
    as (rc & b & Er & [(-> & Hc & _)|(-> & -> & Ho)]); exists rc, b || eexists _, _; (split; [exact Er|]);
    [by left|right; done].
Qed.

(** The error page of a status. *)
Definition page_env : http_env := HttpEnv 1700000000 (zs "Linux") (zs "6.1") (zs "1.6.19").
Definition page : list Z :=
  zs "HTTP/1.1 404 Not Found" ++ crlf
  ++ zs "SERVER: Linux/6.1, UPnP/1.0, Portable SDK for UPnP devices/1.6.19" ++ crlf
  ++ zs "CONNECTION: close" ++ crlf
  ++ zs "CONTENT-LENGTH: 48" ++ crlf ++ zs "CONTENT-TYPE: text/html" ++ crlf ++ crlf
  ++ zs "<html><body><h1>404 Not Found</h1></body></html>".

Lemma make_message_correct_witness :
  exists b, http_MakeMessage (H := malloc_always) (H0 := resolver_two) page_env
              (membuffer_init membuffer0) 1 1 (zs "RSCB") [VaInt 404; VaInt 404] = Some (0, b)
    /\ mb_contents b = page.
Proof.
  destruct (@make_message_correct malloc_always resolver_two page_env (membuffer_init membuffer0) 1 1
    (zs "RSCB") [VaInt 404; VaInt 404] page []) as (rc & b & E & [(-> & Hc)|(_ & _ & k & Hk)]).
  - apply membuffer_init_wf.
  - vm_compute. reflexivity.
  - vm_compute. reflexivity.
  - exists b. split; [exact E|exact Hc].
  - discriminate Hk.
Defined.
End Messages.
