(* ===== verification/HttpIO.v ===== *)
(** * HTTP exchanges

    [upnp/src/genlib/net/http/httpreadwrite.c]: receiving and sending of messages, the
    request/response exchange, [http_Download] and the POST and GET handles.

    A connection is a [net] (Sock.v), which every operation takes and returns; [peer]
    says how its socket opens.  A loop that reads has fuel for every byte the peer can
    still send; out of fuel is [None], as is a fault.  An out parameter that a path does
    not write is [None].  [g_maxContentLength] is [limit].  Logging is left out. *)

From S2P Require Import Prelude CLib Codes Membuffer Uri Tables Scanner HttpParser Sock HttpMsg.
#[local] Open Scope Z_scope.

Definition HTTP_DEFAULT_TIMEOUT : Z := 30.
Definition CHUNK_HEADER_SIZE : Z := 10.
Definition CHUNK_TAIL_SIZE : Z := 10.
Definition WEB_SERVER_BUF_SIZE : Z := 1024 * 1024.

Record peer := Peer {
  p_socket : bool;     (* socket() succeeds *)
  p_conn : conn;
  p_net : net
}.

(** Numbers of the enumeration [parse_status_t]. *)
Definition status_int (st : parse_status_t) : Z :=
  match st with
  | PARSE_SUCCESS => 0 | PARSE_INCOMPLETE => 1 | PARSE_INCOMPLETE_ENTITY => 2 | PARSE_FAILURE => 3
  | PARSE_OK => 4 | PARSE_NO_MATCH => 5 | PARSE_CONTINUE_1 => 6
  end.

Section Exchange.
Context `{Malloc, Resolver}.
Variable limit : Z.

(** ** [http_RecvMessage] *)

Definition buf_size : Z := 2 * 1024.

Record received := Received {
  r_ret : Z;
  r_parser : http_parser_t;
  r_timeout : Z;
  r_error : option Z;      (* *http_error_code *)
  r_net : net
}.

Fixpoint recv_loop (fuel : nat) (p : http_parser_t) (timeout : Z) (ok_on_close : bool) (n : net)
  : option received :=
  match fuel with
  | O => None
  | S f =>
      let '(num_read, buf, timeout, n) := sock_read buf_size timeout n in
      if 0 <? num_read then
        '(status, p) ← parser_append p buf num_read;
        match status with
        | PARSE_SUCCESS =>
            if (0 <? limit) && (u32 limit <? content_length p)
            then Some (Received UPNP_E_OUTOF_BOUNDS p timeout (Some HTTP_REQ_ENTITY_TOO_LARGE) n)
            else Some (Received 0 p timeout None n)
        | PARSE_FAILURE | PARSE_NO_MATCH =>
            Some (Received UPNP_E_BAD_HTTPMSG p timeout (Some (http_error_code p)) n)
        | PARSE_INCOMPLETE_ENTITY => recv_loop f p timeout true n
        | PARSE_CONTINUE_1 => Some (Received (status_int PARSE_SUCCESS) p timeout None n)
        | _ => recv_loop f p timeout ok_on_close n
        end
      else if num_read =? 0 then
        if ok_on_close then Some (Received 0 p timeout None n)
        else Some (Received UPNP_E_BAD_HTTPMSG p timeout (Some HTTP_BAD_REQUEST) n)
      else Some (Received num_read p timeout (Some (http_error_code p)) n)
  end.

Definition http_RecvMessage (request_method timeout : Z) (n : net) : option received :=
  let p := if request_method =? HTTPMETHOD_UNKNOWN then parser_request_init
           else parser_response_init request_method in
  recv_loop (recv_fuel n) p timeout false n.

(** ** [http_SendMessage] *)

(** A file that is being read: its bytes from the current position, and what each read
    gets at most ([None]: the callback of a virtual file fails; [fread] gets all). *)
Record FILE := File { f_data : list Z; f_takes : list (option Z) }.

(** A directive of the format with its arguments; a file name is what opening it and
    moving to the range gives. *)
Inductive sarg :=
| SInstr (i : SendInstruction)                                   (* 'I' *)
| SFile (fp : option FILE) (seek_ok : bool)                      (* 'f' *)
| SBuf (buf : list Z) (buf_length : Z).                          (* 'b' *)

Record sending := Sending {
  s_instr : option SendInstruction;
  s_amount : Z;
  s_bufsize : Z
}.

(** The bytes of a read, and the file. *)
Definition file_read (n : Z) (fp : FILE) : option (list Z * FILE) :=
  match f_takes fp with
  | [] => Some (ztake n (f_data fp), File (zdrop n (f_data fp)) [])
  | Some k :: l => let k := Z.min n (Z.max k 0) in
                   Some (ztake k (f_data fp), File (zdrop k (f_data fp)) l)
  | None :: _ => None
  end.

Definition chunk_text (b : list Z) : list Z := hex_of (zlen b) ++ crlf ++ b ++ crlf.

(** The loop over the file; the result. *)
Fixpoint send_file (fuel : nat) (x : sending) (fp : FILE) (timeout : Z) (n : net) : option (Z * Z * net) :=
  match fuel with
  | O => None
  | S f =>
      if s_amount x =? 0 then Some (0, timeout, n)
      else
        let chunked := match s_instr x with Some i => IsChunkActive i | None => false end in
        let want := match s_instr x with
                    | Some _ => if s_bufsize x <=? s_amount x then s_bufsize x else s_amount x
                    | None => s_bufsize x
                    end in
        '(b, fp) ← file_read want fp;
        let num_read := zlen b in
        let amount := match s_instr x with
                      | Some i => if ReadSendSize i <? 0 then s_bufsize x
                                  else u64 (s_amount x - num_read)
                      | None => s_amount x
                      end in
        let x := Sending (s_instr x) amount (s_bufsize x) in
        if num_read =? 0 then
          if chunked then
            let '(_, timeout, n) := sock_write (zs "0" ++ crlf ++ crlf) 5 timeout n in
            Some (0, timeout, n)
          else Some (UPNP_E_FILE_READ_ERROR, timeout, n)
        else if chunked then
          if CHUNK_HEADER_SIZE - 2 <=? zlen (hex_of num_read) then Some (UPNP_E_INTERNAL_ERROR, timeout, n)
          else
            let t := chunk_text b in
            let '(nw, timeout, n) := sock_write t (zlen t) timeout n in
            if (nw <=? 0) || negb (nw =? zlen t) then Some (0, timeout, n)
            else send_file f x fp timeout n
        else
          let '(nw, timeout, n) := sock_write b num_read timeout n in
          if (nw <=? 0) || negb (nw =? num_read) then Some (0, timeout, n)
          else send_file f x fp timeout n
  end.

Fixpoint send_loop_args (x : sending) (fmt : list sarg) (timeout : Z) (n : net) : option (Z * Z * net) :=
  match fmt with
  | [] => Some (0, timeout, n)
  | SInstr i :: fmt =>
      let amount := if 0 <=? ReadSendSize i then ReadSendSize i else s_bufsize x in
      let bufsize := if amount <? WEB_SERVER_BUF_SIZE then amount else s_bufsize x in
      if negb (alloc_ok (u64 (bufsize + CHUNK_HEADER_SIZE + CHUNK_TAIL_SIZE)))
      then Some (UPNP_E_OUTOF_MEMORY, timeout, n)
      else send_loop_args (Sending (Some i) amount bufsize) fmt timeout n
  | SFile fp seek_ok :: _ =>
      match fp with
      | None => Some (UPNP_E_FILE_READ_ERROR, timeout, n)
      | Some fp =>
          let range := match s_instr x with Some i => IsRangeActive i | None => false end in
          if range && negb seek_ok then Some (UPNP_E_FILE_READ_ERROR, timeout, n)
          else send_file (S (S (length (f_data fp)))) x fp timeout n
      end
  | SBuf buf buf_length :: fmt =>
      if 0 <? buf_length then
        let '(nw, timeout, n) := sock_write buf buf_length timeout n in
        if negb (u64 nw =? buf_length) then Some (0, timeout, n)
        else send_loop_args x fmt timeout n
      else send_loop_args x fmt timeout n
  end.

Definition http_SendMessage (timeout : Z) (fmt : list sarg) (n : net) : option (Z * Z * net) :=
  send_loop_args (Sending None 0 WEB_SERVER_BUF_SIZE) fmt timeout n.

(** ** Exchanges *)

(** The parser is initialised again when the request is not answered. *)
Definition http_RequestAndResponse (request : list Z) (request_length req_method timeout_secs : Z)
    (c : peer) : option (Z * http_parser_t) :=
  let empty ret := Some (ret, parser_response_init req_method) in
  if negb (p_socket c) then empty UPNP_E_SOCKET_ERROR
  else if private_connect (p_conn c) =? -1 then empty UPNP_E_SOCKET_CONNECT
  else
    '(ret_code, timeout_secs, n) ← http_SendMessage timeout_secs [SBuf request request_length] (p_net c);
    if negb (ret_code =? 0) then empty ret_code
    else
      r ← http_RecvMessage req_method timeout_secs n;
      Some (r_ret r, r_parser r).

(** A socket that is connected to a URL. *)
Definition http_Connect (mem : list Z) (destination_url : uri_type) (c : peer) : Z + (fixed_url * net) :=
  let '(_, url) := http_FixUrl mem 1 destination_url in
  if negb (p_socket c) then inl UPNP_E_OUTOF_SOCKET
  else if private_connect (p_conn c) =? -1 then inl UPNP_E_SOCKET_CONNECT
  else inr (url, p_net c).

(** The value of a header, by its number. *)
Definition header_value (m : http_message_t) (name_id : Z) : option membuffer :=
  i ← httpmsg_find_hdr m name_id; value <$> headers m !! i.

Record download := Download {
  dl_ret : Z;
  dl_document : option (option (list Z));   (* *document *)
  dl_length : option Z;
  dl_type : option (list Z)                 (* content_type, a string *)
}.

Definition content_type_text (m : http_message_t) : list Z :=
  match header_value m HDR_CONTENT_TYPE with
  | None => []
  | Some v => ztake (Z.min (mb_length v) (FixedCopy.LINE_SIZE - 1)) (mb_block v)
  end.

(** The entity with its terminator, moved to the start of the message's block. *)
Definition detach_entity (m : http_message_t) : option (list Z) :=
  start ← entity_buf m;
  let len := entity_length m in
  b ← realloc (Some (zmove (mb_block (msg m)) 0 start (len + 1))) (u64 (len + 1));
  if mb_length (msg m) <=? len then None else Some b.

Definition http_Download (env : http_env) (url_str : list Z) (timeout_secs : Z) (c : peer)
  : option download :=
  '(ret_code, request, _) ← download_request env url_str;
  if negb (ret_code =? 0) then Some (Download ret_code None None None)
  else
    '(ret_code, response) ←
      http_RequestAndResponse (mb_block request) (mb_length request) HTTPMETHOD_GET timeout_secs c;
    if negb (ret_code =? 0) then Some (Download ret_code None None None)
    else
      let m := pmsg response in
      let ret := if status_code m =? HTTP_OK then 0 else status_code m in
      let done d := Some (Download ret d (Some (entity_length m)) (Some (content_type_text m))) in
      if entity_length m =? 0 then done (Some None)
      else if status_code m =? HTTP_OK then b ← detach_entity m; done (Some (Some b))
      else done None.

(** [http_SendStatusResponse] *)
Definition http_SendStatusResponse (env : http_env) (status major minor : Z) (n : net)
  : option (Z * net) :=
  '(ret, membuf) ← status_response env status major minor;
  if ret =? 0 then
    '(ret, _, n) ← http_SendMessage HTTP_DEFAULT_TIMEOUT [SBuf (mb_block membuf) (mb_length membuf)] n;
    Some (ret, n)
  else Some (ret, n).

(** ** POST handles *)

Record http_post_handle_t := PostHandle { contentLength : Z }.
Definition sizeof_http_post_handle_t : Z := 144.

(** The result and [*Handle]. *)
Definition http_OpenHttpPost (env : http_env) (url_str contentType : option (list Z)) (handle_ptr : bool)
    (content_len timeout : Z) (c : peer) : option (Z * option http_post_handle_t * net) :=
  match url_str, contentType with
  | Some url_str, Some contentType =>
      if negb handle_ptr then Some (UPNP_E_INVALID_PARAM, None, p_net c)
      else
        '(ret_code, request, _) ← MakePostMessage env url_str content_len contentType;
        if negb (ret_code =? UPNP_E_SUCCESS) then Some (ret_code, None, p_net c)
        else if negb (alloc_ok sizeof_http_post_handle_t) then Some (UPNP_E_OUTOF_MEMORY, None, p_net c)
        else
          let handle := PostHandle content_len in
          if negb (p_socket c) then Some (UPNP_E_SOCKET_ERROR, Some handle, p_net c)
          else if private_connect (p_conn c) =? -1 then Some (UPNP_E_SOCKET_CONNECT, Some handle, p_net c)
          else
            '(ret_code, _, n) ← http_SendMessage timeout [SBuf (mb_block request) (mb_length request)] (p_net c);
            Some (ret_code, Some handle, n)
  | _, _ => Some (UPNP_E_INVALID_PARAM, None, p_net c)
  end.

(** The result, [*size] and the network. *)
Definition http_WriteHttpPost (handle : option http_post_handle_t) (buf : option (list Z)) (size : option Z)
    (timeout : Z) (n : net) : Z * option Z * net :=
  match handle, buf, size with
  | Some handle, Some buf, Some size =>
      let write tempbuf tempbufSize :=
        let '(numWritten, _, n) := sock_write tempbuf tempbufSize timeout n in
        if numWritten <? 0 then (numWritten, Some 0, n) else (UPNP_E_SUCCESS, Some numWritten, n) in
      if contentLength handle =? UPNP_USING_CHUNKED then
        if negb (size =? 0) then
          if negb (alloc_ok (u64 (size + CHUNK_HEADER_SIZE + CHUNK_TAIL_SIZE)))
          then (UPNP_E_OUTOF_MEMORY, Some size, n)
          else let t := chunk_text (ztake size buf) in write t (zlen t)
        else write [] 0
      else write buf size
  | _, _, _ => (UPNP_E_INVALID_PARAM, if size then Some 0 else None, n)
  end.

(** The result, [*httpStatus] and the network. *)
Definition http_CloseHttpPost (handle : option http_post_handle_t) (httpStatus : bool) (timeout : Z) (n : net)
  : option (Z * option Z * net) :=
  match handle with
  | Some handle =>
      if negb httpStatus then Some (UPNP_E_INVALID_PARAM, None, n)
      else
        let '(timeout, n) :=
          if contentLength handle =? UPNP_USING_CHUNKED then
            let '(_, timeout, n) := sock_write (zs "0" ++ crlf ++ crlf) 5 timeout n in (timeout, n)
          else (timeout, n) in
        r ← http_RecvMessage HTTPMETHOD_POST timeout n;
        Some (r_ret r, r_error r, r_net r)
  | None => Some (UPNP_E_INVALID_PARAM, None, n)
  end.

(** ** GET handles *)

Record http_get_handle_t := GetHandle { response : http_parser_t; cancel : bool }.
Definition sizeof_http_get_handle_t : Z := 624.

Definition set_response (p : http_parser_t) (h : http_get_handle_t) : http_get_handle_t :=
  GetHandle p (cancel h).

(** One of the two loops of [ReadResponseLineAndHeaders]: reads and parses until
    [parse] is done.  [inl]: the loop has ended; [inr]: what the function returns. *)
Fixpoint read_until (fuel : nat) (parse : http_parser_t -> parse_status_t * http_parser_t)
    (is_done : parse_status_t -> http_parser_t -> bool) (p : http_parser_t) (timeout : Z) (n : net)
  : option (option Z * http_parser_t * Z * net) :=
  match fuel with
  | O => None
  | S f =>
      let '(num_read, buf, timeout, n) := sock_read buf_size timeout n in
      if 0 <? num_read then
        let '(ret_code, b) := membuffer_append (msg (pmsg p)) (Some buf) num_read in
        let p := with_msg p (set_buf b) in
        if negb (ret_code =? 0)
        then Some (Some (status_int PARSE_FAILURE), set_error HTTP_INTERNAL_SERVER_ERROR p, timeout, n)
        else
          let '(status, p) := parse p in
          if is_done status p then Some (None, p, timeout, n)
          else if decide (status = PARSE_INCOMPLETE) then read_until f parse is_done p timeout n
          else Some (Some (status_int status), p, timeout, n)
      else if num_read =? 0 then Some (Some UPNP_E_BAD_HTTPMSG, p, timeout, n)
      else Some (Some num_read, p, timeout, n)
  end.

(** The first attempt on what has been read, then the loop. *)
Definition parse_or_read (parse : http_parser_t -> parse_status_t * http_parser_t)
    (is_done : parse_status_t -> http_parser_t -> bool) (p : http_parser_t) (timeout : Z) (n : net)
  : option (option Z * http_parser_t * Z * net) :=
  let '(status, p) := parse p in
  if is_done status p then Some (None, p, timeout, n)
  else if decide (status = PARSE_INCOMPLETE) then read_until (recv_fuel n) parse is_done p timeout n
  else Some (Some (status_int status), p, timeout, n).

Definition line_done (st : parse_status_t) (p : http_parser_t) : bool := bool_decide (st = PARSE_OK).
Definition headers_done (st : parse_status_t) (p : http_parser_t) : bool :=
  bool_decide (st = PARSE_OK) && bool_decide (position p = POS_ENTITY).

Definition ReadResponseLineAndHeaders (p : http_parser_t) (timeout : Z) (n : net)
  : option (Z * http_parser_t * Z * net) :=
  '(r, p, timeout, n) ← parse_or_read parser_parse_responseline line_done p timeout n;
  match r with
  | Some ret => Some (ret, p, timeout, n)
  | None =>
      '(r, p, timeout, n) ← parse_or_read parser_parse_headers headers_done p timeout n;
      Some (default (status_int PARSE_OK) r, p, timeout, n)
  end.

Record opened := Opened {
  o_ret : Z;
  o_handle : option http_get_handle_t;    (* *Handle *)
  o_type : option membuffer;              (* *contentType *)
  o_length : Z;                           (* *contentLength *)
  o_status : Z;                           (* *httpStatus *)
  o_net : net
}.

Definition content_len (p : http_parser_t) : Z :=
  if decide (position p = POS_COMPLETE) then 0
  else match ent_position p with
       | ENTREAD_USING_CHUNKED => UPNP_USING_CHUNKED
       | ENTREAD_USING_CLEN => s32 (content_length p)
       | ENTREAD_UNTIL_CLOSE => UPNP_UNTIL_CLOSE
       | _ => 0
       end.

(** From the socket to the answer: the code, the parser, the network. *)
Definition get_answer (request : membuffer) (timeout : Z) (c : peer) : option (Z * http_parser_t * net) :=
  let p := parser_response_init HTTPMETHOD_GET in
  if negb (p_socket c) then Some (UPNP_E_SOCKET_ERROR, p, p_net c)
  else if private_connect (p_conn c) =? -1 then Some (UPNP_E_SOCKET_CONNECT, p, p_net c)
  else
    '(ret_code, timeout, n) ← http_SendMessage timeout [SBuf (mb_block request) (mb_length request)] (p_net c);
    if negb (ret_code =? 0) then Some (ret_code, p, n)
    else
      '(r, p, _, n) ← ReadResponseLineAndHeaders p timeout n;
      if negb (r =? status_int PARSE_OK) then Some (UPNP_E_BAD_RESPONSE, p, n)
      else
        let '(status, p) := parser_get_entity_read_method p in
        match status with
        | PARSE_CONTINUE_1 | PARSE_SUCCESS => Some (UPNP_E_SUCCESS, p, n)
        | _ => Some (UPNP_E_BAD_RESPONSE, p, n)
        end.

Definition answered (p : http_parser_t) (n : net) : opened :=
  Opened UPNP_E_SUCCESS (Some (GetHandle p false)) (header_value (pmsg p) HDR_CONTENT_TYPE)
         (content_len p) (status_code (pmsg p)) n.

(** [ptrs]: no out pointer is [NULL].  The handle is returned on an error too, with its
    message destroyed. *)
Definition http_OpenHttpGetProxy (env : http_env) (url_str proxy_str : option (list Z)) (ptrs : bool)
    (timeout : Z) (c : peer) : option opened :=
  let fail ret := Some (Opened ret None None 0 0 (p_net c)) in
  match url_str with
  | None => fail UPNP_E_INVALID_PARAM
  | Some url_str =>
      if negb ptrs then fail UPNP_E_INVALID_PARAM
      else
        '(ret_code, request, _) ← MakeGetMessage env url_str proxy_str;
        if negb (ret_code =? UPNP_E_SUCCESS) then fail ret_code
        else if negb (alloc_ok sizeof_http_get_handle_t) then fail UPNP_E_OUTOF_MEMORY
        else
          '(ret_code, p, n) ← get_answer request timeout c;
          if negb (ret_code =? UPNP_E_SUCCESS)
          then Some (Opened ret_code (Some (GetHandle (with_msg p httpmsg_destroy) false)) None 0 0 n)
          else Some (answered p n)
  end.
Definition http_OpenHttpGet (env : http_env) (url_str : option (list Z)) (ptrs : bool) (timeout : Z) (c : peer)
  : option opened :=
  http_OpenHttpGetProxy env url_str None ptrs timeout c.

(** The same with a range; the handle is freed on an error. *)
Definition range_header (lowRange highRange : Z) : list Z :=
  zs "Range: bytes=" ++ dec_s lowRange ++ [MINUS] ++ dec_s highRange ++ crlf.
Definition http_OpenHttpGetEx (env : http_env) (url_str : option (list Z)) (ptrs : bool)
    (lowRange highRange timeout : Z) (c : peer) : option opened :=
  let fail ret := Some (Opened ret None None 0 0 (p_net c)) in
  match url_str with
  | None => fail UPNP_E_INVALID_PARAM
  | Some url_str =>
      if negb ptrs then fail UPNP_E_INVALID_PARAM
      else if highRange <? lowRange then fail UPNP_E_INTERNAL_ERROR
      else
        let rangeBuf := Instr false false false false (range_header lowRange highRange) [] 0 0 0 in
        '(errCode, request, _) ← MakeGetMessageEx env url_str rangeBuf;
        if negb (errCode =? UPNP_E_SUCCESS) then fail errCode
        else if negb (alloc_ok sizeof_http_get_handle_t) then fail UPNP_E_OUTOF_MEMORY
        else
          '(errCode, p, n) ← get_answer request timeout c;
          if negb (errCode =? UPNP_E_SUCCESS) then Some (Opened errCode None None 0 0 n)
          else Some (answered p n)
  end.

(** [parser_parse_entity]: the parser and whether the entity ends with the connection;
    [None]: the answer is bad. *)
Definition entity_more (p : http_parser_t) (ok_on_close : bool) : option (option (http_parser_t * bool)) :=
  '(status, p) ← parser_parse_entity p;
  Some (match status with
        | PARSE_INCOMPLETE_ENTITY => Some (p, true)
        | PARSE_SUCCESS | PARSE_CONTINUE_1 | PARSE_INCOMPLETE => Some (p, ok_on_close)
        | _ => None
        end).

(** [want]: [*size]; [inr]: the loop has ended, [inl]: an error. *)
Fixpoint read_entity (fuel : nat) (want : Z) (cancelled : bool) (p : http_parser_t) (ok_on_close : bool)
    (timeout : Z) (n : net) : option (Z * http_parser_t * net + http_parser_t * net) :=
  match fuel with
  | O => None
  | S f =>
      if (entity_length (pmsg p) <? u64 (amount_discarded (pmsg p) + want)) && negb cancelled
         && negb (bool_decide (position p = POS_COMPLETE))
      then
        let '(num_read, tempbuf, timeout, n) := sock_read buf_size timeout n in
        if 0 <? num_read then
          let '(ret_code, b) := membuffer_append (msg (pmsg p)) (Some tempbuf) num_read in
          let p := with_msg p (set_buf b) in
          if negb (ret_code =? 0)
          then Some (inl (status_int PARSE_FAILURE, set_error HTTP_INTERNAL_SERVER_ERROR p, n))
          else
            r ← entity_more p ok_on_close;
            match r with
            | Some (p, ok_on_close) => read_entity f want cancelled p ok_on_close timeout n
            | None => Some (inl (UPNP_E_BAD_RESPONSE, p, n))
            end
        else if num_read =? 0 then
          if ok_on_close then read_entity f want cancelled (set_position POS_COMPLETE p) ok_on_close timeout n
          else Some (inl (UPNP_E_BAD_HTTPMSG, set_error HTTP_BAD_REQUEST p, n))
        else Some (inl (num_read, p, n))
      else Some (inr (p, n))
  end.

(** The bytes for the user are taken out of the message. *)
Definition deliver_data (size : Z) (p : http_parser_t) : list Z * http_parser_t :=
  let data := zsub (pmem p) (entity_start_position p) size in
  let p := with_msg p (fun m => set_buf (membuffer_delete (msg m) (entity_start_position p) size) m) in
  let p := set_cursor (u64 (cursor p - size)) p in
  (data, with_msg p (fun m => set_discarded (u64 (amount_discarded m + size)) m)).

Record got := Got { g_ret : Z; g_data : list Z; g_size : Z; g_handle : http_get_handle_t; g_net : net }.

(** The parser after a bad answer is not used again and is the one before. *)
Definition http_ReadHttpGet (handle : http_get_handle_t) (buf : bool) (size timeout : Z) (n : net)
  : option got :=
  let fail ret p n := Some (Got ret [] 0 (set_response p handle) n) in
  let p := response handle in
  if (0 <? size) && negb buf then fail UPNP_E_INVALID_PARAM p n
  else
    (* first parse what has already been gotten *)
    r ← (if bool_decide (position p = POS_COMPLETE) then Some (Some (p, false)) else entity_more p false);
    match r with
    | None => fail UPNP_E_BAD_RESPONSE p n
    | Some (p, ok_on_close) =>
        r ← read_entity (S (recv_fuel n)) size (cancel handle) p ok_on_close timeout n;
        match r with
        | inl (ret, p, n) => fail ret p n
        | inr (p, n) =>
            if cancel handle then Some (Got UPNP_E_CANCELED [] size (set_response p handle) n)
            else
              let m := pmsg p in
              let size := if entity_length m <? u64 (amount_discarded m + size)
                          then u64 (entity_length m - amount_discarded m) else size in
              if 0 <? size then
                let '(data, p) := deliver_data size p in
                Some (Got UPNP_E_SUCCESS data size (set_response p handle) n)
              else Some (Got UPNP_E_SUCCESS [] size (set_response p handle) n)
        end
    end.

(** Without a handle the three functions below return [UPNP_E_INVALID_PARAM]. *)
Definition http_HttpGetProgress (handle : option http_get_handle_t) (ptrs : bool) : Z * option (Z * Z) :=
  match handle with
  | Some h => if ptrs then (UPNP_E_SUCCESS, Some (entity_length (pmsg (response h)), content_length (response h)))
              else (UPNP_E_INVALID_PARAM, None)
  | None => (UPNP_E_INVALID_PARAM, None)
  end.
Definition http_CancelHttpGet (handle : option http_get_handle_t) : Z * option http_get_handle_t :=
  match handle with
  | Some h => (UPNP_E_SUCCESS, Some (GetHandle (response h) true))
  | None => (UPNP_E_INVALID_PARAM, None)
  end.
Definition http_CloseHttpGet (handle : option http_get_handle_t) : Z * option http_get_handle_t :=
  match handle with
  | Some _ => (UPNP_E_SUCCESS, None)
  | None => (UPNP_E_INVALID_PARAM, None)
  end.
End Exchange.
