(* ===== verification/HttpIOFacts.v ===== *)
(** * Facts about HTTP exchanges

    Chunked messages that are written are the ones the parser reads; what a receiving
    loop can return; and what the reader of a GET handle delivers. *)

From S2P Require Import Prelude CLib Codes Membuffer Uri Tables Scanner ScannerFacts HttpParser HttpFacts.
From S2P Require Import Sock HttpMsg HttpIO.
#[local] Open Scope Z_scope.

(** ** Numbers in hexadecimal *)

Definition hex_char (c : Z) : Prop := exists v, 0 <= v < 16 /\ c = hex_digit v.

Lemma hex_cases (P : Z -> Prop) v :
  Forall (fun k => P (Z.of_nat k)) (seq 0 16) -> 0 <= v < 16 -> P v.
Proof.
  intros HP Hv. rewrite Forall_forall in HP. specialize (HP (Z.to_nat v)).
  rewrite Z2Nat.id in HP by lia. apply HP. apply elem_of_seq. lia.
Qed.
Lemma hex_char_facts c :
  hex_char c ->
  is_identifier_char c = true /\ isspace c = false /\ c <> MINUS /\ c <> PLUS /\ tolower c <> 120.
Proof.
  intros (v & Hv & ->). pattern v. apply hex_cases; [|done].
  apply (bool_decide_eq_true_1 _). vm_compute. reflexivity.
Qed.
Lemma digit_val_hex v : 0 <= v < 16 -> digit_val 16 (hex_digit v) = Some v.
Proof.
  intros Hv. pattern v. apply hex_cases; [|done]. apply (bool_decide_eq_true_1 _). vm_compute. reflexivity.
Qed.

Lemma hex_digits_chars f n acc : 0 <= n -> Forall hex_char acc -> Forall hex_char (hex_digits f n acc).
Proof.
  revert n acc. induction f as [|f IH]; intros n acc Hn Ha; [done|]. cbn [hex_digits].
  pose proof (Z.mod_pos_bound n 16 ltac:(lia)).
  destruct (Z.ltb_spec n 16); [constructor; [by exists n|done]|].
  apply IH; [by apply Z.div_pos|]. constructor; [by eexists|done].
Qed.
Lemma hex_digits_read f n acc rest :
  0 <= n < 16 ^ Z.of_nat f -> read_digits 16 0 (hex_digits f n acc ++ rest) = read_digits 16 n (acc ++ rest).
Proof.
  revert n acc. induction f as [|f IH]; intros n acc Hn; cbn [hex_digits].
  - change (16 ^ Z.of_nat 0) with 1 in Hn. by replace n with 0 by lia.
  - pose proof (Z.mod_pos_bound n 16 ltac:(lia)). pose proof (Z.div_mod n 16 ltac:(lia)).
    destruct (Z.ltb_spec n 16).
    + cbn [app read_digits]. by rewrite digit_val_hex, Z.mul_0_l by lia.
    + rewrite IH.
      * cbn [app read_digits]. rewrite digit_val_hex by lia. f_equal. lia.
      * split; [apply Z.div_pos; lia|]. apply Z.div_lt_upper_bound; [lia|].
        replace (Z.of_nat (S f)) with (Z.of_nat f + 1) in Hn by lia. rewrite Z.pow_add_r in Hn by lia. lia.
Qed.
Lemma hex_digits_pos f n acc : (0 < f)%nat -> 0 < zlen (hex_digits f n acc).
Proof.
  revert n acc. induction f as [|f IH]; intros n acc Hf; [lia|]. cbn [hex_digits].
  destruct (n <? 16); [rewrite zlen_cons; pose proof (zlen_nonneg acc); lia|].
  destruct f as [|f]; [|apply IH; lia]. cbn [hex_digits]. rewrite zlen_cons. pose proof (zlen_nonneg acc). lia.
Qed.

Lemma hex_chars n : 0 <= n -> Forall hex_char (hex_of n).
Proof. intros. apply hex_digits_chars; [done|constructor]. Qed.
Lemma hex_pos n : 0 < zlen (hex_of n).
Proof. apply hex_digits_pos. lia. Qed.

(** [%x] reads the number back. *)
Lemma strtol_hex n rest :
  0 <= n < 2 ^ 63 -> (forall c l, rest = c :: l -> digit_val 16 c = None /\ tolower c <> 120) -> rest <> [] ->
  strtol (hex_of n ++ rest) 16 = Strtol n (zlen (hex_of n)) false.
Proof.
  intros Hn Hr Hne.
  pose proof (hex_digits_read 16 n [] rest ltac:(lia)) as Hread. change (hex_digits 16 n []) with (hex_of n) in Hread.
  pose proof (hex_chars n ltac:(lia)) as Hc. pose proof (hex_pos n) as Hp.
  destruct rest as [|c rest]; [done|]. destruct (Hr c rest eq_refl) as [Hcd Hcx].
  assert (Hread' : read_digits 16 0 (hex_of n ++ c :: rest) = (n, c :: rest)).
  { rewrite Hread. cbn. by rewrite Hcd. }
  destruct (hex_of n) as [|a h] eqn:Eh; [by cbn in Hp|].
  pose proof (hex_char_facts a ltac:(by inversion Hc)) as (_ & Hs & Hm & Hpl & _).
  unfold strtol. cbn [app skip_space]. rewrite Hs. cbn [skip_space].
  apply Z.eqb_neq in Hm, Hpl. rewrite Hm, Hpl. cbn [orb].
  set (l3 := match h ++ c :: rest with [] => _ | _ => _ end).
  assert (Hl3 : l3 = a :: h ++ c :: rest).
  { unfold l3. assert (Hx : forall x l, h ++ c :: rest = x :: l -> (tolower x =? 120) = false).
    { intros x l E. apply Z.eqb_neq. destruct h as [|b h]; cbn in E; [by injection E as <- _|].
      injection E as <- _. inversion Hc as [|? ? _ Hc']; subst. inversion Hc' as [|? ? Hb _]; subst.
      by destruct (hex_char_facts b Hb) as (_ & _ & _ & _ & ?). }
    destruct (h ++ c :: rest) as [|x [|y l]]; [done|done|]. rewrite (Hx x (y :: l) eq_refl).
    by rewrite andb_false_r. }
  rewrite Hl3. cbn [app] in Hread'. rewrite Hread'.
  assert (Hlen : zlen (a :: h ++ c :: rest) = zlen (a :: h) + zlen (c :: rest)) by (by rewrite <- zlen_app).
  rewrite (proj2 (Z.eqb_neq _ _)) by (rewrite Hlen; lia).
  unfold LONG_MAX, LONG_MIN. rewrite (proj2 (Z.ltb_ge _ n)), (proj2 (Z.ltb_ge n _)) by lia.
  f_equal. rewrite Hlen. lia.
Qed.

(** ** The header of a chunk *)

Lemma get_token_identifier `{Resolver} mem len entire k tok x rest :
  0 <= len <= zlen mem ->
  0 <= k -> zdrop k mem = tok ++ x :: rest -> k + zlen tok < len -> 0 < zlen tok ->
  Forall (fun c => is_identifier_char c = true) tok -> is_identifier_char x = false ->
  scanner_get_token mem len entire k = TokOk (Memptr k (zlen tok)) TT_IDENTIFIER.
Proof.
  intros Hlen Hk Hd Hl Ht Hid Hx.
  assert (Hg : forall i, 0 <= i -> zget mem (k + i) = zget (tok ++ x :: rest) i).
  { intros i Hi. rewrite <- Hd. rewrite (zget_zdrop_nn mem k i Hi Hk). by rewrite Z.add_comm. }
  assert (Hin : forall i, 0 <= i < zlen tok -> is_identifier_char (zget mem (k + i)) = true).
  { intros i Hi. rewrite Hg, zget_app_l by lia. rewrite Forall_forall in Hid. apply Hid.
    unfold zget. rewrite (proj2 (Z.ltb_ge i 0)) by lia.
    apply list_elem_of_In, nth_In. unfold zlen in Hi. lia. }
  assert (Hout : zget mem (k + zlen tok) = x).
  { rewrite Hg, zget_app_r by lia. by rewrite Z.sub_diag. }
  unfold scanner_get_token. rewrite (proj2 (Z.eqb_neq k len)) by lia.
  pose proof (Hin 0 ltac:(lia)) as H0'. rewrite Z.add_0_r in H0'. rewrite H0'.
  pose proof (run_spec mem len Hlen is_identifier_char (k + 1) ltac:(lia)) as (Hr & Hbefore & Hstop).
  cbv zeta in *. set (r := run mem len is_identifier_char (k + 1)) in *.
  assert (Er : r = k + zlen tok).
  { destruct (Z.lt_trichotomy r (k + zlen tok)) as [Hlt|[->|Hgt]]; [|done|].
    - destruct Hstop as [->|Hstop]; [lia|]. specialize (Hin (r - k) ltac:(lia)).
      replace (k + (r - k)) with r in Hin by lia. congruence.
    - specialize (Hbefore (k + zlen tok) ltac:(lia)). congruence. }
  rewrite Er, (proj2 (Z.eqb_neq (k + zlen tok) len)), andb_false_r by lia. do 2 f_equal. lia.
Qed.

Lemma get_token_crlf `{Resolver} mem len entire k rest :
  0 <= k -> zdrop k mem = crlf ++ rest -> k + 1 < len ->
  scanner_get_token mem len entire k = TokOk (Memptr k 2) TT_CRLF.
Proof.
  intros Hk Hd Hl.
  assert (Hg : forall i, 0 <= i -> zget mem (k + i) = zget (crlf ++ rest) i).
  { intros i Hi. rewrite <- Hd. rewrite (zget_zdrop_nn mem k i Hi Hk). by rewrite Z.add_comm. }
  pose proof (Hg 0 ltac:(lia)) as H0'. rewrite Z.add_0_r in H0'. change (zget (crlf ++ rest) 0) with CR in H0'.
  pose proof (Hg 1 ltac:(lia)) as H1'. change (zget (crlf ++ rest) 1) with LF in H1'.
  unfold scanner_get_token. rewrite (proj2 (Z.eqb_neq k len)) by lia. rewrite H0'.
  change (is_identifier_char CR) with false. cbn iota. change ((CR =? SP) || (CR =? TAB)) with false. cbn iota.
  change (CR =? TOKCHAR_CR) with true. cbn iota.
  rewrite (proj2 (Z.eqb_neq (k + 1) len)), H1' by lia. done.
Qed.

Section Chunked.
Context `{HM : Malloc, HR : Resolver} (Halloc : forall n, alloc_ok n = true).

(** The memory from a position inside the contents on. *)
Lemma pmem_from p a b :
  parser_wf p -> mb_contents (msg (pmsg p)) = a ++ b ->
  exists rest, zdrop (zlen a) (pmem p) = b ++ rest /\ plen p = zlen a + zlen b.
Proof.
  intros Hp Hc. pose proof (zlen_contents _ (pw_msg p Hp)) as Hz. rewrite Hc, zlen_app in Hz.
  exists (zdrop (plen p) (pmem p)). split; [|by unfold plen].
  rewrite <- (ztake_zdrop (plen p) (pmem p)) at 1.
  change (ztake (plen p) (pmem p)) with (mb_contents (msg (pmsg p))). rewrite Hc, <- app_assoc.
  by rewrite zdrop_app_exact.
Qed.

Lemma pmatch_chunk p a n c :
  parser_wf p -> mb_contents (msg (pmsg p)) = a ++ (hex_of n ++ crlf) ++ c -> cursor p = zlen a ->
  0 <= n < 2 ^ 31 ->
  exists outs, pmatch p fmt_chunk = (PARSE_OK, set_cursor (zlen a + zlen (hex_of n ++ crlf)) p, outs)
    /\ arg_int outs 0 = Some n.
Proof.
  intros Hp Hc Hcur Hn. pose proof (hex_pos n) as Hpos. pose proof (zlen_nonneg a).
  rewrite <- app_assoc in Hc. destruct (pmem_from p a _ Hp Hc) as (rest & Hd & Hl).
  revert Hl. zlen_norm. change (zlen crlf) with 2. intros Hl. pose proof (zlen_nonneg c).
  assert (Hd2 : zdrop (zlen a + zlen (hex_of n)) (pmem p) = crlf ++ c ++ rest).
  { rewrite Z.add_comm, <- zdrop_zdrop, Hd by lia. rewrite <- !app_assoc. apply zdrop_app_exact. }
  assert (T1 : scanner_get_token (pmem p) (plen p) false (zlen a)
               = TokOk (Memptr (zlen a) (zlen (hex_of n))) TT_IDENTIFIER).
  { eapply (get_token_identifier _ _ _ _ (hex_of n) CR); [pose proof (pmem_len p Hp); lia|lia|rewrite Hd, <- !app_assoc; reflexivity|lia|lia| |done].
    eapply Forall_impl; [apply hex_chars; lia|]. intros x Hx. by apply hex_char_facts. }
  assert (T2 : scanner_get_token (pmem p) (plen p) false (zlen a + zlen (hex_of n))
               = TokOk (Memptr (zlen a + zlen (hex_of n)) 2) TT_CRLF).
  { eapply get_token_crlf; [lia|exact Hd2|lia]. }
  assert (M1 : match_int (pmem p) (plen p) false (zlen a) 16
               = (PARSE_OK, zlen a + zlen (hex_of n), Some n)).
  { unfold match_int. rewrite T1. cbn [mp_buf mp_length]. rewrite Hd, <- !app_assoc.
    rewrite strtol_hex; [|lia| |done].
    - cbn [st_val st_end st_erange]. rewrite (proj2 (Z.ltb_ge n 0)), Z.eqb_refl, andb_false_r by lia.
      cbn [negb orb]. by rewrite s32_small by lia.
    - intros x l E. change (crlf ++ c ++ rest) with (CR :: LF :: c ++ rest) in E. by injection E as <- _. }
  assert (M2 : read_until_crlf (pmem p) (plen p) false (zlen a + zlen (hex_of n))
               = (PARSE_OK, zlen a + zlen (hex_of n), Memptr (zlen a + zlen (hex_of n)) 0)).
  { unfold read_until_crlf, toks. cbn [until_crlf_loop]. rewrite T2. do 2 f_equal. lia. }
  rewrite Z.add_assoc.
  eexists. split.
  - unfold pmatch, vfmatch. change fmt_chunk with [PERCENT; 120; PERCENT; 76; PERCENT; 99].
    cbn [vfmatch_loop]. rewrite !Z.eqb_refl, Hcur.
    change (vfmatch_dir 1 (pmem p) (plen p) false 120 (zlen a) true)
      with (let '(st, cur, v) := match_int (pmem p) (plen p) false (zlen a) 16 in
            Some (st, cur, true, match v with Some v => [AInt v] | None => [] end)).
    rewrite M1. cbn [decide].
    change (vfmatch_dir 1 (pmem p) (plen p) false 76 (zlen a + zlen (hex_of n)) true)
      with (let '(st, cur, s) := read_until_crlf (pmem p) (plen p) false (zlen a + zlen (hex_of n)) in
            Some (st, cur, true, [AStr s])).
    rewrite M2.
    change (vfmatch_dir 1 (pmem p) (plen p) false 99 (zlen a + zlen (hex_of n)) true)
      with (Some ((match_type (pmem p) (plen p) false (zlen a + zlen (hex_of n)) TT_CRLF).1, true, [] : list arg)).
    unfold match_type. rewrite T2. cbn -[hex_of zlen Z.add].
    rewrite !decide_True by done. reflexivity.
  - reflexivity.
Qed.

(** What the rounds over chunks leave alone. *)
Definition frame (p : http_parser_t) : Z * Z * bool * Z :=
  (entity_start_position p, amount_discarded (pmsg p), is_request (pmsg p), method (pmsg p)).

Lemma chunk_rounds_frame p :
  parser_wf p -> ent_position p = ENTREAD_USING_CHUNKED \/ ent_position p = ENTREAD_CHUNKY_BODY ->
  frame (parse_entity_step p).2 = frame p.
Proof.
  intros Hp He. unfold parse_entity_step.
  destruct He as [-> | ->]; unfold parser_parse_chunky_entity, parser_parse_chunky_body.
  - pose proof (pmatch_spec p fmt_chunk Hp) as HS. destruct (pmatch p fmt_chunk) as [[st q] outs].
    destruct HS as (-> & _). repeat case_match; done.
  - destruct (chunk_size p <=? _) eqn:E; [|done]. apply Z.leb_le in E. pose proof (pw_chunk p Hp).
    pose proof (pw_cursor p Hp). pose proof (pw_len p Hp). rewrite u64_small in E by lia.
    set (p0 := set_cursor _ p). assert (Hp0 : parser_wf p0) by (eapply core_wf; [exact Hp|done|cbn; lia]).
    pose proof (pmatch_spec p0 fmt_crlf Hp0) as HS. destruct (pmatch p0 fmt_crlf) as [[st q] outs].
    destruct HS as (-> & _). by repeat case_match.
Qed.

Definition is_post (p : http_parser_t) : bool :=
  is_request (pmsg p) && (method (pmsg p) =? HTTPMETHOD_POST).

(** A chunk, from its size line to its line end. *)
Lemma chunk_rounds p pre c rest f :
  parser_wf p -> ent_position p = ENTREAD_USING_CHUNKED ->
  mb_contents (msg (pmsg p)) = pre ++ chunk_text c ++ rest -> cursor p = zlen pre -> 0 < zlen c ->
  0 <= entity_length (pmsg p) < 2 ^ 32 ->
  exists q, parse_entity_loop (S (S f)) p = parse_entity_loop f q /\ parser_wf q
    /\ mb_contents (msg (pmsg q)) = (pre ++ c) ++ rest /\ cursor q = zlen (pre ++ c)
    /\ ent_position q = ENTREAD_USING_CHUNKED /\ frame q = frame p
    /\ entity_length (pmsg q) = entity_length (pmsg p) + zlen c.
Proof.
  intros Hp He Hc Hcur Hd Hlen. unfold chunk_text in Hc.
  rewrite <- !app_assoc, (app_assoc (hex_of (zlen c))) in Hc.
  pose proof (zlen_contents _ (pw_msg p Hp)) as Hz. rewrite Hc in Hz. revert Hz. zlen_norm. intros Hz.
  pose proof (pw_len p Hp) as Hl. unfold plen in Hl. pose proof (hex_pos (zlen c)). pose_zlens.
  destruct (pmatch_chunk p pre (zlen c) _ Hp Hc Hcur ltac:(lia)) as (outs & Hm & Ho).
  destruct (chunk_header_round Halloc p _ outs pre _ (c ++ crlf ++ rest) Hp He Hc Hcur
    ltac:(zlia) Hm eq_refl (zlen c) Ho ltac:(lia)) as (q1 & E1 & W1 & C1 & U1 & P1 & K1 & L1).
  pose proof (chunk_rounds_frame p Hp (or_introl He)) as F1. rewrite E1 in F1.
  destruct (chunk_data_round Halloc q1 pre c crlf rest W1 P1 C1 U1 K1 (or_introl eq_refl))
    as (q2 & E2 & W2 & C2 & U2 & P2 & L2).
  pose proof (chunk_rounds_frame q1 W1 (or_intror P1)) as F2. rewrite E2 in F2.
  exists q2. cbn [parse_entity_loop]. rewrite E1. cbn [decide]. rewrite decide_True by done.
  rewrite E2, decide_True by done. split_and!; try done.
  - by rewrite C2, <- app_assoc.
  - etransitivity; [exact F2|exact F1].
  - rewrite L2, L1, u64_small by lia. done.
Qed.

Lemma chunk_text_len c : zlen c + 5 <= zlen (chunk_text c).
Proof. unfold chunk_text. pose proof (hex_pos (zlen c)). rewrite !zlen_app. change (zlen crlf) with 2. lia. Qed.

Lemma chunks_loop cs : forall p pre rest f,
  parser_wf p -> ent_position p = ENTREAD_USING_CHUNKED ->
  mb_contents (msg (pmsg p)) = pre ++ concat (map chunk_text cs) ++ rest -> cursor p = zlen pre ->
  Forall (fun c => 0 < zlen c) cs ->
  0 <= entity_length (pmsg p) -> entity_length (pmsg p) + zlen (concat cs) < 2 ^ 32 ->
  exists q, parse_entity_loop (2 * length cs + f) p = parse_entity_loop f q /\ parser_wf q
    /\ mb_contents (msg (pmsg q)) = (pre ++ concat cs) ++ rest /\ cursor q = zlen (pre ++ concat cs)
    /\ ent_position q = ENTREAD_USING_CHUNKED /\ frame q = frame p
    /\ entity_length (pmsg q) = entity_length (pmsg p) + zlen (concat cs).
Proof.
  induction cs as [|c cs IH]; intros p pre rest f Hp He Hc Hcur Hpos Hl0 Hl.
  { exists p. cbn [concat]. rewrite app_nil_r. split_and!; try done. change (zlen (@nil Z)) with 0. lia. }
  inversion Hpos as [|? ? Hc0 Hcs]; subst. cbn [concat map] in *. rewrite zlen_app in Hl |- *.
  rewrite <- app_assoc in Hc. pose proof (zlen_nonneg (concat cs)).
  replace (2 * length (c :: cs) + f)%nat with (S (S (2 * length cs + f))) by (cbn; lia).
  destruct (chunk_rounds p pre c _ (2 * length cs + f) Hp He Hc Hcur Hc0 ltac:(lia))
    as (q & -> & Hq & Cq & Uq & Eq & Fq & Lq).
  destruct (IH q (pre ++ c) rest f Hq Eq Cq Uq Hcs ltac:(lia) ltac:(lia))
    as (r & -> & Hr & Cr & Ur & Er & Fr & Lr).
  exists r. rewrite app_assoc, Fr. split_and!; try done.
  - rewrite Ur, !zlen_app. lia.
  - rewrite zlen_app. lia.
Qed.

Definition last_chunk : list Z := zs "0" ++ crlf ++ crlf.

(** The last chunk and the end of the trailer. *)
Lemma last_rounds p pre rest f :
  parser_wf p -> ent_position p = ENTREAD_USING_CHUNKED -> is_post p = false ->
  mb_contents (msg (pmsg p)) = pre ++ last_chunk ++ rest -> cursor p = zlen pre ->
  exists q, parse_entity_loop (S (S f)) p = Some (PARSE_SUCCESS, q)
    /\ mb_contents (msg (pmsg q)) = pre ++ rest /\ cursor q = zlen pre /\ position q = POS_COMPLETE
    /\ entity_buf (pmsg q) = Some (entity_start_position p)
    /\ entity_length (pmsg q) = u64 (zlen pre - entity_start_position p + amount_discarded (pmsg p)).
Proof.
  intros Hp He Hpost Hc Hcur. unfold last_chunk in Hc. rewrite <- !app_assoc in Hc.
  rewrite (app_assoc (zs "0")) in Hc. change (zs "0") with (hex_of 0) in Hc.
  pose proof (zlen_contents _ (pw_msg p Hp)) as Hz. rewrite Hc in Hz. revert Hz. zlen_norm. intros Hz.
  change (zlen crlf) with 2 in Hz. change (zlen (hex_of 0)) with 1 in Hz.
  pose proof (zlen_nonneg pre). pose proof (zlen_nonneg rest). pose proof (pw_chunk p Hp).
  destruct (pmatch_chunk p pre 0 _ Hp Hc Hcur ltac:(lia)) as (outs & Hm & Ho).
  change (zlen (hex_of 0 ++ crlf)) with 3 in Hm.
  pose proof (pmatch_wf p fmt_chunk Hp) as HW. rewrite Hm in HW. destruct HW as (_ & W1 & _).
  set (p1 := set_chunk 0 (set_cursor (zlen pre + 3) p)).
  assert (Hp1 : parser_wf p1).
  { destruct W1 as [V1 V2 V3 V4]. split; unfold plen in *; cbn in *; done || lia. }
  set (p2 := set_cursor (zlen pre) (delete_range (zlen pre) (zlen pre + 3) p1)).
  assert (Hp2 : parser_wf p2) by (apply (delete_range_wf Halloc); try done; unfold plen; cbn; lia).
  assert (Hc2 : mb_contents (msg (pmsg p2)) = pre ++ crlf ++ rest).
  { apply (delete_range_contents Halloc p1 pre (hex_of 0 ++ crlf)); [done|by rewrite <- app_assoc in Hc |- *|].
    unfold plen. cbn. lia. }
  set (len := u64 (zlen pre - entity_start_position p + amount_discarded (pmsg p))).
  set (p3 := set_ent ENTREAD_CHUNKY_HEADERS (with_msg p2 (fun m => set_entity (entity_buf m) len m))).
  assert (E1 : parse_entity_step p = (PARSE_CONTINUE_1, p3)).
  { unfold parse_entity_step. rewrite He. unfold parser_parse_chunky_entity. rewrite Hm, Ho.
    rewrite bool_decide_eq_true_2 by done. cbn [negb].
    change (store_low_int (chunk_size (set_cursor (zlen pre + 3) p)) 0) with (store_low_int (chunk_size p) 0).
    assert (store_low_int (chunk_size p) 0 = 0) as -> by (unfold store_low_int; rewrite Z.div_small; done || lia).
    fold p1. rewrite Hcur. change (cursor p1) with (zlen pre + 3). fold p2. reflexivity. }
  assert (Hp3 : parser_wf p3) by (eapply wf_ext; [exact Hp2|done|done|apply (pw_cursor p2 Hp2)]).
  destruct (pmem_from p3 pre (crlf ++ rest) Hp3 Hc2) as (tail & Hd & Hl).
  revert Hl. zlen_norm. change (zlen crlf) with 2. intros Hl. rewrite <- app_assoc in Hd.
  assert (T : scanner_get_token (pmem p3) (plen p3) false (zlen pre) = TokOk (Memptr (zlen pre) 2) TT_CRLF)
    by (eapply get_token_crlf; [lia|exact Hd|lia]).
  set (p4 := set_position POS_ENTITY (set_cursor (zlen pre + 2) p3)).
  assert (E2 : parser_parse_headers p3 = (PARSE_OK, p4)).
  { unfold parser_parse_headers, toks. cbn [parse_headers_loop]. change (cursor p3) with (zlen pre).
    rewrite T. unfold headers_end. change (is_request _ && _) with (is_post p). by rewrite Hpost. }
  set (p5 := set_position POS_COMPLETE p4).
  assert (Hp5 : parser_wf p5) by (eapply wf_ext; [exact Hp3|done|done|cbn; lia]).
  eexists. cbn [parse_entity_loop]. rewrite E1. cbn [decide]. rewrite decide_True by done.
  unfold parse_entity_step at 1. change (ent_position p3) with ENTREAD_CHUNKY_HEADERS.
  unfold parser_parse_chunky_headers. rewrite E2, decide_True by done. cbn [decide].
  rewrite decide_False by done. split; [reflexivity|]. split_and!; try done.
  change (cursor p3) with (zlen pre). fold p5. change (cursor p4) with (zlen pre + zlen crlf).
  apply (delete_range_contents Halloc p5 pre crlf rest Hp5); [exact Hc2|unfold plen in *; cbn in *; lia].
Qed.

(** A body in chunks, to its end. *)
Lemma chunked_body_parsed p pre cs rest :
  parser_wf p -> ent_position p = ENTREAD_USING_CHUNKED -> is_post p = false ->
  mb_contents (msg (pmsg p)) = pre ++ (concat (map chunk_text cs) ++ last_chunk) ++ rest ->
  cursor p = zlen pre -> Forall (fun c => 0 < zlen c) cs -> entity_length (pmsg p) = 0 ->
  exists q, parser_parse_entity p = Some (PARSE_SUCCESS, q)
    /\ mb_contents (msg (pmsg q)) = (pre ++ concat cs) ++ rest /\ position q = POS_COMPLETE
    /\ entity_buf (pmsg q) = Some (entity_start_position p)
    /\ entity_length (pmsg q)
       = u64 (zlen pre + zlen (concat cs) - entity_start_position p + amount_discarded (pmsg p)).
Proof.
  intros Hp He Hpost Hc Hcur Hpos Hl0. rewrite <- app_assoc in Hc.
  assert (Hlen : zlen (concat cs) <= zlen (concat (map chunk_text cs))
                 /\ Z.of_nat (length cs) <= zlen (concat (map chunk_text cs))).
  { clear -Hpos. induction Hpos as [|c cs Hc _ IH]; [done|]. cbn [concat map length].
    pose proof (chunk_text_len c). rewrite !zlen_app. lia. }
  pose proof (zlen_contents _ (pw_msg p Hp)) as Hz. rewrite Hc in Hz. revert Hz. zlen_norm. intros Hz.
  change (zlen last_chunk) with 5 in Hz. pose proof (pw_len p Hp) as Hl. unfold plen in Hl. pose_zlens.
  unfold parser_parse_entity.
  assert (exists f, entity_fuel p = (2 * length cs + S (S f))%nat) as [f ->].
  { exists (entity_fuel p - 2 * length cs - 2)%nat. unfold entity_fuel, plen. lia. }
  destruct (chunks_loop cs p pre _ (S (S f)) Hp He Hc Hcur Hpos ltac:(lia) ltac:(lia))
    as (q & -> & Hq & Cq & Uq & Eq & Fq & Lq).
  injection Fq as F1 F2 F3 F4.
  destruct (last_rounds q _ rest f Hq Eq ltac:(by unfold is_post; rewrite F3, F4) Cq Uq)
    as (r & -> & Cr & _ & Pr & Br & Lr).
  exists r. rewrite Br, Lr, F1, F2, zlen_app. by split_and!.
Qed.

(** The same for data that are appended in one piece. *)
Lemma parser_append_chunks p cs :
  parser_wf p -> position p = POS_ENTITY -> ent_position p = ENTREAD_USING_CHUNKED -> is_post p = false ->
  cursor p = plen p -> entity_start_position p = plen p -> amount_discarded (pmsg p) = 0 ->
  entity_length (pmsg p) = 0 -> Forall (fun c => 0 < zlen c) cs ->
  let w := concat (map chunk_text cs) ++ last_chunk in
  plen p + zlen w < 2 ^ 31 ->
  exists q, parser_append p w (zlen w) = Some (PARSE_SUCCESS, q)
    /\ mb_contents (msg (pmsg q)) = mb_contents (msg (pmsg p)) ++ concat cs
    /\ position q = POS_COMPLETE /\ entity_buf (pmsg q) = Some (plen p)
    /\ entity_length (pmsg q) = zlen (concat cs).
Proof.
  intros Hp Hpos He Hpost Hcur Hst Hd Hel Hcs w Hw. set (pre := mb_contents (msg (pmsg p))).
  assert (Hpre : zlen pre = plen p) by apply (zlen_contents _ (pw_msg p Hp)).
  pose proof (zlen_nonneg (concat (map chunk_text cs))).
  assert (Hwl : zlen w = zlen (concat (map chunk_text cs)) + 5) by (unfold w; rewrite zlen_app; done).
  destruct (insert_ok Halloc (msg (pmsg p)) w (zlen w) (pw_msg p Hp)) as (m & Em & Cm & Wm & Lm);
    [lia|unfold plen in Hw; lia|].
  rewrite ztake_all in Cm by lia. fold pre in Cm.
  set (p1 := with_msg p (set_buf m)).
  assert (Hp1 : parser_wf p1).
  { destruct Hp. split; unfold plen in *; cbn; rewrite ?Lm; done || lia. }
  destruct (chunked_body_parsed p1 pre cs [] Hp1 He Hpost) as (q & E & Cq & Pq & Bq & Lq); try done.
  { cbn. rewrite Cm. unfold w. by rewrite app_nil_r. }
  { cbn. by rewrite Hcur, Hpre. }
  exists q. rewrite app_nil_r in Cq. split_and!; try done.
  - unfold parser_append, membuffer_append. rewrite Em. cbn [negb]. rewrite Z.eqb_refl. cbn [negb]. fold p1.
    unfold parser_parse. cbn [parse_loop]. unfold parse_step.
    change (position p1) with (position p). rewrite Hpos, E. cbn [decide]. by rewrite decide_False by done.
  - rewrite Bq. cbn. by rewrite Hst.
  - rewrite Lq. cbn. rewrite Hst, Hd, Hpre. pose_zlens. rewrite u64_small; [lia|].
    assert (zlen (concat cs) <= zlen (concat (map chunk_text cs))).
    { clear. induction cs as [|c cs IH]; [done|]. cbn [concat map]. pose proof (chunk_text_len c).
      rewrite !zlen_app. lia. }
    unfold plen in *. lia.
Qed.

(** The calls of [http_WriteHttpPost] for pieces of a body, while they succeed. *)
Fixpoint write_pieces (h : http_post_handle_t) (bs : list (list Z)) (timeout : Z) (n : net) : bool * net :=
  match bs with
  | [] => (true, n)
  | b :: bs =>
      let '(ret, _, n) := http_WriteHttpPost (Some h) (Some b) (Some (zlen b)) timeout n in
      if ret =? UPNP_E_SUCCESS then write_pieces h bs timeout n else (false, n)
  end.

Lemma write_piece_sent h b timeout n ret size n' :
  contentLength h = UPNP_USING_CHUNKED -> 0 < zlen b ->
  http_WriteHttpPost (Some h) (Some b) (Some (zlen b)) timeout n = (ret, size, n') ->
  ret = UPNP_E_SUCCESS -> n_sent n' = n_sent n ++ chunk_text b /\ size = Some (zlen (chunk_text b)).
Proof.
  intros Hh Hb E ->. revert E. unfold http_WriteHttpPost. rewrite Hh, Z.eqb_refl.
  rewrite (proj2 (Z.eqb_neq (zlen b) 0)) by lia. cbn [negb]. rewrite Halloc. cbn [negb].
  rewrite ztake_all by lia. cbv zeta. destruct (sock_write _ _ timeout n) as [[r t'] n1] eqn:E.
  apply sock_write_ok in E as (s & rest & E1 & E2 & _ & E3); [|pose proof (zlen_nonneg (chunk_text b)); lia].
  destruct (Z.ltb_spec r 0); [intros [= Hr _ _]; unfold UPNP_E_SUCCESS in Hr; lia|intros [= <- <-]].
  destruct (E3 ltac:(lia)) as [-> ->]. rewrite app_nil_r, ztake_all in E1 by lia. by subst s.
Qed.

Lemma write_pieces_sent h bs timeout n n' :
  contentLength h = UPNP_USING_CHUNKED -> Forall (fun c => 0 < zlen c) bs ->
  write_pieces h bs timeout n = (true, n') -> n_sent n' = n_sent n ++ concat (map chunk_text bs).
Proof.
  intros Hh Hbs. revert n. induction Hbs as [|b bs Hb _ IH]; intros n; cbn [write_pieces].
  - intros [= <-]. by rewrite app_nil_r.
  - destruct (http_WriteHttpPost _ _ _ _ n) as [[ret size] n1] eqn:E.
    destruct (Z.eqb_spec ret UPNP_E_SUCCESS) as [->|]; [|done]. intros E'.
    apply write_piece_sent in E as [E _]; try done. rewrite (IH _ E'), E. cbn. by rewrite <- app_assoc.
Qed.
End Chunked.

(** ** Receiving a message *)

(** A read that returns no data takes none. *)
Lemma sock_read_end k t n r b t' n' :
  sock_read k t n = (r, b, t', n') -> 0 < k -> r <= 0 ->
  r ∈ [0; UPNP_E_TIMEDOUT; UPNP_E_SOCKET_ERROR] /\ incoming n' = incoming n /\ n_sent n' = n_sent n.
Proof.
  unfold sock_read, sock_read_write. intros E Hk Hr.
  assert (Hin : forall x, x = 0 \/ x = UPNP_E_TIMEDOUT \/ x = UPNP_E_SOCKET_ERROR ->
    x ∈ [0; UPNP_E_TIMEDOUT; UPNP_E_SOCKET_ERROR]) by (intros x [-> | [-> | ->]]; set_solver).
  destruct (t <? 0); [simplify_eq; split; [apply Hin; by right; left|done]|].
  destruct (wait_ready (n_select n)) as [[] sel];
    try (simplify_eq; split; [apply Hin; first [by right; left|by right; right]|done]).
  cbn [n_recv n_send n_time n_sent] in E. unfold incoming.
  destruct (recv k (n_recv n)) as [[c|] rs] eqn:Er.
  - unfold time_used in E. cbn [n_time] in E.
    assert (Hc : r = zlen c /\ n_recv n' = rs /\ n_sent n' = n_sent n) by (destruct (n_time n); simplify_eq; done).
    destruct Hc as (-> & -> & ->). split; [apply Hin; left; pose proof (zlen_nonneg c); lia|]. split; [|done].
    destruct (n_recv n) as [|[a|] l]; cbn in Er; simplify_eq; [done|].
    rewrite zlen_ztake in Hr. pose proof (zlen_nonneg a). assert (Ha : zlen a = 0) by lia.
    apply zlen_zero in Ha as ->. change (zlen (@nil Z)) with 0. by rewrite (proj2 (Z.leb_le 0 k)) by lia.
  - simplify_eq. split; [apply Hin; by right; right|]. cbn.
    destruct (n_recv n) as [|[a|] l]; cbn in Er; simplify_eq; done.
Qed.

(** The parser after pieces of data, and the status of each piece. *)
Inductive fed `{Malloc, Resolver} : http_parser_t -> list (list Z) -> list parse_status_t -> http_parser_t -> Prop :=
| fed_nil p : fed p [] [] p
| fed_cons p d ds st sts q r :
    parser_append p d (zlen d) = Some (st, q) -> fed q ds sts r -> fed p (d :: ds) (st :: sts) r.

Definition waiting (st : parse_status_t) : Prop := st = PARSE_INCOMPLETE \/ st = PARSE_INCOMPLETE_ENTITY.

(** What the statuses of the pieces say of the result. *)
Definition recv_ends (limit : Z) (closable : Prop) (st : option parse_status_t) (r : received) : Prop :=
  match st with
  | Some PARSE_SUCCESS =>
      if (0 <? limit) && (u32 limit <? content_length (r_parser r))
      then r_ret r = UPNP_E_OUTOF_BOUNDS /\ r_error r = Some HTTP_REQ_ENTITY_TOO_LARGE
      else r_ret r = 0 /\ r_error r = None
  | Some PARSE_FAILURE | Some PARSE_NO_MATCH =>
      r_ret r = UPNP_E_BAD_HTTPMSG /\ r_error r = Some (http_error_code (r_parser r))
  | _ =>
      (r_ret r = 0 /\ r_error r = None /\ closable)
      \/ (r_ret r = UPNP_E_BAD_HTTPMSG /\ r_error r = Some HTTP_BAD_REQUEST /\ ~ closable)
      \/ (r_ret r ∈ [UPNP_E_TIMEDOUT; UPNP_E_SOCKET_ERROR] /\ r_error r = Some (http_error_code (r_parser r)))
  end.
Definition recv_outcome (limit : Z) (ok_on_close : bool) (sts : list parse_status_t) (r : received) : Prop :=
  recv_ends limit (ok_on_close = true \/ PARSE_INCOMPLETE_ENTITY ∈ sts) (last sts) r.

Lemma recv_ends_iff limit (P Q : Prop) st st' r :
  (P <-> Q) -> (st' = st \/ st = None /\ exists s, st' = Some s /\ waiting s) ->
  recv_ends limit P st r -> recv_ends limit Q st' r.
Proof.
  intros HPQ [->|(-> & s & -> & [-> | ->])]; unfold recv_ends; [|tauto|tauto].
  destruct st as [[]|]; tauto.
Qed.

Section Receiving.
Context `{HM : Malloc, HR : Resolver} (Halloc : forall n, alloc_ok n = true) (limit : Z).

Lemma recv_loop_ok f : forall p timeout ok n,
  parser_wf p -> plen p + zlen (incoming n) < 2 ^ 31 -> (recv_fuel n <= f)%nat ->
  exists r ds sts, recv_loop limit f p timeout ok n = Some r /\ fed p ds sts (r_parser r)
    /\ incoming n = concat ds ++ incoming (r_net r) /\ n_sent (r_net r) = n_sent n
    /\ Forall waiting (removelast sts) /\ recv_outcome limit ok sts r /\ parser_wf (r_parser r).
Proof.
  induction f as [|f IH]; intros p timeout ok n Hp Hl Hf; [unfold recv_fuel in Hf; lia|].
  cbn [recv_loop]. destruct (sock_read buf_size timeout n) as [[[r b] t'] n'] eqn:E.
  destruct (Z.ltb_spec 0 r) as [Hr|Hr].
  - apply sock_read_pos in E as (-> & _ & Ei & Hf' & Es); [|done|done]. rewrite Ei, zlen_app in Hl.
    pose proof (zlen_nonneg (incoming n')).
    destruct (parser_append_ok Halloc p b (zlen b) Hp ltac:(lia) ltac:(lia)) as (st & q & Ea & Hq & [F1 F2] & Lq).
    rewrite Ea. cbn [mbind option_bind].
    assert (Hgo : forall ok', waiting st -> (ok' = true <-> ok = true \/ st = PARSE_INCOMPLETE_ENTITY) ->
      exists r ds sts, recv_loop limit f q t' ok' n' = Some r /\ fed p ds sts (r_parser r)
        /\ incoming n = concat ds ++ incoming (r_net r) /\ n_sent (r_net r) = n_sent n
        /\ Forall waiting (removelast sts) /\ recv_outcome limit ok sts r /\ parser_wf (r_parser r)).
    { intros ok' Hw Hok. destruct (IH q t' ok' n' Hq ltac:(lia) ltac:(lia)) as (r & ds & sts & -> & R1 & R2 & R3 & R4 & R5 & R6).
      exists r, (b :: ds), (st :: sts). rewrite Ei, R2. cbn [concat]. rewrite app_assoc, R3, Es.
      split; [done|]. split; [by econstructor|]. do 2 (split; [done|]). split; [|split; [|done]].
      - destruct sts; [constructor|]. by constructor.
      - eapply recv_ends_iff; [| |exact R5].
        + rewrite Hok. set_solver.
        + destruct sts; [right; split; [done|]; by exists st|by left]. }
    assert (Hend : forall x, r_parser x = q -> r_net x = n' -> recv_outcome limit ok [st] x ->
      exists r ds sts, Some x = Some r /\ fed p ds sts (r_parser r)
        /\ incoming n = concat ds ++ incoming (r_net r) /\ n_sent (r_net r) = n_sent n
        /\ Forall waiting (removelast sts) /\ recv_outcome limit ok sts r /\ parser_wf (r_parser r)).
    { intros x Hx1 Hx2 Hx3. exists x, [b], [st]. rewrite Hx1, Hx2. cbn. rewrite app_nil_r.
      split; [done|]. split; [econstructor; [exact Ea|constructor]|].
      do 2 (split; [done|]). split; [constructor|]. by split. }
    destruct st; try done.
    + destruct ((0 <? limit) && _) eqn:El; (apply Hend; [done|done|]); unfold recv_outcome, recv_ends; cbn; by rewrite El.
    + apply Hgo; [by left|]. intuition congruence.
    + apply Hgo; [by right|]. intuition congruence.
    + by apply Hend.
    + by apply Hend.
  - apply sock_read_end in E as (Er & Ei & Es); [|done|done].
    assert (Hend : forall x, r_parser x = p -> r_net x = n' -> recv_outcome limit ok [] x ->
      exists r ds sts, Some x = Some r /\ fed p ds sts (r_parser r)
        /\ incoming n = concat ds ++ incoming (r_net r) /\ n_sent (r_net r) = n_sent n
        /\ Forall waiting (removelast sts) /\ recv_outcome limit ok sts r /\ parser_wf (r_parser r)).
    { intros x Hx1 Hx2 Hx3. exists x, [], []. rewrite Hx1, Hx2. split; [done|]. split; [constructor|].
      do 2 (split; [done|]). split; [constructor|]. by split. }
    destruct (Z.eqb_spec r 0) as [->|H0].
    + destruct ok; apply Hend; try done.
      * left. split; [done|]. split; [done|]. by left.
      * right. left. split; [done|]. split; [done|]. set_solver.
    + apply Hend; try done. right. right. split; [|done]. cbn [r_ret]. set_solver.
Qed.
End Receiving.

Module HttpExchange.


(** A response of which the head has been read. *)
Definition head_text : list Z :=
  zs "HTTP/1.1 200 OK" ++ crlf ++ zs "TRANSFER-ENCODING: chunked" ++ crlf ++ crlf.
Definition head_read `{Malloc, Resolver} : http_parser_t :=
  match parser_append (parser_response_init HTTPMETHOD_GET) head_text (zlen head_text) with
  | Some (_, p) => p
  | None => parser_response_init HTTPMETHOD_GET
  end.
(** A socket that takes three bytes at a time. *)
Definition slow_net : net := Net [] [] (replicate 40 (Some 3)) [] [].


(** A response in two pieces, the body of which ends with the connection. *)
Definition closing_net : net :=
  Net [] [Some (zs "HTTP/1.0 200 OK" ++ crlf); Some (crlf ++ zs "body"); Some []] [] [] [].

End HttpExchange.
