(* ===== verification/Web.v ===== *)
(** * The web server

    [upnp/src/genlib/net/http/webserver.c] and the virtual directories of
    [upnp/src/api/upnpapi.c].

    The file system and the callbacks of the virtual directories are the environment
    ([files], [callbacks]); a callback that is not set is a null pointer, and calling it
    a fault ([None]), as is an assertion that fails.  [using_alias], which
    [process_request] sets to [FALSE] and nothing else sets, is left out, with the
    branches it guards.  Logging is left out. *)

From S2P Require Import Prelude CLib Codes Membuffer Uri Tables Scanner HttpParser Sock HttpMsg HttpIO.
#[local] Open Scope Z_scope.
Import FixedCopy StrIntMap.

(** ** Media types *)

Record document_type_t := DocType { file_ext : list Z; content_type : option (list Z); content_subtype : list Z }.

Definition gMediaTypes : list (option (list Z)) :=
  [None; Some (zs "audio"); Some (zs "video"); Some (zs "image"); Some (zs "application"); Some (zs "text")].
Definition AUDIO_STR : Z := 1.
Definition VIDEO_STR : Z := 2.
Definition IMAGE_STR : Z := 3.
Definition APPLICATION_STR : Z := 4.
Definition TEXT_STR : Z := 5.
Definition NUM_MEDIA_TYPES : Z := 69.

(** An entry of the encoded list: extension, type, subtype. *)
Definition media (e : string * Z * string) : list Z := zs e.1.1 ++ [0; e.1.2] ++ zs e.2 ++ [0].
Definition gEncodedMediaTypes : list Z := flat_map media [
  ("aif", AUDIO_STR, "aiff"); ("aifc", AUDIO_STR, "aiff"); ("aiff", AUDIO_STR, "aiff");
  ("asf", VIDEO_STR, "x-ms-asf"); ("asx", VIDEO_STR, "x-ms-asf"); ("au", AUDIO_STR, "basic");
  ("avi", VIDEO_STR, "msvideo"); ("bmp", IMAGE_STR, "bmp"); ("dcr", APPLICATION_STR, "x-director");
  ("dib", IMAGE_STR, "bmp"); ("dir", APPLICATION_STR, "x-director"); ("dxr", APPLICATION_STR, "x-director");
  ("gif", IMAGE_STR, "gif"); ("hta", TEXT_STR, "hta"); ("htm", TEXT_STR, "html"); ("html", TEXT_STR, "html");
  ("jar", APPLICATION_STR, "java-archive"); ("jfif", IMAGE_STR, "pjpeg"); ("jpe", IMAGE_STR, "jpeg");
  ("jpeg", IMAGE_STR, "jpeg"); ("jpg", IMAGE_STR, "jpeg"); ("js", APPLICATION_STR, "x-javascript");
  ("kar", AUDIO_STR, "midi"); ("m3u", AUDIO_STR, "mpegurl"); ("mid", AUDIO_STR, "midi");
  ("midi", AUDIO_STR, "midi"); ("mov", VIDEO_STR, "quicktime"); ("mp2v", VIDEO_STR, "x-mpeg2");
  ("mp3", AUDIO_STR, "mpeg"); ("mpe", VIDEO_STR, "mpeg"); ("mpeg", VIDEO_STR, "mpeg"); ("mpg", VIDEO_STR, "mpeg");
  ("mpv", VIDEO_STR, "mpeg"); ("mpv2", VIDEO_STR, "x-mpeg2"); ("pdf", APPLICATION_STR, "pdf");
  ("pjp", IMAGE_STR, "jpeg"); ("pjpeg", IMAGE_STR, "jpeg"); ("plg", TEXT_STR, "html"); ("pls", AUDIO_STR, "scpls");
  ("png", IMAGE_STR, "png"); ("qt", VIDEO_STR, "quicktime"); ("ram", AUDIO_STR, "x-pn-realaudio");
  ("rmi", AUDIO_STR, "mid"); ("rmm", AUDIO_STR, "x-pn-realaudio"); ("rtf", APPLICATION_STR, "rtf");
  ("shtml", TEXT_STR, "html"); ("smf", AUDIO_STR, "midi"); ("snd", AUDIO_STR, "basic");
  ("spl", APPLICATION_STR, "futuresplash"); ("ssm", APPLICATION_STR, "streamingmedia");
  ("swf", APPLICATION_STR, "x-shockwave-flash"); ("tar", APPLICATION_STR, "tar"); ("tcl", APPLICATION_STR, "x-tcl");
  ("text", TEXT_STR, "plain"); ("tif", IMAGE_STR, "tiff"); ("tiff", IMAGE_STR, "tiff"); ("txt", TEXT_STR, "plain");
  ("ulw", AUDIO_STR, "basic"); ("wav", AUDIO_STR, "wav"); ("wax", AUDIO_STR, "x-ms-wax"); ("wm", VIDEO_STR, "x-ms-wm");
  ("wma", AUDIO_STR, "x-ms-wma"); ("wmv", VIDEO_STR, "x-ms-wmv"); ("wvx", VIDEO_STR, "x-ms-wvx");
  ("xbm", IMAGE_STR, "x-xbitmap"); ("xml", TEXT_STR, "xml"); ("xsl", TEXT_STR, "xml");
  ("z", APPLICATION_STR, "x-compress"); ("zip", APPLICATION_STR, "zip")]%string ++ [0; 0].

Fixpoint media_list_loop (fuel : nat) (s : list Z) : list document_type_t :=
  match fuel with
  | O => []
  | S f =>
      if zget s 0 =? 0 then []
      else
        let ext := cstr s in
        let s := zdrop (strlen s + 1) s in
        let type := default None (gMediaTypes !! Z.to_nat (zget s 0)) in
        let s := zdrop 1 s in
        DocType ext type (cstr s) :: media_list_loop f (zdrop (strlen s + 1) s)
  end.
(** [None]: the assertion on the number of entries fails. *)
Definition media_list_init : option (list document_type_t) :=
  let l := media_list_loop (length gEncodedMediaTypes) gEncodedMediaTypes in
  if zlen l =? NUM_MEDIA_TYPES then Some l else None.

Definition strcasecmp (a b : list Z) : Z := strncasecmp a b (strlen a + 1).

(** The content type and subtype. *)
Fixpoint extension_loop (fuel : nat) (l : list document_type_t) (extension : list Z) (top bot : Z)
  : option (option (list Z) * list Z) :=
  match fuel with
  | O => None
  | S f =>
      if top <=? bot then
        let mid := (top + bot) / 2 in
        d ← l !! Z.to_nat mid;
        let cmp := strcasecmp extension (file_ext d) in
        if 0 <? cmp then extension_loop f l extension (mid + 1) bot
        else if cmp <? 0 then extension_loop f l extension top (mid - 1)
        else Some (content_type d, content_subtype d)
      else None
  end.
Definition search_extension (gMediaTypeList : list document_type_t) (extension : list Z)
  : option (option (list Z) * list Z) :=
  extension_loop (Z.to_nat NUM_MEDIA_TYPES) gMediaTypeList extension 0 (NUM_MEDIA_TYPES - 1).

(** ** The environment *)

Record File_Info := FileInfo { file_length : Z; last_modified : Z; is_directory : bool; is_readable : bool }.
(** [memset] to zero. *)
Definition finfo0 : File_Info := FileInfo 0 0 false false.

Inductive file_kind := Directory | Regular | Special.
Record stat := Stat { st_kind : file_kind; st_size : Z; st_mtime : Z }.

(** A file that is being written: what it has got, and what the next writes return
    (by default the number of bytes). *)
Record sink := Sink { k_data : list Z; k_returns : list Z }.

Record files := Files {
  fs_stat : list Z -> option stat;
  fs_open : list Z -> option FILE;       (* fopen for reading *)
  fs_create : list Z -> option sink      (* fopen for writing *)
}.

(** The callbacks; [get_info] returns its result and what it has filled in. *)
Record callbacks := Callbacks {
  get_info : option (list Z -> File_Info -> Z * File_Info);
  vd_open_read : option (list Z -> option FILE);
  vd_open_write : option (list Z -> option sink);
  vd_read : bool; vd_write : bool;
  vd_seek : option (list Z -> Z -> Z);
  vd_close : bool                        (* the pointer is set *)
}.
Definition no_callbacks : callbacks := Callbacks None None None false false None false.

(** ** State *)

Record web := Web {
  bWebServerState : bool;                (* WEB_SERVER_ENABLED *)
  gMediaTypeList : list document_type_t;
  gDocumentRootDir : membuffer;
  pVirtualDirList : list (list Z);       (* the names *)
  virtualDirCallback : callbacks
}.

Section Web.
Context `{Malloc, Resolver}.

(** [mutex_ok]: the mutex can be initialised. *)
Definition web_server_init (mutex_ok : bool) (w : web) : option (Z * web) :=
  if bWebServerState w then Some (0, w)
  else
    l ← media_list_init;
    let w' := Web mutex_ok l (membuffer_init (gDocumentRootDir w)) [] no_callbacks in
    Some (if mutex_ok then 0 else UPNP_E_OUTOF_MEMORY, w').

Definition web_server_destroy (w : web) : web :=
  if bWebServerState w
  then Web false (gMediaTypeList w) (membuffer_destroy (gDocumentRootDir w)) (pVirtualDirList w) (virtualDirCallback w)
  else w.

Definition set_root (m : membuffer) (w : web) : web :=
  Web (bWebServerState w) (gMediaTypeList w) m (pVirtualDirList w) (virtualDirCallback w).

Definition web_server_set_root_dir (root_dir : list Z) (w : web) : Z * web :=
  let '(ret, m) := membuffer_assign_str (gDocumentRootDir w) root_dir in
  if negb (ret =? 0) then (ret, set_root m w)
  else
    (* remove trailing '/', if any *)
    let m := if 0 <? mb_length m then
               let index := mb_length m - 1 in
               if zget (mb_block m) index =? SLASH then membuffer_delete m index 1 else m
             else m in
    (0, set_root m w).

(** ** Virtual directories *)

Definition in_virtual_dir (dirName filePath : list Z) : bool :=
  let webDirLen := strlen dirName in
  if negb (webDirLen =? 0) then
    if zget dirName (webDirLen - 1) =? SLASH then strncmp dirName filePath webDirLen =? 0
    else
      (strncmp dirName filePath webDirLen =? 0)
      && (let c := zget filePath webDirLen in (c =? SLASH) || (c =? 0) || (c =? QMARK))
  else false.
Definition isFileInVirtualDir (dirs : list (list Z)) (filePath : list Z) : bool :=
  existsb (fun d => in_virtual_dir d filePath) dirs.

Definition set_dirs (l : list (list Z)) (w : web) : web :=
  Web (bWebServerState w) (gMediaTypeList w) (gDocumentRootDir w) l (virtualDirCallback w).

Definition sizeof_virtualDirList : Z := 264.

(** The name that is stored, with a leading slash. *)
Definition dir_name (newDirName : list Z) : option (list Z) :=
  if negb (zget newDirName 0 =? SLASH) then
    if NAME_SIZE - 2 <? strlen newDirName then None else Some (SLASH :: cstr newDirName)
  else if NAME_SIZE - 1 <? strlen newDirName then None else Some (cstr newDirName).

(** [init]: [UpnpSdkInit == 1]. *)
Definition UpnpAddVirtualDir (init : bool) (newDirName : option (list Z)) (w : web) : Z * web :=
  if negb init then (UPNP_E_FINISH, w)
  else
    match newDirName with
    | None => (UPNP_E_INVALID_PARAM, w)
    | Some newDirName =>
        if strlen newDirName =? 0 then (UPNP_E_INVALID_PARAM, w)
        else
          match dir_name newDirName with
          | None => (UPNP_E_INVALID_PARAM, w)
          | Some dirName =>
              (* already has this entry *)
              if existsb (fun d => strcmp d dirName =? 0) (pVirtualDirList w) then (UPNP_E_SUCCESS, w)
              else if negb (alloc_ok sizeof_virtualDirList) then (UPNP_E_OUTOF_MEMORY, w)
              else (UPNP_E_SUCCESS, set_dirs (pVirtualDirList w ++ [dirName]) w)
          end
    end.

(** Without the first directory of that name; [None]: there is none. *)
Fixpoint remove_dir (dirName : list Z) (l : list (list Z)) : option (list (list Z)) :=
  match l with
  | [] => None
  | d :: l => if strcmp d dirName =? 0 then Some l else l' ← remove_dir dirName l; Some (d :: l')
  end.
Definition UpnpRemoveVirtualDir (init : bool) (dirName : option (list Z)) (w : web) : Z * web :=
  if negb init then (UPNP_E_FINISH, w)
  else
    match dirName with
    | None => (UPNP_E_INVALID_PARAM, w)
    | Some dirName =>
        match remove_dir dirName (pVirtualDirList w) with
        | Some l => (UPNP_E_SUCCESS, set_dirs l w)
        | None => (UPNP_E_INVALID_PARAM, w)
        end
    end.
Definition UpnpRemoveAllVirtualDirs (init : bool) (w : web) : web :=
  if negb init then w else set_dirs [] w.

(** No case of its switch is left. *)
Definition UpnpEnableWebserver (init : bool) : Z := if negb init then UPNP_E_FINISH else UPNP_E_INVALID_PARAM.
Definition UpnpIsWebserverEnabled (init : bool) (w : web) : Z :=
  if negb init then 0 else if bWebServerState w then 1 else 0.

Definition set_callbacks (c : callbacks) (w : web) : web :=
  Web (bWebServerState w) (gMediaTypeList w) (gDocumentRootDir w) (pVirtualDirList w) c.
Definition UpnpVirtualDir_set_GetInfoCallback (callback : option (list Z -> File_Info -> Z * File_Info)) (w : web) : Z * web :=
  match callback with
  | None => (UPNP_E_INVALID_PARAM, w)
  | Some _ => let c := virtualDirCallback w in
      (UPNP_E_SUCCESS, set_callbacks (Callbacks callback (vd_open_read c) (vd_open_write c) (vd_read c) (vd_write c)
                                                (vd_seek c) (vd_close c)) w)
  end.
(** [open] for reading and for writing is one callback. *)
Definition UpnpVirtualDir_set_OpenCallback (callback : option ((list Z -> option FILE) * (list Z -> option sink)))
    (w : web) : Z * web :=
  match callback with
  | None => (UPNP_E_INVALID_PARAM, w)
  | Some (r, s) => let c := virtualDirCallback w in
      (UPNP_E_SUCCESS, set_callbacks (Callbacks (get_info c) (Some r) (Some s) (vd_read c) (vd_write c)
                                                (vd_seek c) (vd_close c)) w)
  end.
Definition UpnpVirtualDir_set_ReadCallback (callback : bool) (w : web) : Z * web :=
  if negb callback then (UPNP_E_INVALID_PARAM, w)
  else let c := virtualDirCallback w in
       (UPNP_E_SUCCESS, set_callbacks (Callbacks (get_info c) (vd_open_read c) (vd_open_write c) true (vd_write c)
                                                 (vd_seek c) (vd_close c)) w).
Definition UpnpVirtualDir_set_WriteCallback (callback : bool) (w : web) : Z * web :=
  if negb callback then (UPNP_E_INVALID_PARAM, w)
  else let c := virtualDirCallback w in
       (UPNP_E_SUCCESS, set_callbacks (Callbacks (get_info c) (vd_open_read c) (vd_open_write c) (vd_read c) true
                                                 (vd_seek c) (vd_close c)) w).
Definition UpnpVirtualDir_set_SeekCallback (callback : option (list Z -> Z -> Z)) (w : web) : Z * web :=
  match callback with
  | None => (UPNP_E_INVALID_PARAM, w)
  | Some _ => let c := virtualDirCallback w in
      (UPNP_E_SUCCESS, set_callbacks (Callbacks (get_info c) (vd_open_read c) (vd_open_write c) (vd_read c) (vd_write c)
                                                callback (vd_close c)) w)
  end.
Definition UpnpVirtualDir_set_CloseCallback (callback : bool) (w : web) : Z * web :=
  if negb callback then (UPNP_E_INVALID_PARAM, w)
  else let c := virtualDirCallback w in
       (UPNP_E_SUCCESS, set_callbacks (Callbacks (get_info c) (vd_open_read c) (vd_open_write c) (vd_read c) (vd_write c)
                                                 (vd_seek c) true) w).

(** A chain of [&&]: the first that fails ends it. *)
Definition and_then (r : Z * web) (f : web -> Z * web) : Z * web :=
  if r.1 =? UPNP_E_SUCCESS then f r.2 else r.
Definition UpnpSetVirtualDirCallbacks (init : bool) (c : option callbacks) (w : web) : Z * web :=
  if negb init then (UPNP_E_FINISH, w)
  else
    match c with
    | None => (UPNP_E_INVALID_PARAM, w)
    | Some c =>
        let opens := match vd_open_read c, vd_open_write c with Some r, Some s => Some (r, s) | _, _ => None end in
        and_then (and_then (and_then (and_then (and_then
          (UpnpVirtualDir_set_GetInfoCallback (get_info c) w)
          (UpnpVirtualDir_set_OpenCallback opens))
          (UpnpVirtualDir_set_ReadCallback (vd_read c)))
          (UpnpVirtualDir_set_WriteCallback (vd_write c)))
          (UpnpVirtualDir_set_SeekCallback (vd_seek c)))
          (UpnpVirtualDir_set_CloseCallback (vd_close c))
    end.

(** ** Ranges *)

Definition toupper (c : Z) : Z := if islower c then c - 32 else c.
Definition ToUpperCase (s : list Z) : list Z := map toupper (cstr s).

(** The offset; no memory counts as not found. *)
Definition StrStr (s1 s2 : list Z) : option Z :=
  if negb (alloc_ok (u64 (strlen s1 + 1))) then None
  else if negb (alloc_ok (u64 (strlen s2 + 1))) then None
  else strstr (ToUpperCase s1) (ToUpperCase s2).

(** The token and the rest of the string. *)
Definition StrTok (Src Del : list Z) : list Z * option (list Z) :=
  match strstr Src Del with
  | Some k => (ztake k Src, Some (zdrop (k + strlen Del) Src))
  | None => (Src, None)
  end.

(** One number of [sscanf (s, "%ld%ld", ...)]; it saturates. *)
Definition scan_ld (l : list Z) : option (Z * list Z) :=
  let r := strtol l 10 in
  if st_end r =? 0 then None else Some (st_val r, zdrop (st_end r) l).
Definition sscanf_ld_ld (s : list Z) (f l : Z) : Z * Z :=
  match scan_ld (cstr s) with
  | None => (f, l)
  | Some (f, s) => match scan_ld s with None => (f, l) | Some (l, _) => (f, l) end
  end.

Fixpoint is_suffix_range (tok : list Z) : bool :=
  match tok with
  | [] => true
  | c :: tok => if c =? MINUS then true else if isdigit c then false else is_suffix_range tok
  end.

(** The first and the last byte; [None]: -1. *)
Definition GetNextRange (SrcRangeStr : option (list Z)) : option (Z * Z) * option (list Z) :=
  match SrcRangeStr with
  | None => (None, None)
  | Some src =>
      let '(tok, rest) := StrTok (cstr src) (zs ",") in
      match strstr tok (zs "-") with
      | None => (None, rest)
      | Some k =>
          let '(F, L) := sscanf_ld_ld (zset tok k SP) (-1) (-1) in
          if ((F =? -1) || (L =? -1)) && is_suffix_range tok then (Some (L, F), rest) else (Some (F, L), rest)
      end
  end.

Definition set_range (active : bool) (hdr : list Z) (off size : Z) (i : SendInstruction) : SendInstruction :=
  Instr (IsVirtualFile i) (IsChunkActive i) active (IsTrailers i) hdr (AcceptLanguageHeader i) off size (RecvWriteSize i).

Definition sizeof_RangeHeader : Z := 200.
Definition content_range (first last len : Z) : list Z :=
  zs "CONTENT-RANGE: bytes " ++ dec_s first ++ [MINUS] ++ dec_s last ++ [SLASH] ++ dec_s len ++ crlf.

(** A range that is taken: the instruction, unless its header does not fit. *)
Definition range_taken (first last len off size : Z) (i : SendInstruction) : Z * SendInstruction :=
  let text := content_range first last len in
  let i := set_range true (snprintf sizeof_RangeHeader text) off size i in
  if sizeof_RangeHeader <=? zlen text then (HTTP_INTERNAL_SERVER_ERROR, i) else (HTTP_OK, i).

Definition create_range (FirstByte LastByte FileLength : Z) (i : SendInstruction) : Z * SendInstruction :=
  if FileLength <? FirstByte then (HTTP_REQUEST_RANGE_NOT_SATISFIABLE, i)
  else if (0 <=? FirstByte) && (0 <=? LastByte) && (FirstByte <=? LastByte) then
    let LastByte := if FileLength <=? LastByte then FileLength - 1 else LastByte in
    range_taken FirstByte LastByte FileLength FirstByte (LastByte - FirstByte + 1) i
  else if (0 <=? FirstByte) && (LastByte =? -1) && (FirstByte <? FileLength) then
    range_taken FirstByte (FileLength - 1) FileLength FirstByte (FileLength - FirstByte) i
  else if (FirstByte =? -1) && (0 <? LastByte) then
    if FileLength <=? LastByte then range_taken 0 (FileLength - 1) FileLength 0 FileLength i
    else range_taken (FileLength - LastByte) (FileLength - 1) FileLength (FileLength - LastByte) LastByte i
  else (HTTP_REQUEST_RANGE_NOT_SATISFIABLE, i).

Definition CreateHTTPRangeResponseHeader (ByteRangeSpecifier : option (list Z)) (FileLength : Z) (i : SendInstruction)
  : Z * SendInstruction :=
  let i := set_range true (RangeHeader i) (RangeOffset i) FileLength i in
  match ByteRangeSpecifier with
  | None => (HTTP_BAD_REQUEST, i)
  | Some s =>
      if negb (alloc_ok (u64 (strlen s + 1))) then (HTTP_INTERNAL_SERVER_ERROR, i)
      else
        let RangeInput := cstr s in
        match StrStr RangeInput (zs "bytes"), StrStr RangeInput (zs "=") with
        | Some _, Some k =>
            if FileLength <? 0 then (HTTP_REQUEST_RANGE_NOT_SATISFIABLE, i)
            else
              match (GetNextRange (Some (zdrop (k + 1) RangeInput))).1 with
              | Some (FirstByte, LastByte) => create_range FirstByte LastByte FileLength i
              | None => (HTTP_REQUEST_RANGE_NOT_SATISFIABLE, i)
              end
        | _, _ => (HTTP_BAD_REQUEST, set_range false (RangeHeader i) (RangeOffset i) (ReadSendSize i) i)
        end
  end.

(** ** The headers of a request *)

Definition sizeof_AcceptLanguageHeader : Z := 200.
Definition set_language (text : list Z) (i : SendInstruction) : SendInstruction :=
  Instr (IsVirtualFile i) (IsChunkActive i) (IsRangeActive i) (IsTrailers i) (RangeHeader i) text (RangeOffset i)
        (ReadSendSize i) (RecvWriteSize i).
Definition set_chunk_active (i : SendInstruction) : SendInstruction :=
  Instr (IsVirtualFile i) true (IsRangeActive i) (IsTrailers i) (RangeHeader i) (AcceptLanguageHeader i) (RangeOffset i)
        (ReadSendSize i) (RecvWriteSize i).
Definition set_trailers (i : SendInstruction) : SendInstruction :=
  Instr (IsVirtualFile i) (IsChunkActive i) (IsRangeActive i) true (RangeHeader i) (AcceptLanguageHeader i)
        (RangeOffset i) (ReadSendSize i) (RecvWriteSize i).
Definition set_recv_size (n : Z) (i : SendInstruction) : SendInstruction :=
  Instr (IsVirtualFile i) (IsChunkActive i) (IsRangeActive i) (IsTrailers i) (RangeHeader i) (AcceptLanguageHeader i)
        (RangeOffset i) (ReadSendSize i) n.
Definition set_virtual (i : SendInstruction) : SendInstruction :=
  Instr true (IsChunkActive i) (IsRangeActive i) (IsTrailers i) (RangeHeader i) (AcceptLanguageHeader i)
        (RangeOffset i) (ReadSendSize i) (RecvWriteSize i).
Definition set_read_size (n : Z) (i : SendInstruction) : SendInstruction :=
  Instr (IsVirtualFile i) (IsChunkActive i) (IsRangeActive i) (IsTrailers i) (RangeHeader i) (AcceptLanguageHeader i)
        (RangeOffset i) n (RecvWriteSize i).

(** The start of an array is overwritten. *)
Definition overlay (text old : list Z) : list Z := text ++ zdrop (zlen text) old.

(** One header; the code stays [HTTP_OK] or ends the loop. *)
Definition check_header (header : http_header_t) (FileSize : Z) (i : SendInstruction) : Z * SendInstruction :=
  let index := map_str_to_int (mb_block (name_buf header)) (mb_length (name_buf header)) Http_Header_Names
                              NUM_HTTP_HEADER_NAMES false in
  let len := mb_length (value header) in
  let TmpBuf := mb_contents (value header) ++ [0] in
  if 0 <=? index then
    let id := id (entry Http_Header_Names index) in
    if id =? HDR_TE then
      let i := set_chunk_active i in
      if strlen (zs "gzip") <? strlen TmpBuf then
        match StrStr TmpBuf (zs "trailers") with Some _ => (HTTP_OK, set_trailers i) | None => (HTTP_OK, i) end
      else (HTTP_OK, i)
    else if id =? HDR_CONTENT_LENGTH then (HTTP_OK, set_recv_size (atoi TmpBuf) i)
    else if id =? HDR_RANGE then CreateHTTPRangeResponseHeader (Some TmpBuf) FileSize i
    else if id =? HDR_ACCEPT_LANGUAGE then
      if sizeof_AcceptLanguageHeader <? len + 1 then
        (HTTP_OK, set_language (ztake (sizeof_AcceptLanguageHeader - 1) TmpBuf ++ [0]) i)
      else (HTTP_OK, set_language (overlay TmpBuf (AcceptLanguageHeader i)) i)
    else (HTTP_OK, i)
  else (HTTP_OK, i).

Fixpoint check_headers (hs : list http_header_t) (TmpBufSize FileSize RetCode : Z) (i : SendInstruction)
  : Z * SendInstruction :=
  match hs with
  | [] => (RetCode, i)
  | header :: hs =>
      let len := mb_length (value header) in
      let grow := TmpBufSize <=? len in
      if grow && negb (alloc_ok (u64 (len + 1))) then (HTTP_INTERNAL_SERVER_ERROR, i)
      else
        let TmpBufSize := if grow then len + 1 else TmpBufSize in
        let '(code, i) := check_header header FileSize i in
        if negb (code =? HTTP_OK) then (code, i) else check_headers hs TmpBufSize FileSize code i
  end.
Definition CheckOtherHTTPHeaders (Req : http_message_t) (i : SendInstruction) (FileSize : Z) : Z * SendInstruction :=
  if negb (alloc_ok LINE_SIZE) then (HTTP_INTERNAL_SERVER_ERROR, i)
  else check_headers (headers Req) LINE_SIZE FileSize HTTP_OK i.

(** ** Files *)

(** The result, and the information as far as it was filled in. *)
Definition get_file_info (fs : files) (filename : list Z) (info : File_Info) : Z * File_Info :=
  match fs_stat fs (cstr filename) with
  | None => (-1, info)
  | Some s =>
      let is_dir := match st_kind s with Directory => Some true | Regular => Some false | Special => None end in
      match is_dir with
      | None => (-1, info)
      | Some d =>
          (0, FileInfo (st_size s) (st_mtime s) d
                       (match fs_open fs (cstr filename) with Some _ => true | None => false end))
      end
  end.

(** The path of a request without escapes and dot segments. *)
Definition request_path (url : uri_type) (mem : list Z) : Z + list Z :=
  let size := tk_size (uri_pathquery url) in
  if negb (alloc_ok (u64 (size + 1))) then inl HTTP_INTERNAL_SERVER_ERROR
  else
    let request_doc := token_text mem 1 (uri_pathquery url) ++ [0] in
    let '(_, request_doc, _) := remove_escaped_chars request_doc size in
    let '(code, request_doc) := remove_dots request_doc size in
    if negb (code =? 0) then inl HTTP_FORBIDDEN
    else if negb (zget request_doc 0 =? SLASH) then inl HTTP_BAD_REQUEST
    else inr request_doc.

Fixpoint strip_slashes (fuel : nat) (m : membuffer) : membuffer :=
  match fuel with
  | O => m
  | S f =>
      if (0 <? mb_length m) && (zget (mb_block m) (mb_length m - 1) =? SLASH)
      then strip_slashes f (membuffer_delete m (mb_length m - 1) 1) else m
  end.

(** What is known of a file or of the index file of a directory; [inl]: the error;
    [info]: one of the two ways to ask. *)
Definition file_or_index (info : list Z -> File_Info -> Z * File_Info) (filename : membuffer)
  : (Z * membuffer) + (membuffer * File_Info) :=
  let '(rc, finfo) := info (cstr (mb_block filename)) finfo0 in
  if negb (rc =? 0) then inl (HTTP_NOT_FOUND, filename)
  else
    let readable m f := if negb (is_readable f) then inl (HTTP_FORBIDDEN, m) else inr (m, f) in
    if is_directory finfo then
      let temp_str := if zget (mb_block filename) (mb_length filename - 1) =? SLASH
                      then zs "index.html" else zs "/index.html" in
      let '(rc, filename) := membuffer_append_str filename temp_str in
      if negb (rc =? 0) then inl (HTTP_INTERNAL_SERVER_ERROR, filename)
      else
        let '(rc, finfo) := info (cstr (mb_block filename)) finfo in
        if negb (rc =? 0) || is_directory finfo then inl (HTTP_NOT_FOUND, filename) else readable filename finfo
    else readable filename finfo.

(** The file a request names: its name and what is known of it. *)
Definition find_file (w : web) (fs : files) (virtual post : bool) (request_doc : list Z) (filename : membuffer)
  : option ((Z * membuffer) + (membuffer * File_Info)) :=
  if virtual then
    let '(rc, filename) := membuffer_assign_str filename request_doc in
    if negb (rc =? 0) then Some (inl (HTTP_INTERNAL_SERVER_ERROR, filename))
    else if post then Some (inr (filename, finfo0))
    else info ← get_info (virtualDirCallback w); Some (file_or_index info filename)
  else if mb_length (gDocumentRootDir w) =? 0 then Some (inl (HTTP_INTERNAL_SERVER_ERROR, filename))
  else
    let '(rc, filename) := membuffer_assign_str filename (mb_block (gDocumentRootDir w)) in
    let '(rc, filename) := if negb (rc =? 0) then (rc, filename) else membuffer_append_str filename request_doc in
    if negb (rc =? 0) then Some (inl (HTTP_INTERNAL_SERVER_ERROR, filename))
    else
      (* remove trailing slashes *)
      let filename := strip_slashes (Z.to_nat (mb_length filename)) filename in
      if post then Some (inr (filename, finfo0)) else Some (file_or_index (get_file_info fs) filename).

(** ** Requests *)

Inductive resp_type := RESP_FILEDOC | RESP_XMLDOC | RESP_HEADERS | RESP_WEBDOC | RESP_POST.

Definition X_USER_AGENT : list Z := zs "redsonic".

Record processed := Processed {
  pr_code : Z;
  pr_type : resp_type;
  pr_headers : membuffer;
  pr_filename : membuffer;
  pr_instr : SendInstruction
}.

(** The format and the arguments of the head of the response. *)
Definition response_head (i : SendInstruction) (modified : Z) : list Z * list va :=
  let tail := [VaText (zs "LAST-MODIFIED: "); VaTime modified; VaText X_USER_AGENT; VaText []] in
  let fmt s := s ++ zs "stcSXcsCc" in
  if IsRangeActive i && IsChunkActive i then
    (fmt (zs "RGKLD"), [VaInt HTTP_PARTIAL_CONTENT; VaInstr i; VaInstr i] ++ tail)
  else if IsRangeActive i then
    (fmt (zs "RNGLD"), [VaInt HTTP_PARTIAL_CONTENT; VaOff (ReadSendSize i); VaInstr i; VaInstr i] ++ tail)
  else if IsChunkActive i then (fmt (zs "RKLD"), [VaInt HTTP_OK; VaInstr i] ++ tail)
  else if 0 <=? ReadSendSize i then (fmt (zs "RNLD"), [VaInt HTTP_OK; VaOff (ReadSendSize i); VaInstr i] ++ tail)
  else (fmt (zs "RLD"), [VaInt HTTP_OK; VaInstr i] ++ tail).

Definition is_web_method (m : Z) : bool :=
  (m =? HTTPMETHOD_GET) || (m =? HTTPMETHOD_HEAD) || (m =? HTTPMETHOD_POST) || (m =? HTTPMETHOD_SIMPLEGET).

Definition process_request (env : http_env) (w : web) (fs : files) (req : http_message_t)
    (headers filename : membuffer) (RespInstr : SendInstruction) : option processed :=
  let fail code fn i := Some (Processed code RESP_FILEDOC headers fn i) in
  if negb (is_web_method (method req)) then None
  else
    let '(resp_major, resp_minor) := http_CalcResponseVersion (major_version req) (minor_version req) in
    match request_path (uri req) (default [] (urlbuf req)) with
    | inl code => fail code filename RespInstr
    | inr request_doc =>
        let using_virtual_dir := isFileInVirtualDir (pVirtualDirList w) request_doc in
        let post := method req =? HTTPMETHOD_POST in
        let RespInstr := if using_virtual_dir then set_virtual RespInstr else RespInstr in
        r ← find_file w fs using_virtual_dir post request_doc filename;
        match r with
        | inl (code, filename) => fail code filename RespInstr
        | inr (filename, finfo) =>
            let RespInstr := set_read_size (file_length finfo) RespInstr in
            (* Check other header field. *)
            let '(code, RespInstr) := CheckOtherHTTPHeaders req RespInstr (file_length finfo) in
            if negb (code =? HTTP_OK) then fail code filename RespInstr
            else if post then Some (Processed HTTP_OK RESP_POST headers filename RespInstr)
            else
              let chunked := using_virtual_dir && (file_length finfo =? UPNP_USING_CHUNKED) in
              if chunked && negb ((resp_major =? 1) && (resp_minor =? 1))
              then fail HTTP_NOT_ACCEPTABLE filename RespInstr
              else
                let RespInstr := if chunked then set_chunk_active RespInstr else RespInstr in
                let '(fmt, args) := response_head RespInstr (last_modified finfo) in
                '(rc, headers) ← http_MakeMessage env headers resp_major resp_minor fmt args;
                if negb (rc =? 0)
                then Some (Processed HTTP_INTERNAL_SERVER_ERROR RESP_FILEDOC headers filename RespInstr)
                else
                  let rtype := if method req =? HTTPMETHOD_HEAD then RESP_HEADERS
                               else if using_virtual_dir then RESP_WEBDOC else RESP_FILEDOC in
                  (* simple get http 0.9: don't send headers *)
                  let headers := if method req =? HTTPMETHOD_SIMPLEGET then membuffer_destroy headers else headers in
                  Some (Processed HTTP_OK rtype headers filename RespInstr)
        end
    end.

(** ** Bodies that are posted *)

(** A write: whether it counts as done, and the file. *)
Definition write_sink (virtual : bool) (buf : list Z) (k : sink) : bool * sink :=
  let '(n, rest) := match k_returns k with [] => (zlen buf, []) | n :: l => (n, l) end in
  (if virtual then 0 <=? n else n =? zlen buf, Sink (k_data k ++ ztake n buf) rest).

Definition post_buf : Z := 1024.

(** Reads until there are [want] bytes of the entity; [inl]: the error. *)
Fixpoint post_read (fuel : nat) (want : Z) (p : http_parser_t) (ok_on_close : bool) (timeout : Z) (n : net)
  : option (Z * net + http_parser_t * bool * Z * net) :=
  match fuel with
  | O => None
  | S f =>
      if (entity_length (pmsg p) <? u64 want) && negb (bool_decide (position p = POS_COMPLETE)) then
        let '(num_read, buf, timeout, n) := sock_read post_buf timeout n in
        if 0 <? num_read then
          let '(rc, b) := membuffer_append (msg (pmsg p)) (Some buf) num_read in
          if negb (rc =? 0) then Some (inl (HTTP_INTERNAL_SERVER_ERROR, n))
          else
            r ← entity_more (with_msg p (set_buf b)) ok_on_close;
            match r with
            | Some (p, ok_on_close) => post_read f want p ok_on_close timeout n
            | None => Some (inl (HTTP_BAD_REQUEST, n))
            end
        else if num_read =? 0 then
          if ok_on_close then post_read f want (set_position POS_COMPLETE p) ok_on_close timeout n
          else Some (inl (HTTP_BAD_REQUEST, n))
        else Some (inl (HTTP_SERVICE_UNAVAILABLE, n))
      else Some (inr (p, ok_on_close, timeout, n))
  end.

(** The result, the file and the network; copying more than the buffer holds is a fault. *)
Fixpoint post_loop (fuel : nat) (virtual : bool) (p : http_parser_t) (ok_on_close : bool)
    (timeout entity_offset Data_Buf_Size : Z) (k : sink) (n : net) : option (Z * sink * net) :=
  match fuel with
  | O => None
  | S f =>
      (* first parse what has already been gotten *)
      r ← (if bool_decide (position p = POS_COMPLETE) then Some (Some (p, ok_on_close)) else entity_more p ok_on_close);
      match r with
      | None => Some (HTTP_BAD_REQUEST, k, n)
      | Some (p, ok_on_close) =>
          r ← post_read (S (recv_fuel n)) (entity_offset + Data_Buf_Size) p ok_on_close timeout n;
          match r with
          | inl (code, n) => Some (code, k, n)
          | inr (p, ok_on_close, timeout, n) =>
              let len := entity_length (pmsg p) in
              let Data_Buf_Size := if len <? u64 (entity_offset + Data_Buf_Size)
                                   then u64 (len - entity_offset) else Data_Buf_Size in
              if post_buf <? Data_Buf_Size then None
              else
                let buf := zsub (pmem p) (entity_start_position p + entity_offset) Data_Buf_Size in
                let entity_offset := u64 (entity_offset + Data_Buf_Size) in
                let '(ok, k) := write_sink virtual buf k in
                if negb ok then Some (HTTP_INTERNAL_SERVER_ERROR, k, n)
                else if negb (bool_decide (position p = POS_COMPLETE)) || negb (entity_offset =? len)
                then post_loop f virtual p ok_on_close timeout entity_offset Data_Buf_Size k n
                else Some (HTTP_OK, k, n)
          end
      end
  end.

Definition post_fuel (p : http_parser_t) (n : net) : nat := S (S (Z.to_nat (plen p + zlen (incoming n)))).

(** The result, the file (when it could be opened) and the network. *)
Definition http_RecvPostMessage (w : web) (fs : files) (p : http_parser_t) (filename : list Z) (i : SendInstruction)
    (n : net) : option (Z * option sink * net) :=
  let receive k :=
    '(ret, k, n) ← post_loop (post_fuel p n) (IsVirtualFile i) (set_position POS_ENTITY p) false 0 0 post_buf k n;
    Some (ret, Some k, n) in
  if IsVirtualFile i then
    open ← vd_open_write (virtualDirCallback w);
    if negb (vd_write (virtualDirCallback w) && vd_close (virtualDirCallback w)) then None
    else match open filename with
         | None => Some (HTTP_INTERNAL_SERVER_ERROR, None, n)
         | Some k => receive k
         end
  else match fs_create fs filename with
       | None => Some (HTTP_UNAUTHORIZED, None, n)
       | Some k => receive k
       end.

(** ** The callback of the mini server *)

(** The document of a response, moved to the range: the file and whether moving
    succeeds.  Callbacks that sending it may call must be set. *)
Definition open_document (w : web) (fs : files) (i : SendInstruction) (filename : list Z) : option (option FILE * bool) :=
  let at_range fp := if IsRangeActive i then File (zdrop (RangeOffset i) (f_data fp)) (f_takes fp) else fp in
  if IsVirtualFile i then
    let c := virtualDirCallback w in
    open ← vd_open_read c; seek ← vd_seek c;
    if negb (vd_read c && vd_close c) then None
    else match open filename with
         | None => Some (None, true)
         | Some fp => Some (Some (at_range fp), seek filename (RangeOffset i) =? 0)
         end
  else match fs_open fs filename with
       | None => Some (None, true)
       | Some fp => Some (Some (at_range fp), 0 <=? RangeOffset i)
       end.

(** The fields that are not set are indeterminate. *)
Definition instr0 (RangeHeader : list Z) (RangeOffset ReadSendSize RecvWriteSize : Z) : SendInstruction :=
  Instr false false false false RangeHeader (zrep sizeof_AcceptLanguageHeader 0) RangeOffset ReadSendSize RecvWriteSize.

(** The connection after the response, and the file a POST request wrote. *)
Definition web_server_callback (env : http_env) (w : web) (fs : files) (p : http_parser_t) (i0 : SendInstruction)
    (n : net) : option (net * option sink) :=
  let req := pmsg p in
  let i := instr0 (RangeHeader i0) (RangeOffset i0) (ReadSendSize i0) (RecvWriteSize i0) in
  r ← process_request env w fs req buffer0 buffer0 i;
  if negb (pr_code r =? HTTP_OK) then
    '(_, n) ← http_SendStatusResponse env (pr_code r) (major_version req) (minor_version req) n;
    Some (n, None)
  else
    let filename := cstr (mb_block (pr_filename r)) in
    let head h := SBuf (mb_block h) (mb_length h) in
    match pr_type r with
    | RESP_FILEDOC | RESP_WEBDOC =>
        '(fp, seek_ok) ← open_document w fs (pr_instr r) filename;
        '(_, _, n) ← http_SendMessage 0 [SInstr (pr_instr r); head (pr_headers r); SFile fp seek_ok] n;
        Some (n, None)
    | RESP_HEADERS =>
        '(_, _, n) ← http_SendMessage 0 [head (pr_headers r)] n; Some (n, None)
    | RESP_POST =>
        '(ret, k, n) ← http_RecvPostMessage w fs p filename (pr_instr r) n;
        '(_, h) ← http_MakeMessage env (pr_headers r) 1 1 (zs "RTLSXcCc")
                    [VaInt ret; VaText (zs "text/html"); VaInstr (pr_instr r); VaText X_USER_AGENT];
        '(_, _, n) ← http_SendMessage 0 [head h] n;
        Some (n, k)
    | RESP_XMLDOC => None
    end.
End Web.
