(* ===== verification/WebFacts.v ===== *)
(** * Facts about the web server

    Ranges lie inside the file and are the ones the client of httpreadwrite.c asks for;
    where the path of a request can lead; which files are virtual; and what a posted body
    leaves in the file. *)

From S2P Require Import Prelude CLib Codes Membuffer Uri Tables Scanner ScannerFacts HttpParser HttpFacts.
From S2P Require Import Sock HttpMsg HttpMsgFacts HttpIO HttpIOFacts Web.
#[local] Open Scope Z_scope.

(** ** Decimal numbers *)

Lemma digit_val_dec v : 0 <= v < 10 -> digit_val 10 (48 + v) = Some v.
Proof.
  intros Hv. assert (H : forall k, (k < 10)%nat -> digit_val 10 (48 + Z.of_nat k) = Some (Z.of_nat k)).
  { intros k Hk. do 10 (destruct k as [|k]; [reflexivity|]). lia. }
  specialize (H (Z.to_nat v) ltac:(lia)). by rewrite Z2Nat.id in H by lia.
Qed.

Definition digit (c : Z) : Prop := 48 <= c <= 57.
Lemma dec_digits_digit f n acc : 0 <= n -> Forall digit acc -> Forall digit (dec_digits f n acc).
Proof.
  revert n acc. induction f as [|f IH]; intros n acc Hn Ha; [done|]. cbn [dec_digits].
  pose proof (Z.mod_pos_bound n 10 ltac:(lia)). unfold digit in *.
  destruct (Z.ltb_spec n 10); [constructor; [lia|done]|]. apply IH; [by apply Z.div_pos|]. constructor; [lia|done].
Qed.
Lemma dec_digit n : 0 <= n -> Forall digit (dec n).
Proof. intros. by apply dec_digits_digit. Qed.

Lemma dec_digits_read f n acc rest :
  0 <= n < 10 ^ Z.of_nat f -> read_digits 10 0 (dec_digits f n acc ++ rest) = read_digits 10 n (acc ++ rest).
Proof.
  revert n acc. induction f as [|f IH]; intros n acc Hn; cbn [dec_digits].
  - change (10 ^ Z.of_nat 0) with 1 in Hn. by replace n with 0 by lia.
  - pose proof (Z.mod_pos_bound n 10 ltac:(lia)). pose proof (Z.div_mod n 10 ltac:(lia)).
    destruct (Z.ltb_spec n 10).
    + cbn [app read_digits]. by rewrite digit_val_dec, Z.mul_0_l by lia.
    + rewrite IH.
      * cbn [app read_digits]. rewrite digit_val_dec by lia. f_equal. lia.
      * split; [apply Z.div_pos; lia|]. apply Z.div_lt_upper_bound; [lia|].
        replace (Z.of_nat (S f)) with (Z.of_nat f + 1) in Hn by lia. rewrite Z.pow_add_r in Hn by lia. lia.
Qed.
Lemma dec_digits_pos f n acc : (0 < f)%nat -> 0 < zlen (dec_digits f n acc).
Proof.
  revert n acc. induction f as [|f IH]; intros n acc Hf; [lia|]. cbn [dec_digits].
  pose proof (zlen_nonneg acc). destruct (n <? 10); [rewrite zlen_cons; lia|].
  destruct f as [|f]; [|apply IH; lia]. cbn [dec_digits]. rewrite zlen_cons. lia.
Qed.
Lemma dec_pos n : 0 < zlen (dec n).
Proof. apply dec_digits_pos. lia. Qed.

(** A decimal number, after one blank or none, is read back. *)
Lemma strtol_dec n sp rest :
  0 <= n < 2 ^ 63 -> sp = [] \/ sp = [SP] -> (forall c l, rest = c :: l -> digit_val 10 c = None) ->
  strtol (sp ++ dec n ++ rest) 10 = Strtol n (zlen sp + zlen (dec n)) false.
Proof.
  intros Hn Hsp Hr. pose proof (dec_digits_read 20 n [] rest ltac:(lia)) as Hread.
  change (dec_digits 20 n []) with (dec n) in Hread.
  pose proof (dec_digit n ltac:(lia)) as Hd. pose proof (dec_pos n) as Hp.
  assert (Hread' : read_digits 10 0 (dec n ++ rest) = (n, rest)).
  { rewrite Hread. destruct rest as [|c rest]; [done|]. cbn. by rewrite (Hr c rest eq_refl). }
  destruct (dec n) as [|a h]; [by cbn in Hp|]. assert (Ha : digit a) by (by inversion Hd). unfold digit in Ha.
  assert (Hs : isspace a = false) by (unfold isspace; rewrite orb_false_iff, andb_false_iff; lia).
  assert (Hsk : skip_space (sp ++ (a :: h) ++ rest) = (a :: h) ++ rest).
  { destruct Hsp as [-> | ->]; cbn [app skip_space]; rewrite ?Hs; [done|].
    change (isspace SP) with true. done. }
  unfold strtol. rewrite Hsk. cbn [app]. rewrite (proj2 (Z.eqb_neq a MINUS)), (proj2 (Z.eqb_neq a PLUS))
    by (unfold MINUS, PLUS; lia). cbn [orb].
  set (l3 := match h ++ rest with [] => _ | _ => _ end). assert (l3 = a :: h ++ rest) as -> by (unfold l3; by destruct (h ++ rest) as [|x [|y l]]).
  cbn [app] in Hread'. rewrite Hread'. assert (Hlen : zlen (a :: h ++ rest) = zlen (a :: h) + zlen rest) by (by rewrite <- zlen_app).
  rewrite (proj2 (Z.eqb_neq _ _)) by (rewrite Hlen; lia).
  unfold LONG_MAX, LONG_MIN. rewrite (proj2 (Z.ltb_ge _ n)), (proj2 (Z.ltb_ge n _)) by lia.
  f_equal. rewrite zlen_app, Hlen. lia.
Qed.

(** [strstr] with one character. *)
Lemma find_sub_char c a b i : c ∉ a -> find_sub [c] (a ++ c :: b) i = Some (i + zlen a).
Proof.
  revert i. induction a as [|x a IH]; intros i Hc; cbn [app find_sub prefixb].
  - rewrite Z.eqb_refl. cbn. f_equal. change (zlen (@nil Z)) with 0. lia.
  - apply not_elem_of_cons in Hc as [Hx Hc]. rewrite (proj2 (Z.eqb_neq c x)) by done. cbn [andb].
    rewrite IH by done. f_equal. rewrite zlen_cons. lia.
Qed.
Lemma find_sub_char_none c l i : c ∉ l -> find_sub [c] l i = None.
Proof.
  revert i. induction l as [|x l IH]; intros i Hc; cbn [find_sub prefixb]; [done|].
  apply not_elem_of_cons in Hc as [Hx Hc]. rewrite (proj2 (Z.eqb_neq c x)) by done. cbn [andb]. by apply IH.
Qed.

Lemma digits_not c l : Forall digit l -> ~ digit c -> c ∉ l.
Proof. intros Hl Hc Hin. rewrite Forall_forall in Hl. by apply Hc, Hl. Qed.

(** ** Ranges *)

Section Ranges.
Context `{Malloc}.

Lemma content_range_fits a b c : zlen (content_range a b c) < sizeof_RangeHeader.
Proof.
  unfold content_range, sizeof_RangeHeader. rewrite !zlen_app.
  pose proof (dec_s_len a). pose proof (dec_s_len b). pose proof (dec_s_len c).
  change (zlen (zs "CONTENT-RANGE: bytes ")) with 21. change (zlen [MINUS]) with 1.
  change (zlen [SLASH]) with 1. change (zlen crlf) with 2. lia.
Qed.

(** A range that is served. *)
Definition range_ok (len : Z) (i : SendInstruction) : Prop :=
  IsRangeActive i = true /\ 0 <= RangeOffset i /\ 0 <= ReadSendSize i
  /\ RangeOffset i + ReadSendSize i <= len
  /\ RangeHeader i = content_range (RangeOffset i) (RangeOffset i + ReadSendSize i - 1) len.

Lemma range_taken_ok first last len off size i :
  range_taken first last len off size i = (HTTP_OK, set_range true (content_range first last len) off size i).
Proof.
  unfold range_taken. pose proof (content_range_fits first last len).
  rewrite (proj2 (Z.leb_gt _ _)) by lia. unfold snprintf. by rewrite ztake_all by lia.
Qed.

Lemma create_range_ok first last len i i' :
  0 <= len -> create_range first last len i = (HTTP_OK, i') ->
  range_ok len i' /\ (0 <= first < len -> 0 < ReadSendSize i').
Proof.
  intros Hl. unfold create_range. rewrite !range_taken_ok.
  destruct (Z.ltb_spec len first); [done|].
  destruct ((0 <=? first) && (0 <=? last) && (first <=? last)) eqn:E1.
  { rewrite !andb_true_iff, !Z.leb_le in E1. destruct E1 as [[? ?] ?].
    intros [= <-]. unfold range_ok; cbn -[content_range]. destruct (Z.leb_spec len last); split_and!; try (intros; lia); try done; f_equal; lia. }
  destruct ((0 <=? first) && (last =? -1) && (first <? len)) eqn:E2.
  { rewrite !andb_true_iff, Z.leb_le, Z.eqb_eq, Z.ltb_lt in E2. destruct E2 as [[? ?] ?].
    intros [= <-]. unfold range_ok; cbn -[content_range]. split_and!; try (intros; lia); try done; f_equal; lia. }
  destruct ((first =? -1) && (0 <? last)) eqn:E3; [|done].
  rewrite andb_true_iff, Z.eqb_eq, Z.ltb_lt in E3. destruct E3 as [? ?].
  destruct (Z.leb_spec len last); intros [= <-]; unfold range_ok; cbn -[content_range]; split_and!; try (intros; lia); try done; f_equal; lia.
Qed.
End Ranges.

(** ** The range a client asks for *)

(** The value of the header that [http_OpenHttpGetEx] sends. *)
Definition range_value (lo hi : Z) : list Z := zs "bytes=" ++ dec_s lo ++ [MINUS] ++ dec_s hi.
Lemma range_header_value lo hi : range_header lo hi = zs "Range: " ++ range_value lo hi ++ crlf.
Proof. unfold range_header, range_value. by rewrite <- !app_assoc. Qed.

Section Client.
Context `{HM : Malloc} (Halloc : forall n, alloc_ok n = true).

Lemma digits_nul l : Forall digit l -> no_nul l.
Proof. intros Hl. eapply Forall_impl; [exact Hl|]. unfold digit. intros c Hc E. lia. Qed.

Lemma next_range lo hi :
  0 <= lo < 2 ^ 63 -> 0 <= hi < 2 ^ 63 ->
  (GetNextRange (Some (dec lo ++ [MINUS] ++ dec hi))).1 = Some (lo, hi).
Proof.
  intros Hlo Hhi. pose proof (dec_digit lo ltac:(lia)) as Dlo. pose proof (dec_digit hi ltac:(lia)) as Dhi.
  set (t := dec lo ++ [MINUS] ++ dec hi).
  assert (Ht : no_nul t) by (unfold t; repeat apply no_nul_app; auto using digits_nul; by repeat constructor).
  assert (Hct : cstr t = t) by by apply cstr_id.
  assert (Hcomma : 44 ∉ t).
  { unfold t. rewrite !not_elem_of_app. split; [apply digits_not; [done|unfold digit, MINUS; lia]|].
    split; [set_solver|]. apply digits_not; [done|unfold digit, MINUS; lia]. }
  assert (Hm : strstr t (zs "-") = Some (zlen (dec lo))).
  { unfold strstr. rewrite Hct. change (cstr (zs "-")) with [MINUS]. unfold t.
    change ([MINUS] ++ dec hi) with (MINUS :: dec hi).
    rewrite find_sub_char by (apply digits_not; [done|unfold digit, MINUS; lia]). done. }
  unfold GetNextRange, StrTok. rewrite Hct. unfold strstr at 1. rewrite Hct. change (cstr (zs ",")) with [44].
  rewrite find_sub_char_none by done. rewrite Hm.
  assert (Hz : zset t (zlen (dec lo)) SP = dec lo ++ [SP] ++ dec hi).
  { unfold t, zset. rewrite (proj2 (Z.ltb_ge _ _)) by apply zlen_nonneg.
    unfold zlen. rewrite Nat2Z.id. rewrite insert_app_r_alt by lia. by rewrite Nat.sub_diag. }
  rewrite Hz. unfold sscanf_ld_ld.
  assert (Hc2 : cstr (dec lo ++ [SP] ++ dec hi) = dec lo ++ [SP] ++ dec hi)
    by (apply cstr_id; repeat apply no_nul_app; auto using digits_nul; by repeat constructor).
  rewrite Hc2. unfold scan_ld at 1. pose proof (dec_pos lo). pose proof (dec_pos hi).
  pose proof (strtol_dec lo [] ([SP] ++ dec hi) ltac:(lia) (or_introl eq_refl)
    ltac:(by intros c l [= <- <-])) as Hs. cbn [app] in Hs |- *. rewrite Hs.
  change (zlen (@nil Z)) with 0. cbn [st_end st_val]. rewrite Z.add_0_l, (proj2 (Z.eqb_neq _ 0)) by lia.
  rewrite zdrop_app_exact. unfold scan_ld.
  pose proof (strtol_dec hi [SP] [] ltac:(lia) (or_intror eq_refl) ltac:(done)) as Hs2.
  rewrite app_nil_r in Hs2. cbn [app] in Hs2. rewrite Hs2.
  cbn [st_end st_val]. change (zlen [SP]) with 1. rewrite (proj2 (Z.eqb_neq _ 0)) by lia.
  rewrite (proj2 (Z.eqb_neq lo (-1))), (proj2 (Z.eqb_neq hi (-1))) by lia. done.
Qed.

Lemma StrStr_found s1 s2 : StrStr s1 s2 = strstr (ToUpperCase s1) (ToUpperCase s2).
Proof. unfold StrStr. by rewrite !Halloc. Qed.

Lemma client_range lo hi len i :
  0 <= lo <= hi -> hi < 2 ^ 31 -> 0 <= len ->
  CreateHTTPRangeResponseHeader (Some (range_value lo hi)) len i
  = create_range lo hi len (set_range true (RangeHeader i) (RangeOffset i) len i).
Proof.
  intros Hlo Hhi Hlen. unfold CreateHTTPRangeResponseHeader. rewrite Halloc. cbn [negb].
  unfold range_value, dec_s. rewrite !(proj2 (Z.ltb_ge _ 0)) by lia.
  set (t := dec lo ++ [MINUS] ++ dec hi).
  pose proof (dec_digit lo ltac:(lia)) as Dlo. pose proof (dec_digit hi ltac:(lia)) as Dhi.
  assert (Ht : no_nul t) by (unfold t; repeat apply no_nul_app; auto using digits_nul; by repeat constructor).
  assert (Hc : cstr (zs "bytes=" ++ t) = zs "bytes=" ++ t)
    by (apply cstr_id, no_nul_app; [by repeat constructor|done]).
  rewrite Hc, !StrStr_found.
  assert (Hu : ToUpperCase (zs "bytes=" ++ t) = zs "BYTES=" ++ map toupper t)
    by (unfold ToUpperCase; rewrite Hc, map_app; done).
  rewrite Hu.
  assert (Hut : cstr (zs "BYTES=" ++ map toupper t) = zs "BYTES=" ++ map toupper t).
  { apply cstr_id, no_nul_app; [by repeat constructor|]. apply Forall_map. eapply Forall_impl; [exact Ht|].
    intros c Hc0. cbn. unfold toupper, islower. destruct ((97 <=? c) && (c <=? 122)) eqn:E; [|done].
    rewrite andb_true_iff, !Z.leb_le in E. lia. }
  unfold strstr. rewrite Hut.
  change (find_sub (cstr (ToUpperCase (zs "bytes"))) (zs "BYTES=" ++ map toupper t) 0) with (Some 0).
  change (find_sub (cstr (ToUpperCase (zs "="))) (zs "BYTES=" ++ map toupper t) 0) with (Some 5).
  cbv beta iota.
  change (zdrop (5 + 1) (zs "bytes=" ++ t)) with (zdrop (zlen (zs "bytes=")) (zs "bytes=" ++ t)).
  rewrite zdrop_app_exact. unfold t. rewrite next_range by lia. done.
Qed.
End Client.

(** ** Paths *)

Definition plain (s : list Z) : Prop := s <> [DOT] /\ s <> [DOT; DOT].
Definition noslash (s : list Z) : Prop := SLASH ∉ s.

Lemma split_join_slash segs : segs <> [] -> Forall noslash segs -> split_slash (join_slash segs) = segs.
Proof.
  intros Hne Hs. assert (Hone : forall s, noslash s -> split_slash s = [s]).
  { intros s. induction s as [|c s IH]; intros H; [done|]. unfold noslash in *. apply not_elem_of_cons in H as [Hc H].
    cbn [split_slash]. rewrite (IH H). by rewrite (proj2 (Z.eqb_neq c SLASH)). }
  assert (Hcons : forall s l, noslash s -> split_slash (s ++ SLASH :: l) = s :: split_slash l).
  { intros s l. induction s as [|c s IH]; intros H; cbn [app split_slash].
    - destruct (split_join l) as [_ Hl]. by destruct (split_slash l).
    - unfold noslash in *. apply not_elem_of_cons in H as [Hc H]. rewrite (IH H).
      by rewrite (proj2 (Z.eqb_neq c SLASH)). }
  induction Hs as [|s segs Hs Hsegs IH]; [done|]. destruct segs as [|s2 segs]; [by apply Hone|].
  change (join_slash (s :: s2 :: segs)) with (s ++ SLASH :: join_slash (s2 :: segs)).
  rewrite Hcons by done. by rewrite IH.
Qed.
Lemma joins_join stk s : joins stk ++ s = join_slash (stk ++ [s]).
Proof.
  induction stk as [|a stk IH]; [done|]. cbn [joins app]. rewrite <- app_assoc. cbn [app]. rewrite IH.
  by destruct stk.
Qed.

Lemma dots_norm_plain (P : Z -> Prop) segs : forall stk last out,
  P SLASH -> Forall plain stk -> Forall noslash stk -> Forall noslash segs ->
  Forall (Forall P) stk -> Forall (Forall P) segs ->
  dots_norm stk segs last = Some out ->
  exists fin e, split_slash out = fin ++ [e] /\ Forall plain fin /\ (last = true -> plain e) /\ Forall P out.
Proof.
  intros stk last out HP. revert stk. 
  assert (Hjoin : forall stk s, Forall (Forall P) stk -> Forall P s -> Forall P (joins stk ++ s)).
  { intros stk s Hk Hs. induction Hk as [|a stk Ha _ IH]; [done|]. cbn [joins]. rewrite <- app_assoc.
    apply Forall_app. split; [done|]. by constructor. }
  assert (Hend : forall stk s, Forall plain stk -> Forall noslash stk -> noslash s -> (last = true -> plain s) ->
    Forall (Forall P) stk -> Forall P s ->
    exists fin e, split_slash (joins stk ++ s) = fin ++ [e] /\ Forall plain fin /\ (last = true -> plain e)
      /\ Forall P (joins stk ++ s)).
  { intros stk s H1 H2 H3 H4 H5 H6. exists stk, s. split; [|auto]. rewrite joins_join.
    apply split_join_slash; [by destruct stk|]. apply Forall_app. split; [done|by constructor]. }
  induction segs as [|s segs IH]; intros stk H1 H2 H3 H4 H5; cbn [dots_norm].
  { intros [= <-]. rewrite <- (app_nil_r (joins stk)). apply Hend; [done|done|apply not_elem_of_nil|by intros _|done|constructor]. }
  apply Forall_cons in H3 as [Hs H3]. apply Forall_cons in H5 as [Ps H5].
  set (term := match segs with [] => last | _ :: _ => true end).
  destruct (term && bool_decide (s = [DOT])) eqn:E1; [by apply IH|].
  destruct (term && bool_decide (s = [DOT; DOT])) eqn:E2.
  { destruct (Nat.leb_spec 2 (length stk)); [|done].
    destruct (exists_last (l := stk)) as (l & x & ->); [intros ->; cbn in *; lia|]. rewrite removelast_last.
    apply Forall_app in H1 as [H1 _], H2 as [H2 _], H4 as [H4 _]. by apply IH. }
  destruct segs as [|s2 segs].
  - intros [= <-]. apply Hend; try done. intros ->. cbn [andb] in E1, E2. unfold term in E1, E2.
    apply bool_decide_eq_false in E1, E2. by split.
  - apply IH; try done; apply Forall_app; (split; [done|]); constructor; try done.
    apply bool_decide_eq_false in E1, E2. by split.
Qed.

Lemma cstr_app_zero a b : cstr (a ++ 0 :: b) = cstr a.
Proof. induction a as [|c a IH]; [done|]. cbn. destruct (c =? 0); [done|]. by rewrite IH. Qed.

(** The segments before the last one survive when the text is cut. *)
Lemma split_cstr l : removelast (split_slash (cstr l)) `prefix_of` removelast (split_slash l).
Proof.
  induction l as [|x l IH]; [done|]. cbn [cstr]. destruct (Z.eqb_spec x 0); [apply prefix_nil|].
  cbn [split_slash]. destruct (split_join (cstr l)) as [_ N1], (split_join l) as [_ N2].
  destruct (split_slash (cstr l)) as [|s r]; [done|]. destruct (split_slash l) as [|s2 r2]; [done|].
  destruct (x =? SLASH).
  - change (removelast ([] :: s :: r)) with ([] :: removelast (s :: r)).
    change (removelast ([] :: s2 :: r2)) with ([] :: removelast (s2 :: r2)). by apply prefix_cons.
  - destruct r as [|a r]; [apply prefix_nil|]. destruct r2 as [|a2 r2].
    + apply prefix_nil_inv in IH. done.
    + change (removelast (s :: a :: r)) with (s :: removelast (a :: r)) in IH.
      change (removelast (s2 :: a2 :: r2)) with (s2 :: removelast (a2 :: r2)) in IH.
      apply prefix_cons_inv_1 in IH as Hs. apply prefix_cons_inv_2 in IH as Hr. subst s2.
      change (removelast ((x :: s) :: a :: r)) with ((x :: s) :: removelast (a :: r)).
      change (removelast ((x :: s) :: a2 :: r2)) with ((x :: s) :: removelast (a2 :: r2)). by apply prefix_cons.
Qed.

(** *** The path of a request *)

Section Path.
Context `{HM : Malloc} (Halloc : forall n, alloc_ok n = true).

(** Where the path of a request comes from. *)
Definition url_ok (url : uri_type) (mem : list Z) : Prop :=
  let t := uri_pathquery url in
  (tk_size t = 0 \/ 1 <= tk_buff t) /\ 0 <= tk_size t < 2 ^ 60 /\ tk_buff t - 1 + tk_size t <= zlen mem.

Definition path_text (url : uri_type) (mem : list Z) : list Z := token_text mem 1 (uri_pathquery url).

(** What a path that is accepted looks like. *)
Definition path_safe (text doc : list Z) : Prop :=
  zget doc 0 = SLASH
  /\ (Forall (fun c => is_tail c = false) (unescape text) ->
      Forall plain (removelast (split_slash (cstr doc)))
      /\ (unescape text = text -> no_nul text -> Forall plain (split_slash (cstr doc)))).

Lemma span_no_tail l : Forall (fun c => is_tail c = false) l -> span (fun c => negb (is_tail c)) l = zlen l.
Proof.
  induction 1 as [|c l Hc _ IH]; [done|]. cbn [span]. rewrite Hc. cbn [negb]. rewrite IH, zlen_cons. lia.
Qed.

Lemma dots_spec_plain (P : Z -> Prop) l out :
  P SLASH -> Forall (fun c => is_tail c = false) l -> Forall P l -> dots_spec l = Some out ->
  Forall plain (split_slash out) /\ Forall P out.
Proof.
  intros HP Ht HPl. unfold dots_spec. rewrite span_no_tail, Z.eqb_refl, ztake_all, zdrop_all by (done || lia).
  destruct (dots_norm _ _ _) as [o|] eqn:E; [|done]. cbn [mbind option_bind]. rewrite app_nil_r. intros [= <-].
  apply (dots_norm_plain P) in E as (fin & e & E1 & E2 & E3 & E4); try done.
  - rewrite E1. split; [|done]. apply Forall_app. split; [done|]. constructor; [by apply E3|constructor].
  - apply Forall_forall. intros s Hs. by apply split_noslash in Hs as [? _].
  - apply Forall_forall. intros s Hs. apply split_noslash in Hs as [_ Hs]. apply Forall_forall.
    intros c Hc. rewrite Forall_forall in HPl. by apply HPl, Hs.
Qed.

Lemma request_path_safe url mem doc :
  url_ok url mem -> request_path url mem = inr doc -> path_safe (path_text url mem) doc.
Proof.
  intros (Hb & Hs & Hm). unfold request_path. rewrite Halloc. cbn [negb].
  fold (path_text url mem). set (text := path_text url mem). set (size := tk_size (uri_pathquery url)) in *.
  assert (Hlt : zlen text = size)
    by (unfold text, path_text, token_text, zsub; rewrite zlen_ztake, zlen_zdrop; fold size; lia).
  assert (Hns : no_straddle (text ++ [0]) size).
  { assert (Hz : zget (text ++ [0]) size = 0) by (rewrite zget_app_r by lia; rewrite Hlt, Z.sub_diag; done).
    unfold no_straddle, is_escaped. replace (size - 1 + 1) with size by lia. replace (size - 2 + 2) with size by lia.
    rewrite Hz. change (isxdigit 0) with false. split; by rewrite ?andb_false_r. }
  unfold remove_escaped_chars.
  pose proof (remove_escaped_loop_spec (Z.to_nat size) (text ++ [0]) 0 size ltac:(lia)
    ltac:(rewrite zlen_app; change (zlen [0]) with 1; lia) ltac:(lia) Hns) as HE.
  destruct (remove_escaped_loop _ _ _ _) as [mem1 size1]. destruct HE as (E1 & E2 & E3 & E4 & E5).
  rewrite zlen_app in E1. change (zlen [0]) with 1 in E1.
  rewrite (ztake_neg 0) in E3 by lia. rewrite Z.sub_0_r in E3. cbn [app] in E3.
  unfold zsub in E3. rewrite zdrop_neg in E3 by lia. rewrite <- Hlt in E3. rewrite ztake_app_exact in E3.
  assert (Hx : ztake size mem1 = unescape text ++ zrep (size - size1) 0).
  { rewrite <- E3. apply zget_eq; [rewrite zlen_app, !zlen_ztake, zlen_zrep_nn; lia|].
    intros k Hk. rewrite zlen_ztake in Hk. rewrite zget_ztake_lt by lia.
    destruct (Z.ltb_spec k size1).
    - rewrite zget_app_l by (rewrite zlen_ztake; lia). by rewrite zget_ztake_lt by lia.
    - rewrite E4 by lia. rewrite zget_app_r by (rewrite zlen_ztake; lia).
      rewrite zget_zrep. by case_decide. }
  destruct (decide (size = 0)) as [H0|H0].
  { destruct (remove_dots mem1 size) as [rc doc'] eqn:Ed. destruct (negb (rc =? 0)) eqn:Er; [done|].
    assert (Hd0 : zget doc' 0 = 0); [|rewrite Hd0; done].
    revert Ed. unfold remove_dots. rewrite H0. change (u64 (8 * 0)) with 0. unfold realloc. rewrite Halloc. cbn.
    intros [= <- <-]. change (zget (zset mem1 0 0) 0 = 0). by rewrite zget_zset_eq by lia. }
  pose proof (remove_dots_spec mem1 size ltac:(lia) ltac:(lia) (Halloc _)) as HD.
  destruct (dots_spec (ztake size mem1)) as [out|] eqn:Eo.
  2: { destruct (remove_dots mem1 size) as [rc doc']. cbn in HD. subst rc. done. }
  destruct HD as (mem2 & -> & L2 & T2 & _). rewrite Z.eqb_refl. cbn [negb].
  destruct (zget mem2 0 =? SLASH) eqn:Esl; [|done]. intros [= <-]. apply Z.eqb_eq in Esl.
  assert (Hc : cstr mem2 = cstr out).
  { rewrite <- (ztake_zdrop (zlen out + 1) mem2), T2, <- app_assoc. apply cstr_app_zero. }
  split; [done|]. intros Ht. rewrite Hc.
  assert (Ht' : Forall (fun c => is_tail c = false) (ztake size mem1)).
  { rewrite Hx. apply Forall_app. split; [done|]. apply Forall_forall. intros c Hcin.
    apply elem_of_replicate_inv in Hcin as ->. done. }
  split.
  - destruct (dots_spec_plain (fun _ => True) _ _ I Ht' ltac:(by apply Forall_true) Eo) as [Hp _].
    destruct (split_cstr out) as [k Hk]. rewrite Forall_forall in Hp |- *. intros s Hs1. apply Hp.
    assert (s ∈ removelast (split_slash out)) by (rewrite Hk; apply elem_of_app; by left).
    destruct (split_join out) as [_ Hn]. rewrite (app_removelast_last [] Hn). apply elem_of_app. by left.
  - intros Hu Hnn. assert (Hsz : size1 = size).
    { apply (f_equal zlen) in E3. rewrite zlen_ztake, Hu in E3. lia. }
    rewrite Hx, Hu, Hsz, Z.sub_diag in Eo, Ht'. change (zrep 0 0) with (@nil Z) in Eo, Ht'. rewrite app_nil_r in Eo, Ht'.
    destruct (dots_spec_plain (fun c => c <> 0) _ _ ltac:(done) Ht' Hnn Eo) as [Hp Hz].
    by rewrite (cstr_id out Hz).
Qed.
End Path.

(** *** The file of a request *)

Fixpoint drop_slashes (l : list Z) : list Z :=
  match l with c :: l' => if c =? SLASH then drop_slashes l' else l | [] => [] end.
Definition rstrip (l : list Z) : list Z := reverse (drop_slashes (reverse l)).

Lemma rstrip_snoc l c : rstrip (l ++ [c]) = if c =? SLASH then rstrip l else l ++ [c].
Proof.
  unfold rstrip. rewrite reverse_app. cbn [reverse app rev_append]. change (reverse [c]) with [c]. cbn [app drop_slashes].
  destruct (c =? SLASH); [done|]. by rewrite reverse_cons, reverse_involutive.
Qed.

(** A buffer that holds a C string. *)
Definition holds (m : membuffer) (t : list Z) : Prop :=
  mb_wf m /\ mb_contents m = t /\ no_nul t /\ (t <> [] -> mb_terminated m).

Lemma holds_cstr m t : holds m t -> t <> [] -> cstr (mb_block m) = t.
Proof.
  intros (Hw & Hc & Hn & Ht) Hne. specialize (Ht Hne). unfold mb_terminated in Ht.
  pose proof (zlen_contents m Hw) as Hl. rewrite Hc in Hl. pose proof Hw as (H0 & _).
  destruct (Z.ltb_spec (mb_length m) (zlen (mb_block m))) as [Hb|Hb].
  - rewrite <- (ztake_zdrop (mb_length m) (mb_block m)). change (ztake (mb_length m) (mb_block m)) with (mb_contents m).
    rewrite Hc. rewrite (zdrop_cons (mb_block m) (mb_length m)) by lia. rewrite Ht. by apply cstr_app_nul.
  - assert (Hb' : mb_block m = t) by (rewrite <- Hc; unfold mb_contents; by rewrite ztake_all by lia).
    rewrite Hb'. by apply cstr_id.
Qed.

Section File.
Context `{HM : Malloc} (Halloc : forall n, alloc_ok n = true).

Lemma assign_str_holds m s :
  mb_wf m -> strlen s < 2 ^ 31 -> exists m', membuffer_assign_str m s = (0, m') /\ holds m' (cstr s).
Proof.
  intros Hm Hs. unfold membuffer_assign_str. pose proof (strlen_nonneg s). pose proof (strlen_le s).
  destruct (membuffer_assign m (Some s) (strlen s)) as [rc m'] eqn:E.
  destruct (assign_ok Halloc m s (strlen s) Hm ltac:(lia) Hs) as (m2 & E2 & _). rewrite E in E2.
  injection E2 as -> ->.
  apply membuffer_assign_spec in E as [[? _]|(_ & C & _ & _ & W & T)]; [done| |done|lia|done].
  exists m2. split; [done|]. rewrite cstr_ztake. split_and!; try done.
  - rewrite <- cstr_ztake. apply cstr_nz.
  - intros Hne. apply T. destruct (Z.ltb_spec 0 (strlen s)); [done|]. exfalso. apply Hne.
    by rewrite ztake_neg by lia.
Qed.

Lemma append_str_holds m t s :
  holds m t -> zlen t + strlen s < 2 ^ 31 ->
  exists m', membuffer_append_str m s = (0, m') /\ holds m' (t ++ cstr s).
Proof.
  intros (Hw & Hc & Hn & Ht) Hs. unfold membuffer_append_str. pose proof (strlen_nonneg s). pose proof (strlen_le s).
  pose proof (zlen_contents m Hw) as Hl. rewrite Hc in Hl. pose proof Hw as (Hw0 & _).
  destruct (Z.eqb_spec (strlen s) 0) as [E|E].
  - exists m. unfold membuffer_insert. rewrite (proj2 (Z.ltb_ge _ _)), E, Z.eqb_refl by lia. split; [done|].
    assert (cstr s = []) as -> by (apply zlen_zero; done). by rewrite app_nil_r.
  - destruct (membuffer_insert m (Some s) (strlen s) (mb_length m)) as [rc m'] eqn:Ei.
    destruct (insert_ok Halloc m s (strlen s) Hw ltac:(lia) ltac:(lia)) as (m2 & E2 & C2 & _). rewrite Ei in E2.
    injection E2 as -> ->.
    apply membuffer_insert_spec in Ei as [[? _]|(_ & _ & _ & _ & W & T)]; [done| |done|lia|lia|lia].
    exists m2. split; [done|]. rewrite cstr_ztake, <- Hc, <- C2. split_and!; try done.
    rewrite C2, Hc, <- cstr_ztake. apply no_nul_app; [done|apply cstr_nz].
Qed.

Lemma strip_slashes_holds f m t :
  holds m t -> zlen t <= Z.of_nat f -> zlen t < 2 ^ 31 -> holds (strip_slashes f m) (rstrip t).
Proof.
  revert m t. induction f as [|f IH]; intros m t Hh Hf Hs.
  { assert (t = []) as -> by (apply zlen_zero; pose proof (zlen_nonneg t); lia). done. }
  pose proof Hh as (Hw & Hc & Hn & Ht). pose proof (zlen_contents m Hw) as Hl. rewrite Hc in Hl.
  cbn [strip_slashes]. destruct (list.last t) as [c|] eqn:El.
  2: { apply last_None in El as ->. change (zlen []) with 0 in Hl. by rewrite (proj2 (Z.ltb_ge 0 _)) by lia. }
  apply last_Some in El as (l & ->). rewrite rstrip_snoc. rewrite zlen_app in Hl, Hf, Hs. change (zlen [c]) with 1 in *.
  pose proof (zlen_nonneg l).
  assert (Hg : zget (mb_block m) (mb_length m - 1) = c).
  { rewrite zget_contents by (done || lia). rewrite Hc, zget_app_r by lia.
    replace (mb_length m - 1 - zlen l) with 0 by lia. done. }
  rewrite Hg, (proj2 (Z.ltb_lt 0 _)) by lia. cbn [andb]. destruct (c =? SLASH); [|done].
  apply IH; [|lia|lia].
  destruct (membuffer_delete_spec m (mb_length m - 1) 1 Hw ltac:(lia) ltac:(lia) ltac:(lia) ltac:(lia) (Halloc _))
    as (_ & D2 & _ & _ & D5 & D6).
  assert (Hd : mb_contents (membuffer_delete m (mb_length m - 1) 1) = l).
  { rewrite D2, Hc. replace (mb_length m - 1) with (zlen l) by lia. rewrite ztake_app_exact.
    rewrite zdrop_all by (rewrite zlen_app; change (zlen [c]) with 1; lia). apply app_nil_r. }
  apply Forall_app in Hn as [Hn _]. split_and!; try done.
Qed.

Definition index_name (ix : list Z) : Prop := ix = [] \/ ix = zs "index.html" \/ ix = zs "/index.html".

(** The file that is found: a readable file, of the name or the index file below it. *)
Lemma file_or_index_holds info m t m' finfo :
  holds m t -> t <> [] -> zlen t < 2 ^ 30 -> file_or_index info m = inr (m', finfo) ->
  exists ix f0, index_name ix /\ holds m' (t ++ ix) /\ info (t ++ ix) f0 = (0, finfo)
    /\ is_readable finfo = true /\ is_directory finfo = false.
Proof.
  intros Hh Hne Hs. unfold file_or_index. rewrite (holds_cstr m t Hh Hne).
  destruct (info t finfo0) as [rc f1] eqn:E1. destruct (Z.eqb_spec rc 0) as [->|]; [|done]. cbn [negb].
  destruct (is_directory f1) eqn:Ed.
  - set (ix := if zget _ _ =? SLASH then _ else _).
    assert (Hix : index_name ix /\ strlen ix < 100 /\ cstr ix = ix /\ ix <> [])
      by (unfold ix, index_name; case_match; (split; [by auto|done])).
    destruct Hix as (Hi & Hil & Hic & Hin).
    destruct (append_str_holds m t ix Hh ltac:(lia)) as (m2 & -> & H2). cbn [negb Z.eqb].
    rewrite Hic in H2. rewrite (holds_cstr m2 _ H2) by (by destruct t).
    destruct (info (t ++ ix) f1) as [rc2 f2] eqn:E2. destruct (Z.eqb_spec rc2 0) as [->|]; [|done]. cbn [negb orb].
    destruct (is_directory f2) eqn:Ed2; [done|]. destruct (is_readable f2) eqn:Er; [|done]. cbn [negb].
    intros [= <- <-]. exists ix, f1. by split_and!.
  - destruct (is_readable f1) eqn:Er; [|done]. cbn [negb]. intros [= <- <-].
    exists [], finfo0. rewrite app_nil_r. split_and!; try done. by left.
Qed.
End File.

Section Request.
Context `{HM : Malloc, HR : Resolver} (Halloc : forall n, alloc_ok n = true).

Lemma check_headers_virtual hs : forall sz len code i,
  IsVirtualFile (check_headers hs sz len code i).2 = IsVirtualFile i.
Proof.
  assert (Hr : forall a b c d e i, IsVirtualFile (range_taken a b c d e i).2 = IsVirtualFile i)
    by (intros; unfold range_taken; by case_match).
  assert (Hcr : forall a b c i, IsVirtualFile (create_range a b c i).2 = IsVirtualFile i)
    by (intros; unfold create_range; repeat (case_match; rewrite ?Hr); done).
  assert (Hh : forall h len i, IsVirtualFile (check_header h len i).2 = IsVirtualFile i).
  { intros h len i. unfold check_header. repeat (case_match; try done).
    unfold CreateHTTPRangeResponseHeader. repeat (case_match; try done). by rewrite Hcr. }
  induction hs as [|h hs IH]; intros sz len code i; [done|]. cbn [check_headers].
  destruct (_ && _); [done|]. specialize (Hh h len i). destruct (check_header h len i) as [c i2]. cbn [snd] in Hh.
  destruct (negb _); [done|]. by rewrite IH.
Qed.

Lemma rstrip_app_nonempty t d : rstrip t <> [] -> rstrip (t ++ d) <> [].
Proof.
  intros Ht. induction d as [|c d IH] using rev_ind; [by rewrite app_nil_r|].
  rewrite app_assoc, rstrip_snoc. case_match; [done|]. by destruct (t ++ d).
Qed.
Lemma rstrip_len l : zlen (rstrip l) <= zlen l.
Proof.
  induction l as [|c l IH] using rev_ind; [done|]. rewrite rstrip_snoc, zlen_app. pose proof (zlen_nonneg [c]).
  case_match; [lia|by rewrite zlen_app].
Qed.

(** Where a request leads: [t] is the root, [doc] the path. *)
Definition leads_to (fs : files) (t doc : list Z) (post : bool) (m : membuffer) (virtual : bool) : Prop :=
  if virtual then exists ix, index_name ix /\ holds m (cstr doc ++ ix)
  else exists ix, index_name ix /\ holds m (rstrip (t ++ cstr doc) ++ ix)
    /\ (post = false -> exists f0 finfo,
          get_file_info fs (rstrip (t ++ cstr doc) ++ ix) f0 = (0, finfo)
          /\ is_readable finfo = true /\ is_directory finfo = false).

Lemma find_file_leads w fs virtual post doc m t m' finfo :
  mb_wf m -> holds (gDocumentRootDir w) t -> rstrip t <> [] -> zlen t + strlen doc < 2 ^ 30 -> zget doc 0 = SLASH ->
  find_file w fs virtual post doc m = Some (inr (m', finfo)) ->
  leads_to fs t doc post m' virtual.
Proof.
  intros Hm Hr Hne Hs Hd. pose proof (strlen_nonneg doc). pose proof (zlen_nonneg t).
  assert (Hdoc : cstr doc <> []).
  { destruct doc as [|x doc]; [done|]. change (zget (x :: doc) 0) with x in Hd. by subst x. }
  unfold find_file, leads_to. destruct virtual.
  - destruct (assign_str_holds Halloc m doc Hm ltac:(lia)) as (m1 & -> & H1). cbn [negb Z.eqb].
    destruct post.
    + intros [= <- <-]. exists []. rewrite app_nil_r. split; [by left|done].
    + destruct (get_info _) as [info|]; [|done]. cbn [mbind option_bind]. intros [= E].
      apply (file_or_index_holds Halloc _ _ (cstr doc)) in E as (ix & f0 & I1 & I2 & _); try done.
      * by exists ix.
      * unfold strlen in Hs. lia.
  - pose proof Hr as (Hw & Hc & Hn & Ht). pose proof (zlen_contents _ Hw) as Hl. rewrite Hc in Hl.
    assert (Hnt : t <> []) by (by intros ->).
    assert (Hlp : 0 < zlen t) by (destruct t; [done|rewrite zlen_cons; pose proof (zlen_nonneg t); lia]).
    rewrite (proj2 (Z.eqb_neq _ 0)) by lia.
    pose proof (holds_cstr (gDocumentRootDir w) t Hr Hnt) as Hcr.
    destruct (assign_str_holds Halloc m (mb_block (gDocumentRootDir w)) Hm) as (m1 & -> & H1);
      [unfold strlen; rewrite Hcr; lia|]. rewrite Hcr in H1. cbn [negb Z.eqb].
    destruct (append_str_holds Halloc m1 t doc H1 ltac:(lia)) as (m2 & -> & H2). cbn [negb Z.eqb].
    assert (Hl2 : mb_length m2 = zlen (t ++ cstr doc))
      by (destruct H2 as (W2 & C2 & _); rewrite <- C2; symmetry; by apply zlen_contents).
    assert (Hz : zlen (t ++ cstr doc) < 2 ^ 30) by (rewrite zlen_app; unfold strlen in Hs; lia).
    pose proof (zlen_nonneg (t ++ cstr doc)).
    pose proof (strip_slashes_holds Halloc (Z.to_nat (mb_length m2)) m2 _ H2 ltac:(lia) ltac:(lia)) as Hst.
    set (m3 := strip_slashes _ m2) in *. destruct post.
    + intros [= <- <-]. exists []. rewrite app_nil_r. split; [by left|]. by split.
    + intros [= E]. pose proof (rstrip_len (t ++ cstr doc)).
      apply (file_or_index_holds Halloc _ _ _ _ _ Hst) in E as (ix & f0 & I1 & I2 & I3 & I4 & I5);
        [|by apply rstrip_app_nonempty|lia].
      exists ix. split; [done|]. split; [done|]. intros _. by exists f0, finfo.
Qed.

Lemma parsed_url_ok b u :
  strlen b < 2 ^ 30 -> parse_uri b 1 (strlen b) = inr u -> url_ok u b.
Proof.
  intros Hs E. pose proof (parse_uri_spec b 1 ltac:(lia)) as HP. rewrite E in HP.
  pose proof (strlen_le b). pose proof (strlen_nonneg b). pose proof (zlen_nonneg b).
  unfold url_ok. cbv zeta. destruct (up_path_in _ _ _ HP) as [->|(P1 & P2 & P3)]; [cbn; split; [by left|lia]|].
  split; [by right|lia].
Qed.

Lemma request_path_err url mem code : request_path url mem = inl code -> code <> HTTP_OK.
Proof. unfold request_path. repeat case_match; intros [= <-]; done. Qed.
Lemma find_file_err w fs virtual post doc m code m' :
  find_file w fs virtual post doc m = Some (inl (code, m')) -> code <> HTTP_OK.
Proof.
  assert (Hf : forall info m, file_or_index info m = inl (code, m') -> code <> HTTP_OK)
    by (intros info m0; unfold file_or_index; repeat case_match; intros [= <- _]; done).
  unfold find_file. repeat case_match; try (intros [= <- _]; done); try (intros [= E]; by eapply Hf).
  destruct (get_info _); [|done]. cbn. intros [= E]. by eapply Hf.
Qed.
Lemma remove_escaped_len f mem i size : zlen (remove_escaped_loop f mem i size).1 = zlen mem.
Proof.
  revert mem i size. induction f as [|f IH]; intros mem i size; cbn [remove_escaped_loop]; [done|].
  destruct (i <? size); [|done]. unfold replace_escaped. destruct (is_escaped mem i); [|apply IH].
  rewrite IH. generalize (s8 (sscanf_2x (zget mem (i + 1)) (zget mem (i + 2)))) as t.
  generalize (Z.to_nat (size - i)) as g. generalize (i + 3) as k. generalize i as j. intros j k g. revert mem j k.
  induction g as [|g IHg]; intros mem j k t; cbn [replace_loop]; [done|].
  destruct (j <? size); [|done]. rewrite IHg. apply zlen_zset.
Qed.
Lemma request_path_len url mem doc :
  url_ok url mem -> request_path url mem = inr doc -> strlen doc <= tk_size (uri_pathquery url) + 1.
Proof.
  intros (Hb & Hs & Hm). unfold request_path. rewrite Halloc. cbn [negb]. unfold remove_escaped_chars.
  set (text := token_text mem 1 (uri_pathquery url)).
  pose proof (remove_escaped_len (Z.to_nat (tk_size (uri_pathquery url))) (text ++ [0]) 0 (tk_size (uri_pathquery url))) as HL.
  destruct (remove_escaped_loop _ _ _ _) as [mem1 size1]. cbn [fst] in HL.
  pose proof (remove_dots_len mem1 (tk_size (uri_pathquery url))) as HD.
  destruct (remove_dots _ _) as [rc doc']. cbn [snd] in HD. destruct (negb _); [done|].
  destruct (negb _); [done|]. intros [= <-]. etrans; [apply strlen_le|]. rewrite HD, HL, zlen_app.
  change (zlen [0]) with 1. unfold text, token_text, zsub. rewrite zlen_ztake. lia.
Qed.
(** An accepted request has a path and a file; a virtual file stays virtual. *)
Lemma process_request_ok env w fs req hd fn i r :
  process_request env w fs req hd fn i = Some r -> pr_code r = HTTP_OK ->
  exists doc info, request_path (uri req) (default [] (urlbuf req)) = inr doc
    /\ find_file w fs (isFileInVirtualDir (pVirtualDirList w) doc) (method req =? HTTPMETHOD_POST) doc fn
       = Some (inr (pr_filename r, info))
    /\ (isFileInVirtualDir (pVirtualDirList w) doc = true -> IsVirtualFile (pr_instr r) = true).
Proof.
  unfold process_request. cbv zeta. destruct (negb (is_web_method _)); [done|].
  destruct (http_CalcResponseVersion _ _) as [maj min].
  destruct (request_path _ _) as [code|doc] eqn:Ep.
  { intros [= <-] Hc. cbn in Hc. subst code. by apply request_path_err in Ep. }
  set (virtual := isFileInVirtualDir _ doc).
  destruct (find_file _ _ _ _ _ _) as [[[code m]|[m finfo]]|] eqn:Ef; cbn [mbind option_bind]; [| |done].
  { intros [= <-] Hc. cbn in Hc. subst code. by apply find_file_err in Ef. }
  set (i1 := set_read_size _ _).
  assert (Hv : virtual = true -> IsVirtualFile (CheckOtherHTTPHeaders req i1 (file_length finfo)).2 = true).
  { intros Hv. unfold CheckOtherHTTPHeaders. destruct (negb _); [|rewrite check_headers_virtual]; unfold i1; by rewrite Hv. }
  destruct (CheckOtherHTTPHeaders _ _ _) as [code i2]. cbn [snd] in Hv.
  assert (Hgoal : forall r, pr_filename r = m -> IsVirtualFile (pr_instr r) = IsVirtualFile i2 ->
    exists doc0 info, @inr Z _ doc = inr doc0
      /\ find_file w fs (isFileInVirtualDir (pVirtualDirList w) doc0) (method req =? HTTPMETHOD_POST) doc0 fn
         = Some (inr (pr_filename r, info))
      /\ (isFileInVirtualDir (pVirtualDirList w) doc0 = true -> IsVirtualFile (pr_instr r) = true)).
  { intros r0 E1 E2. exists doc, finfo. rewrite E1, E2. split; [done|]. by split. }
  destruct (negb _); [intros [= <-] _; by apply Hgoal|].
  destruct (_ =? HTTPMETHOD_POST); [intros [= <-] _; by apply Hgoal|].
  destruct (_ && negb _); [intros [= <-] _; by apply Hgoal|].
  set (i3 := if _ && _ then _ else i2).
  assert (Hi3 : IsVirtualFile i3 = IsVirtualFile i2) by (unfold i3; by case_match).
  destruct (response_head _ _) as [fmt args].
  destruct (http_MakeMessage _ _ _ _ _ _) as [[rc h]|]; cbn [mbind option_bind]; [|done].
  destruct (negb _); intros [= <-] _; by apply Hgoal.
Qed.
End Request.

(** A server with one directory and one file, and a request for that file. *)
Definition page_web : web :=
  (web_server_set_root_dir (H := malloc_always) (zs "/www/")
     (Web true [] (buffer0 (H := malloc_always)) [] no_callbacks)).2.
Definition page_files : files :=
  Files (fun s => if bool_decide (s = zs "/www/b.txt") then Some (Stat Regular 5 0)
                  else if bool_decide (s = zs "/www") then Some (Stat Directory 0 0) else None)
        (fun s => Some (File (zs "hello") [])) (fun _ => None).
Definition page_url : list Z := zs "/a/../b.txt" ++ [0].
Definition page_req : http_message_t :=
  let url := match parse_uri (H := resolver_two) page_url 1 (strlen page_url) with inr u => u | inl _ => uri0 end in
  Message true HTTPMETHOD_GET url HTTPMETHOD_GET 0 membuffer0 0 true 1 1 [] None 0 membuffer0 (Some page_url).
Lemma page_root : holds (gDocumentRootDir page_web) (zs "/www").
Proof.
  assert (E : gDocumentRootDir page_web = Membuffer (Some (zs "/www" ++ [0; 0])) 4 5 5) by (vm_compute; reflexivity).
  rewrite E. split; [|split; [reflexivity|split; [repeat constructor; done|reflexivity]]].
  unfold mb_wf, room. cbn [mb_length mb_capacity mb_size_inc mb_buf]. change (zlen _) with 6. lia.
Qed.
#[local] Notation page_answer :=
  (process_request (H := malloc_always) (H0 := resolver_two) (HttpEnv 0 (zs "Linux") (zs "6.1") (zs "1.6.19"))
    page_web page_files page_req (buffer0 (H := malloc_always)) (buffer0 (H := malloc_always)) (instr0 [] 0 0 0)).

Module WebServer.

(** C26. A range that the web server accepts lies inside the file, and the header of the
    response names exactly the bytes that are sent, whatever the client wrote. *)
Theorem range_in_file `{Malloc} s len i i' :
  CreateHTTPRangeResponseHeader (Some s) len i = (HTTP_OK, i') ->
  IsRangeActive i' = true /\ 0 <= RangeOffset i' /\ 0 <= ReadSendSize i'
  /\ RangeOffset i' + ReadSendSize i' <= len
  /\ RangeHeader i' = content_range (RangeOffset i') (RangeOffset i' + ReadSendSize i' - 1) len.
Proof.
  unfold CreateHTTPRangeResponseHeader. destruct (negb _); [done|].
  destruct (StrStr _ _); [|done]. destruct (StrStr _ _); [|done].
  destruct (Z.ltb_spec len 0); [done|]. destruct (GetNextRange _) as [[[first last]|] rest]; [|done].
  cbn [fst]. intros E. by apply create_range_ok in E as [E _].
Qed.
Lemma range_in_file_witness :
  exists i', CreateHTTPRangeResponseHeader (H := malloc_always) (Some (zs "bytes=-5")) 12 (instr0 [] 0 0 0) = (HTTP_OK, i')
    /\ (RangeOffset i', ReadSendSize i') = (7, 5) /\ RangeHeader i' = content_range 7 11 12.
Proof.
  eexists. split; [vm_compute; reflexivity|]. split; [reflexivity|].
  pose proof (range_in_file (H := malloc_always) (zs "bytes=-5") 12 (instr0 [] 0 0 0) _ ltac:(vm_compute; reflexivity))
    as (_ & _ & _ & _ & E). rewrite E. reflexivity.
Defined.

(** C25. The range that [http_OpenHttpGetEx] asks for is the one the web server serves:
    from the header it sends, a server of the same library takes the bytes from [lo] to
    [hi], cut at the end of the file. *)
Theorem client_range_served `{Malloc} lo hi len i :
  (forall n, alloc_ok n = true) -> 0 <= lo <= hi -> hi < 2 ^ 31 -> lo < len ->
  range_header lo hi = zs "Range: " ++ range_value lo hi ++ crlf
  /\ exists i', CreateHTTPRangeResponseHeader (Some (range_value lo hi)) len i = (HTTP_OK, i')
       /\ RangeOffset i' = lo /\ ReadSendSize i' = Z.min hi (len - 1) - lo + 1 /\ 0 < ReadSendSize i'
       /\ RangeHeader i' = content_range lo (Z.min hi (len - 1)) len.
Proof.
  intros Ha Hlo Hhi Hlen. split; [apply range_header_value|].
  rewrite (client_range Ha) by lia. unfold create_range. rewrite (proj2 (Z.ltb_ge len lo)) by lia.
  rewrite !(proj2 (Z.leb_le _ _)) by lia. cbn [andb]. rewrite range_taken_ok. eexists. split; [reflexivity|].
  cbn -[content_range]. destruct (Z.leb_spec len hi); split_and!; try lia; f_equal; lia.
Qed.
Lemma client_range_served_witness :
  exists i', CreateHTTPRangeResponseHeader (H := malloc_always) (Some (range_value 3 100)) 12 (instr0 [] 0 0 0) = (HTTP_OK, i')
    /\ ReadSendSize i' = 9.
Proof.
  destruct (client_range_served (H := malloc_always) 3 100 12 (instr0 [] 0 0 0)) as (_ & i' & E & _ & Hs & _);
    [done|lia..|]. exists i'. split; [exact E|rewrite Hs; reflexivity].
Defined.

End WebServer.

(** A range that starts at the end of the file is accepted and empty. *)
Example empty_range :
  let '(code, i) := CreateHTTPRangeResponseHeader (H := malloc_always) (Some (zs "bytes=12-20")) 12 (instr0 [] 0 0 0) in
  code = HTTP_OK /\ ReadSendSize i = 0 /\ RangeHeader i = content_range 12 11 12.
Proof. vm_compute. done. Qed.
