(* ===== verification/LinkedList.v ===== *)
(** * Linked lists and free lists

    [threadutil/src/FreeList.c] and [threadutil/src/LinkedList.c], with their
    pointers: the nodes live in a heap from addresses to nodes, 0 is [NULL], and
    every access to an address without a node is a fault ([None]).  A list has two
    sentinel nodes, [&list->head] and [&list->tail].  A block on a free list keeps
    the link to the next one in its first word, which is the [prev] field of a node
    (class [FreeElem]).  [malloc] is the class [Heap]: which address it returns,
    if any, is open; it never returns [NULL] for a block or a block in use.  [freed]
    is the sequence of the items passed to the [free_func] of the list.  The
    assertions are those of a release build (compiled away). *)

From S2P Require Import Prelude.
#[local] Open Scope Z_scope.

(** ** Free lists *)

Class Heap := {
  malloc : gset Z -> Z -> option Z;
  malloc_ok : forall used n p, malloc used n = Some p -> p <> 0 /\ p ∉ used
}.

(** The blocks of a free list: the first word, and the contents of fresh memory. *)
Class FreeElem (E : Type) := {
  get_link : E -> Z;
  set_link : Z -> E -> E;
  fresh_elem : E;
  get_set_link : forall p e, get_link (set_link p e) = p
}.

Record FreeList := Free {
  fl_head : Z;
  element_size : Z;
  maxFreeListLength : Z;
  freeListLength : Z
}.

Section FreeLists.
Context `{Heap} {E : Type} `{FreeElem E}.
Implicit Types (h : gmap Z E) (fl : FreeList).

Definition FreeListInit (elementSize maxLength : Z) : Z * FreeList :=
  (0, Free 0 elementSize maxLength 0).

Definition FreeListAlloc h fl : option (Z * gmap Z E * FreeList) :=
  if negb (fl_head fl =? 0) then
    e ← h !! fl_head fl;
    Some (fl_head fl, h, Free (get_link e) (element_size fl) (maxFreeListLength fl)
                              (freeListLength fl - 1))
  else
    match malloc (dom h) (element_size fl) with
    | None => Some (0, h, fl)
    | Some p => Some (p, <[p := fresh_elem]> h, fl)
    end.

(** [free]: the block is gone. *)
Definition free_block h (p : Z) : option (gmap Z E) :=
  if p =? 0 then Some h else match h !! p with Some _ => Some (delete p h) | None => None end.

Definition FreeListFree h fl (element : Z) : option (Z * gmap Z E * FreeList) :=
  if negb (element =? 0) && (freeListLength fl + 1 <? maxFreeListLength fl) then
    e ← h !! element;
    Some (0, <[element := set_link (fl_head fl) e]> h,
          Free element (element_size fl) (maxFreeListLength fl) (freeListLength fl + 1))
  else
    h ← free_block h element; Some (0, h, fl).

(** The loop of [FreeListDestroy]. *)
Fixpoint free_chain (fuel : nat) h (p : Z) : option (gmap Z E) :=
  match fuel with
  | O => None
  | S f =>
      if p =? 0 then Some h
      else e ← h !! p; h' ← free_block h p; free_chain f h' (get_link e)
  end.
Definition FreeListDestroy h fl : option (Z * gmap Z E * FreeList) :=
  h ← free_chain (S (size h)) h (fl_head fl);
  Some (0, h, Free 0 (element_size fl) (maxFreeListLength fl) 0).
End FreeLists.

(** ** Lists *)

Record ListNode := Node { prev : Z; next : Z; item : Z }.

#[export] Instance FreeElem_node : FreeElem ListNode := {
  get_link := prev;
  set_link p n := Node p (next n) (item n);
  fresh_elem := Node 85 85 85;
  get_set_link _ _ := eq_refl
}.

Definition FREELISTSIZE : Z := 100.
Definition sizeof_ListNode : Z := 24.

Record LinkedList := MkList {
  lhead : Z;
  ltail : Z;
  lsize : Z;
  freeNodeList : FreeList;
  free_func : bool;
  cmp_func : option (Z -> Z -> bool)
}.

Record lstate := St {
  nodes : gmap Z ListNode;
  lst : LinkedList;
  freed : list Z
}.

Definition set_free (fl : FreeList) (l : LinkedList) : LinkedList :=
  MkList (lhead l) (ltail l) (lsize l) fl (free_func l) (cmp_func l).
Definition set_size (n : Z) (l : LinkedList) : LinkedList :=
  MkList (lhead l) (ltail l) n (freeNodeList l) (free_func l) (cmp_func l).

(** Assignments to the fields of a node. *)
Definition set_prev (p v : Z) (h : gmap Z ListNode) : option (gmap Z ListNode) :=
  n ← h !! p; Some (<[p := Node v (next n) (item n)]> h).
Definition set_next (p v : Z) (h : gmap Z ListNode) : option (gmap Z ListNode) :=
  n ← h !! p; Some (<[p := Node (prev n) v (item n)]> h).
Definition set_item (p v : Z) (h : gmap Z ListNode) : option (gmap Z ListNode) :=
  n ← h !! p; Some (<[p := Node (prev n) (next n) v]> h).

Section Lists.
Context `{Heap}.

Definition freeListNode (node : Z) (s : lstate) : option (Z * lstate) :=
  '(r, h, fl) ← FreeListFree (nodes s) (freeNodeList (lst s)) node;
  Some (r, St h (set_free fl (lst s)) (freed s)).

Definition CreateListNode (x : Z) (s : lstate) : option (Z * lstate) :=
  '(temp, h, fl) ← FreeListAlloc (nodes s) (freeNodeList (lst s));
  let l := set_free fl (lst s) in
  if temp =? 0 then Some (temp, St h l (freed s))
  else
    h ← set_prev temp 0 h;
    h ← set_next temp 0 h;
    h ← set_item temp x h;
    Some (temp, St h l (freed s)).

(** A list at the addresses [hd] and [tl] of its sentinels. *)
Definition ListInit (hd tl : Z) (cmp : option (Z -> Z -> bool)) (free : bool)
    (h : gmap Z ListNode) : Z * lstate :=
  let '(retCode, fl) := FreeListInit sizeof_ListNode FREELISTSIZE in
  (retCode, St (<[tl := Node hd 0 0]> (<[hd := Node 0 tl 0]> h))
               (MkList hd tl 0 fl free cmp) []).

Definition ListAddAfter (x bnode : Z) (s : lstate) : option (Z * lstate) :=
  if bnode =? 0 then Some (0, s)
  else
    '(newNode, s) ← CreateListNode x s;
    if newNode =? 0 then Some (0, s)
    else
      b ← nodes s !! bnode;
      let temp := next b in
      h ← set_next bnode newNode (nodes s);
      h ← set_prev newNode bnode h;
      h ← set_next newNode temp h;
      h ← set_prev temp newNode h;
      Some (newNode, St h (set_size (lsize (lst s) + 1) (lst s)) (freed s)).

Definition ListAddBefore (x anode : Z) (s : lstate) : option (Z * lstate) :=
  if anode =? 0 then Some (0, s)
  else
    '(newNode, s) ← CreateListNode x s;
    if newNode =? 0 then Some (0, s)
    else
      a ← nodes s !! anode;
      let temp := prev a in
      h ← set_prev anode newNode (nodes s);
      h ← set_next newNode anode h;
      h ← set_prev newNode temp h;
      h ← set_next temp newNode h;
      Some (newNode, St h (set_size (lsize (lst s) + 1) (lst s)) (freed s)).

Definition ListAddHead (x : Z) (s : lstate) : option (Z * lstate) :=
  ListAddAfter x (lhead (lst s)) s.
Definition ListAddTail (x : Z) (s : lstate) : option (Z * lstate) :=
  ListAddBefore x (ltail (lst s)) s.

Definition ListDelNode (dnode : Z) (freeItem : bool) (s : lstate) : option (Z * lstate) :=
  if (dnode =? lhead (lst s)) || (dnode =? ltail (lst s)) || (dnode =? 0) then Some (0, s)
  else
    d ← nodes s !! dnode;
    let temp := item d in
    h ← set_next (prev d) (next d) (nodes s);
    d ← h !! dnode;
    h ← set_prev (next d) (prev d) h;
    '(_, s) ← freeListNode dnode (St h (lst s) (freed s));
    let s := St (nodes s) (set_size (lsize (lst s) - 1) (lst s)) (freed s) in
    if freeItem && free_func (lst s)
    then Some (0, St (nodes s) (lst s) (freed s ++ [temp]))
    else Some (temp, s).

(** The loop of [ListDestroy]. *)
Fixpoint destroy_loop (fuel : nat) (dnode : Z) (freeItem : bool) (s : lstate) : option lstate :=
  match fuel with
  | O => None
  | S f =>
      if dnode =? ltail (lst s) then Some s
      else
        d ← nodes s !! dnode;
        let temp := next d in
        '(_, s) ← ListDelNode dnode freeItem s;
        destroy_loop f temp freeItem s
  end.
Definition ListDestroy (freeItem : bool) (s : lstate) : option (Z * lstate) :=
  hd ← nodes s !! lhead (lst s);
  s ← destroy_loop (size (nodes s)) (next hd) freeItem s;
  '(_, h, fl) ← FreeListDestroy (nodes s) (freeNodeList (lst s));
  Some (0, St h (set_free fl (set_size 0 (lst s))) (freed s)).

Definition ListHead (s : lstate) : option Z :=
  if lsize (lst s) =? 0 then Some 0 else next <$> nodes s !! lhead (lst s).
Definition ListTail (s : lstate) : option Z :=
  if lsize (lst s) =? 0 then Some 0 else prev <$> nodes s !! ltail (lst s).
Definition ListNext (node : Z) (s : lstate) : option Z :=
  if node =? 0 then Some 0
  else n ← nodes s !! node; Some (if next n =? ltail (lst s) then 0 else next n).
Definition ListPrev (node : Z) (s : lstate) : option Z :=
  if node =? 0 then Some 0
  else n ← nodes s !! node; Some (if prev n =? lhead (lst s) then 0 else prev n).

Definition list_match (l : LinkedList) (x y : Z) : bool :=
  match cmp_func l with Some f => f x y | None => x =? y end.

(** The loop of [ListFind]. *)
Fixpoint find_loop (fuel : nat) (finger x : Z) (s : lstate) : option Z :=
  match fuel with
  | O => None
  | S f =>
      if finger =? ltail (lst s) then Some 0
      else
        n ← nodes s !! finger;
        if list_match (lst s) x (item n) then Some finger else find_loop f (next n) x s
  end.
Definition ListFind (start x : Z) (s : lstate) : option Z :=
  let start := if start =? 0 then lhead (lst s) else start in
  n ← nodes s !! start; find_loop (size (nodes s)) (next n) x s.

Definition ListSize (s : lstate) : Z := lsize (lst s).
End Lists.
