(* ===== verification/ListFacts.v ===== *)
(** * Linked lists: the pointers implement sequences

    The invariant [lrep] describes the heap of a list exactly: its nodes in order,
    their items, the blocks on its free list, the blocks it holds detached, and
    that every other address is as in [R].  The operations preserve it, never
    fault, and act on the sequence of items as list operations do. *)

From S2P Require Import Prelude LinkedList.
#[local] Open Scope Z_scope.

(** ** Fields of the nodes of a heap *)

Definition nxt (h : gmap Z ListNode) (p : Z) : option Z := next <$> h !! p.
Definition prv (h : gmap Z ListNode) (p : Z) : option Z := prev <$> h !! p.
Definition itm (h : gmap Z ListNode) (p : Z) : option Z := item <$> h !! p.

Definition with_field (f : Z -> option Z) (p v : Z) : Z -> option Z :=
  fun q => if decide (q = p) then Some v else f q.
Lemma with_field_eq f p v : with_field f p v p = Some v.
Proof. unfold with_field. by rewrite decide_True. Qed.
Lemma with_field_ne f p v q : q <> p -> with_field f p v q = f q.
Proof. intros. unfold with_field. by rewrite decide_False. Qed.

(** What an assignment to a field leaves: the three fields of all the nodes, and the
    rest of the heap. *)
Definition fields (h : gmap Z ListNode) (n p i : Z -> option Z) : Prop :=
  (forall q, nxt h q = n q) /\ (forall q, prv h q = p q) /\ (forall q, itm h q = i q).

Lemma fields_self h : fields h (nxt h) (prv h) (itm h).
Proof. done. Qed.

Ltac field_update :=
  unfold fields, nxt, prv, itm, with_field in *; intros; subst;
  repeat match goal with
  | |- context [<[?a := _]> _ !! ?b] => destruct (decide (b = a)) as [->|];
      [rewrite lookup_insert_eq|rewrite lookup_insert_ne by done]
  | |- context [decide (?a = ?a)] => rewrite (decide_True (P := a = a)) by done
  | H : ?a <> ?b |- context [decide (?a = ?b)] => rewrite (decide_False (P := a = b)) by done
  end; cbn; try done.

Lemma set_next_spec h p v i : itm h p = Some i ->
  exists h', set_next p v h = Some h' /\ fields h' (with_field (nxt h) p v) (prv h) (itm h)
    /\ forall q, q <> p -> h' !! q = h !! q.
Proof.
  unfold itm, set_next. destruct (h !! p) as [n|] eqn:E; [|done]. intros _. cbn.
  eexists. split; [done|]. split; [|intros; by rewrite lookup_insert_ne].
  split_and!; field_update; by rewrite E.
Qed.
Lemma set_prev_spec h p v i : itm h p = Some i ->
  exists h', set_prev p v h = Some h' /\ fields h' (nxt h) (with_field (prv h) p v) (itm h)
    /\ forall q, q <> p -> h' !! q = h !! q.
Proof.
  unfold itm, set_prev. destruct (h !! p) as [n|] eqn:E; [|done]. intros _. cbn.
  eexists. split; [done|]. split; [|intros; by rewrite lookup_insert_ne].
  split_and!; field_update; by rewrite E.
Qed.
Lemma set_item_spec h p v i : itm h p = Some i ->
  exists h', set_item p v h = Some h' /\ fields h' (nxt h) (prv h) (with_field (itm h) p v)
    /\ forall q, q <> p -> h' !! q = h !! q.
Proof.
  unfold itm, set_item. destruct (h !! p) as [n|] eqn:E; [|done]. intros _. cbn.
  eexists. split; [done|]. split; [|intros; by rewrite lookup_insert_ne].
  split_and!; field_update; by rewrite E.
Qed.

Lemma itm_lookup h p : is_Some (h !! p) -> exists i, itm h p = Some i.
Proof. intros [n E]. exists (item n). unfold itm. by rewrite E. Qed.
Lemma itm_is_Some h p i : itm h p = Some i -> is_Some (h !! p).
Proof. unfold itm. destruct (h !! p); [by eexists|done]. Qed.

(** ** Chains of nodes *)

Definition link (h : gmap Z ListNode) (a b : Z) : Prop := nxt h a = Some b /\ prv h b = Some a.

Fixpoint linked (h : gmap Z ListNode) (c : list Z) : Prop :=
  match c with
  | a :: (b :: _) as r => link h a b /\ linked h r
  | _ => True
  end.

Lemma linked_app h l1 a l2 : linked h (l1 ++ a :: l2) <-> linked h (l1 ++ [a]) /\ linked h (a :: l2).
Proof.
  induction l1 as [|x l1 IH]; [by cbn; intuition|].
  destruct l1 as [|y l1]; cbn in *; [|by rewrite IH; intuition].
  destruct l2; cbn; intuition.
Qed.

Lemma elem_removelast (q : Z) l : q ∈ removelast l -> q ∈ l.
Proof.
  induction l as [|b [|c l] IH]; [done|by intros Hq%not_elem_of_nil|].
  intros [->|Hq]%elem_of_cons; [by left|right; by apply IH].
Qed.
Lemma elem_tail_snoc (q a : Z) l : q ∈ tail (l ++ [a]) -> q ∈ l \/ q = a.
Proof. destruct l; cbn; [by intros Hq%not_elem_of_nil|set_solver]. Qed.

Lemma linked_frame h h' c :
  linked h c -> (forall p, p ∈ removelast c -> nxt h' p = nxt h p) ->
  (forall p, p ∈ tail c -> prv h' p = prv h p) -> linked h' c.
Proof.
  induction c as [|a [|b c] IH]; intros Hl Hn Hp; [done|done|].
  destruct Hl as [[L1 L2] Hl]. split.
  - split; [rewrite Hn; [done|by left]|rewrite Hp; [done|by left]].
  - apply IH; [done| |].
    + intros p Hin. apply Hn. by right.
    + intros p Hin. apply Hp. cbn in *. destruct c; [by apply not_elem_of_nil in Hin|by right].
Qed.

Lemma linked_insert h h' l1 a p b l2 :
  NoDup (p :: l1 ++ a :: b :: l2) -> linked h (l1 ++ a :: b :: l2) ->
  (forall q, nxt h' q = with_field (with_field (nxt h) a p) p b q) ->
  (forall q, prv h' q = with_field (with_field (prv h) b p) p a q) ->
  linked h' (l1 ++ a :: p :: b :: l2).
Proof.
  intros Hnd Hl Hn Hp. apply linked_app in Hl as [Hl1 Hl2]. cbn in Hl2. destruct Hl2 as [_ Hl2].
  apply NoDup_cons in Hnd as [Hnp Hnd]. rewrite !elem_of_app, !elem_of_cons in Hnp.
  apply NoDup_app in Hnd as (Hd1 & Hd2 & Hd3).
  apply NoDup_cons in Hd3 as [Hd3 Hd4]. apply NoDup_cons in Hd4 as [Hd4 Hd5].
  assert (a <> p /\ b <> p /\ a <> b) as (Hap & Hbp & Hab) by (split_and!; intros ->; set_solver).
  apply linked_app. split; [|split; [|split]].
  - eapply linked_frame; [exact Hl1| |]; intros q Hq.
    + rewrite removelast_last in Hq.
      rewrite Hn, !with_field_ne; [done|intros ->; by eapply Hd2, elem_of_cons; [|left]|set_solver].
    + apply elem_tail_snoc in Hq.
      rewrite Hp, !with_field_ne; [done| |]; intros ->; set_solver.
  - split; [rewrite Hn, with_field_ne by done; apply with_field_eq|rewrite Hp; apply with_field_eq].
  - split; [rewrite Hn; apply with_field_eq|rewrite Hp, with_field_ne by done; apply with_field_eq].
  - eapply linked_frame; [exact Hl2| |]; intros q Hq.
    + apply elem_removelast in Hq.
      rewrite Hn, !with_field_ne; [done| |]; intros ->; set_solver.
    + cbn in Hq. rewrite Hp, !with_field_ne; [done| |]; intros ->; set_solver.
Qed.

Lemma linked_delete h h' l1 a p b l2 :
  NoDup (l1 ++ a :: p :: b :: l2) -> linked h (l1 ++ a :: p :: b :: l2) ->
  (forall q, q <> p -> nxt h' q = with_field (nxt h) a b q) ->
  (forall q, q <> p -> prv h' q = with_field (prv h) b a q) ->
  linked h' (l1 ++ a :: b :: l2).
Proof.
  intros Hnd Hl Hn Hp. apply linked_app in Hl as [Hl1 Hl2]. cbn in Hl2. destruct Hl2 as (_ & _ & Hl2).
  apply NoDup_app in Hnd as (Hd1 & Hd2 & Hd3). apply NoDup_cons in Hd3 as [Hd3 Hd4].
  apply NoDup_cons in Hd4 as [Hd4 Hd5]. apply NoDup_cons in Hd5 as [Hd5 Hd6].
  assert (a <> p /\ b <> p /\ a <> b) as (Hap & Hbp & Hab) by (split_and!; intros ->; set_solver).
  apply linked_app. split; [|split].
  - eapply linked_frame; [exact Hl1| |]; intros q Hq.
    + rewrite removelast_last in Hq. rewrite Hn, with_field_ne; [done| |]; intros ->; set_solver.
    + apply elem_tail_snoc in Hq.
      rewrite Hp, with_field_ne; [done| |]; intros ->; set_solver.
  - split; [rewrite Hn by done; apply with_field_eq|rewrite Hp by done; apply with_field_eq].
  - eapply linked_frame; [exact Hl2| |]; intros q Hq.
    + apply elem_removelast in Hq.
      rewrite Hn, with_field_ne; [done| |]; intros ->; set_solver.
    + cbn in Hq. rewrite Hp, with_field_ne; [done| |]; intros ->; set_solver.
Qed.

(** ** The heap of a list *)

Fixpoint fchain (h : gmap Z ListNode) (p : Z) (fs : list Z) : Prop :=
  match fs with
  | [] => p = 0
  | f :: fs => p = f /\ exists q, prv h f = Some q /\ fchain h q fs
  end.

Lemma fchain_frame h h' p fs :
  fchain h p fs -> (forall q, q ∈ fs -> prv h' q = prv h q) -> fchain h' p fs.
Proof.
  revert p. induction fs as [|f fs IH]; intros p; [done|]. cbn.
  intros (-> & q & Hq & Hf) Hp. split; [done|]. exists q. split; [rewrite Hp; [done|by left]|].
  apply IH; [done|]. intros r Hr. apply Hp. by right.
Qed.

Definition chain (l : LinkedList) (ps : list Z) : list Z := lhead l :: ps ++ [ltail l].

(** Nodes [ps] with items [xs], free blocks [fs], detached nodes [ds]; the rest of
    the heap is [R]. *)
Record lrep (R : gmap Z ListNode) (s : lstate) (ps xs fs ds : list Z) : Prop := {
  lr_nodup : NoDup (chain (lst s) ps ++ fs ++ ds);
  lr_zero : 0 ∉ chain (lst s) ps ++ fs ++ ds;
  lr_link : linked (nodes s) (chain (lst s) ps);
  lr_item : Forall2 (fun p x => itm (nodes s) p = Some x) ps xs;
  lr_has : forall p, p ∈ chain (lst s) ps ++ fs ++ ds -> exists i, itm (nodes s) p = Some i;
  lr_free : fchain (nodes s) (fl_head (freeNodeList (lst s))) fs;
  lr_flen : freeListLength (freeNodeList (lst s)) = zlen fs;
  lr_fmax : maxFreeListLength (freeNodeList (lst s)) = FREELISTSIZE;
  lr_full : zlen fs < FREELISTSIZE;
  lr_size : lsize (lst s) = zlen ps;
  lr_frame : forall p, p ∉ chain (lst s) ps ++ fs ++ ds -> nodes s !! p = R !! p;
  lr_own : forall p, p ∈ chain (lst s) ps ++ fs ++ ds -> R !! p = None
}.

Lemma lstate_eta s : St (nodes s) (set_free (freeNodeList (lst s)) (lst s)) (freed s) = s.
Proof. by destruct s as [h [? ? ? ? ? ?] f]. Qed.

Lemma Forall2_itm_frame h h' ps xs :
  Forall2 (fun p x => itm h p = Some x) ps xs -> (forall p, p ∈ ps -> itm h' p = itm h p) ->
  Forall2 (fun p x => itm h' p = Some x) ps xs.
Proof.
  intros Hf Hi. induction Hf as [|p x ps xs Hpx Hf IH]; constructor.
  - rewrite Hi; [done|by left].
  - apply IH. intros q Hq. apply Hi. by right.
Qed.

Lemma ListInit_spec hd tl cmp free R :
  hd <> 0 -> tl <> 0 -> hd <> tl -> R !! hd = None -> R !! tl = None ->
  lrep R (ListInit hd tl cmp free R).2 [] [] [] [] /\ (ListInit hd tl cmp free R).1 = 0.
Proof.
  intros H1 H2 H3 R1 R2. split; [|done].
  split; cbn; try done; unfold chain; cbn.
  - repeat constructor; set_solver.
  - set_solver.
  - split; [|done]. split; unfold nxt, prv.
    + rewrite lookup_insert_ne by done. by rewrite lookup_insert_eq.
    + by rewrite lookup_insert_eq.
  - intros p Hp. unfold itm. destruct (decide (p = tl)) as [->|]; [rewrite lookup_insert_eq; by eexists|].
    rewrite lookup_insert_ne by done. assert (p = hd) as -> by set_solver.
    rewrite lookup_insert_eq. by eexists.
  - intros p Hp. rewrite !lookup_insert_ne by set_solver. done.
  - intros p Hp. assert (p = hd \/ p = tl) as [-> | ->] by set_solver; done.
Qed.

Lemma agree_fields h h' p : h' !! p = h !! p ->
  nxt h' p = nxt h p /\ prv h' p = prv h p /\ itm h' p = itm h p.
Proof. unfold nxt, prv, itm. by intros ->. Qed.

Lemma elem_chain l ps p : p ∈ ps -> p ∈ chain l ps.
Proof. unfold chain. set_solver. Qed.

(** A change of the free list and of the detached nodes. *)
Lemma lrep_refree R s ps xs fs ds h' fl' fr' fs' ds' :
  lrep R s ps xs fs ds ->
  NoDup (chain (lst s) ps ++ fs' ++ ds') -> 0 ∉ fs' ++ ds' ->
  (forall p, p ∈ chain (lst s) ps -> h' !! p = nodes s !! p) ->
  (forall p, p ∈ fs' ++ ds' -> exists i, itm h' p = Some i) ->
  fchain h' (fl_head fl') fs' -> freeListLength fl' = zlen fs' ->
  maxFreeListLength fl' = FREELISTSIZE -> zlen fs' < FREELISTSIZE ->
  (forall p, p ∉ chain (lst s) ps ++ fs' ++ ds' -> h' !! p = R !! p) ->
  (forall p, p ∈ fs' ++ ds' -> R !! p = None) ->
  lrep R (St h' (set_free fl' (lst s)) fr') ps xs fs' ds'.
Proof.
  intros Hr Hnd H0 Hc Hh Hf Hl Hm Hfull Hfr Ho.
  assert (Hz : 0 ∉ chain (lst s) ps) by (pose proof (lr_zero _ _ _ _ _ _ Hr); set_solver).
  split; cbn [lst nodes]; try done.
  - change (chain (set_free fl' (lst s)) ps) with (chain (lst s) ps). set_solver.
  - eapply linked_frame; [apply Hr| |]; intros p Hp; apply agree_fields, Hc;
      [by apply elem_removelast|by right].
  - eapply Forall2_itm_frame; [apply Hr|]. intros p Hp. by apply agree_fields, Hc, elem_chain.
  - intros p Hp. apply elem_of_app in Hp as [Hp|Hp]; [|by apply Hh].
    destruct (lr_has _ _ _ _ _ _ Hr p) as [i Hi]; [apply elem_of_app; by left|].
    exists i. rewrite <- Hi. by apply agree_fields, Hc.
  - apply Hr.
  - intros p Hp. apply elem_of_app in Hp as [Hp|Hp]; [|by apply Ho].
    apply (lr_own _ _ _ _ _ _ Hr). apply elem_of_app. by left.
Qed.

Lemma NoDup_chain R s ps xs fs ds : lrep R s ps xs fs ds -> NoDup (chain (lst s) ps).
Proof. intros Hr. apply lr_nodup, NoDup_app in Hr. apply Hr. Qed.

Section Specs.
Context `{Heap}.

Lemma alloc_node x h p i :
  itm h p = Some i -> exists h1 h2 h3, set_prev p 0 h = Some h1 /\ set_next p 0 h1 = Some h2
    /\ set_item p x h2 = Some h3 /\ itm h3 p = Some x /\ forall q, q <> p -> h3 !! q = h !! q.
Proof.
  intros Hi. destruct (set_prev_spec h p 0 i Hi) as (h1 & E1 & (_ & _ & I1) & F1).
  destruct (set_next_spec h1 p 0 i) as (h2 & E2 & (_ & _ & I2) & F2); [by rewrite I1|].
  destruct (set_item_spec h2 p x i) as (h3 & E3 & (_ & _ & I3) & F3); [by rewrite I2, I1|].
  exists h1, h2, h3. split_and!; try done; [rewrite I3; apply with_field_eq|].
  intros q Hq. by rewrite F3, F2, F1.
Qed.

Definition out_of_memory (s : lstate) : Prop := exists n, malloc (dom (nodes s)) n = None.

Lemma CreateListNode_spec R s ps xs fs x :
  lrep R s ps xs fs [] ->
  (CreateListNode x s = Some (0, s) /\ out_of_memory s) \/
  exists p s' fs', CreateListNode x s = Some (p, s') /\ p <> 0 /\ lrep R s' ps xs fs' [p]
    /\ itm (nodes s') p = Some x /\ lst s' = set_free (freeNodeList (lst s')) (lst s)
    /\ freed s' = freed s.
Proof.
  intros Hr. pose proof (lr_nodup _ _ _ _ _ _ Hr) as Hnd. pose proof (lr_zero _ _ _ _ _ _ Hr) as H0.
  pose proof (lr_free _ _ _ _ _ _ Hr) as Hf. pose proof (lr_flen _ _ _ _ _ _ Hr) as Hl.
  pose proof (lr_full _ _ _ _ _ _ Hr) as Hfull. pose proof (lr_own _ _ _ _ _ _ Hr) as Ho.
  unfold CreateListNode, FreeListAlloc. set (fl := freeNodeList (lst s)) in *.
  destruct fs as [|p fs].
  - cbn in Hf. rewrite Hf. cbn [Z.eqb negb]. destruct (malloc _ _) as [p|] eqn:Em.
    2: { left. split; [cbn; unfold fl; by rewrite lstate_eta|by eexists]. }
    right. apply malloc_ok in Em as [Hp0 Hpd]. apply not_elem_of_dom in Hpd.
    destruct (alloc_node x (<[p := fresh_elem]> (nodes s)) p 85)
      as (h1 & h2 & h3 & E1 & E2 & E3 & I3 & F3); [unfold itm; by rewrite lookup_insert_eq|].
    assert (Hpc : p ∉ chain (lst s) ps).
    { intros Hp. destruct (lr_has _ _ _ _ _ _ Hr p) as [i Hi]; [set_solver|].
      apply itm_is_Some in Hi as [n Hn]. by rewrite Hn in Hpd. }
    cbn [mbind option_bind]. rewrite (proj2 (Z.eqb_neq p 0)) by done. rewrite E1. cbn [mbind option_bind].
    rewrite E2. cbn [mbind option_bind]. rewrite E3. cbn [mbind option_bind].
    exists p, (St h3 (set_free fl (lst s)) (freed s)), []. split_and!; try done.
    eapply lrep_refree; try done.
    + cbn [app]. apply NoDup_app. split_and!; [by eapply NoDup_chain| |apply NoDup_singleton].
      intros q Hq Hq'. apply list_elem_of_singleton in Hq' as ->. done.
    + set_solver.
    + intros q Hq. rewrite F3, lookup_insert_ne by (intros ->; done). done.
    + intros q Hq. cbn in Hq. apply list_elem_of_singleton in Hq as ->. by exists x.
    + apply Hr.
    + intros q Hq. rewrite F3, lookup_insert_ne by (intros ->; set_solver).
      apply (lr_frame _ _ _ _ _ _ Hr). set_solver.
    + intros q Hq. cbn in Hq. apply list_elem_of_singleton in Hq as ->.
      rewrite <- (lr_frame _ _ _ _ _ _ Hr p); [done|]. set_solver.
  - cbn in Hf. destruct Hf as (Ep & q & Hq & Hf). rewrite Ep.
    assert (p <> 0) as Hp0 by (intros ->; set_solver).
    rewrite (proj2 (Z.eqb_neq p 0)) by done. cbn [negb].
    destruct (lr_has _ _ _ _ _ _ Hr p) as [i Hi]; [set_solver|].
    unfold prv in Hq. destruct (nodes s !! p) as [e|] eqn:Ee; [|done]. cbn in Hq.
    injection Hq as <-. cbn [mbind option_bind]. rewrite (proj2 (Z.eqb_neq p 0)) by done.
    right. destruct (alloc_node x (nodes s) p i Hi) as (h1 & h2 & h3 & E1 & E2 & E3 & I3 & F3).
    rewrite E1. cbn [mbind option_bind]. rewrite E2. cbn [mbind option_bind]. rewrite E3.
    cbn [mbind option_bind].
    rewrite app_nil_r in *. apply NoDup_app in Hnd as (N1 & N2 & N3). apply NoDup_cons in N3 as [N3 N4].
    revert Hl Hfull. zlen_norm. intros Hl Hfull.
    eexists p, _, fs. split_and!; [done|done| |done|done|done].
    eapply lrep_refree; try done.
    + apply NoDup_app. split_and!; [done|set_solver|]. apply NoDup_app.
      split_and!; [done|intros r Hr1 Hr2; set_solver|apply NoDup_singleton].
    + set_solver.
    + intros r Hr'. apply F3. intros ->. set_solver.
    + intros r Hr'. destruct (decide (r = p)) as [->|]; [by exists x|].
      destruct (lr_has _ _ _ _ _ _ Hr r) as [j Hj]; [set_solver|]. exists j.
      rewrite <- Hj. by apply agree_fields, F3.
    + cbn. eapply fchain_frame; [exact Hf|]. intros r Hr'. apply agree_fields, F3. intros ->. done.
    + cbn. lia.
    + apply Hr.
    + lia.
    + intros r Hr'. rewrite F3 by (intros ->; set_solver). apply (lr_frame _ _ _ _ _ _ Hr). set_solver.
    + intros r Hr'. apply Ho. set_solver.
Qed.

(** ** Insertion and removal of a node *)

(** Everything but the heap, the free list and the size. *)
Definition same_list (s s' : lstate) : Prop :=
  cmp_func (lst s') = cmp_func (lst s) /\ free_func (lst s') = free_func (lst s)
  /\ lhead (lst s') = lhead (lst s) /\ ltail (lst s') = ltail (lst s).

Lemma chain_split l ps1 ps2 l1 a b l2 :
  lhead l :: ps1 = l1 ++ [a] -> ps2 ++ [ltail l] = b :: l2 ->
  chain l (ps1 ++ ps2) = l1 ++ a :: b :: l2.
Proof.
  intros E1 E2. unfold chain. rewrite <- app_assoc, E2, app_comm_cons, E1, <- app_assoc. done.
Qed.
Lemma chain_insert l ps1 p ps2 l1 a b l2 :
  lhead l :: ps1 = l1 ++ [a] -> ps2 ++ [ltail l] = b :: l2 ->
  chain l (ps1 ++ p :: ps2) = l1 ++ a :: p :: b :: l2.
Proof.
  intros E1 E2. unfold chain. rewrite <- app_assoc. cbn [app]. rewrite E2.
  rewrite app_comm_cons, E1, <- app_assoc. done.
Qed.

Lemma link_in R s ps1 ps2 xs1 xs2 fs p x l1 a b l2 h' fr :
  lrep R s (ps1 ++ ps2) (xs1 ++ xs2) fs [p] -> length ps1 = length xs1 ->
  itm (nodes s) p = Some x ->
  lhead (lst s) :: ps1 = l1 ++ [a] -> ps2 ++ [ltail (lst s)] = b :: l2 ->
  (forall q, nxt h' q = with_field (with_field (nxt (nodes s)) a p) p b q) ->
  (forall q, prv h' q = with_field (with_field (prv (nodes s)) b p) p a q) ->
  (forall q, itm h' q = itm (nodes s) q) ->
  (forall q, q <> a -> q <> b -> q <> p -> h' !! q = nodes s !! q) ->
  lrep R (St h' (set_size (lsize (lst s) + 1) (lst s)) fr)
         (ps1 ++ p :: ps2) (xs1 ++ x :: xs2) fs [].
Proof.
  intros Hr Hlen Hx E1 E2 Hn Hp Hi Hfr.
  pose proof (lr_nodup _ _ _ _ _ _ Hr) as Hnd. pose proof (lr_zero _ _ _ _ _ _ Hr) as H0.
  pose proof (chain_split _ _ _ _ _ _ _ E1 E2) as C.
  pose proof (chain_insert _ _ p _ _ _ _ _ E1 E2) as C'. rewrite C in Hnd, H0.
  assert (Hperm : l1 ++ a :: p :: b :: l2 ++ fs ++ [] ≡ₚ (l1 ++ a :: b :: l2) ++ fs ++ [p])
    by (rewrite app_nil_r; solve_Permutation).
  assert (Hin : forall q, q ∈ (l1 ++ a :: p :: b :: l2) ++ fs ++ [] <->
                          q ∈ (l1 ++ a :: b :: l2) ++ fs ++ [p]) by set_solver.
  split; cbn [lst nodes freeNodeList set_size lsize];
    change (chain (set_size _ (lst s)) (ps1 ++ p :: ps2)) with (chain (lst s) (ps1 ++ p :: ps2));
    rewrite ?C'.
  - rewrite <- app_assoc. cbn [app]. by rewrite Hperm.
  - by rewrite Hin.
  - eapply linked_insert; [|rewrite <- C; apply Hr|done|done].
    apply NoDup_app in Hnd as (N1 & N2 & N3). apply NoDup_cons. split; [|done].
    intros Hp'. apply (N2 _ Hp'). set_solver.
  - pose proof (lr_item _ _ _ _ _ _ Hr) as HI. apply Forall2_app_inv in HI as [HI1 HI2]; [|done].
    assert (HF : forall ps xs, Forall2 (fun q y => itm (nodes s) q = Some y) ps xs ->
      Forall2 (fun q y => itm h' q = Some y) ps xs).
    { intros. by eapply Forall2_itm_frame. }
    apply Forall2_app; [by apply HF|constructor; [by rewrite Hi|by apply HF]].
  - intros q Hq. rewrite Hi. apply (lr_has _ _ _ _ _ _ Hr). rewrite C. by apply Hin.
  - eapply fchain_frame; [apply Hr|]. intros q Hq. rewrite Hp.
    apply NoDup_app in Hnd as (N1 & N2 & N3). apply NoDup_app in N3 as (N3 & N4 & N5).
    rewrite !with_field_ne; [done| |].
    + intros ->. apply (N2 b); set_solver.
    + intros ->. apply (N4 p Hq). set_solver.
  - apply Hr.
  - apply Hr.
  - apply Hr.
  - rewrite (lr_size _ _ _ _ _ _ Hr). zlen_norm. lia.
  - intros q Hq. rewrite Hin in Hq. rewrite <- (lr_frame _ _ _ _ _ _ Hr) by (rewrite C; done).
    apply Hfr; intros ->; set_solver.
  - intros q Hq. apply (lr_own _ _ _ _ _ _ Hr). rewrite C. by apply Hin.
Qed.

(** The neighbours of an insertion point. *)
Lemma neighbours_at l ps1 ps2 : exists l1 a b l2,
  lhead l :: ps1 = l1 ++ [a] /\ ps2 ++ [ltail l] = b :: l2.
Proof.
  destruct (exists_last (l := lhead l :: ps1)) as (l1 & a & E1); [done|].
  exists l1, a. destruct ps2 as [|b ps2]; [by exists (ltail l), []|].
  exists b, (ps2 ++ [ltail l]). done.
Qed.

Lemma link_at R s ps xs fs ds l1 a b l2 :
  lrep R s ps xs fs ds -> chain (lst s) ps = l1 ++ a :: b :: l2 ->
  nxt (nodes s) a = Some b /\ prv (nodes s) b = Some a
  /\ (exists i, itm (nodes s) a = Some i) /\ (exists j, itm (nodes s) b = Some j)
  /\ a <> 0 /\ b <> 0 /\ a <> b.
Proof.
  intros Hr C. pose proof (lr_link _ _ _ _ _ _ Hr) as Hl. rewrite C in Hl.
  apply linked_app in Hl as [_ Hl]. destruct Hl as [[L1 L2] _].
  pose proof (NoDup_chain _ _ _ _ _ _ Hr) as Hnd. rewrite C in Hnd.
  pose proof (lr_zero _ _ _ _ _ _ Hr) as H0. rewrite C in H0.
  pose proof (lr_has _ _ _ _ _ _ Hr) as Hh. rewrite C in Hh.
  split_and!; try done; try (apply Hh; set_solver); try (intros ->; set_solver).
  apply NoDup_app in Hnd as (_ & _ & Hnd). apply NoDup_cons in Hnd as [Hnd _].
  intros ->. apply Hnd. by left.
Qed.

Lemma detached_ne R s ps xs fs p :
  lrep R s ps xs fs [p] -> forall q, q ∈ chain (lst s) ps -> p <> q.
Proof.
  intros Hr q Hq ->. pose proof (lr_nodup _ _ _ _ _ _ Hr) as N.
  apply NoDup_app in N as (_ & N & _). apply (N q Hq). set_solver.
Qed.

Lemma ListAddAfter_spec R s ps1 ps2 xs1 xs2 fs x l1 a :
  lrep R s (ps1 ++ ps2) (xs1 ++ xs2) fs [] -> length ps1 = length xs1 ->
  lhead (lst s) :: ps1 = l1 ++ [a] ->
  (ListAddAfter x a s = Some (0, s) /\ out_of_memory s) \/
  exists p s' fs', ListAddAfter x a s = Some (p, s') /\ p <> 0
    /\ lrep R s' (ps1 ++ p :: ps2) (xs1 ++ x :: xs2) fs' []
    /\ freed s' = freed s /\ same_list s s'.
Proof.
  intros Hr Hlen E1. unfold ListAddAfter.
  destruct (neighbours_at (lst s) [] ps2) as (_ & _ & b & l2 & _ & E2).
  destruct (link_at _ _ _ _ _ _ _ _ _ _ Hr (chain_split _ _ _ _ _ _ _ E1 E2))
    as (_ & _ & _ & _ & Ha0 & _).
  rewrite (proj2 (Z.eqb_neq a 0)) by done.
  destruct (CreateListNode_spec R s _ _ fs x Hr) as [[-> Ho]|(p & s1 & fs' & -> & Hp0 & Hr1 & Hi & Hl & Hfr)];
    [by left|]. right. cbn [mbind option_bind]. rewrite (proj2 (Z.eqb_neq p 0)) by done.
  assert (Eh : lhead (lst s1) = lhead (lst s) /\ ltail (lst s1) = ltail (lst s)) by (by rewrite Hl).
  destruct Eh as [Eh Et]. rewrite <- Eh in E1. rewrite <- Et in E2.
  destruct (link_at _ _ _ _ _ _ _ _ _ _ Hr1 (chain_split _ _ _ _ _ _ _ E1 E2))
    as (L1 & L2 & [i Ia] & [j Ib] & _ & Hb0 & Hab).
  pose proof (detached_ne _ _ _ _ _ _ Hr1) as Hne. rewrite (chain_split _ _ _ _ _ _ _ E1 E2) in Hne.
  assert (Hpa : p <> a) by (apply Hne; set_solver).
  assert (Hpb : p <> b) by (apply Hne; set_solver).
  unfold nxt in L1. destruct (nodes s1 !! a) as [na|] eqn:Ea; [|done]. cbn in L1.
  injection L1 as L1. cbn [mbind option_bind]. rewrite L1.
  destruct (set_next_spec (nodes s1) a p i Ia) as (h1 & -> & (A1 & A2 & A3) & F1). cbn [mbind option_bind].
  destruct (set_prev_spec h1 p a x) as (h2 & -> & (B1 & B2 & B3) & F2); [by rewrite A3|]. cbn [mbind option_bind].
  destruct (set_next_spec h2 p b x) as (h3 & -> & (C1 & C2 & C3) & F3); [by rewrite B3, A3|]. cbn [mbind option_bind].
  destruct (set_prev_spec h3 b p j) as (h4 & -> & (D1 & D2 & D3) & F4); [by rewrite C3, B3, A3|]. cbn [mbind option_bind].
  eexists p, _, fs'. split_and!; [done|done| |done|unfold same_list; by rewrite Hl].
  eapply link_in; try done.
  - intros q. rewrite D1, C1. unfold with_field. rewrite B1, A1. unfold with_field. done.
  - intros q. rewrite D2. unfold with_field. rewrite C2, B2. unfold with_field. rewrite A2.
    repeat case_decide; congruence.
  - intros q. by rewrite D3, C3, B3, A3.
  - intros q Q1 Q2 Q3. by rewrite F4, F3, F2, F1.
Qed.

Lemma ListAddBefore_spec R s ps1 ps2 xs1 xs2 fs x b l2 :
  lrep R s (ps1 ++ ps2) (xs1 ++ xs2) fs [] -> length ps1 = length xs1 ->
  ps2 ++ [ltail (lst s)] = b :: l2 ->
  (ListAddBefore x b s = Some (0, s) /\ out_of_memory s) \/
  exists p s' fs', ListAddBefore x b s = Some (p, s') /\ p <> 0
    /\ lrep R s' (ps1 ++ p :: ps2) (xs1 ++ x :: xs2) fs' []
    /\ freed s' = freed s /\ same_list s s'.
Proof.
  intros Hr Hlen E2. unfold ListAddBefore.
  destruct (neighbours_at (lst s) ps1 []) as (l1 & a & _ & _ & E1 & _).
  destruct (link_at _ _ _ _ _ _ _ _ _ _ Hr (chain_split _ _ _ _ _ _ _ E1 E2))
    as (_ & _ & _ & _ & _ & Hb0 & _).
  rewrite (proj2 (Z.eqb_neq b 0)) by done.
  destruct (CreateListNode_spec R s _ _ fs x Hr) as [[-> Ho]|(p & s1 & fs' & -> & Hp0 & Hr1 & Hi & Hl & Hfr)];
    [by left|]. right. cbn [mbind option_bind]. rewrite (proj2 (Z.eqb_neq p 0)) by done.
  assert (Eh : lhead (lst s1) = lhead (lst s) /\ ltail (lst s1) = ltail (lst s)) by (by rewrite Hl).
  destruct Eh as [Eh Et]. rewrite <- Eh in E1. rewrite <- Et in E2.
  destruct (link_at _ _ _ _ _ _ _ _ _ _ Hr1 (chain_split _ _ _ _ _ _ _ E1 E2))
    as (L1 & L2 & [i Ia] & [j Ib] & Ha0 & _ & Hab).
  pose proof (detached_ne _ _ _ _ _ _ Hr1) as Hne. rewrite (chain_split _ _ _ _ _ _ _ E1 E2) in Hne.
  assert (Hpa : p <> a) by (apply Hne; set_solver).
  assert (Hpb : p <> b) by (apply Hne; set_solver).
  unfold prv in L2. destruct (nodes s1 !! b) as [nb|] eqn:Eb; [|done]. cbn in L2.
  injection L2 as L2. cbn [mbind option_bind]. rewrite L2.
  destruct (set_prev_spec (nodes s1) b p j Ib) as (h1 & -> & (A1 & A2 & A3) & F1). cbn [mbind option_bind].
  destruct (set_next_spec h1 p b x) as (h2 & -> & (B1 & B2 & B3) & F2); [by rewrite A3|]. cbn [mbind option_bind].
  destruct (set_prev_spec h2 p a x) as (h3 & -> & (C1 & C2 & C3) & F3); [by rewrite B3, A3|]. cbn [mbind option_bind].
  destruct (set_next_spec h3 a p i) as (h4 & -> & (D1 & D2 & D3) & F4); [by rewrite C3, B3, A3|]. cbn [mbind option_bind].
  eexists p, _, fs'. split_and!; [done|done| |done|unfold same_list; by rewrite Hl].
  eapply link_in; try done.
  - intros q. rewrite D1. unfold with_field. rewrite C1, B1. unfold with_field. rewrite A1.
    repeat case_decide; congruence.
  - intros q. rewrite D2, C2. unfold with_field. rewrite B2, A2. unfold with_field. done.
  - intros q. by rewrite D3, C3, B3, A3.
  - intros q Q1 Q2 Q3. by rewrite F4, F3, F2, F1.
Qed.

Lemma FreeListFree_spec R s ps xs fs p fr :
  lrep R s ps xs fs [p] ->
  exists h fl fs', FreeListFree (nodes s) (freeNodeList (lst s)) p = Some (0, h, fl)
    /\ lrep R (St h (set_free fl (lst s)) fr) ps xs fs' [].
Proof.
  intros Hr. pose proof (lr_nodup _ _ _ _ _ _ Hr) as Hnd. pose proof (lr_zero _ _ _ _ _ _ Hr) as H0.
  pose proof (detached_ne _ _ _ _ _ _ Hr) as Hne.
  destruct (lr_has _ _ _ _ _ _ Hr p) as [i Hi]; [set_solver|].
  assert (Hp0 : p <> 0) by (intros ->; set_solver).
  apply NoDup_app in Hnd as (N1 & N2 & N3). apply NoDup_app in N3 as (N3 & N4 & _).
  assert (Hpf : p ∉ fs) by (intros Hp; apply (N4 p Hp); set_solver).
  destruct (itm_is_Some _ _ _ Hi) as [n Hn].
  pose proof (lr_flen _ _ _ _ _ _ Hr) as Hl. pose proof (lr_fmax _ _ _ _ _ _ Hr) as Hm.
  unfold FreeListFree. rewrite (proj2 (Z.eqb_neq p 0)), Hl, Hm by done. cbn [negb andb].
  destruct (Z.ltb_spec (zlen fs + 1) FREELISTSIZE) as [Hlt|Hge].
  - rewrite Hn. cbn [mbind option_bind]. eexists _, _, (p :: fs). split; [done|].
    eapply lrep_refree; [exact Hr|..].
    + apply NoDup_app. split_and!; [done| |rewrite app_nil_r; by apply NoDup_cons].
      intros q Hq Hq'. rewrite app_nil_r in Hq'. apply elem_of_cons in Hq' as [->|Hq'];
        [by apply (Hne p)|apply (N2 q Hq), elem_of_app; by left].
    + clear -H0 Hp0. set_solver.
    + intros q Hq. rewrite lookup_insert_ne; [done|]. by apply Hne.
    + intros q Hq. destruct (decide (q = p)) as [->|].
      * eexists. unfold itm. rewrite lookup_insert_eq. done.
      * destruct (lr_has _ _ _ _ _ _ Hr q) as [j Hj]; [set_solver|]. exists j.
        rewrite <- Hj. by apply agree_fields, lookup_insert_ne.
    + cbn. split; [done|]. eexists. split; [unfold prv; by rewrite lookup_insert_eq|].
      cbn. eapply fchain_frame; [apply Hr|]. intros q Hq. apply agree_fields, lookup_insert_ne.
      intros ->. done.
    + cbn [freeListLength]. zlen_norm. lia.
    + done.
    + zlen_norm. lia.
    + intros q Hq. rewrite lookup_insert_ne by (intros ->; set_solver).
      apply (lr_frame _ _ _ _ _ _ Hr). set_solver.
    + intros q Hq. apply (lr_own _ _ _ _ _ _ Hr). set_solver.
  - unfold free_block. rewrite (proj2 (Z.eqb_neq p 0)), Hn by done. cbn [mbind option_bind].
    eexists _, _, fs. split; [done|].
    eapply lrep_refree; [exact Hr|..].
    + rewrite app_nil_r. apply NoDup_app. split_and!; [done| |done].
      intros q Hq Hq'. apply (N2 q Hq). set_solver.
    + set_solver.
    + intros q Hq. rewrite lookup_delete_ne; [done|]. by apply Hne.
    + intros q Hq. rewrite app_nil_r in Hq. destruct (lr_has _ _ _ _ _ _ Hr q) as [j Hj]; [set_solver|].
      exists j. rewrite <- Hj. apply agree_fields, lookup_delete_ne. intros ->. done.
    + eapply fchain_frame; [apply Hr|]. intros q Hq. apply agree_fields, lookup_delete_ne.
      intros ->. done.
    + done.
    + done.
    + apply Hr.
    + intros q Hq. destruct (decide (q = p)) as [->|].
      * rewrite lookup_delete_eq. symmetry. apply (lr_own _ _ _ _ _ _ Hr). set_solver.
      * rewrite lookup_delete_ne by done. apply (lr_frame _ _ _ _ _ _ Hr). set_solver.
    + intros q Hq. apply (lr_own _ _ _ _ _ _ Hr). set_solver.
Qed.

Lemma link_out R s ps1 p ps2 xs1 x xs2 fs l1 a b l2 h' fr :
  lrep R s (ps1 ++ p :: ps2) (xs1 ++ x :: xs2) fs [] -> length ps1 = length xs1 ->
  lhead (lst s) :: ps1 = l1 ++ [a] -> ps2 ++ [ltail (lst s)] = b :: l2 ->
  (forall q, nxt h' q = with_field (nxt (nodes s)) a b q) ->
  (forall q, prv h' q = with_field (prv (nodes s)) b a q) ->
  (forall q, itm h' q = itm (nodes s) q) ->
  (forall q, q <> a -> q <> b -> h' !! q = nodes s !! q) ->
  lrep R (St h' (set_size (lsize (lst s) - 1) (lst s)) fr) (ps1 ++ ps2) (xs1 ++ xs2) fs [p].
Proof.
  intros Hr Hlen E1 E2 Hn Hp Hi Hfr.
  pose proof (lr_nodup _ _ _ _ _ _ Hr) as Hnd. pose proof (lr_zero _ _ _ _ _ _ Hr) as H0.
  pose proof (chain_split _ _ _ _ _ _ _ E1 E2) as C.
  pose proof (chain_insert _ _ p _ _ _ _ _ E1 E2) as C'. rewrite C' in Hnd, H0.
  assert (Hperm : l1 ++ a :: p :: b :: l2 ++ fs ++ [] ≡ₚ (l1 ++ a :: b :: l2) ++ fs ++ [p])
    by (rewrite app_nil_r; solve_Permutation).
  assert (Hin : forall q, q ∈ (l1 ++ a :: p :: b :: l2) ++ fs ++ [] <->
                          q ∈ (l1 ++ a :: b :: l2) ++ fs ++ [p]) by set_solver.
  split; cbn [lst nodes freeNodeList set_size lsize];
    change (chain (set_size _ (lst s)) (ps1 ++ ps2)) with (chain (lst s) (ps1 ++ ps2));
    rewrite ?C.
  - rewrite <- app_assoc in Hnd. cbn [app] in Hnd. by rewrite <- Hperm.
  - by rewrite <- Hin.
  - apply NoDup_app in Hnd as (N1 & N2 & N3).
    eapply linked_delete; [exact N1|rewrite <- C'; apply Hr|intros; apply Hn|intros; apply Hp].
  - pose proof (lr_item _ _ _ _ _ _ Hr) as HI. apply Forall2_app_inv in HI as [HI1 HI2]; [|done].
    apply Forall2_cons_1 in HI2 as [_ HI2].
    assert (HF : forall ps xs, Forall2 (fun q y => itm (nodes s) q = Some y) ps xs ->
      Forall2 (fun q y => itm h' q = Some y) ps xs).
    { intros. by eapply Forall2_itm_frame. }
    apply Forall2_app; by apply HF.
  - intros q Hq. rewrite Hi. apply (lr_has _ _ _ _ _ _ Hr). rewrite C'. by apply Hin.
  - eapply fchain_frame; [apply Hr|]. intros q Hq. rewrite Hp.
    apply NoDup_app in Hnd as (N1 & N2 & N3).
    rewrite with_field_ne; [done|]. intros ->. apply (N2 b); set_solver.
  - apply Hr.
  - apply Hr.
  - apply Hr.
  - rewrite (lr_size _ _ _ _ _ _ Hr). zlen_norm. lia.
  - intros q Hq. rewrite <- Hin in Hq. rewrite <- (lr_frame _ _ _ _ _ _ Hr) by (rewrite C'; done).
    apply Hfr; intros ->; set_solver.
  - intros q Hq. apply (lr_own _ _ _ _ _ _ Hr). rewrite C'. by apply Hin.
Qed.

(** The neighbours of a node of the list. *)
Lemma node_links R s ps1 p ps2 xs fs ds l1 a b l2 :
  lrep R s (ps1 ++ p :: ps2) xs fs ds ->
  lhead (lst s) :: ps1 = l1 ++ [a] -> ps2 ++ [ltail (lst s)] = b :: l2 ->
  (exists i, nodes s !! p = Some (Node a b i)) /\ (exists i, itm (nodes s) a = Some i)
  /\ (exists i, itm (nodes s) b = Some i) /\ nxt (nodes s) a = Some p /\ prv (nodes s) b = Some p
  /\ p <> 0 /\ p <> a /\ p <> b /\ a <> b
  /\ p <> lhead (lst s) /\ p <> ltail (lst s).
Proof.
  intros Hr E1 E2. pose proof (chain_insert _ _ p _ _ _ _ _ E1 E2) as C.
  destruct (link_at _ _ _ _ _ _ l1 a p (b :: l2) Hr C) as (L1 & L2 & I1 & [i I2] & _ & P0 & Hap).
  destruct (link_at _ _ _ _ _ _ (l1 ++ [a]) p b l2 Hr) as (L3 & L4 & _ & I3 & _ & _ & Hpb);
    [by rewrite C, <- app_assoc|].
  pose proof (NoDup_chain _ _ _ _ _ _ Hr) as N. unfold chain in N.
  apply NoDup_cons in N as [N1 N2]. apply NoDup_app in N2 as (_ & N2 & _).
  split_and!; try done.
  - exists i. unfold nxt, prv, itm in *. destruct (nodes s !! p) as [[x y z]|]; [|done]. cbn in *. congruence.
  - pose proof (NoDup_chain _ _ _ _ _ _ Hr) as N. rewrite C in N.
    apply NoDup_app in N as (_ & _ & N). apply NoDup_cons in N as [N _].
    intros ->. apply N. right. by left.
  - intros Hp. apply N1. rewrite <- Hp. set_solver.
  - intros Hp. apply (N2 p); set_solver.
Qed.

Lemma ListDelNode_spec R s ps1 p ps2 xs1 x xs2 fs fi :
  lrep R s (ps1 ++ p :: ps2) (xs1 ++ x :: xs2) fs [] -> length ps1 = length xs1 ->
  exists s' fs', ListDelNode p fi s
      = Some ((if fi && free_func (lst s) then 0 else x), s')
    /\ lrep R s' (ps1 ++ ps2) (xs1 ++ xs2) fs' []
    /\ freed s' = freed s ++ (if fi && free_func (lst s) then [x] else [])
    /\ same_list s s'.
Proof.
  intros Hr Hlen. destruct (neighbours_at (lst s) ps1 ps2) as (l1 & a & b & l2 & E1 & E2).
  destruct (node_links _ _ _ _ _ _ _ _ _ _ _ _ Hr E1 E2)
    as ([i Hp] & [ia Ia] & [ib Ib] & La & Lb & P0 & Pa & Pb & Hab & Ph & Pt).
  pose proof (lr_item _ _ _ _ _ _ Hr) as HI. apply Forall2_app_inv in HI as [_ HI]; [|done].
  apply Forall2_cons_1 in HI as [Hx _]. unfold itm in Hx. rewrite Hp in Hx. cbn in Hx.
  injection Hx as ->. unfold ListDelNode.
  rewrite (proj2 (Z.eqb_neq p _) Ph), (proj2 (Z.eqb_neq p _) Pt), (proj2 (Z.eqb_neq p _) P0). cbn [orb].
  rewrite Hp. cbn [mbind option_bind prev next item].
  destruct (set_next_spec (nodes s) a b ia Ia) as (h1 & -> & (A1 & A2 & A3) & F1). cbn [mbind option_bind].
  rewrite (F1 p), Hp by done. cbn [mbind option_bind prev next].
  destruct (set_prev_spec h1 b a ib) as (h2 & -> & (B1 & B2 & B3) & F2); [by rewrite A3|].
  cbn [mbind option_bind]. unfold freeListNode. cbn [nodes lst freed].
  assert (Hout : lrep R (St h2 (set_size (lsize (lst s) - 1) (lst s)) (freed s))
                   (ps1 ++ ps2) (xs1 ++ xs2) fs [p]).
  { eapply link_out; try done.
    - intros q. by rewrite B1, A1.
    - intros q. rewrite B2. unfold with_field. by rewrite A2.
    - intros q. by rewrite B3, A3.
    - intros q Q1 Q2. by rewrite F2, F1. }
  destruct (FreeListFree_spec _ _ _ _ _ _
    (freed s ++ (if fi && free_func (lst s) then [x] else [])) Hout) as (h3 & fl & fs' & E & Hr').
  cbn [nodes lst freeNodeList set_size] in E. rewrite E. cbn [mbind option_bind nodes lst freed].
  eexists _, fs'. split; [|split; [exact Hr'|]].
  - cbn [free_func set_size set_free]. destruct (fi && free_func (lst s)); [done|]. by rewrite app_nil_r.
  - done.
Qed.

(** ** Destruction *)

Lemma free_chain_spec h p fs fuel :
  fchain h p fs -> NoDup fs -> 0 ∉ fs -> (length fs < fuel)%nat ->
  exists h', free_chain fuel h p = Some h' /\ (forall q, q ∈ fs -> h' !! q = None)
    /\ (forall q, q ∉ fs -> h' !! q = h !! q).
Proof.
  revert h p fuel. induction fs as [|f fs IH]; intros h p [|fuel] Hf Hnd H0 Hlen;
    cbn in Hlen; try lia; cbn in Hf |- *.
  - rewrite Hf. exists h. split_and!; [done|by intros q Hq%not_elem_of_nil|done].
  - destruct Hf as (-> & q & Hq & Hf). apply NoDup_cons in Hnd as [Hn Hnd].
    assert (f <> 0) as Hf0 by (intros ->; apply H0; by left).
    rewrite (proj2 (Z.eqb_neq f 0)) by done. unfold prv in Hq. unfold free_block.
    rewrite (proj2 (Z.eqb_neq f 0)) by done.
    destruct (h !! f) as [e|]; [|done]. cbn in Hq. injection Hq as <-. cbn [mbind option_bind].
    destruct (IH (delete f h) (get_link e) fuel) as (h' & E & D1 & D2); try done; try lia.
    { eapply fchain_frame; [exact Hf|]. intros r Hr. apply agree_fields, lookup_delete_ne.
      intros ->. done. }
    { intros Hz. apply H0. by right. }
    exists h'. split; [exact E|]. split.
    + intros r [->|Hr]%elem_of_cons; [|by apply D1].
      rewrite D2 by done. apply lookup_delete_eq.
    + intros r Hr. rewrite not_elem_of_cons in Hr. destruct Hr as [Hr1 Hr2].
      rewrite D2 by done. by apply lookup_delete_ne.
Qed.

Lemma owned_size R s ps xs fs ds :
  lrep R s ps xs fs ds -> (length (chain (lst s) ps ++ fs ++ ds) <= size (nodes s))%nat.
Proof.
  intros Hr. rewrite <- size_dom, <- (size_list_to_set (C := gset Z)) by apply Hr.
  apply subseteq_size. intros p Hp. apply elem_of_list_to_set in Hp.
  destruct (lr_has _ _ _ _ _ _ Hr p Hp) as [i Hi]. apply elem_of_dom. by eapply itm_is_Some.
Qed.

Lemma chain_length l ps : length (chain l ps) = S (S (length ps)).
Proof. unfold chain. cbn. rewrite length_app. cbn. lia. Qed.

Definition first (l : LinkedList) (ps : list Z) : Z := hd (ltail l) ps.

Lemma first_node R s ps xs fs ds :
  lrep R s ps xs fs ds -> exists i, nodes s !! lhead (lst s) = Some i /\ next i = first (lst s) ps.
Proof.
  intros Hr. destruct (neighbours_at (lst s) [] ps) as (l1 & a & b & l2 & E1 & E2).
  destruct (link_at _ _ _ _ _ _ l1 a b l2 Hr) as (L & _); [by apply (chain_split _ [] ps)|].
  assert (l1 = [] /\ a = lhead (lst s)) as [-> ->].
  { destruct l1 as [|? [|]]; cbn in E1; simplify_eq; done. }
  unfold nxt in L. destruct (nodes s !! lhead (lst s)) as [n|]; [|done]. cbn in L. injection L as L.
  exists n. split; [done|]. rewrite L. destruct ps; cbn in E2; injection E2 as E2; by subst.
Qed.

Definition freed_items (s : lstate) (fi : bool) (xs : list Z) : list Z :=
  if fi && free_func (lst s) then xs else [].

Lemma destroy_loop_spec R s ps xs fs fi fuel :
  lrep R s ps xs fs [] -> (length ps < fuel)%nat ->
  exists s' fs', destroy_loop fuel (first (lst s) ps) fi s = Some s' /\ lrep R s' [] [] fs' []
    /\ freed s' = freed s ++ freed_items s fi xs /\ same_list s s'.
Proof.
  revert s xs fs fuel. induction ps as [|p ps IH]; intros s xs fs [|fuel] Hr Hlen;
    cbn in Hlen; try lia; cbn [destroy_loop first hd].
  - rewrite Z.eqb_refl. exists s, fs.
    pose proof (lr_item _ _ _ _ _ _ Hr) as HI. apply Forall2_nil_inv_l in HI as ->.
    split_and!; try done. unfold freed_items. by case_match; rewrite app_nil_r.
  - pose proof (lr_item _ _ _ _ _ _ Hr) as HI. destruct xs as [|x xs]; [by inversion HI|].
    destruct (neighbours_at (lst s) [] ps) as (l1 & a & b & l2 & E1 & E2).
    destruct (node_links R s [] p ps _ _ _ _ _ _ _ Hr E1 E2)
      as ([i Hp] & _ & _ & _ & _ & _ & _ & _ & _ & _ & Pt).
    rewrite (proj2 (Z.eqb_neq p _) Pt), Hp. cbn [mbind option_bind next].
    destruct (ListDelNode_spec R s [] p ps [] x xs fs fi Hr eq_refl)
      as (s1 & fs1 & -> & Hr1 & Hfr & S1 & S2 & S3 & S4). cbn [mbind option_bind].
    assert (b = first (lst s1) ps) as ->.
    { unfold first. rewrite S4. destruct ps; cbn in E2; by injection E2. }
    destruct (IH s1 xs fs1 fuel Hr1 ltac:(lia)) as (s2 & fs2 & -> & Hr2 & Hfr2 & T1 & T2 & T3 & T4).
    exists s2, fs2. split; [done|]. split; [done|]. split.
    + rewrite Hfr2, Hfr. unfold freed_items. rewrite S2, <- app_assoc.
      by destruct (fi && free_func (lst s)).
    + unfold same_list. by rewrite T1, T2, T3, T4.
Qed.

Lemma ListDestroy_spec R s ps xs fs fi :
  lrep R s ps xs fs [] ->
  exists s', ListDestroy fi s = Some (0, s') /\ lrep R s' [] [] [] []
    /\ freed s' = freed s ++ freed_items s fi xs /\ same_list s s'.
Proof.
  intros Hr. unfold ListDestroy. destruct (first_node _ _ _ _ _ _ Hr) as (n & -> & Hn).
  cbn [mbind option_bind]. rewrite Hn. pose proof (owned_size _ _ _ _ _ _ Hr) as Hs.
  rewrite length_app, chain_length in Hs.
  destruct (destroy_loop_spec R s ps xs fs fi (size (nodes s)) Hr ltac:(lia))
    as (s1 & fs1 & -> & Hr1 & Hfr & Hsame). cbn [mbind option_bind].
  pose proof (lr_nodup _ _ _ _ _ _ Hr1) as N. pose proof (lr_zero _ _ _ _ _ _ Hr1) as H0.
  rewrite app_nil_r in N, H0. apply NoDup_app in N as (N1 & N2 & N3).
  pose proof (owned_size _ _ _ _ _ _ Hr1) as Hs1. rewrite !length_app in Hs1.
  unfold FreeListDestroy.
  destruct (free_chain_spec (nodes s1) (fl_head (freeNodeList (lst s1))) fs1 (S (size (nodes s1))))
    as (h & -> & D1 & D2); [apply Hr1|done|set_solver|lia|]. cbn [mbind option_bind].
  eexists. split; [done|]. split; [|split; [done|exact Hsame]].
  pose proof (lr_size _ _ _ _ _ _ Hr1) as Hz.
  set (fl := Free 0 _ _ 0).
  assert (Hre : lrep R (St h (set_free fl (lst s1)) (freed s1)) [] [] [] []).
  { eapply lrep_refree; [exact Hr1|..]; try done.
    - by intros Hx%not_elem_of_nil.
    - intros q Hq. apply D2. by apply N2.
    - intros q Hq. by apply not_elem_of_nil in Hq.
    - apply Hr1.
    - intros q Hq. rewrite !app_nil_r in Hq. destruct (decide (q ∈ fs1)) as [Hq'|Hq'].
      + rewrite D1 by done. symmetry. apply (lr_own _ _ _ _ _ _ Hr1). set_solver.
      + rewrite D2 by done. apply (lr_frame _ _ _ _ _ _ Hr1). set_solver.
    - intros q Hq. by apply not_elem_of_nil in Hq. }
  destruct Hre. split; try done.
Qed.

(** ** Traversal *)

Lemma ListHead_spec R s ps xs fs : lrep R s ps xs fs [] -> ListHead s = Some (hd 0 ps).
Proof.
  intros Hr. unfold ListHead. rewrite (lr_size _ _ _ _ _ _ Hr).
  destruct (first_node _ _ _ _ _ _ Hr) as (n & -> & Hn).
  destruct ps as [|p ps]; [done|]. cbn. rewrite Hn. done.
Qed.

Lemma ListTail_spec R s ps xs fs : lrep R s ps xs fs [] -> ListTail s = Some (default 0 (last ps)).
Proof.
  intros Hr. unfold ListTail. rewrite (lr_size _ _ _ _ _ _ Hr).
  destruct ps as [|p ps] using rev_ind; [done|]. clear IHps.
  destruct (link_at R s (ps ++ [p]) xs fs [] (lhead (lst s) :: ps) p (ltail (lst s)) [] Hr)
    as (_ & L & _); [unfold chain; cbn; by rewrite <- app_assoc|].
  assert (zlen (ps ++ [p]) =? 0 = false) as -> by (apply Z.eqb_neq; pose_zlens; zlia).
  unfold prv in L. rewrite L, last_snoc. done.
Qed.

Lemma nodes_nonzero R s ps xs fs ds p : lrep R s ps xs fs ds -> p ∈ ps -> p <> 0.
Proof. intros Hr Hp ->. apply (lr_zero _ _ _ _ _ _ Hr), elem_of_app. left. by apply elem_chain. Qed.

Lemma ListNext_spec R s ps1 p ps2 xs fs :
  lrep R s (ps1 ++ p :: ps2) xs fs [] -> ListNext p s = Some (hd 0 ps2).
Proof.
  intros Hr. destruct (neighbours_at (lst s) ps1 ps2) as (l1 & a & b & l2 & E1 & E2).
  destruct (node_links _ _ _ _ _ _ _ _ _ _ _ _ Hr E1 E2) as ([i Hp] & _ & _ & _ & _ & P0 & _).
  unfold ListNext. rewrite (proj2 (Z.eqb_neq p _) P0), Hp. cbn [mbind option_bind next].
  destruct ps2 as [|q ps2]; cbn in E2; injection E2 as <- _; [by rewrite Z.eqb_refl|].
  assert (Hq : q <> ltail (lst s)).
  { pose proof (NoDup_chain _ _ _ _ _ _ Hr) as N. unfold chain in N. apply NoDup_cons in N as [_ N].
    apply NoDup_app in N as (_ & N & _). intros ->. apply (N (ltail (lst s))); set_solver. }
  by rewrite (proj2 (Z.eqb_neq q _) Hq).
Qed.

Lemma ListPrev_spec R s ps1 p ps2 xs fs :
  lrep R s (ps1 ++ p :: ps2) xs fs [] -> ListPrev p s = Some (default 0 (last ps1)).
Proof.
  intros Hr. destruct (neighbours_at (lst s) ps1 ps2) as (l1 & a & b & l2 & E1 & E2).
  destruct (node_links _ _ _ _ _ _ _ _ _ _ _ _ Hr E1 E2) as ([i Hp] & _ & _ & _ & _ & P0 & _).
  unfold ListPrev. rewrite (proj2 (Z.eqb_neq p _) P0), Hp. cbn [mbind option_bind prev].
  destruct ps1 as [|q ps1 _] using rev_ind.
  - destruct l1 as [|? [|]]; cbn in E1; simplify_eq. by rewrite Z.eqb_refl.
  - rewrite app_comm_cons in E1. apply app_inj_tail in E1 as [_ <-]. rewrite last_snoc.
    assert (Hq : q <> lhead (lst s)).
    { pose proof (NoDup_chain _ _ _ _ _ _ Hr) as N. unfold chain in N. apply NoDup_cons in N as [N _].
      intros ->. apply N. set_solver. }
    by rewrite (proj2 (Z.eqb_neq q _) Hq).
Qed.

(** The first node whose item matches. *)
Fixpoint find_item (m : Z -> bool) (ps xs : list Z) : Z :=
  match ps, xs with
  | p :: ps, x :: xs => if m x then p else find_item m ps xs
  | _, _ => 0
  end.

Lemma find_loop_spec R s ps1 ps2 xs1 xs2 fs x fuel :
  lrep R s (ps1 ++ ps2) (xs1 ++ xs2) fs [] -> length ps1 = length xs1 ->
  (length ps2 < fuel)%nat ->
  find_loop fuel (first (lst s) ps2) x s = Some (find_item (list_match (lst s) x) ps2 xs2).
Proof.
  revert ps1 xs1 xs2 fuel. induction ps2 as [|p ps2 IH]; intros ps1 xs1 xs2 [|fuel] Hr Hl Hf;
    cbn in Hf; try lia; cbn [find_loop first hd find_item].
  - by rewrite Z.eqb_refl.
  - pose proof (lr_item _ _ _ _ _ _ Hr) as HI. apply Forall2_app_inv in HI as [_ HI]; [|done].
    destruct xs2 as [|y xs2]; [by inversion HI|]. apply Forall2_cons_1 in HI as [Hy _].
    destruct (neighbours_at (lst s) ps1 ps2) as (l1 & a & b & l2 & E1 & E2).
    destruct (node_links _ _ _ _ _ _ _ _ _ _ _ _ Hr E1 E2)
      as ([i Hp] & _ & _ & _ & _ & _ & _ & _ & _ & _ & Pt).
    unfold itm in Hy. rewrite Hp in Hy. cbn in Hy. injection Hy as ->.
    rewrite (proj2 (Z.eqb_neq p _) Pt), Hp. cbn [mbind option_bind item next].
    destruct (list_match (lst s) x y); [done|].
    assert (b = first (lst s) ps2) as -> by (unfold first; destruct ps2; cbn in E2; by injection E2).
    apply (IH (ps1 ++ [p]) (xs1 ++ [y])); [by rewrite <- !app_assoc|rewrite !length_app; cbn; lia|lia].
Qed.

Lemma ListFind_spec R s ps1 ps2 xs1 xs2 fs x start :
  lrep R s (ps1 ++ ps2) (xs1 ++ xs2) fs [] -> length ps1 = length xs1 ->
  start = default 0 (last ps1) ->
  ListFind start x s = Some (find_item (list_match (lst s) x) ps2 xs2).
Proof.
  intros Hr Hl ->. unfold ListFind. pose proof (owned_size _ _ _ _ _ _ Hr) as Hs.
  rewrite length_app, chain_length, !length_app in Hs.
  destruct (neighbours_at (lst s) ps1 ps2) as (l1 & a & b & l2 & E1 & E2).
  destruct (link_at _ _ _ _ _ _ _ _ _ _ Hr (chain_split _ _ _ _ _ _ _ E1 E2))
    as (L & _ & _ & _ & Ha0 & _).
  assert ((if default 0 (last ps1) =? 0 then lhead (lst s) else default 0 (last ps1)) = a) as ->.
  { destruct ps1 as [|q ps1 _] using rev_ind.
    - destruct l1 as [|? [|]]; cbn in E1; by simplify_eq.
    - rewrite app_comm_cons in E1. apply app_inj_tail in E1 as [_ <-]. rewrite last_snoc. cbn.
      by rewrite (proj2 (Z.eqb_neq q _) Ha0). }
  unfold nxt in L. destruct (nodes s !! a) as [n|]; [|done]. cbn in L. injection L as L.
  cbn [mbind option_bind]. rewrite L.
  assert (b = first (lst s) ps2) as -> by (unfold first; destruct ps2; cbn in E2; by injection E2).
  eapply find_loop_spec; [done|done|lia].
Qed.

(** ** Programs that use a list *)

(** [for (node = ListHead (l); node; node = ListNext (l, node))], and backwards. *)
Fixpoint walk (step : Z -> lstate -> option Z) (fuel : nat) (node : Z) (s : lstate)
  : option (list Z) :=
  match fuel with
  | O => None
  | S f =>
      if node =? 0 then Some []
      else
        n ← nodes s !! node; nx ← step node s; r ← walk step f nx s; Some (item n :: r)
  end.

(** The node with index [i], by [ListNext] from [node]. *)
Fixpoint node_at (i : nat) (node : Z) (s : lstate) : option Z :=
  match i with
  | O => Some node
  | S i => nx ← ListNext node s; node_at i nx s
  end.

Inductive list_op :=
| AddHead (x : Z)
| AddTail (x : Z)
| AddAfter (x : Z) (i : nat)
| AddBefore (x : Z) (i : nat)
| DelNode (i : nat) (freeItem : bool)
| Destroy (freeItem : bool).

Definition run_op (op : list_op) (s : lstate) : option (Z * lstate) :=
  match op with
  | AddHead x => ListAddHead x s
  | AddTail x => ListAddTail x s
  | AddAfter x i => n ← ListHead s; p ← node_at i n s; ListAddAfter x p s
  | AddBefore x i => n ← ListHead s; p ← node_at i n s; ListAddBefore x p s
  | DelNode i fi => n ← ListHead s; p ← node_at i n s; ListDelNode p fi s
  | Destroy fi => ListDestroy fi s
  end.

(** The same operations on a sequence: the position of an insertion. *)
Definition insert_pos (op : list_op) (n : nat) : option (nat * Z) :=
  match op with
  | AddHead x => Some (0%nat, x)
  | AddTail x => Some (n, x)
  | AddAfter x i => if decide (i < n)%nat then Some (S i, x) else None
  | AddBefore x i => if decide (i < n)%nat then Some (i, x) else None
  | _ => None
  end.

Definition insert_at (k : nat) (x : Z) (xs : list Z) : list Z := take k xs ++ x :: drop k xs.

(** [s] represents the sequence [xs] and owns nothing else of the heap but its
    sentinels and free nodes; the rest is [R]. *)
Definition represents (R : gmap Z ListNode) (s : lstate) (xs : list Z) : Prop :=
  exists ps fs, lrep R s ps xs fs [].

Lemma lrep_length R s ps xs fs ds : lrep R s ps xs fs ds -> length ps = length xs.
Proof. intros Hr. eapply Forall2_length, Hr. Qed.

Lemma node_at_spec R s ps1 ps2 xs fs i :
  lrep R s (ps1 ++ ps2) xs fs [] -> node_at i (hd 0 ps2) s = Some (default 0 (ps2 !! i)).
Proof.
  revert ps1 ps2. induction i as [|i IH]; intros ps1 ps2 Hr; cbn [node_at].
  - by destruct ps2.
  - destruct ps2 as [|p ps2]; cbn [hd].
    + cbn. specialize (IH ps1 [] Hr). cbn in IH. rewrite IH. done.
    + rewrite (ListNext_spec R s ps1 p ps2 xs fs Hr). cbn [mbind option_bind].
      apply (IH (ps1 ++ [p])). by rewrite <- app_assoc.
Qed.

Lemma add_item_ok R s (k : nat) ps xs fs x (res : option (Z * lstate)) :
  lrep R s ps xs fs [] -> (k <= length ps)%nat ->
  ((res = Some (0, s) /\ out_of_memory s) \/
   exists p s' fs', res = Some (p, s') /\ p <> 0
     /\ lrep R s' (take k ps ++ p :: drop k ps) (take k xs ++ x :: drop k xs) fs' []
     /\ freed s' = freed s /\ same_list s s') ->
  exists r s', res = Some (r, s') /\ same_list s s' /\ freed s' = freed s
    /\ ((r = 0 /\ out_of_memory s /\ represents R s' xs)
        \/ (r <> 0 /\ represents R s' (insert_at k x xs))).
Proof.
  intros Hr Hk [[-> Ho]|(p & s' & fs' & -> & Hp & Hr' & Hfr & Hsame)].
  - exists 0, s. split_and!; try done. left. split_and!; [done|done|by exists ps, fs].
  - exists p, s'. split_and!; try done. right. split; [done|by eexists _, fs'].
Qed.

Lemma out_of_range_ops R s ps xs fs op :
  lrep R s ps xs fs [] ->
  (exists x i, (op = AddAfter x i \/ op = AddBefore x i) /\ (length xs <= i)%nat)
  \/ (exists i fi, op = DelNode i fi /\ (length xs <= i)%nat) -> run_op op s = Some (0, s).
Proof.
  intros Hr Hop. pose proof (lrep_length _ _ _ _ _ _ Hr) as Hl.
  assert (Hat : forall i, (length xs <= i)%nat -> node_at i (hd 0 ps) s = Some 0).
  { intros i Hi. rewrite (node_at_spec R s [] ps xs fs i Hr), lookup_ge_None_2 by lia. done. }
  destruct Hop as [(x & i & [-> | ->] & Hi)|(i & fi & -> & Hi)]; cbn [run_op];
    rewrite (ListHead_spec _ _ _ _ _ Hr); cbn [mbind option_bind]; rewrite Hat by done;
    cbn [mbind option_bind]; [done|done|].
  unfold ListDelNode. by rewrite !orb_true_r.
Qed.

Lemma add_op_spec R s ps xs fs op k x :
  lrep R s ps xs fs [] -> insert_pos op (length xs) = Some (k, x) ->
  (run_op op s = Some (0, s) /\ out_of_memory s) \/
  exists p s' fs', run_op op s = Some (p, s') /\ p <> 0
    /\ lrep R s' (take k ps ++ p :: drop k ps) (take k xs ++ x :: drop k xs) fs' []
    /\ freed s' = freed s /\ same_list s s'.
Proof.
  intros Hr Hp. pose proof (lrep_length _ _ _ _ _ _ Hr) as Hl.
  destruct op as [y|y|y i|y i|i fi|fi]; cbn in Hp; try done;
    try (destruct (decide (i < length xs)%nat) as [Hi|]; [|done]); injection Hp as <- <-; cbn [run_op].
  - by apply (ListAddAfter_spec R s [] ps [] xs fs y [] (lhead (lst s))).
  - rewrite !take_ge, !drop_ge by lia.
    apply (ListAddBefore_spec R s ps [] xs [] fs y (ltail (lst s)) []);
      rewrite ?app_nil_r; done.
  - rewrite (ListHead_spec _ _ _ _ _ Hr). cbn [mbind option_bind].
    rewrite (node_at_spec R s [] ps xs fs i Hr). cbn [mbind option_bind].
    destruct (lookup_lt_is_Some_2 ps i ltac:(lia)) as [p Ep]. rewrite Ep. cbn [default].
    eapply (ListAddAfter_spec R s _ _ _ _ fs y (lhead (lst s) :: take i ps));
      [by rewrite !take_drop|rewrite !length_take; lia|].
    by rewrite (take_S_r _ _ _ Ep).
  - rewrite (ListHead_spec _ _ _ _ _ Hr). cbn [mbind option_bind].
    rewrite (node_at_spec R s [] ps xs fs i Hr). cbn [mbind option_bind].
    destruct (lookup_lt_is_Some_2 ps i ltac:(lia)) as [p Ep]. rewrite Ep. cbn [default].
    eapply (ListAddBefore_spec R s _ _ _ _ fs y p (drop (S i) ps ++ [ltail (lst s)]));
      [by rewrite !take_drop|rewrite !length_take; lia|].
    by rewrite (drop_S _ _ _ Ep).
Qed.

Lemma walk_S step f node s : walk step (S f) node s =
  if node =? 0 then Some []
  else n ← nodes s !! node; nx ← step node s; r ← walk step f nx s; Some (item n :: r).
Proof. done. Qed.

Lemma walk_next R s ps1 ps2 xs1 xs2 fs :
  lrep R s (ps1 ++ ps2) (xs1 ++ xs2) fs [] -> length ps1 = length xs1 ->
  walk ListNext (S (length ps2)) (hd 0 ps2) s = Some xs2.
Proof.
  revert ps1 xs1 xs2. induction ps2 as [|p ps2 IH]; intros ps1 xs1 xs2 Hr Hl;
    pose proof (lr_item _ _ _ _ _ _ Hr) as HI; apply Forall2_app_inv in HI as [_ HI]; try done.
  - by apply Forall2_nil_inv_l in HI as ->.
  - destruct xs2 as [|x xs2]; [by inversion HI|]. apply Forall2_cons_1 in HI as [Hx _].
    rewrite walk_S. cbn [length hd].
    rewrite (proj2 (Z.eqb_neq p 0)) by (eapply nodes_nonzero; [exact Hr|set_solver]).
    unfold itm in Hx. destruct (nodes s !! p) as [n|] eqn:En; [|done]. cbn in Hx. injection Hx as <-.
    cbn [mbind option_bind]. rewrite (ListNext_spec R s ps1 p ps2 _ fs Hr). cbn [mbind option_bind].
    rewrite (IH (ps1 ++ [p]) (xs1 ++ [item n]) xs2); [done| |rewrite !length_app; cbn; lia].
    by rewrite <- !app_assoc.
Qed.

Lemma walk_prev R s ps1 ps2 xs1 xs2 fs :
  lrep R s (ps1 ++ ps2) (xs1 ++ xs2) fs [] -> length ps1 = length xs1 ->
  walk ListPrev (S (length ps1)) (default 0 (last ps1)) s = Some (reverse xs1).
Proof.
  revert ps2 xs1 xs2. induction ps1 as [|p ps1 IH] using rev_ind; intros ps2 xs1 xs2 Hr Hl.
  - by destruct xs1.
  - rewrite length_app in Hl. cbn in Hl. destruct xs1 as [|x xs1 _] using rev_ind; [cbn in Hl; lia|].
    rewrite length_app in Hl. cbn in Hl. rewrite last_snoc, reverse_app, length_app, Nat.add_comm.
    rewrite walk_S. change (default 0 (Some p)) with p. cbn [length Nat.add]. rewrite <- !app_assoc in Hr. cbn [app] in Hr.
    pose proof (lr_item _ _ _ _ _ _ Hr) as HI. apply Forall2_app_inv in HI as [_ HI]; [|lia].
    apply Forall2_cons_1 in HI as [Hx _].
    rewrite (proj2 (Z.eqb_neq p 0)) by (eapply nodes_nonzero; [exact Hr|set_solver]).
    unfold itm in Hx. destruct (nodes s !! p) as [n|] eqn:En; [|done]. cbn in Hx. injection Hx as <-.
    cbn [mbind option_bind]. rewrite (ListPrev_spec R s ps1 p ps2 _ fs Hr). cbn [mbind option_bind].
    rewrite (IH (p :: ps2) xs1 (item n :: xs2)) by (done || lia). done.
Qed.
End Specs.

(** An allocator that never fails. *)
Lemma heap_fresh_ok (used : gset Z) (n p : Z) :
  Some (fresh (used ∪ {[0]})) = Some p -> p <> 0 /\ p ∉ used.
Proof. intros [= <-]. pose proof (is_fresh (used ∪ {[0]})). set_solver. Qed.
Definition heap_fresh : Heap := {| malloc used _ := Some (fresh (used ∪ {[0]}));
                                   malloc_ok := heap_fresh_ok |}.

Module Lists.

(** C3. Every list operation is the corresponding operation on the sequence of
    items: none of them faults; an insertion puts the item at its place, or
    returns NULL and changes nothing when memory is short; a deletion removes one
    item, which is returned or freed; the destruction frees every item in order.
    The rest of the heap does not change. *)
Theorem list_refines `{Heap} R s xs op :
  represents R s xs ->
  exists r s', run_op op s = Some (r, s') /\ same_list s s' /\
  match op with
  | DelNode i fi =>
      match xs !! i with
      | Some x =>
          represents R s' (delete i xs) /\ r = (if fi && free_func (lst s) then 0 else x)
          /\ freed s' = freed s ++ freed_items s fi [x]
      | None => r = 0 /\ represents R s' xs /\ freed s' = freed s
      end
  | Destroy fi => r = 0 /\ represents R s' [] /\ freed s' = freed s ++ freed_items s fi xs
  | _ =>
      freed s' = freed s /\
      match insert_pos op (length xs) with
      | Some (k, x) => (r = 0 /\ out_of_memory s /\ represents R s' xs)
                       \/ (r <> 0 /\ represents R s' (insert_at k x xs))
      | None => r = 0 /\ represents R s' xs
      end
  end.
Proof.
  intros (ps & fs & Hr). pose proof (lrep_length _ _ _ _ _ _ Hr) as Hl.
  destruct (insert_pos op (length xs)) as [[k x]|] eqn:Ep.
  - pose proof (add_op_spec R s ps xs fs op k x Hr Ep) as Ha.
    assert (Hk : (k <= length ps)%nat).
    { destruct op; cbn in Ep; try done; try (case_decide; [|done]); injection Ep as <- <-; lia. }
    destruct (add_item_ok R s k ps xs fs x _ Hr Hk Ha) as (r & s' & E & Hs & Hf & Hc).
    exists r, s'. split; [done|]. split; [done|]. destruct op; cbn in Ep |- *; done || idtac;
      rewrite ?Ep; done.
  - assert (Hrep : represents R s xs) by (by exists ps, fs).
    destruct op as [y|y|y i|y i|i fi|fi]; cbn [insert_pos] in Ep; try done.
    + destruct (decide (i < length xs)%nat) as [|Hi]; [done|].
      exists 0, s. split; [|done].
      eapply out_of_range_ops; [done|]. left. exists y, i. split; [by left|lia].
    + destruct (decide (i < length xs)%nat) as [|Hi]; [done|].
      exists 0, s. split; [|done].
      eapply out_of_range_ops; [done|]. left. exists y, i. split; [by right|lia].
    + destruct (xs !! i) as [x|] eqn:Ex.
      * pose proof (lookup_lt_Some _ _ _ Ex) as Hi.
        destruct (lookup_lt_is_Some_2 ps i ltac:(lia)) as [p Epi].
        rewrite <- (take_drop_middle ps i p Epi), <- (take_drop_middle xs i x Ex) in Hr.
        destruct (ListDelNode_spec R s _ p _ _ x _ fs fi Hr ltac:(rewrite !length_take; lia))
          as (s' & fs' & E & Hr' & Hf & Hs).
        exists (if fi && free_func (lst s) then 0 else x), s'. cbn [run_op].
        rewrite (ListHead_spec _ _ _ _ _ Hr). cbn [mbind option_bind].
        rewrite (node_at_spec R s [] _ _ fs i Hr). cbn [mbind option_bind].
        rewrite take_drop_middle, Epi by done. cbn [default].
        split_and!; try done. rewrite delete_take_drop. by eexists _, fs'.
      * exists 0, s. split_and!; try done. eapply out_of_range_ops; [done|]. right.
        exists i, fi. split; [done|]. by apply lookup_ge_None_1.
    + destruct (ListDestroy_spec R s ps xs fs fi Hr) as (s' & E & Hr' & Hf & Hs).
      exists 0, s'. split_and!; try done. by exists [], [].
Qed.

(** A list with sentinels 8 and 32 in a heap that holds a foreign node at 64. *)
Definition foreign : gmap Z ListNode := {[64 := Node 1 2 3]}.
Definition empty_list : lstate := (ListInit 8 32 None true foreign).2.

Lemma list_refines_witness :
  exists s1 s2 r1 r2, run_op (H := heap_fresh) (AddHead 5) empty_list = Some (r1, s1)
    /\ run_op (H := heap_fresh) (AddAfter 6 0) s1 = Some (r2, s2)
    /\ represents foreign s2 [5; 6].
Proof.
  assert (Hr : represents foreign empty_list []).
  { exists [], []. by apply (ListInit_spec 8 32 None true foreign). }
  destruct (list_refines (H := heap_fresh) foreign empty_list [] (AddHead 5) Hr)
    as (r1 & s1 & E1 & _ & _ & [(_ & [n Hn] & _)|(_ & Hr1)]); [done|].
  destruct (list_refines (H := heap_fresh) foreign s1 [5] (AddAfter 6 0) Hr1)
    as (r2 & s2 & E2 & _ & _ & [(_ & [n Hn] & _)|(_ & Hr2)]); [done|].
  exists s1, s2, r1, r2. split; [exact E1|]. split; [exact E2|exact Hr2].
Defined.

(** Traversal: the iteration with [ListHead] and [ListNext] visits the items in
    order and ends, the one with [ListTail] and [ListPrev] in reverse order;
    [ListSize] is their number, and [ListFind] from the head returns NULL exactly
    when no item matches, else a node that holds a matching item. *)
Theorem list_traversal `{Heap} R s xs y :
  represents R s xs ->
  (exists p, ListHead s = Some p /\ walk ListNext (S (length xs)) p s = Some xs)
  /\ (exists p, ListTail s = Some p /\ walk ListPrev (S (length xs)) p s = Some (reverse xs))
  /\ ListSize s = zlen xs
  /\ exists p, ListFind 0 y s = Some p
       /\ if decide (p = 0) then Forall (fun x => list_match (lst s) y x = false) xs
          else exists x, itm (nodes s) p = Some x /\ list_match (lst s) y x = true
               /\ exists a b, xs = a ++ x :: b /\ Forall (fun x => list_match (lst s) y x = false) a.
Proof.
  intros (ps & fs & Hr). pose proof (lrep_length _ _ _ _ _ _ Hr) as Hl. split_and!.
  - exists (hd 0 ps). split; [by eapply ListHead_spec|]. rewrite <- Hl.
    by apply (walk_next R s [] ps [] xs fs).
  - exists (default 0 (last ps)). split; [by eapply ListTail_spec|]. rewrite <- Hl.
    apply (walk_prev R s ps [] xs [] fs); [by rewrite !app_nil_r|done].
  - unfold ListSize. rewrite (lr_size _ _ _ _ _ _ Hr). unfold zlen. by rewrite Hl.
  - eexists. split; [by apply (ListFind_spec R s [] ps [] xs fs y 0)|].
    pose proof (nodes_nonzero _ _ _ _ _ _ : forall p, lrep R s ps xs fs [] -> p ∈ ps -> p <> 0) as H0.
    assert (Hnz : forall p, p ∈ ps -> p <> 0) by (intros; by eapply H0).
    pose proof (lr_item _ _ _ _ _ _ Hr) as HI. clear -HI Hnz.
    induction HI as [|p x ps xs Hx HI IH]; cbn [find_item]; [by rewrite decide_True|].
    destruct (list_match (lst s) y x) eqn:Em.
    + rewrite decide_False by (apply Hnz; by left). exists x. split_and!; try done.
      by exists [], xs.
    + specialize (IH ltac:(intros q Hq; apply Hnz; by right)). case_decide; [by constructor|].
      destruct IH as (z & I1 & I2 & a & b & -> & I3). exists z. split_and!; try done.
      exists (x :: a), b. split; [done|by constructor].
Qed.

Lemma list_traversal_witness :
  exists s, represents foreign s [7] /\ ListSize s = 1
    /\ exists p, ListTail s = Some p /\ walk ListPrev 2 p s = Some [7].
Proof.
  assert (Hr : represents foreign empty_list []).
  { exists [], []. by apply (ListInit_spec 8 32 None true foreign). }
  destruct (list_traversal (H := heap_fresh) foreign empty_list [] 7 Hr) as (_ & _ & Hz & _).
  assert (Hs : exists s, represents foreign s [7]).
  { destruct (add_op_spec (H := heap_fresh) foreign empty_list [] [] [] (AddTail 7) 0 7)
      as [(_ & n & Hn)|(p & s & fs & _ & _ & Hs & _)];
      [by apply (ListInit_spec 8 32 None true foreign)|done|done|by exists s, [p], fs]. }
  destruct Hs as [s Hs].
  exists s. destruct (list_traversal (H := heap_fresh) foreign s [7] 7 Hs) as (_ & T & Z1 & _).
  split; [exact Hs|]. split; [exact Z1|exact T].
Defined.

(** No leaks: after the destruction of a list the heap is what it was without
    the list, but for the two sentinels, which form an empty list again; every
    other node and every free node has been returned. *)
Theorem list_destroy_frees `{Heap} R s xs fi :
  represents R s xs ->
  exists s', ListDestroy fi s = Some (0, s') /\ lsize (lst s') = 0
    /\ (forall p, p <> lhead (lst s) -> p <> ltail (lst s) -> nodes s' !! p = R !! p)
    /\ ListHead s' = Some 0 /\ freed s' = freed s ++ freed_items s fi xs.
Proof.
  intros (ps & fs & Hr). destruct (ListDestroy_spec R s ps xs fs fi Hr) as (s' & E & Hr' & Hf & Hs).
  exists s'. split_and!; try done.
  - apply (lr_size _ _ _ _ _ _ Hr').
  - intros p H1 H2. apply (lr_frame _ _ _ _ _ _ Hr'). destruct Hs as (_ & _ & S3 & S4).
    unfold chain. rewrite S3, S4. set_solver.
  - apply (ListHead_spec R s' [] [] [] Hr').
Qed.

Lemma list_destroy_frees_witness :
  exists s', ListDestroy true empty_list = Some (0, s') /\ nodes s' !! 64 = Some (Node 1 2 3).
Proof.
  assert (Hr : represents foreign empty_list []).
  { exists [], []. by apply (ListInit_spec 8 32 None true foreign). }
  destruct (list_destroy_frees (H := heap_fresh) foreign empty_list [] true Hr)
    as (s' & E & _ & Hn & _).
  exists s'. split; [exact E|]. rewrite Hn by done. reflexivity.
Defined.
End Lists.
