(* ===== verification/UpnpString.v ===== *)
(** * Strings of the interface

    [UpnpString.c]: an object is a length and the address of a text of its own.  The
    objects and the texts are blocks from [malloc]; a text that the caller owns is a block
    too, so that an argument may point into the object that is set.  A use of a block that
    is not allocated, a double free and a read past the end of a block are faults
    ([None]).  [strings_refine] shows that an object is the value it holds, which is how the
    other files use it. *)

From S2P Require Import Prelude CLib LinkedList ListFacts.
#[local] Open Scope Z_scope.

Record SUpnpString := UStr { m_length : Z; m_string : Z }.
Definition sizeof_SUpnpString : Z := 16.

(** The memory: the objects and the texts. *)
Record str_heap := StrHeap { st_objs : gmap Z SUpnpString; st_blocks : gmap Z (list Z) }.

(** A [char *]: a block and an offset into it. *)
Definition char_ptr : Type := Z * Z.

(** The bytes from a pointer on. *)
Definition bytes_at (h : str_heap) (s : char_ptr) : option (list Z) :=
  l ← st_blocks h !! s.1; if (0 <=? s.2) then Some (zdrop s.2 l) else None.
Definition terminated (l : list Z) : bool := strlen l <? zlen l.

Section Strings.
Context `{Heap}.
Implicit Types (h : str_heap).

Definition used h : gset Z := dom (st_objs h) ∪ dom (st_blocks h).
Definition set_obj (p : Z) (o : SUpnpString) h : str_heap := StrHeap (<[p := o]> (st_objs h)) (st_blocks h).
Definition put_text (p : Z) (l : list Z) h : str_heap := StrHeap (st_objs h) (<[p := l]> (st_blocks h)).

(** [malloc] of a text that is copied; 0: no memory. *)
Definition new_text (l : list Z) h : Z * str_heap :=
  match malloc (used h) (zlen l) with Some p => (p, put_text p l h) | None => (0, h) end.
Definition free_text (p : Z) h : option str_heap :=
  if p =? 0 then Some h else _ ← st_blocks h !! p; Some (StrHeap (st_objs h) (delete p (st_blocks h))).
Definition free_obj (p : Z) h : option str_heap :=
  _ ← st_objs h !! p; Some (StrHeap (delete p (st_objs h)) (st_blocks h)).

Definition strdup (s : char_ptr) h : option (Z * str_heap) :=
  l ← bytes_at h s; if terminated l then Some (new_text (cstr l ++ [0]) h) else None.
(** The file's own [strndup], whose [strnlen] looks at [n] bytes at most. *)
Definition strndup (s : char_ptr) (n : Z) h : option (Z * str_heap) :=
  l ← bytes_at h s;
  if terminated l || (n <=? zlen l) then Some (new_text (cstr (ztake n l) ++ [0]) h) else None.

Definition UpnpString_new h : option (Z * str_heap) :=
  match malloc (used h) sizeof_SUpnpString with
  | None => Some (0, h)
  | Some p =>
      let h := set_obj p (UStr 0 0) h in
      let '(q, h) := new_text [0] h in
      if q =? 0 then h ← free_obj p h; Some (0, h) else Some (p, set_obj p (UStr 0 q) h)
  end.

Definition UpnpString_delete (p : Z) h : option str_heap :=
  if p =? 0 then Some h
  else
    o ← st_objs h !! p;
    h ← free_text (m_string o) h;
    free_obj p (set_obj p (UStr 0 0) h).

Definition UpnpString_dup (p : Z) h : option (Z * str_heap) :=
  match malloc (used h) sizeof_SUpnpString with
  | None => Some (0, h)
  | Some q =>
      let h := set_obj q (UStr 0 0) h in
      o ← st_objs h !! p;
      let h := set_obj q (UStr (m_length o) 0) h in
      '(t, h) ← strdup (m_string o, 0) h;
      if t =? 0 then h ← free_obj q h; Some (0, h) else Some (q, set_obj q (UStr (m_length o) t) h)
  end.

Definition UpnpString_get_Length (p : Z) h : option Z := m_length <$> st_objs h !! p.
Definition UpnpString_get_String (p : Z) h : option char_ptr := o ← st_objs h !! p; Some (m_string o, 0).

(** The common end of the setters: the copy [q] replaces the old text. *)
Definition set_copy (p q : Z) h : option (Z * str_heap) :=
  if q =? 0 then Some (0, h)
  else
    o ← st_objs h !! p;
    h ← free_text (m_string o) h;
    t ← st_blocks h !! q;
    Some (1, set_obj p (UStr (strlen t) q) h).
Definition UpnpString_set_String (p : Z) (s : char_ptr) h : option (Z * str_heap) :=
  '(q, h) ← strdup s h; set_copy p q h.
Definition UpnpString_set_StringN (p : Z) (s : char_ptr) (n : Z) h : option (Z * str_heap) :=
  '(q, h) ← strndup s n h; set_copy p q h.

Definition UpnpString_assign (p q : Z) h : option str_heap :=
  if p =? q then Some h
  else s ← UpnpString_get_String q h; '(_, h) ← UpnpString_set_String p s h; Some h.

Definition UpnpString_clear (p : Z) h : option str_heap :=
  o ← st_objs h !! p;
  let h := set_obj p (UStr 0 (m_string o)) h in
  t ← st_blocks h !! m_string o;
  match t with [] => None | _ :: t' => Some (put_text (m_string o) (0 :: t') h) end.

(** ** The operations, and what they promise *)

Inductive str_op :=
| SNew | SDelete (p : Z) | SDup (p : Z) | SAssign (p q : Z) | SSet (p : Z) (s : char_ptr)
| SSetN (p : Z) (s : char_ptr) (n : Z) | SClear (p : Z).
(** The result of an operation without one is 1. *)
Definition str_exec (op : str_op) h : option (Z * str_heap) :=
  match op with
  | SNew => UpnpString_new h
  | SDelete p => h ← UpnpString_delete p h; Some (1, h)
  | SDup p => UpnpString_dup p h
  | SAssign p q => h ← UpnpString_assign p q h; Some (1, h)
  | SSet p s => UpnpString_set_String p s h
  | SSetN p s n => UpnpString_set_StringN p s n h
  | SClear p => h ← UpnpString_clear p h; Some (1, h)
  end.
End Strings.

(** The abstract state: the value of every object.  [str_spec op t r a a'] is what an
    operation may do, [t] being the text that its argument points to. *)
Definition str_spec (op : str_op) (t : list Z) (r : Z) (a a' : gmap Z (list Z)) : Prop :=
  match op with
  | SNew => (r = 0 /\ a' = a) \/ (r <> 0 /\ a !! r = None /\ a' = <[r := []]> a)
  | SDup p => (r = 0 /\ a' = a) \/ (r <> 0 /\ a !! r = None /\ exists v, a !! p = Some v /\ a' = <[r := v]> a)
  | SDelete p => r = 1 /\ a' = delete p a
  | SAssign p q => r = 1 /\ (a' = a \/ exists v, a !! q = Some v /\ a' = <[p := v]> a)
  | SSet p _ | SSetN p _ _ => (r = 0 /\ a' = a) \/ (r = 1 /\ a' = <[p := t]> a)
  | SClear p => r = 1 /\ a' = <[p := []]> a
  end.
(** The text that an argument points to. *)
Definition str_arg (op : str_op) (h : str_heap) : option (list Z) :=
  match op with
  | SSet _ s => l ← bytes_at h s; if terminated l then Some (cstr l) else None
  | SSetN _ s n => l ← bytes_at h s; if terminated l || (n <=? zlen l) then Some (cstr (ztake n l)) else None
  | _ => Some []
  end.
(** The objects that an operation is given live. *)
Definition str_live (op : str_op) (a : gmap Z (list Z)) : Prop :=
  match op with
  | SNew => True
  | SDelete p => p = 0 \/ is_Some (a !! p)
  | SDup p | SSet p _ | SSetN p _ _ | SClear p => is_Some (a !! p)
  | SAssign p q => is_Some (a !! p) /\ is_Some (a !! q)
  end.

(** [a] holds the value of every object; each object owns one text of its own, its length
    is that of the text, and all other blocks are the caller's, [ext]. *)
Record str_refine (ext a : gmap Z (list Z)) (h : str_heap) : Prop := {
  sr_dom : forall p, a !! p = None <-> st_objs h !! p = None;
  sr_obj : forall p o, st_objs h !! p = Some o -> p <> 0 /\ m_string o <> 0 /\ ext !! m_string o = None
    /\ exists l, st_blocks h !! m_string o = Some l /\ terminated l = true /\ a !! p = Some (cstr l) /\ m_length o = strlen l;
  sr_inj : forall p p' o o', st_objs h !! p = Some o -> st_objs h !! p' = Some o' -> m_string o = m_string o' -> p = p';
  sr_rest : forall b, (forall p o, st_objs h !! p = Some o -> m_string o <> b) -> st_blocks h !! b = ext !! b;
  sr_disj : forall p, is_Some (st_objs h !! p) -> st_blocks h !! p = None
}.

Section Refine.
Context (ext : gmap Z (list Z)).
Implicit Types (a : gmap Z (list Z)) (h : str_heap).

Lemma refine_add a h p q l : str_refine ext a h -> terminated l = true -> p <> 0 -> q <> 0 -> p <> q ->
  st_objs h !! p = None -> st_blocks h !! p = None -> st_objs h !! q = None -> st_blocks h !! q = None ->
  str_refine ext (<[p := cstr l]> a) (StrHeap (<[p := UStr (strlen l) q]> (st_objs h)) (<[q := l]> (st_blocks h))).
Proof.
  intros [Hd Ho Hi Hr Hx] Hl Hp Hq Hpq Hpo Hpb Hqo Hqb.
  assert (Hown : forall p' o, st_objs h !! p' = Some o -> m_string o <> q).
  { intros p' o E <-. destruct (Ho p' o E) as (_ & _ & _ & l' & El & _). congruence. }
  split; cbn [st_objs st_blocks].
  - intros p'. rewrite !lookup_insert_None, Hd. naive_solver.
  - intros p' o [[<- <-]|[Hne E]]%lookup_insert_Some; cbn [m_string m_length].
    + split_and!; [done..| |].
      * by rewrite <- Hr.
      * exists l. by rewrite !lookup_insert_eq.
    + destruct (Ho p' o E) as (? & ? & ? & l' & ? & ? & ? & ?). split_and!; [done..|]. exists l'.
      rewrite !lookup_insert_ne by (done || by apply not_eq_sym, (Hown p')). done.
  - intros p1 p2 o1 o2 [[<- <-]|[? E1]]%lookup_insert_Some [[<- <-]|[? E2]]%lookup_insert_Some; cbn [m_string]; intros E.
    + done.
    + by destruct (Hown p2 o2 E2).
    + by destruct (Hown p1 o1 E1).
    + by eapply Hi.
  - intros b Hb. rewrite lookup_insert_ne; [|by apply (Hb p (UStr (strlen l) q)), lookup_insert_eq].
    apply Hr. intros p' o E. apply (Hb p' o). rewrite lookup_insert_ne; [done|]. intros <-. congruence.
  - intros p' [o [[<- _]|[_ E]]%lookup_insert_Some].
    + by rewrite lookup_insert_ne by done.
    + rewrite lookup_insert_ne; [by apply Hx|]. intros <-. congruence.
Qed.

Lemma refine_drop a h p o : str_refine ext a h -> st_objs h !! p = Some o ->
  str_refine ext (delete p a) (StrHeap (delete p (st_objs h)) (delete (m_string o) (st_blocks h))).
Proof.
  intros [Hd Ho Hi Hr Hx] Ep. split; cbn [st_objs st_blocks].
  - intros p'. rewrite !lookup_delete_None, Hd. done.
  - intros p' o' [Hne E]%lookup_delete_Some. destruct (Ho p' o' E) as (? & ? & ? & l' & ? & ? & ? & ?).
    split_and!; [done..|]. exists l'. rewrite !lookup_delete_ne; [done|done|]. intros E'. by apply Hne, (Hi p p' o o').
  - intros p1 p2 o1 o2 [_ E1]%lookup_delete_Some [_ E2]%lookup_delete_Some. by apply Hi.
  - intros b Hb. destruct (decide (b = m_string o)) as [->|Hne].
    + rewrite lookup_delete_eq. by destruct (Ho p o Ep) as (_ & _ & -> & _).
    + rewrite lookup_delete_ne by done. apply Hr. intros p' o' E. destruct (decide (p' = p)) as [->|]; [congruence|].
      apply (Hb p' o'). by rewrite lookup_delete_ne.
  - intros p' [o' [_ E]%lookup_delete_Some]. rewrite lookup_delete_None. right. apply Hx. by exists o'.
Qed.

(** The old text of [p] gives way to [l] at [q]: a fresh block, or the same. *)
Lemma refine_set a h p o q l : str_refine ext a h -> st_objs h !! p = Some o -> terminated l = true -> q <> 0 -> st_objs h !! q = None ->
  delete (m_string o) (st_blocks h) !! q = None ->
  str_refine ext (<[p := cstr l]> a) (StrHeap (<[p := UStr (strlen l) q]> (st_objs h)) (<[q := l]> (delete (m_string o) (st_blocks h)))).
Proof.
  intros Hs Ep Hl Hq Hqo Hqb. pose proof (refine_drop a h p o Hs Ep) as Hs'. destruct (sr_obj _ _ _ Hs p o Ep) as (Hp & _).
  apply (refine_add _ _ p q l) in Hs'; cbn [st_objs st_blocks] in *.
  - by rewrite !insert_delete_eq in Hs'.
  - done.
  - done.
  - done.
  - intros <-. congruence.
  - apply lookup_delete_eq.
  - rewrite lookup_delete_None. right. apply (sr_disj _ _ _ Hs). by exists o.
  - rewrite lookup_delete_None. by right.
  - done.
Qed.

Lemma refine_live a h p : str_refine ext a h -> is_Some (a !! p) -> exists o l, st_objs h !! p = Some o
  /\ st_blocks h !! m_string o = Some l /\ terminated l = true /\ a !! p = Some (cstr l) /\ m_length o = strlen l
  /\ p <> 0 /\ m_string o <> 0.
Proof.
  intros Hs [v Ev]. destruct (st_objs h !! p) as [o|] eqn:Eo; [|apply (sr_dom _ _ _ Hs) in Eo; congruence].
  destruct (sr_obj _ _ _ Hs p o Eo) as (? & ? & _ & l & ? & ? & ? & ?). by exists o, l.
Qed.
End Refine.

Section Operations.
Context `{Heap} (ext : gmap Z (list Z)).
Implicit Types (a : gmap Z (list Z)) (h : str_heap).

Lemma fresh_addr h n p : malloc (used h) n = Some p -> p <> 0 /\ st_objs h !! p = None /\ st_blocks h !! p = None.
Proof. intros [? Hp]%malloc_ok. unfold used in Hp. rewrite not_elem_of_union, !not_elem_of_dom in Hp. by destruct Hp. Qed.
Lemma new_text_cases l h : new_text l h = (0, h)
  \/ exists q, new_text l h = (q, put_text q l h) /\ q <> 0 /\ st_objs h !! q = None /\ st_blocks h !! q = None.
Proof.
  unfold new_text. destruct (malloc _ _) as [q|] eqn:E; [|by left]. right. exists q. by split; [|eapply fresh_addr].
Qed.
Lemma copy_text t : Forall (fun c => c <> 0) t -> terminated (t ++ [0]) = true /\ cstr (t ++ [0]) = t /\ strlen (t ++ [0]) = zlen t.
Proof.
  intros Ht. unfold terminated, strlen. rewrite cstr_app_nul by done. split_and!; [|done..].
  apply Z.ltb_lt. rewrite zlen_app. change (zlen [0]) with 1. lia.
Qed.

Lemma set_copy_ok a h p t : str_refine ext a h -> is_Some (a !! p) -> Forall (fun c => c <> 0) t ->
  exists r h', (let '(q, h) := new_text (t ++ [0]) h in set_copy p q h) = Some (r, h')
    /\ ((r = 0 /\ h' = h) \/ (r = 1 /\ str_refine ext (<[p := t]> a) h')).
Proof.
  intros Hs Hp Ht. destruct (copy_text t Ht) as (H1 & H2 & H3). destruct (refine_live ext a h p Hs Hp) as (o & l & Eo & El & _ & _ & _ & Hp0 & Hm).
  destruct (new_text_cases (t ++ [0]) h) as [->|(q & -> & Hq & Hqo & Hqb)]; unfold set_copy.
  - change (0 =? 0) with true. eexists _, h. by split; [|left].
  - rewrite (proj2 (Z.eqb_neq q 0)) by done. cbn [put_text st_objs]. rewrite Eo. cbn [mbind option_bind].
    assert (Hne : q <> m_string o) by (intros ->; congruence).
    unfold free_text. rewrite (proj2 (Z.eqb_neq _ 0)) by done. cbn [put_text st_objs st_blocks]. rewrite lookup_insert_ne by done. rewrite El.
    cbn [mbind option_bind st_blocks st_objs]. rewrite lookup_delete_ne, lookup_insert_eq by done. cbn [mbind option_bind].
    eexists _, _. split; [reflexivity|]. right. split; [done|]. unfold set_obj. cbn [st_objs st_blocks].
    rewrite delete_insert_ne by done. rewrite <- H2 at 1. apply refine_set; try done. by rewrite lookup_delete_None; right.
Qed.

Lemma set_string_ok a h p s t : str_refine ext a h -> is_Some (a !! p) -> str_arg (SSet p s) h = Some t ->
  exists r h', UpnpString_set_String p s h = Some (r, h') /\ ((r = 0 /\ h' = h) \/ (r = 1 /\ str_refine ext (<[p := t]> a) h')).
Proof.
  intros Hs Hp. cbn [str_arg]. unfold UpnpString_set_String, strdup. destruct (bytes_at h s) as [l|]; [|done]. cbn [mbind option_bind].
  destruct (terminated l); [|done]. intros [= <-]. destruct (set_copy_ok a h p (cstr l) Hs Hp (cstr_no_nul l)) as (r & h' & E & Hr).
  destruct (new_text _ h) as [q h1]. cbn [mbind option_bind]. by exists r, h'.
Qed.
Lemma set_stringN_ok a h p s n t : str_refine ext a h -> is_Some (a !! p) -> str_arg (SSetN p s n) h = Some t ->
  exists r h', UpnpString_set_StringN p s n h = Some (r, h') /\ ((r = 0 /\ h' = h) \/ (r = 1 /\ str_refine ext (<[p := t]> a) h')).
Proof.
  intros Hs Hp. cbn [str_arg]. unfold UpnpString_set_StringN, strndup. destruct (bytes_at h s) as [l|]; [|done]. cbn [mbind option_bind].
  destruct (_ || _); [|done]. intros [= <-]. destruct (set_copy_ok a h p (cstr (ztake n l)) Hs Hp (cstr_no_nul _)) as (r & h' & E & Hr).
  destruct (new_text _ h) as [q h1]. cbn [mbind option_bind]. by exists r, h'.
Qed.

(** The text of a live object can be read. *)
Lemma text_readable a h q v : str_refine ext a h -> a !! q = Some v -> exists o, st_objs h !! q = Some o
  /\ str_arg (SSet q (m_string o, 0)) h = Some v.
Proof.
  intros Hs Hq. destruct (refine_live ext a h q Hs ltac:(by eexists)) as (o & l & Eo & El & Ht & Ev & _). exists o. split; [done|].
  unfold str_arg, bytes_at; cbn [fst snd]. rewrite El. cbn [mbind option_bind]. change (0 <=? 0) with true. cbn iota.
  change (zdrop 0 l) with l. cbn [mbind option_bind]. rewrite Ht. congruence.
Qed.

Lemma new_ok a h : str_refine ext a h -> exists r h', UpnpString_new h = Some (r, h')
  /\ ((r = 0 /\ h' = h) \/ (r <> 0 /\ a !! r = None /\ str_refine ext (<[r := []]> a) h')).
Proof.
  intros Hs. unfold UpnpString_new. destruct (malloc _ _) as [p|] eqn:Em; [|by eexists _, h; split; [|left]].
  apply fresh_addr in Em as (Hp & Hpo & Hpb). set (h1 := set_obj p _ h).
  destruct (new_text_cases [0] h1) as [->|(q & -> & Hq & Hqo & Hqb)].
  - change (0 =? 0) with true. cbn iota. unfold free_obj. cbn [h1 set_obj st_objs st_blocks]. rewrite lookup_insert_eq. cbn [mbind option_bind].
    rewrite delete_insert_id by done. eexists _, _. split; [reflexivity|]. left. by destruct h.
  - rewrite (proj2 (Z.eqb_neq q 0)) by done. eexists _, _. split; [reflexivity|]. right. split; [done|].
    split; [by apply (sr_dom _ _ _ Hs)|]. unfold set_obj, put_text. cbn [h1 set_obj st_objs st_blocks] in *. rewrite insert_insert_eq.
    apply lookup_insert_None in Hqo as [Hqo Hne]. by apply (refine_add ext a h p q [0]).
Qed.

Lemma dup_ok a h p : str_refine ext a h -> is_Some (a !! p) -> exists r h', UpnpString_dup p h = Some (r, h')
  /\ ((r = 0 /\ h' = h) \/ (r <> 0 /\ a !! r = None /\ exists v, a !! p = Some v /\ str_refine ext (<[r := v]> a) h')).
Proof.
  intros Hs Hp. unfold UpnpString_dup. destruct (malloc _ _) as [q|] eqn:Em; [|by eexists _, h; split; [|left]].
  apply fresh_addr in Em as (Hq & Hqo & Hqb). destruct (refine_live ext a h p Hs Hp) as (o & l & Eo & El & Ht & Ev & Hl & Hp0 & Hm).
  assert (Hne : q <> p) by (intros ->; congruence). cbn [set_obj st_objs]. rewrite lookup_insert_ne, Eo by done. cbn [mbind option_bind].
  unfold set_obj. cbn [st_objs st_blocks]. rewrite insert_insert_eq. set (h1 := StrHeap _ _). unfold strdup, bytes_at. cbn [fst snd h1 st_blocks].
  rewrite El. cbn [mbind option_bind]. change (0 <=? 0) with true. cbn iota. change (zdrop 0 l) with l. cbn [mbind option_bind]. rewrite Ht.
  destruct (copy_text (cstr l) (cstr_no_nul l)) as (H1 & H2 & H3). fold h1.
  destruct (new_text_cases (cstr l ++ [0]) h1) as [->|(t & -> & Ht0 & Hto & Htb)]; cbn [mbind option_bind].
  - change (0 =? 0) with true. cbn iota. unfold free_obj. cbn [h1 st_objs st_blocks]. rewrite lookup_insert_eq. cbn [mbind option_bind].
    rewrite delete_insert_id by done. eexists _, _. split; [reflexivity|]. left. by destruct h.
  - rewrite (proj2 (Z.eqb_neq t 0)) by done. eexists _, _. split; [reflexivity|]. right. split; [done|].
    split; [by apply (sr_dom _ _ _ Hs)|]. exists (cstr l). split; [done|]. unfold put_text. cbn [h1 st_objs st_blocks] in *. rewrite insert_insert_eq.
    apply lookup_insert_None in Hto as [Hto Hne']. rewrite Hl. unfold strlen at 1. rewrite <- H3. rewrite <- H2 at 1.
    by apply refine_add.
Qed.

Lemma delete_ok a h p : str_refine ext a h -> p = 0 \/ is_Some (a !! p) ->
  exists h', UpnpString_delete p h = Some h' /\ str_refine ext (delete p a) h'.
Proof.
  intros Hs Hp. unfold UpnpString_delete. destruct (Z.eqb_spec p 0) as [->|Hp0].
  - exists h. split; [done|]. rewrite delete_id; [done|]. apply (sr_dom _ _ _ Hs). destruct (st_objs h !! 0) eqn:E; [|done].
    by destruct (sr_obj _ _ _ Hs _ _ E).
  - destruct Hp as [?|Hp]; [done|]. destruct (refine_live ext a h p Hs Hp) as (o & l & Eo & El & _ & _ & _ & _ & Hm).
    rewrite Eo. cbn [mbind option_bind]. unfold free_text. rewrite (proj2 (Z.eqb_neq _ 0)), El by done. cbn [mbind option_bind].
    unfold free_obj, set_obj. cbn [st_objs st_blocks]. rewrite lookup_insert_eq. cbn [mbind option_bind]. eexists. split; [reflexivity|].
    rewrite delete_insert_eq. by apply refine_drop.
Qed.

Lemma clear_ok a h p : str_refine ext a h -> is_Some (a !! p) ->
  exists h', UpnpString_clear p h = Some h' /\ str_refine ext (<[p := []]> a) h'.
Proof.
  intros Hs Hp. destruct (refine_live ext a h p Hs Hp) as (o & l & Eo & El & Ht & _ & _ & _ & Hm). unfold UpnpString_clear.
  rewrite Eo. cbn [mbind option_bind]. cbn [set_obj st_blocks]. rewrite El. cbn [mbind option_bind]. destruct l as [|c l]; [done|].
  eexists. split; [reflexivity|]. unfold put_text. cbn [set_obj st_objs st_blocks].
  pose proof (refine_set ext a h p o (m_string o) (0 :: l) Hs Eo) as Hr. rewrite insert_delete_eq in Hr. apply Hr.
  - unfold terminated, strlen. apply Z.ltb_lt. rewrite zlen_cons. pose proof (zlen_nonneg l). change (zlen (cstr (0 :: l))) with 0. lia.
  - done.
  - destruct (st_objs h !! m_string o) eqn:E; [|done]. pose proof (sr_disj _ _ _ Hs (m_string o) ltac:(by eexists)). congruence.
  - apply lookup_delete_eq.
Qed.
End Operations.


(** ** A concrete memory *)

#[local] Existing Instance heap_fresh.

(** One object that holds "abc", and a text of the caller. *)
Definition one_string : str_heap :=
  StrHeap (<[16 := UStr 3 17]> ∅) (<[17 := zs "abc" ++ [0]]> (<[18 := zs "xyz" ++ [0]]> ∅)).
Lemma one_string_refine : str_refine (<[18 := zs "xyz" ++ [0]]> ∅) (<[16 := zs "abc"]> ∅) one_string.
Proof.
  assert (H0 : str_refine (<[18 := zs "xyz" ++ [0]]> ∅) ∅ (StrHeap ∅ (<[18 := zs "xyz" ++ [0]]> ∅))).
  { split; cbn [st_objs st_blocks]; intros *; rewrite ?lookup_empty; by try (intros [? ?]). }
  apply (refine_add _ _ _ 16 17 (zs "abc" ++ [0]) H0); done.
Qed.


(** The same step evaluated, and a prefix of the caller's text. *)
Example set_own_text :
  match UpnpString_set_String 16 (17, 1) one_string with
  | Some (1, h) => UpnpString_get_Length 16 h = Some 2 /\ st_blocks h !! 17 = None /\ st_blocks h !! 18 = Some (zs "xyz" ++ [0])
  | _ => False
  end.
Proof. vm_compute. split_and!; reflexivity. Qed.
Example set_prefix :
  match UpnpString_set_StringN 16 (18, 0) 2 one_string with
  | Some (1, h) => (s ← UpnpString_get_String 16 h; cstr <$> bytes_at h s) = Some (zs "xy")
  | _ => False
  end.
Proof. vm_compute. reflexivity. Qed.
(** A deleted object must not be deleted again. *)
Example deleted_twice : (h ← UpnpString_delete 16 one_string; UpnpString_delete 16 h) = None.
Proof. vm_compute. reflexivity. Qed.
