(* ===== verification/ThreadPool.v ===== *)
(** * The thread pool

    [threadutil/src/ThreadPool.c].  The pool is shared by worker threads and by the
    threads that call its functions (the clients).  Every function runs with the
    mutex held, from [ithread_mutex_lock] or the end of a wait to the next wait or
    [ithread_mutex_unlock]; one such section is one atomic step here, and a thread
    between two sections is a program counter with its local variables ([wpc],
    [cpc]).  [step] interleaves the sections of all threads in any order.  A wait
    on a condition variable may end at any time (spurious wake-ups are allowed by
    POSIX); the loops around the waits are the guards.

    The environment [env] of a section gives the time, whether its allocations
    succeed, and the results of the thread library.  The queues are sequences of
    jobs (the linked list component shows that the lists are that); the job blocks
    themselves come from a free list and are copied, so they are values here.  The
    [double] counters of milliseconds are integers (they are exact below 2^53); the
    two totals of seconds, which nothing reads but the statistics, are left out. *)

From S2P Require Import Prelude.
#[local] Open Scope Z_scope.

Definition EINVAL : Z := 22.
Definition EAGAIN : Z := 11.
Definition EOUTOFMEM : Z := Z.land (-7) (Z.shiftl 1 29).
Definition EMAXTHREADS : Z := Z.land (-8) (Z.shiftl 1 29).
Definition INVALID_POLICY : Z := Z.land (-9) (Z.shiftl 1 29).
Definition INVALID_JOB_ID : Z := Z.land (-2) (Z.shiftl 1 29).
Definition INFINITE_THREADS : Z := -1.

Definition LOW_PRIORITY : Z := 0.
Definition MED_PRIORITY : Z := 1.
Definition HIGH_PRIORITY : Z := 2.

Record timeval := TV { tv_sec : Z; tv_usec : Z }.

Record ThreadPoolAttr := Attr {
  minThreads : Z;
  maxThreads : Z;
  stackSize : Z;
  maxIdleTime : Z;
  jobsPerThread : Z;
  maxJobsTotal : Z;
  starvationTime : Z;
  schedPolicy : Z
}.

Record ThreadPoolJob := Job {
  func : Z;
  arg : Z;
  free_func : Z;
  requestTime : timeval;
  priority : Z;
  jobId : Z
}.

Record ThreadPoolStats := Stats {
  totalTimeHQ : Z; totalJobsHQ : Z;
  totalTimeMQ : Z; totalJobsMQ : Z;
  totalTimeLQ : Z; totalJobsLQ : Z;
  workerThreads : Z;
  idleThreads : Z;
  maxThreadsSeen : Z
}.

Record ThreadPool := Pool {
  lastJobId : Z;
  shutdown : bool;
  totalThreads : Z;
  pendingWorkerThreadStart : bool;
  busyThreads : Z;
  persistentThreads : Z;
  lowJobQ : list ThreadPoolJob;
  medJobQ : list ThreadPoolJob;
  highJobQ : list ThreadPoolJob;
  persistentJob : option ThreadPoolJob;
  attr : ThreadPoolAttr;
  stats : ThreadPoolStats
}.

(** ** Jobs and attributes *)

Definition TPAttrInit : ThreadPoolAttr := Attr 1 10 0 (10 * 1000) 10 100 500 0.

(** [NULL] function pointers are 0. *)
Definition TPJobInit (job : ThreadPoolJob) (fn a : Z) : Z * ThreadPoolJob :=
  if fn =? 0 then (EINVAL, job)
  else (0, Job fn a 0 (requestTime job) MED_PRIORITY (jobId job)).
Definition TPJobSetPriority (job : ThreadPoolJob) (p : Z) : Z * ThreadPoolJob :=
  if (p =? LOW_PRIORITY) || (p =? MED_PRIORITY) || (p =? HIGH_PRIORITY)
  then (0, Job (func job) (arg job) (free_func job) (requestTime job) p (jobId job))
  else (EINVAL, job).
Definition TPJobSetFreeFunction (job : ThreadPoolJob) (fn : Z) : Z * ThreadPoolJob :=
  (0, Job (func job) (arg job) fn (requestTime job) (priority job) (jobId job)).

Definition TPAttrSetMaxThreads (a : ThreadPoolAttr) (v : Z) : Z * ThreadPoolAttr :=
  (0, Attr (minThreads a) v (stackSize a) (maxIdleTime a) (jobsPerThread a) (maxJobsTotal a)
           (starvationTime a) (schedPolicy a)).
Definition TPAttrSetMinThreads (a : ThreadPoolAttr) (v : Z) : Z * ThreadPoolAttr :=
  (0, Attr v (maxThreads a) (stackSize a) (maxIdleTime a) (jobsPerThread a) (maxJobsTotal a)
           (starvationTime a) (schedPolicy a)).
Definition TPAttrSetStackSize (a : ThreadPoolAttr) (v : Z) : Z * ThreadPoolAttr :=
  (0, Attr (minThreads a) (maxThreads a) v (maxIdleTime a) (jobsPerThread a) (maxJobsTotal a)
           (starvationTime a) (schedPolicy a)).
Definition TPAttrSetIdleTime (a : ThreadPoolAttr) (v : Z) : Z * ThreadPoolAttr :=
  (0, Attr (minThreads a) (maxThreads a) (stackSize a) v (jobsPerThread a) (maxJobsTotal a)
           (starvationTime a) (schedPolicy a)).
Definition TPAttrSetJobsPerThread (a : ThreadPoolAttr) (v : Z) : Z * ThreadPoolAttr :=
  (0, Attr (minThreads a) (maxThreads a) (stackSize a) (maxIdleTime a) v (maxJobsTotal a)
           (starvationTime a) (schedPolicy a)).
Definition TPAttrSetMaxJobsTotal (a : ThreadPoolAttr) (v : Z) : Z * ThreadPoolAttr :=
  (0, Attr (minThreads a) (maxThreads a) (stackSize a) (maxIdleTime a) (jobsPerThread a) v
           (starvationTime a) (schedPolicy a)).
Definition TPAttrSetStarvationTime (a : ThreadPoolAttr) (v : Z) : Z * ThreadPoolAttr :=
  (0, Attr (minThreads a) (maxThreads a) (stackSize a) (maxIdleTime a) (jobsPerThread a)
           (maxJobsTotal a) v (schedPolicy a)).
Definition TPAttrSetSchedPolicy (a : ThreadPoolAttr) (v : Z) : Z * ThreadPoolAttr :=
  (0, Attr (minThreads a) (maxThreads a) (stackSize a) (maxIdleTime a) (jobsPerThread a)
           (maxJobsTotal a) (starvationTime a) v).

(** ** Field updates *)

Definition set_lastJobId v t := Pool v (shutdown t) (totalThreads t) (pendingWorkerThreadStart t)
  (busyThreads t) (persistentThreads t) (lowJobQ t) (medJobQ t) (highJobQ t) (persistentJob t)
  (attr t) (stats t).
Definition set_shutdown v t := Pool (lastJobId t) v (totalThreads t) (pendingWorkerThreadStart t)
  (busyThreads t) (persistentThreads t) (lowJobQ t) (medJobQ t) (highJobQ t) (persistentJob t)
  (attr t) (stats t).
Definition set_total v t := Pool (lastJobId t) (shutdown t) v (pendingWorkerThreadStart t)
  (busyThreads t) (persistentThreads t) (lowJobQ t) (medJobQ t) (highJobQ t) (persistentJob t)
  (attr t) (stats t).
Definition set_pending v t := Pool (lastJobId t) (shutdown t) (totalThreads t) v
  (busyThreads t) (persistentThreads t) (lowJobQ t) (medJobQ t) (highJobQ t) (persistentJob t)
  (attr t) (stats t).
Definition set_busy v t := Pool (lastJobId t) (shutdown t) (totalThreads t)
  (pendingWorkerThreadStart t) v (persistentThreads t) (lowJobQ t) (medJobQ t) (highJobQ t)
  (persistentJob t) (attr t) (stats t).
Definition set_persistentThreads v t := Pool (lastJobId t) (shutdown t) (totalThreads t)
  (pendingWorkerThreadStart t) (busyThreads t) v (lowJobQ t) (medJobQ t) (highJobQ t)
  (persistentJob t) (attr t) (stats t).
Definition set_queues l m h t := Pool (lastJobId t) (shutdown t) (totalThreads t)
  (pendingWorkerThreadStart t) (busyThreads t) (persistentThreads t) l m h (persistentJob t)
  (attr t) (stats t).
Definition set_persistentJob v t := Pool (lastJobId t) (shutdown t) (totalThreads t)
  (pendingWorkerThreadStart t) (busyThreads t) (persistentThreads t) (lowJobQ t) (medJobQ t)
  (highJobQ t) v (attr t) (stats t).
Definition set_attr v t := Pool (lastJobId t) (shutdown t) (totalThreads t)
  (pendingWorkerThreadStart t) (busyThreads t) (persistentThreads t) (lowJobQ t) (medJobQ t)
  (highJobQ t) (persistentJob t) v (stats t).
Definition set_stats v t := Pool (lastJobId t) (shutdown t) (totalThreads t)
  (pendingWorkerThreadStart t) (busyThreads t) (persistentThreads t) (lowJobQ t) (medJobQ t)
  (highJobQ t) (persistentJob t) (attr t) v.

Definition add_worker_stat (d : Z) (t : ThreadPool) : ThreadPool :=
  let s := stats t in
  set_stats (Stats (totalTimeHQ s) (totalJobsHQ s) (totalTimeMQ s) (totalJobsMQ s)
    (totalTimeLQ s) (totalJobsLQ s) (workerThreads s + d) (idleThreads s) (maxThreadsSeen s)) t.
Definition add_idle_stat (d : Z) (t : ThreadPool) : ThreadPool :=
  let s := stats t in
  set_stats (Stats (totalTimeHQ s) (totalJobsHQ s) (totalTimeMQ s) (totalJobsMQ s)
    (totalTimeLQ s) (totalJobsLQ s) (workerThreads s) (idleThreads s + d) (maxThreadsSeen s)) t.

(** ** Statistics and priorities *)

(** The difference in milliseconds, truncated as the conversion to [long] does. *)
Definition DiffMillis (time1 time2 : timeval) : Z :=
  Z.quot ((tv_sec time1 - tv_sec time2) * 1000000 + (tv_usec time1 - tv_usec time2)) 1000.

Definition StatsInit : ThreadPoolStats := Stats 0 0 0 0 0 0 0 0 0.

Definition StatsAccountLQ (t : ThreadPool) (d : Z) : ThreadPool :=
  let s := stats t in
  set_stats (Stats (totalTimeHQ s) (totalJobsHQ s) (totalTimeMQ s) (totalJobsMQ s)
    (totalTimeLQ s + d) (totalJobsLQ s + 1) (workerThreads s) (idleThreads s)
    (maxThreadsSeen s)) t.
Definition StatsAccountMQ (t : ThreadPool) (d : Z) : ThreadPool :=
  let s := stats t in
  set_stats (Stats (totalTimeHQ s) (totalJobsHQ s) (totalTimeMQ s + d) (totalJobsMQ s + 1)
    (totalTimeLQ s) (totalJobsLQ s) (workerThreads s) (idleThreads s) (maxThreadsSeen s)) t.
Definition StatsAccountHQ (t : ThreadPool) (d : Z) : ThreadPool :=
  let s := stats t in
  set_stats (Stats (totalTimeHQ s + d) (totalJobsHQ s + 1) (totalTimeMQ s) (totalJobsMQ s)
    (totalTimeLQ s) (totalJobsLQ s) (workerThreads s) (idleThreads s) (maxThreadsSeen s)) t.

(** The environment of a section: the time, the success of the allocation of a job
    and of list nodes, and the results of the thread library. *)
Record env := Env {
  now : timeval;
  job_ok : bool;
  node_ok : bool;
  create_rc : Z;
  detach_rc : Z;
  policy_rc : Z;
  timed_out : bool
}.

Definition CalcWaitTime (e : env) (t : ThreadPool) (p : Z) (job : ThreadPoolJob) : ThreadPool :=
  let diff := DiffMillis (now e) (requestTime job) in
  if p =? LOW_PRIORITY then StatsAccountLQ t diff
  else if p =? MED_PRIORITY then StatsAccountMQ t diff
  else if p =? HIGH_PRIORITY then StatsAccountHQ t diff
  else t.

(** [ListAddTail] on a queue; the second component is the job that is lost when
    there is no memory for the node. *)
Definition push (ok : bool) (q : list ThreadPoolJob) (j : ThreadPoolJob)
  : list ThreadPoolJob * list ThreadPoolJob :=
  if ok then (q ++ [j], []) else (q, [j]).

(** The loop of [BumpPriority]. *)
Fixpoint bump_loop (fuel : nat) (e : env) (t : ThreadPool) (lost : list ThreadPoolJob)
  : ThreadPool * list ThreadPoolJob :=
  match fuel with
  | O => (t, lost)
  | S f =>
      let low (t : ThreadPool) :=
        match lowJobQ t with
        | j :: r =>
            let diffTime := DiffMillis (now e) (requestTime j) in
            if maxIdleTime (attr t) <=? diffTime then
              let t := StatsAccountLQ t diffTime in
              let '(m, l) := push (node_ok e) (medJobQ t) j in
              bump_loop f e (set_queues r m (highJobQ t) t) (lost ++ l)
            else (t, lost)
        | [] => (t, lost)
        end in
      match medJobQ t with
      | j :: r =>
          let diffTime := DiffMillis (now e) (requestTime j) in
          if starvationTime (attr t) <=? diffTime then
            let t := StatsAccountMQ t diffTime in
            let '(h, l) := push (node_ok e) (highJobQ t) j in
            bump_loop f e (set_queues (lowJobQ t) r h t) (lost ++ l)
          else low t
      | [] => low t
      end
  end.

(** Each round moves a job up: twice for a low one, once for a medium one. *)
Definition bump_fuel (t : ThreadPool) : nat :=
  S (length (medJobQ t) + 2 * length (lowJobQ t)).
Definition BumpPriority (e : env) (t : ThreadPool) : ThreadPool * list ThreadPoolJob :=
  bump_loop (bump_fuel t) e t [].

(** [SetRelTimeout]: seconds and nanoseconds. *)
Definition SetRelTimeout (nw : timeval) (relMillis : Z) : Z * Z :=
  (tv_sec nw + Z.quot relMillis 1000,
   (Z.quot (tv_usec nw) 1000 + Z.rem relMillis 1000) * 1000000).

Definition no_jobs (t : ThreadPool) : bool :=
  match lowJobQ t, medJobQ t, highJobQ t, persistentJob t with
  | [], [], [], None => true
  | _, _, _, _ => false
  end.
Definition total_jobs (t : ThreadPool) : Z :=
  zlen (highJobQ t) + zlen (lowJobQ t) + zlen (medJobQ t).

(** ** The system *)

(** A worker thread: just created; about to lock the mutex, with the job it has
    run and the value of [persistent]; waiting for a job; running a job; gone. *)
Inductive wpc :=
| WStart
| WTop (job : option ThreadPoolJob) (persistent : Z)
| WWait
| WRun (job : ThreadPoolJob) (persistent : Z)
| WExit.

(** What [CreateWorker] returns to: the loops of [ThreadPoolInit] and
    [ThreadPoolSetAttr], [AddWorker] in [ThreadPoolAdd] with its local variables, and
    [ThreadPoolAddPersistent]. *)
Inductive kont :=
| KInit (i : Z)
| KSetAttr (i : Z)
| KAdd (rc threads jobs : Z)
| KPersistent (job : ThreadPoolJob).

(** A client: at the first and at the second wait of [CreateWorker], at the waits of
    [ThreadPoolAddPersistent] and [ThreadPoolShutdown] (which then returns [ret]),
    about to call [ThreadPoolShutdown], or done with a result and a job id. *)
Inductive cpc :=
| CCreate (k : kont)
| CStarting (k : kont) (rc : Z)
| CPersist
| CCallShutdown (ret : Z)
| CShutdown (ret : Z)
| CDone (rc : Z) (id : option Z).

(** The pool, its threads, and the history of its jobs: put into the pool, given to
    a worker, taken out by [ThreadPoolRemove], discarded by [ThreadPoolShutdown], lost. *)
Record sys := Sys {
  tp : ThreadPool;
  workers : list wpc;
  clients : list cpc;
  accepted : list ThreadPoolJob;
  ran : list ThreadPoolJob;
  removed : list ThreadPoolJob;
  discarded : list ThreadPoolJob;
  lost : list ThreadPoolJob
}.

Definition with_tp (f : ThreadPool -> ThreadPool) (s : sys) : sys :=
  Sys (f (tp s)) (workers s) (clients s) (accepted s) (ran s) (removed s) (discarded s) (lost s).
Definition set_workers (w : list wpc) (s : sys) : sys :=
  Sys (tp s) w (clients s) (accepted s) (ran s) (removed s) (discarded s) (lost s).
Definition set_clients (c : list cpc) (s : sys) : sys :=
  Sys (tp s) (workers s) c (accepted s) (ran s) (removed s) (discarded s) (lost s).
Definition log_accepted (j : ThreadPoolJob) (s : sys) : sys :=
  Sys (tp s) (workers s) (clients s) (accepted s ++ [j]) (ran s) (removed s) (discarded s) (lost s).
Definition log_ran (j : ThreadPoolJob) (s : sys) : sys :=
  Sys (tp s) (workers s) (clients s) (accepted s) (ran s ++ [j]) (removed s) (discarded s) (lost s).
Definition log_removed (j : ThreadPoolJob) (s : sys) : sys :=
  Sys (tp s) (workers s) (clients s) (accepted s) (ran s) (removed s ++ [j]) (discarded s) (lost s).
Definition log_discarded (l : list ThreadPoolJob) (s : sys) : sys :=
  Sys (tp s) (workers s) (clients s) (accepted s) (ran s) (removed s) (discarded s ++ l) (lost s).
Definition log_lost (l : list ThreadPoolJob) (s : sys) : sys :=
  Sys (tp s) (workers s) (clients s) (accepted s) (ran s) (removed s) (discarded s) (lost s ++ l).

(** ** Sections of a worker *)

(** [exit_function]. *)
Definition worker_exit (s : sys) : sys * wpc :=
  (with_tp (fun t => set_total (totalThreads t - 1) t) s, WExit).

(** The job for the worker: the persistent one, else the head of the highest queue
    that is not empty. *)
Definition pick_job (e : env) (s : sys) : sys * wpc :=
  let t := tp s in
  match persistentJob t with
  | Some j =>
      let t := set_persistentThreads (persistentThreads t + 1) (set_persistentJob None t) in
      (log_ran j (with_tp (fun _ => set_busy (busyThreads t + 1) t) s), WRun j 1)
  | None =>
      let t := add_worker_stat 1 t in
      let run j t := (log_ran j (with_tp (fun _ => set_busy (busyThreads t + 1) t) s), WRun j 0) in
      match highJobQ t, medJobQ t, lowJobQ t with
      | j :: h, _, _ =>
          run j (set_queues (lowJobQ t) (medJobQ t) h (CalcWaitTime e t HIGH_PRIORITY j))
      | [], j :: m, _ =>
          run j (set_queues (lowJobQ t) m (highJobQ t) (CalcWaitTime e t MED_PRIORITY j))
      | [], [], j :: l =>
          run j (set_queues l (medJobQ t) (highJobQ t) (CalcWaitTime e t LOW_PRIORITY j))
      | [], [], [] => (* should never get here *)
          worker_exit (with_tp (fun _ => add_worker_stat (-1) t) s)
      end
  end.

(** Behind the waiting loop. *)
Definition worker_wake (e : env) (s : sys) : sys * wpc :=
  let s := with_tp (add_idle_stat (-1)) s in
  let '(t, l) := BumpPriority e (tp s) in
  let s := log_lost l (with_tp (fun _ => t) s) in
  if shutdown (tp s) then worker_exit s else pick_job e s.

(** The waiting loop, with [retCode == ETIMEDOUT]. *)
Definition worker_check (e : env) (timeout : bool) (s : sys) : sys * wpc :=
  let t := tp s in
  if no_jobs t && negb (shutdown t) then
    if (timeout && (minThreads (attr t) <? totalThreads t))
       || (negb (maxThreads (attr t) =? -1) && (maxThreads (attr t) <? totalThreads t))
    then worker_exit (with_tp (add_idle_stat (-1)) s)
    else (s, WWait)
  else worker_wake e s.

(** The top of the loop: the job that was run is released. *)
Definition worker_top (job : option ThreadPoolJob) (persistent : Z) (t : ThreadPool) : ThreadPool :=
  let t := match job with Some _ => set_busy (busyThreads t - 1) t | None => t end in
  let t := add_idle_stat 1 t in
  if persistent =? 0 then add_worker_stat (-1) t
  else if persistent =? 1 then set_persistentThreads (persistentThreads t - 1) t
  else t.

Definition worker_section (e : env) (w : wpc) (s : sys) : option (sys * wpc) :=
  match w with
  | WStart =>
      Some (with_tp (fun t => set_pending false (set_total (totalThreads t + 1) t)) s,
            WTop None (-1))
  | WTop job persistent =>
      Some (worker_check e false (with_tp (worker_top job persistent) s))
  | WWait => Some (worker_check e (timed_out e) s)
  | WRun job persistent => (* the job returns *) Some (s, WTop (Some job) persistent)
  | WExit => None
  end.

(** ** Sections of a client *)

(** [CreateThreadPoolJob]: a copy of the job with its id and the time. *)
Definition CreateThreadPoolJob (e : env) (job : ThreadPoolJob) (id : Z) : option ThreadPoolJob :=
  if job_ok e
  then Some (Job (func job) (arg job) (free_func job) (now e) (priority job) id) else None.

(** The highest number of threads, at the end of [CreateWorker]. *)
Definition see_threads (t : ThreadPool) : ThreadPool :=
  if maxThreadsSeen (stats t) <? totalThreads t then
    let s := stats t in
    set_stats (Stats (totalTimeHQ s) (totalJobsHQ s) (totalTimeMQ s) (totalJobsMQ s)
      (totalTimeLQ s) (totalJobsLQ s) (workerThreads s) (idleThreads s) (totalThreads t)) t
  else t.

(** The end of [ThreadPoolAdd], behind [AddWorker]. *)
Definition add_finish (rc : Z) (s : sys) : sys * cpc :=
  let id := lastJobId (tp s) in
  (with_tp (set_lastJobId (id + 1)) s, CDone rc (Some id)).

(** [ThreadPoolAddPersistent] behind [CreateWorker], up to its wait.  A job that
    another client has stored and that no worker has taken yet is overwritten. *)
Definition persist_rest (e : env) (job : ThreadPoolJob) (s : sys) : sys * cpc :=
  match CreateThreadPoolJob e job (lastJobId (tp s)) with
  | None => (s, CDone EOUTOFMEM (Some INVALID_JOB_ID))
  | Some temp =>
      let old := match persistentJob (tp s) with Some j => [j] | None => [] end in
      (log_accepted temp (log_lost old (with_tp (set_persistentJob (Some temp)) s)), CPersist)
  end.

(** [CreateWorker] has failed: what its callers do. *)
Definition create_failed (e : env) (k : kont) (rc : Z) (s : sys) : sys * cpc :=
  match k with
  | KInit _ | KSetAttr _ => (s, CCallShutdown rc)
  | KAdd arc _ _ => (* [AddWorker] returns *) add_finish arc s
  | KPersistent job => (* the result is ignored *) persist_rest e job s
  end.

(** [CreateWorker] behind its first wait.  A created worker is appended; its
    creator waits until it has started. *)
Definition create_body (e : env) (k : kont) (s : sys) : sys * cpc :=
  let t := tp s in
  if negb (maxThreads (attr t) =? INFINITE_THREADS) && (maxThreads (attr t) <? totalThreads t + 1)
  then create_failed e k EMAXTHREADS s
  else if create_rc e =? 0 then
    let rc := if detach_rc e =? EINVAL then 0 else detach_rc e in
    (set_workers (workers s ++ [WStart]) (with_tp (set_pending true) s), CStarting k rc)
  else create_failed e k (create_rc e) (with_tp see_threads s).
Definition CreateWorker (e : env) (k : kont) (s : sys) : sys * cpc :=
  if pendingWorkerThreadStart (tp s) then (s, CCreate k) else create_body e k s.

(** The test of the loop of [AddWorker]. *)
Definition want_worker (t : ThreadPool) (threads jobs : Z) : bool :=
  (threads =? 0) || (jobsPerThread (attr t) <=? Z.quot jobs threads)
  || (totalThreads t =? busyThreads t).
Definition AddWorker (e : env) (rc threads jobs : Z) (s : sys) : sys * cpc :=
  if want_worker (tp s) threads jobs then CreateWorker e (KAdd rc threads jobs) s
  else add_finish rc s.

(** The loops that create the minimum of threads. *)
Definition min_workers (e : env) (k : Z -> kont) (i : Z) (s : sys) : sys * cpc :=
  if i <? minThreads (attr (tp s)) then CreateWorker e (k i) s else (s, CDone 0 None).

(** [CreateWorker] has succeeded. *)
Definition create_done (e : env) (k : kont) (s : sys) : sys * cpc :=
  match k with
  | KInit i => min_workers e KInit (i + 1) s
  | KSetAttr i => min_workers e KSetAttr (i + 1) s
  | KAdd rc threads jobs => AddWorker e rc (threads + 1) jobs s
  | KPersistent job => persist_rest e job s
  end.

Definition enqueue (p : Z) (j : ThreadPoolJob) (t : ThreadPool) : ThreadPool :=
  if p =? HIGH_PRIORITY then set_queues (lowJobQ t) (medJobQ t) (highJobQ t ++ [j]) t
  else if p =? MED_PRIORITY then set_queues (lowJobQ t) (medJobQ t ++ [j]) (highJobQ t) t
  else set_queues (lowJobQ t ++ [j]) (medJobQ t) (highJobQ t) t.

Definition ThreadPoolAdd (e : env) (job : option ThreadPoolJob) (s : sys) : sys * cpc :=
  match job with
  | None => (s, CDone EINVAL None)
  | Some job =>
      let t := tp s in
      if maxJobsTotal (attr t) <=? total_jobs t then (s, CDone EOUTOFMEM None)
      else
        match CreateThreadPoolJob e job (lastJobId t) with
        | None => (s, CDone EOUTOFMEM (Some INVALID_JOB_ID))
        | Some temp =>
            let '(rc, s) :=
              if node_ok e
              then (0, log_accepted temp (with_tp (enqueue (priority job) temp) s))
              else (EOUTOFMEM, s) in
            AddWorker e rc (totalThreads (tp s) - persistentThreads (tp s)) (total_jobs (tp s)) s
        end
  end.

Definition ThreadPoolAddPersistent (e : env) (job : option ThreadPoolJob) (s : sys) : sys * cpc :=
  match job with
  | None => (s, CDone EINVAL None)
  | Some job =>
      let t := tp s in
      if totalThreads t <? maxThreads (attr t) then CreateWorker e (KPersistent job) s
      else if totalThreads t - persistentThreads t - 1 =? 0
           then (s, CDone EMAXTHREADS (Some INVALID_JOB_ID))
           else persist_rest e job s
  end.

(** [ListFind] by [CmpThreadPoolJob] and [ListDelNode]: the job and the other jobs. *)
Fixpoint take_job (id : Z) (q : list ThreadPoolJob) : option (ThreadPoolJob * list ThreadPoolJob) :=
  match q with
  | [] => None
  | j :: r =>
      if jobId j =? id then Some (j, r)
      else match take_job id r with Some (x, r') => Some (x, j :: r') | None => None end
  end.

(** The result and the job copied to [*out]. *)
Definition ThreadPoolRemove (id : Z) (s : sys) : sys * cpc * option ThreadPoolJob :=
  let t := tp s in
  let done j f := (log_removed j (with_tp f s), CDone 0 None, Some j) in
  match take_job id (highJobQ t), take_job id (medJobQ t), take_job id (lowJobQ t) with
  | Some (j, h), _, _ => done j (set_queues (lowJobQ t) (medJobQ t) h)
  | None, Some (j, m), _ => done j (set_queues (lowJobQ t) m (highJobQ t))
  | None, None, Some (j, l) => done j (set_queues l (medJobQ t) (highJobQ t))
  | None, None, None =>
      match persistentJob t with
      | Some j => if jobId j =? id then done j (set_persistentJob None)
                  else (s, CDone INVALID_JOB_ID None, None)
      | None => (s, CDone INVALID_JOB_ID None, None)
      end
  end.

Definition ThreadPoolGetAttr (s : sys) : ThreadPoolAttr := attr (tp s).

Definition ThreadPoolSetAttr (e : env) (a : option ThreadPoolAttr) (s : sys) : sys * cpc :=
  let temp := match a with Some a => a | None => TPAttrInit end in
  if negb (policy_rc e =? 0) then (s, CDone INVALID_POLICY None)
  else
    let s := with_tp (set_attr temp) s in
    min_workers e KSetAttr (totalThreads (tp s)) s.

(** [ThreadPoolShutdown] up to its wait.  The arguments of the discarded jobs that
    have a free function are freed. *)
Definition all_jobs (t : ThreadPool) : list ThreadPoolJob :=
  highJobQ t ++ medJobQ t ++ lowJobQ t
  ++ match persistentJob t with Some j => [j] | None => [] end.
Definition freed_args (l : list ThreadPoolJob) : list Z :=
  map arg (List.filter (fun j => negb (free_func j =? 0)) l).
Definition ThreadPoolShutdown (ret : Z) (s : sys) : sys * cpc :=
  let l := all_jobs (tp s) in
  (log_discarded l (with_tp (fun t => set_shutdown true (set_persistentJob None (set_queues [] [] [] t))) s),
   CShutdown ret).

(** [ThreadPoolInit] on a pool nobody shares yet, when the mutex and the condition
    variables could be created. *)
Definition pool0 (a : ThreadPoolAttr) : ThreadPool :=
  Pool 0 false 0 false 0 0 [] [] [] None a StatsInit.
Definition sys0 (a : ThreadPoolAttr) : sys := Sys (pool0 a) [] [] [] [] [] [] [].
Definition ThreadPoolInit (e : env) (a : option ThreadPoolAttr) : sys * cpc :=
  let s := sys0 match a with Some a => a | None => TPAttrInit end in
  if negb (policy_rc e =? 0) then (s, CDone INVALID_POLICY None) else min_workers e KInit 0 s.

(** The end of a wait, when its loop lets the client go on. *)
Definition client_section (e : env) (c : cpc) (s : sys) : option (sys * cpc) :=
  match c with
  | CCreate k => if pendingWorkerThreadStart (tp s) then None else Some (create_body e k s)
  | CStarting k rc =>
      if pendingWorkerThreadStart (tp s) then None
      else
        let s := with_tp see_threads s in
        Some (if rc =? 0 then create_done e k s else create_failed e k rc s)
  | CPersist =>
      match persistentJob (tp s) with
      | Some _ => None
      | None => let id := lastJobId (tp s) in
                Some (with_tp (set_lastJobId (id + 1)) s, CDone 0 (Some id))
      end
  | CCallShutdown ret => Some (ThreadPoolShutdown ret s)
  | CShutdown ret => if 0 <? totalThreads (tp s) then None else Some (s, CDone ret None)
  | CDone _ _ => None
  end.

(** The calls of a client. *)
Inductive call :=
| DoAdd (job : option ThreadPoolJob)
| DoAddPersistent (job : option ThreadPoolJob)
| DoRemove (id : Z)
| DoSetAttr (a : option ThreadPoolAttr)
| DoShutdown.
Definition call_section (e : env) (c : call) (s : sys) : sys * cpc :=
  match c with
  | DoAdd job => ThreadPoolAdd e job s
  | DoAddPersistent job => ThreadPoolAddPersistent e job s
  | DoRemove id => (ThreadPoolRemove id s).1
  | DoSetAttr a => ThreadPoolSetAttr e a s
  | DoShutdown => ThreadPoolShutdown 0 s
  end.

(** One section of some thread.  [ok] restricts the attributes that are set. *)
Inductive step (ok : ThreadPoolAttr -> Prop) : sys -> sys -> Prop :=
| step_call e c s s' pc :
    (forall a, c = DoSetAttr (Some a) -> ok a) -> (c = DoSetAttr None -> ok TPAttrInit) ->
    call_section e c s = (s', pc) -> step ok s (set_clients (clients s' ++ [pc]) s')
| step_client e i c s s' pc :
    clients s !! i = Some c -> client_section e c s = Some (s', pc) ->
    step ok s (set_clients (<[i := pc]> (clients s')) s')
| step_worker e i w s s' pc :
    workers s !! i = Some w -> worker_section e w s = Some (s', pc) ->
    step ok s (set_workers (<[i := pc]> (workers s')) s').

(** The states after [ThreadPoolInit]. *)
Inductive reach (ok : ThreadPoolAttr -> Prop) : sys -> Prop :=
| reach_init e a s pc :
    ok match a with Some a => a | None => TPAttrInit end ->
    ThreadPoolInit e a = (s, pc) -> reach ok (set_clients [pc] s)
| reach_step s s' : reach ok s -> step ok s s' -> reach ok s'.
