(* ===== verification/PoolFacts.v ===== *)
(** * The thread pool: its invariants and the fate of its jobs

    Counters against threads, the bound on the number of threads, the conservation
    of jobs, the ageing of waiting jobs, the order in which jobs are taken, and the
    end of a shutdown, for every interleaving of the sections of the threads. *)

From S2P Require Import Prelude ThreadPool.
#[local] Open Scope Z_scope.

Definition b2z (b : bool) : Z := if b then 1 else 0.

(** ** Counting threads *)

Fixpoint cnt (f : wpc -> bool) (l : list wpc) : Z :=
  match l with [] => 0 | w :: l => b2z (f w) + cnt f l end.

Lemma cnt_app f l1 l2 : cnt f (l1 ++ l2) = cnt f l1 + cnt f l2.
Proof. induction l1 as [|w l1 IH]; cbn; [done|]. rewrite IH. lia. Qed.

Lemma cnt_nonneg f l : 0 <= cnt f l.
Proof. induction l as [|w l IH]; cbn; [lia|]. unfold b2z. case_match; lia. Qed.

Lemma cnt_insert f l i w w' :
  l !! i = Some w -> cnt f (<[i := w']> l) = cnt f l - b2z (f w) + b2z (f w').
Proof.
  revert i. induction l as [|x l IH]; intros [|i] Hi; cbn in Hi; try done.
  - injection Hi as ->. cbn. lia.
  - change (<[S i := w']> (x :: l)) with (x :: <[i := w']> l). cbn. rewrite (IH i Hi). lia.
Qed.

Lemma cnt_pos f l i w : l !! i = Some w -> f w = true -> 1 <= cnt f l.
Proof.
  revert i. induction l as [|x l IH]; intros [|i] Hi Hf; cbn in Hi; try done; cbn.
  - injection Hi as ->. rewrite Hf. pose proof (cnt_nonneg f l). cbn. lia.
  - pose proof (IH i Hi Hf). unfold b2z. case_match; lia.
Qed.

Definition is_active (w : wpc) : bool := match w with WTop _ _ | WWait | WRun _ _ => true | _ => false end.
Definition is_starting (w : wpc) : bool := match w with WStart => true | _ => false end.
Definition has_job (w : wpc) : bool := match w with WTop (Some _) _ | WRun _ _ => true | _ => false end.
Definition is_waiting (w : wpc) : bool := match w with WWait => true | _ => false end.
Definition on_job (p : Z) (w : wpc) : bool :=
  match w with WTop _ q | WRun _ q => q =? p | _ => false end.

(** ** The invariant of the counters *)

(** [C] counts the threads of a kind. *)
Record counters (C : (wpc -> bool) -> Z) (t : ThreadPool) : Prop := {
  c_total : totalThreads t = C is_active;
  c_pending : b2z (pendingWorkerThreadStart t) = C is_starting;
  c_busy : busyThreads t = C has_job;
  c_persistent : persistentThreads t = C (on_job 1);
  c_idle : idleThreads (stats t) = C is_waiting;
  c_worker : workerThreads (stats t) = C (on_job 0)
}.

Definition conserved (s : sys) : Prop :=
  accepted s ≡ₚ all_jobs (tp s) ++ ran s ++ removed s ++ discarded s ++ lost s.

(** What a change of the queues leaves. *)
Definition same_counts (t t' : ThreadPool) : Prop :=
  totalThreads t' = totalThreads t /\ pendingWorkerThreadStart t' = pendingWorkerThreadStart t
  /\ busyThreads t' = busyThreads t /\ persistentThreads t' = persistentThreads t
  /\ idleThreads (stats t') = idleThreads (stats t)
  /\ workerThreads (stats t') = workerThreads (stats t)
  /\ attr t' = attr t /\ shutdown t' = shutdown t /\ persistentJob t' = persistentJob t
  /\ lastJobId t' = lastJobId t.

Lemma same_counts_refl t : same_counts t t.
Proof. done. Qed.
Lemma same_counts_trans t1 t2 t3 : same_counts t1 t2 -> same_counts t2 t3 -> same_counts t1 t3.
Proof. unfold same_counts. intuition congruence. Qed.
Lemma counters_same C t t' : same_counts t t' -> counters C t -> counters C t'.
Proof.
  intros (E1 & E2 & E3 & E4 & E5 & E6 & _) []. split; congruence.
Qed.

(** ** Ageing *)

(** The jobs [ls] leave the low queue, [hs] the medium one; [f] decides on the
    memory for a node. *)
Record bumped (e : env) (t t' : ThreadPool) (hs ls : list ThreadPoolJob) : Prop := {
  bp_same : same_counts t t';
  bp_low : lowJobQ t = ls ++ lowJobQ t';
  bp_med : medJobQ t ++ ls = hs ++ medJobQ t';
  bp_high : highJobQ t' = highJobQ t ++ hs;
  bp_hs : Forall (fun j => starvationTime (attr t) <= DiffMillis (now e) (requestTime j)) hs;
  bp_ls : Forall (fun j => maxIdleTime (attr t) <= DiffMillis (now e) (requestTime j)) ls;
  bp_rest_med : forall j r, medJobQ t' = j :: r ->
    DiffMillis (now e) (requestTime j) < starvationTime (attr t);
  bp_rest_low : forall j r, lowJobQ t' = j :: r ->
    DiffMillis (now e) (requestTime j) < maxIdleTime (attr t)
}.

Lemma bump_loop_spec fuel e t acc :
  node_ok e = true -> (length (medJobQ t) + 2 * length (lowJobQ t) < fuel)%nat ->
  exists t' hs ls, bump_loop fuel e t acc = (t', acc) /\ bumped e t t' hs ls.
Proof.
  revert t. induction fuel as [|fuel IH]; intros t Hn Hf; [lia|].
  assert (Hlow : (forall j r, medJobQ t = j :: r ->
      DiffMillis (now e) (requestTime j) < starvationTime (attr t)) ->
    exists t' hs ls,
    match lowJobQ t with
    | j :: r =>
        let diffTime := DiffMillis (now e) (requestTime j) in
        if maxIdleTime (attr t) <=? diffTime then
          let t := StatsAccountLQ t diffTime in
          let '(m, l) := push (node_ok e) (medJobQ t) j in
          bump_loop fuel e (set_queues r m (highJobQ t) t) (acc ++ l)
        else (t, acc)
    | [] => (t, acc)
    end = (t', acc) /\ bumped e t t' hs ls).
  { intros Hm. destruct (lowJobQ t) as [|j r] eqn:El.
    - exists t, [], []. split; [done|]. split; rewrite ?El, ?app_nil_r; try done.
    - cbv zeta. destruct (Z.leb_spec (maxIdleTime (attr t)) (DiffMillis (now e) (requestTime j))).
      + rewrite Hn. cbn [push]. rewrite app_nil_r.
        destruct (IH (set_queues r (medJobQ (StatsAccountLQ t (DiffMillis (now e) (requestTime j))) ++ [j])
          (highJobQ (StatsAccountLQ t (DiffMillis (now e) (requestTime j))))
          (StatsAccountLQ t (DiffMillis (now e) (requestTime j)))) Hn)
          as (t' & hs & ls & E & []).
        { cbn. rewrite length_app. cbn in *. lia. }
        exists t', hs, (j :: ls). split; [exact E|]. cbn in *. split; try done.
        * by rewrite El, bp_low0.
        * by rewrite <- bp_med0, <- app_assoc.
        * by constructor.
      + exists t, [], []. split; [done|]. split; rewrite ?app_nil_r; try done.
        intros k r' Ek. rewrite El in Ek. injection Ek as <- _. lia. }
  cbn [bump_loop]. destruct (medJobQ t) as [|j r] eqn:Em.
  - destruct (Hlow ltac:(done)) as (t' & hs & ls & E & HB). eauto.
  - cbv zeta. destruct (Z.leb_spec (starvationTime (attr t)) (DiffMillis (now e) (requestTime j))).
    + rewrite Hn. cbn [push]. rewrite app_nil_r.
      destruct (IH (set_queues (lowJobQ (StatsAccountMQ t (DiffMillis (now e) (requestTime j)))) r
          (highJobQ (StatsAccountMQ t (DiffMillis (now e) (requestTime j))) ++ [j])
          (StatsAccountMQ t (DiffMillis (now e) (requestTime j)))) Hn)
        as (t' & hs & ls & E & []).
      { cbn in *. lia. }
      exists t', (j :: hs), ls. split; [exact E|]. cbn in *. split; try done.
      * by rewrite Em, <- app_comm_cons, bp_med0.
      * by rewrite bp_high0, <- app_assoc.
      * by constructor.
    + apply Hlow. intros k r' Ek. injection Ek as <- _. lia.
Qed.

(** Whatever happens to the memory, no job is duplicated and the lost ones are known. *)
Lemma bump_loop_jobs fuel e t acc t' l :
  bump_loop fuel e t acc = (t', l) ->
  same_counts t t' /\ all_jobs t ++ acc ≡ₚ all_jobs t' ++ l.
Proof.
  revert t acc. induction fuel as [|fuel IH]; intros t acc E; cbn [bump_loop] in E;
    [by injection E as <- <-|].
  assert (Hlow : match lowJobQ t with
    | j :: r =>
        let diffTime := DiffMillis (now e) (requestTime j) in
        if maxIdleTime (attr t) <=? diffTime then
          let t := StatsAccountLQ t diffTime in
          let '(m, l) := push (node_ok e) (medJobQ t) j in
          bump_loop fuel e (set_queues r m (highJobQ t) t) (acc ++ l)
        else (t, acc)
    | [] => (t, acc)
    end = (t', l) -> same_counts t t' /\ all_jobs t ++ acc ≡ₚ all_jobs t' ++ l).
  { clear E. destruct (lowJobQ t) as [|j r] eqn:El; [by intros [= <- <-]|]. cbv zeta.
    destruct (_ <=? _); [|by intros [= <- <-]]. unfold push. destruct (node_ok e); intros E;
      apply IH in E as [S P]; split;
      try (eapply same_counts_trans; [|exact S]; done); rewrite <- P; unfold all_jobs; cbn; rewrite El;
      solve_Permutation. }
  destruct (medJobQ t) as [|j r] eqn:Em; [by apply Hlow|]. cbv zeta in E.
  destruct (starvationTime (attr t) <=? _); [|by apply Hlow].
  unfold push in E. destruct (node_ok e); apply IH in E as [S P]; split;
    try (eapply same_counts_trans; [|exact S]; done); rewrite <- P; unfold all_jobs; cbn; rewrite Em;
    solve_Permutation.
Qed.

Lemma BumpPriority_jobs e t t' l :
  BumpPriority e t = (t', l) -> same_counts t t' /\ all_jobs t ≡ₚ all_jobs t' ++ l.
Proof. intros E. apply bump_loop_jobs in E. by rewrite app_nil_r in E. Qed.

(** ** Sections of a worker *)

(** [s] with the section of one worker [w] in progress; [C] counts the others. *)
Record inprog (C : (wpc -> bool) -> Z) (s0 s : sys) (w : wpc) : Prop := {
  ip_count : counters (fun f => C f + b2z (f w)) (tp s);
  ip_jobs : conserved s;
  ip_workers : workers s = workers s0;
  ip_clients : clients s = clients s0;
  ip_attr : attr (tp s) = attr (tp s0);
  ip_shutdown : shutdown (tp s) = shutdown (tp s0)
}.

(** A worker inside its section, neither waiting nor with a job. *)
Definition inside : wpc := WTop None (-1).

Ltac solve_counters :=
  match goal with H : counters _ _ |- counters _ _ =>
    destruct H; split; cbn in *; lia end.

Lemma worker_exit_ok C s0 s s' w :
  inprog C s0 s inside -> worker_exit s = (s', w) -> inprog C s0 s' w /\ w = WExit.
Proof.
  intros [] [= <- <-]. split; [|done]. split; try done. cbn. solve_counters.
Qed.

Lemma conserved_run s s' j :
  conserved s -> accepted s' = accepted s -> ran s' = ran s ++ [j] -> removed s' = removed s ->
  discarded s' = discarded s -> lost s' = lost s ->
  all_jobs (tp s) ≡ₚ j :: all_jobs (tp s') -> conserved s'.
Proof.
  unfold conserved. intros P -> -> -> -> -> Q. rewrite P, Q. solve_Permutation.
Qed.

Lemma pick_job_ok e C s0 s s' w :
  inprog C s0 s inside -> pick_job e s = (s', w) -> inprog C s0 s' w.
Proof.
  intros [IC IJ IW IL IA IS] E. unfold pick_job in E.
  destruct (persistentJob (tp s)) as [j|] eqn:Ep.
  - injection E as <- <-. split; try done; cbn; [solve_counters|].
    eapply conserved_run; [exact IJ|done..|]. unfold all_jobs. cbn. rewrite Ep. solve_Permutation.
  - cbn in E. destruct (highJobQ (tp s)) as [|j h] eqn:Eh.
    + destruct (medJobQ (tp s)) as [|j m] eqn:Em.
      * destruct (lowJobQ (tp s)) as [|j l] eqn:El.
        -- eapply worker_exit_ok; [|exact E]. split; try done. cbn. solve_counters.
        -- injection E as <- <-. split; try done; cbn; [solve_counters|].
           eapply conserved_run; [exact IJ|done..|]. unfold all_jobs. cbn.
           rewrite Ep, Eh, Em, El. solve_Permutation.
      * injection E as <- <-. split; try done; cbn; [solve_counters|].
        eapply conserved_run; [exact IJ|done..|]. unfold all_jobs. cbn.
        rewrite Ep, Eh, Em. solve_Permutation.
    + injection E as <- <-. split; try done; cbn; [solve_counters|].
      eapply conserved_run; [exact IJ|done..|]. unfold all_jobs. cbn. rewrite Ep, Eh.
      solve_Permutation.
Qed.

Lemma worker_wake_ok e C s0 s s' w :
  inprog C s0 s WWait -> worker_wake e s = (s', w) ->
  inprog C s0 s' w /\ (shutdown (tp s0) = true -> w = WExit).
Proof.
  intros [IC IJ IW IL IA IS] E. unfold worker_wake in E.
  destruct (BumpPriority e _) as [t l] eqn:EB. apply BumpPriority_jobs in EB as [S P].
  assert (HI : inprog C s0 (log_lost l (with_tp (fun _ => t) (with_tp (add_idle_stat (-1)) s))) inside).
  { split; try done; cbn.
    - eapply counters_same; [exact S|]. cbn. solve_counters.
    - unfold conserved in *. cbn in *. rewrite IJ. change (all_jobs (tp s)) with
        (all_jobs (add_idle_stat (-1) (tp s))). rewrite P. solve_Permutation.
    - destruct S as (_ & _ & _ & _ & _ & _ & -> & _). done.
    - destruct S as (_ & _ & _ & _ & _ & _ & _ & -> & _). done. }
  destruct (shutdown (tp (log_lost _ _))) eqn:Es.
  - eapply worker_exit_ok in E as [E ->]; [|exact HI]. done.
  - split; [by eapply pick_job_ok|]. intros Hs.
    pose proof (ip_shutdown _ _ _ _ HI). congruence.
Qed.

Lemma worker_check_ok e timeout C s0 s s' w :
  inprog C s0 s WWait -> worker_check e timeout s = (s', w) ->
  inprog C s0 s' w /\ (shutdown (tp s0) = true -> w = WExit).
Proof.
  intros HI E. unfold worker_check in E. pose proof (ip_shutdown _ _ _ _ HI) as Hs.
  destruct (no_jobs (tp s) && negb (shutdown (tp s))) eqn:Ej.
  - assert (shutdown (tp s0) = false) as E0.
    { rewrite <- Hs. destruct (shutdown (tp s)); [|done]. by rewrite andb_false_r in Ej. }
    rewrite E0. destruct (_ || _).
    + eapply worker_exit_ok in E as [E ->]; [done|].
      destruct HI. split; try done. cbn. solve_counters.
    + injection E as <- <-. done.
  - by eapply worker_wake_ok.
Qed.

(** ** The invariant *)

Definition threads (s : sys) (f : wpc -> bool) : Z := cnt f (workers s).
Record inv (s : sys) : Prop := {
  inv_counters : counters (threads s) (tp s);
  inv_jobs : conserved s
}.

Lemma worker_top_ok C s job p :
  counters (fun f => C f + b2z (f (WTop job p))) (tp s) -> conserved s ->
  inprog C s (with_tp (worker_top job p) s) WWait.
Proof.
  intros HC IJ. unfold worker_top. split; try done; cbn.
  - destruct HC, job; cbn in *; destruct (Z.eqb_spec p 0), (Z.eqb_spec p 1); subst; try done;
      split; cbn in *; lia.
  - unfold conserved in *. cbn. rewrite IJ. by destruct job, (p =? 0), (p =? 1).
  - by destruct job, (p =? 0), (p =? 1).
  - by destruct job, (p =? 0), (p =? 1).
Qed.

Lemma worker_section_ok e i w s s' w' :
  inv s -> workers s !! i = Some w -> worker_section e w s = Some (s', w') ->
  inprog (fun f => threads s f - b2z (f w)) s s' w'.
Proof.
  intros [IC IJ] Hi E. set (C := fun f => threads s f - b2z (f w)).
  assert (HC : counters (fun f => C f + b2z (f w)) (tp s)).
  { destruct IC. unfold C. split; lia. }
  destruct w as [|job p| |job p|]; cbn in E; try done.
  - injection E as <- <-. split; try done. cbn.
    assert (Hst : pendingWorkerThreadStart (tp s) = true /\ C is_starting = 0).
    { destruct IC as [_ HP _ _ _ _]. unfold C, threads in *.
      pose proof (cnt_pos is_starting (workers s) i WStart Hi eq_refl). cbn.
      destruct (pendingWorkerThreadStart (tp s)); cbn in HP; [split; [done|lia]|lia]. }
    destruct Hst as [Hp Hz]. destruct HC; split; cbn in *; rewrite ?Hp in *; cbn in *; try lia.
  - injection E as E. pose proof (worker_top_ok C s job p HC IJ) as HT.
    exact (proj1 (worker_check_ok e _ _ _ _ _ _ HT E)).
  - injection E as E. eapply (worker_check_ok e _ C s) in E; [destruct E; done|]. by split.
  - injection E as <- <-. split; try done. clear IC. solve_counters.
Qed.

Lemma inv_worker i s s' w w' :
  workers s !! i = Some w -> inprog (fun f => threads s f - b2z (f w)) s s' w' ->
  inv (set_workers (<[i := w']> (workers s')) s').
Proof.
  intros Hi []. split; [|done].
  assert (HT : forall f, threads (set_workers (<[i:=w']> (workers s')) s') f
                         = threads s f - b2z (f w) + b2z (f w')).
  { intros f. unfold threads. cbn. rewrite ip_workers0. by apply cnt_insert. }
  destruct ip_count0. split; rewrite HT; done.
Qed.

(** ** Sections of a client *)

Definition live (w : wpc) : bool := is_active w || is_starting w.

Lemma live_threads s : inv s ->
  threads s live = totalThreads (tp s) + b2z (pendingWorkerThreadStart (tp s)).
Proof.
  intros [[HT HP _ _ _ _] _]. rewrite HT, HP. unfold threads.
  induction (workers s) as [|w l IH]; cbn; [done|]. rewrite IH. destruct w; cbn; lia.
Qed.

(** What a client section does: it keeps the invariant and the attributes, and creates
    at most one worker, within the limit. *)
Record cgood (s s' : sys) : Prop := {
  cg_inv : inv s';
  cg_clients : clients s' = clients s;
  cg_attr : attr (tp s') = attr (tp s);
  cg_shutdown : shutdown (tp s') = shutdown (tp s);
  cg_workers : workers s' = workers s \/
    (workers s' = workers s ++ [WStart]
     /\ (maxThreads (attr (tp s)) = INFINITE_THREADS
         \/ threads s' live <= maxThreads (attr (tp s))))
}.

Lemma inv_tp (f : ThreadPool -> ThreadPool) s :
  inv s -> (forall C, counters C (tp s) -> counters C (f (tp s))) ->
  all_jobs (f (tp s)) = all_jobs (tp s) -> inv (with_tp f s).
Proof.
  intros [IC IJ] HC HJ. split; [by apply HC|]. unfold conserved. cbn. by rewrite HJ.
Qed.

Lemma see_threads_counts t : same_counts t (see_threads t).
Proof. unfold see_threads. by destruct (_ <? _). Qed.
Lemma see_threads_jobs t : all_jobs (see_threads t) = all_jobs t.
Proof. unfold see_threads. by destruct (_ <? _). Qed.

Lemma cgood_tp (f : ThreadPool -> ThreadPool) s :
  inv s -> (forall C, counters C (tp s) -> counters C (f (tp s))) ->
  all_jobs (f (tp s)) = all_jobs (tp s) -> attr (f (tp s)) = attr (tp s) ->
  shutdown (f (tp s)) = shutdown (tp s) -> cgood s (with_tp f s).
Proof. intros HI HC HJ HA HS. split; try done; [by apply inv_tp|by left]. Qed.

Lemma cgood_refl s : inv s -> cgood s s.
Proof. intros. split; try done. by left. Qed.

Lemma cgood_see s s' : inv s -> (inv (with_tp see_threads s) -> cgood (with_tp see_threads s) s') ->
  cgood s s'.
Proof.
  intros HI HG. pose proof (see_threads_counts (tp s)) as HS.
  assert (HI' : inv (with_tp see_threads s)).
  { apply inv_tp; [done| |apply see_threads_jobs]. intros C. by apply counters_same. }
  destruct (HG HI') as [G1 G2 G3 G4 G5]. destruct HS as (_ & _ & _ & _ & _ & _ & A & S & _).
  split; [done|done|by rewrite G3|by rewrite G4|]. cbn in *. by rewrite A in G5.
Qed.

Lemma add_finish_ok rc s s' pc : inv s -> add_finish rc s = (s', pc) -> cgood s s'.
Proof.
  intros HI [= <- _]. apply cgood_tp; try done. intros C []. by split.
Qed.

Lemma persist_rest_ok e job s s' pc : inv s -> persist_rest e job s = (s', pc) -> cgood s s'.
Proof.
  intros HI E. unfold persist_rest in E. destruct (CreateThreadPoolJob e job _) as [temp|];
    injection E as <- _; [|by apply cgood_refl].
  destruct HI as [IC IJ]. split; try done; [|by left]. split.
  - destruct IC. by split.
  - unfold conserved in *. cbn. rewrite IJ. unfold all_jobs. cbn.
    destruct (persistentJob (tp s)); solve_Permutation.
Qed.

Lemma create_failed_ok e k rc s s' pc : inv s -> create_failed e k rc s = (s', pc) -> cgood s s'.
Proof.
  intros HI E. destruct k; cbn in E.
  - injection E as <- _. by apply cgood_refl.
  - injection E as <- _. by apply cgood_refl.
  - by eapply add_finish_ok.
  - by eapply persist_rest_ok.
Qed.

Lemma create_body_ok e k s s' pc :
  inv s -> pendingWorkerThreadStart (tp s) = false -> create_body e k s = (s', pc) -> cgood s s'.
Proof.
  intros HI Hp E. unfold create_body in E.
  destruct (negb (maxThreads (attr (tp s)) =? INFINITE_THREADS)
            && (maxThreads (attr (tp s)) <? totalThreads (tp s) + 1)) eqn:Em.
  - by eapply create_failed_ok.
  - destruct (create_rc e =? 0).
    + injection E as <- _. pose proof (live_threads s HI) as HL. destruct HI as [IC IJ].
      split; try done.
      * split; [|done]. destruct IC. unfold threads in *. cbn in *.
        split; rewrite ?cnt_app; cbn; rewrite ?Hp in *; cbn in *; lia.
      * right. split; [done|]. unfold threads in *. cbn. rewrite cnt_app, HL, Hp. cbn.
        apply andb_false_iff in Em as [Em|Em].
        -- left. apply negb_false_iff in Em. lia.
        -- right. apply Z.ltb_ge in Em. lia.
    + eapply (cgood_see s s'); [done|]. intros HI'. by eapply create_failed_ok.
Qed.

Lemma CreateWorker_ok e k s s' pc : inv s -> CreateWorker e k s = (s', pc) -> cgood s s'.
Proof.
  intros HI E. unfold CreateWorker in E. destruct (pendingWorkerThreadStart (tp s)) eqn:Hp.
  - injection E as <- _. by apply cgood_refl.
  - by eapply create_body_ok.
Qed.

Lemma AddWorker_ok e rc threads jobs s s' pc :
  inv s -> AddWorker e rc threads jobs s = (s', pc) -> cgood s s'.
Proof.
  intros HI E. unfold AddWorker in E. destruct (want_worker _ _ _);
    [by eapply CreateWorker_ok|by eapply add_finish_ok].
Qed.

Lemma min_workers_ok e k i s s' pc : inv s -> min_workers e k i s = (s', pc) -> cgood s s'.
Proof.
  intros HI E. unfold min_workers in E. destruct (_ <? _); [by eapply CreateWorker_ok|].
  injection E as <- _. by apply cgood_refl.
Qed.

Lemma create_done_ok e k s s' pc : inv s -> create_done e k s = (s', pc) -> cgood s s'.
Proof.
  intros HI E. destruct k; cbn in E; eauto using min_workers_ok, AddWorker_ok, persist_rest_ok.
Qed.

(** [take_job] takes the first job with the id and leaves the others in order. *)
Lemma take_job_spec id q :
  match take_job id q with
  | Some (j, r) => exists a b, q = a ++ j :: b /\ r = a ++ b /\ jobId j = id
                     /\ Forall (fun k => jobId k <> id) a
  | None => Forall (fun k => jobId k <> id) q
  end.
Proof.
  induction q as [|j q IH]; cbn; [done|]. destruct (Z.eqb_spec (jobId j) id).
  - by exists [], q.
  - destruct (take_job id q) as [[x r]|].
    + destruct IH as (a & b & -> & -> & Hx & Ha). exists (j :: a), b. split_and!; try done.
      by constructor.
    + by constructor.
Qed.

Lemma take_job_perm id q j r : take_job id q = Some (j, r) -> q ≡ₚ j :: r.
Proof.
  intros E. pose proof (take_job_spec id q) as H. rewrite E in H.
  destruct H as (a & b & -> & -> & _). solve_Permutation.
Qed.

(** ** Calls and steps *)

(** As [cgood], but the attributes and the shutdown flag may change. *)
Definition call_good (s s' : sys) : Prop :=
  inv s' /\ clients s' = clients s /\ (workers s' = workers s \/ exists s1,
    inv s1 /\ workers s1 = workers s /\ attr (tp s') = attr (tp s1) /\ cgood s1 s').

Lemma cgood_call s s' : inv s -> cgood s s' -> call_good s s'.
Proof.
  intros HI G. pose proof G as [G1 G2 G3 G4 G5]. split_and!; try done. right. by exists s.
Qed.

Lemma enqueue_ok p j s : inv s -> inv (log_accepted j (with_tp (enqueue p j) s)).
Proof.
  intros [IC IJ]. unfold enqueue. split.
  - cbn. destruct (p =? HIGH_PRIORITY), (p =? MED_PRIORITY); destruct IC; by split.
  - unfold conserved in *. cbn. rewrite IJ.
    destruct (p =? HIGH_PRIORITY), (p =? MED_PRIORITY); unfold all_jobs; cbn; solve_Permutation.
Qed.

Lemma ThreadPoolAdd_ok e job s s' pc : inv s -> ThreadPoolAdd e job s = (s', pc) -> cgood s s'.
Proof.
  intros HI E. unfold ThreadPoolAdd in E. destruct job as [job|].
  2: { injection E as <- _. by apply cgood_refl. }
  destruct (_ <=? _). { injection E as <- _. by apply cgood_refl. }
  destruct (CreateThreadPoolJob e job _) as [temp|].
  2: { injection E as <- _. by apply cgood_refl. }
  destruct (node_ok e).
  - apply AddWorker_ok in E; [|by apply enqueue_ok]. destruct E as [G1 G2 G3 G4 G5].
    assert (HA : forall t, attr (enqueue (priority job) temp t) = attr t
                           /\ shutdown (enqueue (priority job) temp t) = shutdown t).
    { intros t. unfold enqueue. by destruct (priority job =? HIGH_PRIORITY), (priority job =? MED_PRIORITY). }
    cbn in *. destruct (HA (tp s)) as [A1 A2]. rewrite A1 in *. rewrite A2 in *. by split.
  - by eapply AddWorker_ok.
Qed.

Lemma ThreadPoolAddPersistent_ok e job s s' pc :
  inv s -> ThreadPoolAddPersistent e job s = (s', pc) -> cgood s s'.
Proof.
  intros HI E. unfold ThreadPoolAddPersistent in E. destruct job as [job|].
  2: { injection E as <- _. by apply cgood_refl. }
  destruct (_ <? _); [by eapply CreateWorker_ok|].
  destruct (_ =? 0); [|by eapply persist_rest_ok]. injection E as <- _. by apply cgood_refl.
Qed.

Lemma removed_ok s j (f : ThreadPool -> ThreadPool) :
  inv s -> same_counts (tp s) (set_persistentJob (persistentJob (tp s)) (f (tp s))) ->
  all_jobs (tp s) ≡ₚ j :: all_jobs (f (tp s)) -> cgood s (log_removed j (with_tp f s)).
Proof.
  intros [IC IJ] (S1 & S2 & S3 & S4 & S5 & S6 & S7 & S8 & _) P. cbn in *.
  split; try done; [|by left]. split.
  - destruct IC. cbn. split; cbn in *; unfold threads in *; cbn in *; congruence.
  - unfold conserved in *. cbn. rewrite IJ, P. solve_Permutation.
Qed.

Lemma ThreadPoolRemove_ok id s : inv s -> cgood s (ThreadPoolRemove id s).1.1.
Proof.
  intros HI. unfold ThreadPoolRemove.
  destruct (take_job id (highJobQ (tp s))) as [[j h]|] eqn:Eh.
  { apply take_job_perm in Eh. apply removed_ok; [done|done|]. unfold all_jobs. cbn. by rewrite Eh. }
  destruct (take_job id (medJobQ (tp s))) as [[j m]|] eqn:Em.
  { apply take_job_perm in Em. apply removed_ok; [done|done|]. unfold all_jobs. cbn.
    rewrite Em. solve_Permutation. }
  destruct (take_job id (lowJobQ (tp s))) as [[j l]|] eqn:El.
  { apply take_job_perm in El. apply removed_ok; [done|done|]. unfold all_jobs. cbn.
    rewrite El. solve_Permutation. }
  destruct (persistentJob (tp s)) as [j|] eqn:Ep; [|by apply cgood_refl].
  destruct (jobId j =? id); [|by apply cgood_refl].
  apply removed_ok; [done|by rewrite Ep|]. unfold all_jobs. cbn. rewrite Ep. solve_Permutation.
Qed.

Lemma ThreadPoolShutdown_ok ret s s' pc :
  inv s -> ThreadPoolShutdown ret s = (s', pc) ->
  inv s' /\ clients s' = clients s /\ workers s' = workers s /\ attr (tp s') = attr (tp s).
Proof.
  intros [IC IJ] [= <- _]. split_and!; try done. split.
  - destruct IC. by split.
  - unfold conserved in *. cbn. rewrite IJ. unfold all_jobs. cbn. solve_Permutation.
Qed.

Lemma SetAttr_ok e a s s' pc : inv s -> ThreadPoolSetAttr e a s = (s', pc) ->
  s' = s \/ exists s1, inv s1 /\ workers s1 = workers s /\ clients s1 = clients s
    /\ attr (tp s1) = match a with Some a => a | None => TPAttrInit end /\ cgood s1 s'.
Proof.
  intros HI E. unfold ThreadPoolSetAttr in E. destruct (negb _).
  - injection E as <- _. by left.
  - right. eapply min_workers_ok in E.
    + eexists. split; [|split; [|split; [|split; [|exact E]]]]; try done.
      apply inv_tp; try done. intros C []. by split.
    + apply inv_tp; try done. intros C []. by split.
Qed.

Lemma client_section_ok e c s s' pc :
  inv s -> client_section e c s = Some (s', pc) ->
  cgood s s' \/ exists ret, ThreadPoolShutdown ret s = (s', pc).
Proof.
  intros HI E. destruct c as [k|k rc| |ret|ret|rc id]; cbn in E; try done.
  - destruct (pendingWorkerThreadStart (tp s)) eqn:Hp; [done|]. injection E as E. left.
    by eapply create_body_ok.
  - destruct (pendingWorkerThreadStart (tp s)); [done|]. injection E as E. left.
    eapply (cgood_see s s'); [done|]. intros HI'.
    destruct (rc =? 0); [by eapply create_done_ok|by eapply create_failed_ok].
  - destruct (persistentJob (tp s)); [done|]. injection E as <- _. left.
    by eapply (add_finish_ok 0 s _ _ HI eq_refl).
  - right. exists ret. unfold ThreadPoolShutdown. by injection E as <- <-.
  - destruct (0 <? _); [done|]. injection E as <- _. left. by apply cgood_refl.
Qed.

(** [M] bounds the number of threads: every limit that is set is at most [M]. *)
Definition limited (M : Z) (a : ThreadPoolAttr) : Prop := 0 <= maxThreads a <= M.

Definition bounded (M : Z) (s : sys) : Prop := limited M (attr (tp s)) /\ threads s live <= M.

Lemma inv_clients s c : inv s -> inv (set_clients c s).
Proof. intros [IC IJ]. split; [|done]. destruct IC. by split. Qed.
Lemma bounded_clients M s c : bounded M s -> bounded M (set_clients c s).
Proof. done. Qed.

Lemma cgood_bounded M s s' : cgood s s' -> bounded M s -> bounded M s'.
Proof.
  intros [_ _ A _ W] [HL HB]. unfold bounded. rewrite A. split; [done|].
  destruct W as [W|[_ [W|W]]]; unfold limited, INFINITE_THREADS in *; [|lia|lia].
  unfold threads. rewrite W. exact HB.
Qed.

Lemma call_ok M (ok : ThreadPoolAttr -> Prop) e c s s' pc :
  inv s -> call_section e c s = (s', pc) ->
  inv s' /\ ((forall a, c = DoSetAttr (Some a) -> ok a) -> (c = DoSetAttr None -> ok TPAttrInit) ->
    (forall a, ok a -> limited M a) -> bounded M s -> bounded M s').
Proof.
  intros HI E. destruct c as [job|job|id|a|]; cbn in E.
  - apply ThreadPoolAdd_ok in E; [|done]. split; [apply E|]. intros _ _ _. by apply cgood_bounded.
  - apply ThreadPoolAddPersistent_ok in E; [|done]. split; [apply E|]. intros _ _ _. by apply cgood_bounded.
  - pose proof (ThreadPoolRemove_ok id s HI) as G. rewrite E in G. split; [apply G|].
    intros _ _ _. by apply cgood_bounded.
  - apply SetAttr_ok in E as [->|(s1 & I1 & W1 & _ & A1 & G)]; [done| |done].
    split; [apply G|]. intros H1 H2 HM [_ HB]. eapply cgood_bounded; [exact G|]. split.
    + rewrite A1. apply HM. destruct a; [by apply H1|by apply H2].
    + unfold threads in *. by rewrite W1.
  - apply ThreadPoolShutdown_ok in E as (I & _ & W & A); [|done]. split; [done|].
    intros _ _ _. unfold bounded, threads. by rewrite W, A.
Qed.

Lemma threads_worker i s s' w w' f :
  workers s !! i = Some w -> workers s' = workers s ->
  threads (set_workers (<[i:=w']> (workers s')) s') f = threads s f - b2z (f w) + b2z (f w').
Proof. intros Hi Hw. unfold threads. cbn. rewrite Hw. by apply cnt_insert. Qed.

Lemma worker_bounded M e i w s s' w' :
  inv s -> workers s !! i = Some w -> worker_section e w s = Some (s', w') ->
  bounded M s -> bounded M (set_workers (<[i := w']> (workers s')) s').
Proof.
  intros HI Hi E [HL HB]. pose proof (worker_section_ok e i w s s' w' HI Hi E) as G.
  split; [cbn; by rewrite (ip_attr _ _ _ _ G)|].
  rewrite (threads_worker i s s' w w' live Hi (ip_workers _ _ _ _ G)).
  assert (live w = true) as ->. { by destruct w. }
  destruct (live w'); cbn; lia.
Qed.

Lemma step_inv ok s s' : inv s -> step ok s s' -> inv s'.
Proof.
  intros HI Hs. revert HI. destruct Hs as [e c s s' pc _ _ E|e i c s s' pc Hi E|e i w s s' pc Hi E]; intros HI.
  - apply inv_clients. by eapply (call_ok 0 ok) in E as [? _].
  - apply inv_clients. apply client_section_ok in E as [G|[ret E]]; [apply G| |done].
    by apply ThreadPoolShutdown_ok in E as (I & _).
  - eapply inv_worker; [exact Hi|]. by eapply worker_section_ok.
Qed.

Lemma step_bounded M ok s s' :
  (forall a, ok a -> limited M a) -> inv s -> bounded M s -> step ok s s' -> bounded M s'.
Proof.
  intros HM HI HB Hs. revert HI HB.
  destruct Hs as [e c s s' pc H1 H2 E|e i c s s' pc Hi E|e i w s s' pc Hi E]; intros HI HB.
  - apply bounded_clients. eapply (call_ok M ok) in E as [_ E]; [by apply E|done].
  - apply bounded_clients. apply (client_section_ok e c s s' pc HI) in E as [G|[ret E]].
    + by eapply cgood_bounded.
    + apply ThreadPoolShutdown_ok in E as (I & _ & W & A); [|done].
      unfold bounded, threads. by rewrite W, A.
  - by eapply worker_bounded.
Qed.

Lemma sys0_inv a : inv (sys0 a).
Proof. split; [by split|unfold conserved; cbn; reflexivity]. Qed.

Lemma reach_inv ok s : reach ok s -> inv s.
Proof.
  induction 1 as [e a s pc _ E|s s' _ IH Hs].
  - apply inv_clients. unfold ThreadPoolInit in E. destruct (negb _).
    + injection E as <- _. apply sys0_inv.
    + apply min_workers_ok in E; [apply E|apply sys0_inv].
  - by eapply step_inv.
Qed.

Lemma reach_bounded M ok s : (forall a, ok a -> limited M a) -> reach ok s -> bounded M s.
Proof.
  intros HM. induction 1 as [e a s pc Ha E|s s' Hr IH Hs].
  - apply bounded_clients. unfold ThreadPoolInit in E.
    assert (bounded M (sys0 match a with Some a => a | None => TPAttrInit end)) as HB.
    { split; [by apply HM|]. cbn. apply HM in Ha. unfold limited in Ha. cbn in *. lia. }
    destruct (negb _).
    + by injection E as <- _.
    + apply min_workers_ok in E; [by eapply cgood_bounded|apply sys0_inv].
  - eapply step_bounded; [exact HM|by eapply reach_inv|exact IH|exact Hs].
Qed.

(** ** Shutdown *)

(** A section of a worker. *)
Definition worker_step (s s' : sys) : Prop :=
  exists e i w s1 w', workers s !! i = Some w /\ worker_section e w s = Some (s1, w')
    /\ s' = set_workers (<[i := w']> (workers s1)) s1.

(** Whatever the order in which the workers run, [P] is reached. *)
Inductive inevitable (P : sys -> Prop) (s : sys) : Prop :=
| inev_now : P s -> inevitable P s
| inev_next : (exists s', worker_step s s') -> (forall s', worker_step s s' -> inevitable P s') ->
              inevitable P s.

(** The sections left to a worker once the pool is shut down. *)
Definition sections_left (w : wpc) : nat :=
  match w with WStart | WRun _ _ => 2 | WTop _ _ | WWait => 1 | WExit => 0 end.
Definition work (s : sys) : nat := sum_list_with sections_left (workers s).

Lemma sum_insert (l : list wpc) i w w' : l !! i = Some w ->
  (sum_list_with sections_left (<[i := w']> l) + sections_left w
   = sum_list_with sections_left l + sections_left w')%nat.
Proof.
  revert i. induction l as [|x l IH]; intros [|i] Hi; cbn in Hi; try done.
  - injection Hi as ->. change (<[0%nat := w']> (w :: l)) with (w' :: l). cbn. lia.
  - change (<[S i := w']> (x :: l)) with (x :: <[i := w']> l). cbn. specialize (IH i Hi). lia.
Qed.

Lemma worker_step_shutdown s s' :
  inv s -> shutdown (tp s) = true -> worker_step s s' ->
  inv s' /\ shutdown (tp s') = true /\ (work s' < work s)%nat.
Proof.
  intros HI Hs (e & i & w & s1 & w' & Hi & E & ->).
  pose proof (worker_section_ok e i w s s1 w' HI Hi E) as G.
  split; [by eapply inv_worker|]. split; [cbn; by rewrite (ip_shutdown _ _ _ _ G)|].
  unfold work. cbn. rewrite (ip_workers _ _ _ _ G). pose proof (sum_insert _ i w w' Hi) as HW.
  assert (sections_left w' < sections_left w)%nat; [|lia].
  destruct HI as [IC IJ].
  assert (HC : counters (fun f => (threads s f - b2z (f w)) + b2z (f w)) (tp s)).
  { destruct IC. split; lia. }
  destruct w as [|job p| |job p|]; cbn in E; try done.
  - injection E as _ <-. cbn. lia.
  - injection E as E. pose proof (worker_top_ok _ s job p HC IJ) as HT.
    apply (worker_check_ok e _ _ _ _ _ _ HT) in E as [_ E]. rewrite E; [cbn; lia|done].
  - injection E as E. assert (HT : inprog (fun f => threads s f - b2z (f WWait)) s s WWait) by by split.
    apply (worker_check_ok e _ _ _ _ _ _ HT) in E as [_ E]. rewrite E; [cbn; lia|done].
  - injection E as _ <-. cbn. lia.
Qed.

Lemma work_zero s : work s = 0%nat -> forall f, f WExit = false -> threads s f = 0.
Proof.
  unfold work, threads. intros Hw f Hf. induction (workers s) as [|w l IH]; cbn in *; [done|].
  rewrite IH by lia. destruct w; cbn in *; try lia. by rewrite Hf.
Qed.

Lemma work_pos s : work s <> 0%nat -> exists s', worker_step s s'.
Proof.
  intros Hw. assert (exists i w, workers s !! i = Some w /\ w <> WExit) as (i & w & Hi & Hne).
  { unfold work in Hw. induction (workers s) as [|w l IH]; cbn in Hw; [lia|].
    destruct (decide (sections_left w = 0%nat)) as [H0|H0].
    - destruct IH as (i & w' & Hi & Hne); [lia|]. by exists (S i), w'.
    - exists 0%nat, w. split; [done|]. by intros ->. }
  set (e := Env (TV 0 0) true true 0 0 0 false).
  destruct (worker_section e w s) as [[s1 w']|] eqn:E; [|by destruct w].
  by exists (set_workers (<[i := w']> (workers s1)) s1), e, i, w, s1, w'.
Qed.

Lemma shutdown_inevitable s :
  inv s -> shutdown (tp s) = true -> inevitable (fun s' => inv s' /\ work s' = 0%nat) s.
Proof.
  remember (work s) as n eqn:Hn. revert s Hn.
  induction n as [n IH] using lt_wf_ind. intros s -> HI Hs.
  destruct (decide (work s = 0%nat)) as [H0|H0]; [by apply inev_now|].
  apply inev_next; [by apply work_pos|]. intros s' Hst.
  destruct (worker_step_shutdown s s' HI Hs Hst) as (I' & S' & W'). by eapply IH.
Qed.

Lemma inevitable_mono (P Q : sys -> Prop) s :
  (forall s', P s' -> Q s') -> inevitable P s -> inevitable Q s.
Proof. intros HPQ. induction 1; [apply inev_now; auto|apply inev_next; auto]. Qed.

(** What [AddWorker] leaves alone, and where it ends. *)
Lemma AddWorker_queues e rc threads jobs s s' pc :
  AddWorker e rc threads jobs s = (s', pc) ->
  match pc with
  | CDone r (Some id) => r = rc /\ id = lastJobId (tp s) /\ lastJobId (tp s') = lastJobId (tp s) + 1
  | CCreate (KAdd r _ _) | CStarting (KAdd r _ _) _ => r = rc
  | _ => False
  end
  /\ highJobQ (tp s') = highJobQ (tp s) /\ medJobQ (tp s') = medJobQ (tp s)
  /\ lowJobQ (tp s') = lowJobQ (tp s) /\ accepted s' = accepted s.
Proof.
  unfold AddWorker, CreateWorker, create_body, create_failed, add_finish, see_threads. intros E.
  repeat case_match; simplify_eq/=; try done. by destruct (_ <? totalThreads (tp s)).
Qed.

(** ** A sample run *)

Definition env0 : env := Env (TV 10 0) true true 0 0 0 false.
Definition small : ThreadPoolAttr := TPAttrInit.
Definition job0 : ThreadPoolJob := Job 1 2 0 (TV 0 0) MED_PRIORITY 0.

(** The pool has started its first worker. *)
Definition run_client (e : env) (i : nat) (s : sys) : sys :=
  match clients s !! i with
  | Some c => match client_section e c s with
              | Some (s', pc) => set_clients (<[i := pc]> (clients s')) s'
              | None => s end
  | None => s end.
Definition run_worker (e : env) (i : nat) (s : sys) : sys :=
  match workers s !! i with
  | Some w => match worker_section e w s with
              | Some (s', pc) => set_workers (<[i := pc]> (workers s')) s'
              | None => s end
  | None => s end.
Definition run_call (e : env) (c : call) (s : sys) : sys :=
  let '(s', pc) := call_section e c s in set_clients (clients s' ++ [pc]) s'.

Lemma reach_client ok e i s : reach ok s -> reach ok (run_client e i s).
Proof.
  intros Hr. unfold run_client. destruct (clients s !! i) as [c|] eqn:Hi; [|done].
  destruct (client_section e c s) as [[s' pc]|] eqn:E; [|done].
  eapply reach_step; [exact Hr|]. by eapply step_client.
Qed.
Lemma reach_worker ok e i s : reach ok s -> reach ok (run_worker e i s).
Proof.
  intros Hr. unfold run_worker. destruct (workers s !! i) as [w|] eqn:Hi; [|done].
  destruct (worker_section e w s) as [[s' pc]|] eqn:E; [|done].
  eapply reach_step; [exact Hr|]. by eapply step_worker.
Qed.
Lemma reach_call (ok : ThreadPoolAttr -> Prop) e c s :
  (forall a, c = DoSetAttr (Some a) -> ok a) -> (c = DoSetAttr None -> ok TPAttrInit) ->
  reach ok s -> reach ok (run_call e c s).
Proof.
  intros H1 H2 Hr. unfold run_call. destruct (call_section e c s) as [s' pc] eqn:E.
  eapply reach_step; [exact Hr|]. by eapply step_call.
Qed.

(** A schedule: which thread runs next. *)
Inductive turn := TClient (i : nat) | TWorker (i : nat) | TCall (c : call).
Definition take_turn (e : env) (s : sys) (t : turn) : sys :=
  match t with TClient i => run_client e i s | TWorker i => run_worker e i s | TCall c => run_call e c s end.
Definition run (e : env) (s : sys) (l : list turn) : sys := fold_left (take_turn e) l s.
Definition sets_attr (t : turn) : bool := match t with TCall (DoSetAttr _) => true | _ => false end.

Lemma reach_run ok e l s :
  reach ok s -> forallb (fun t => negb (sets_attr t)) l = true -> reach ok (run e s l).
Proof.
  revert s. induction l as [|t l IH]; intros s Hr Hl; cbn in *; [done|].
  apply andb_true_iff in Hl as [Ht Hl]. apply IH; [|done].
  destruct t as [i|i|c]; [by apply reach_client|by apply reach_worker|].
  destruct c; try done; by apply reach_call.
Qed.

Definition at_most_ten : ThreadPoolAttr -> Prop := limited 10.
Definition init_small : sys := let '(s, pc) := ThreadPoolInit env0 None in set_clients [pc] s.
Lemma reach_init_small : reach at_most_ten init_small.
Proof.
  unfold init_small. destruct (ThreadPoolInit env0 None) as [s pc] eqn:E.
  apply (reach_init at_most_ten env0 None s pc); [|exact E]. split; vm_compute; discriminate.
Qed.

(** The first worker has started and picked up a job. *)
Definition busy_pool : sys :=
  run env0 init_small [TWorker 0; TClient 0; TWorker 0; TCall (DoAdd (Some job0)); TWorker 0].

(** Two clients add jobs at the same time: the second one runs while the first waits
    for its new worker, and both jobs get the same id. *)
Definition add_twice : sys :=
  run env0 busy_pool [TCall (DoAdd (Some job0)); TCall (DoAdd (Some job0)); TWorker 1; TClient 2].
Example duplicate_job_ids :
  reach at_most_ten add_twice /\ map jobId (medJobQ (tp add_twice)) = [1; 1].
Proof. split; [do 2 (apply reach_run; [|done]); apply reach_init_small|by vm_compute]. Qed.

(** Two clients add persistent jobs at the same time: the second one overwrites the
    job of the first before a worker has taken it. *)
Definition persist_twice : sys :=
  run env0 busy_pool [TCall (DoAddPersistent (Some job0)); TWorker 1; TClient 2;
                      TCall (DoAddPersistent (Some job0)); TWorker 2; TClient 3].
Example persistent_job_lost :
  reach at_most_ten persist_twice /\ length (lost persist_twice) = 1%nat.
Proof. split; [do 2 (apply reach_run; [|done]); apply reach_init_small|by vm_compute]. Qed.

Module Pool.

(** In every state that the threads of the program can reach, the counters of
    the pool are the numbers of its threads: running, starting (at most one), with
    a job, with a persistent job, idle, and with a queued job. *)
Theorem pool_counters ok s :
  reach ok s ->
  totalThreads (tp s) = cnt is_active (workers s)
  /\ b2z (pendingWorkerThreadStart (tp s)) = cnt is_starting (workers s)
  /\ busyThreads (tp s) = cnt has_job (workers s)
  /\ persistentThreads (tp s) = cnt (on_job 1) (workers s)
  /\ idleThreads (stats (tp s)) = cnt is_waiting (workers s)
  /\ workerThreads (stats (tp s)) = cnt (on_job 0) (workers s).
Proof. intros Hr. apply reach_inv in Hr as [[] _]. done. Qed.

Lemma pool_counters_witness :
  reach at_most_ten add_twice /\ totalThreads (tp add_twice) = 2 /\ busyThreads (tp add_twice) = 1.
Proof.
  assert (Hr : reach at_most_ten add_twice).
  { do 2 (apply reach_run; [|reflexivity]). apply reach_init_small. }
  destruct (pool_counters at_most_ten add_twice Hr) as (E1 & _ & E2 & _).
  split; [exact Hr|]. split; [rewrite E1; vm_compute; reflexivity|rewrite E2; vm_compute; reflexivity].
Defined.

(** C2. The number of threads, with the one that is being started, never exceeds
    the largest limit that was ever set, whatever calls run at the same time. *)
Theorem pool_max_threads (ok : ThreadPoolAttr -> Prop) M s :
  (forall a, ok a -> limited M a) -> reach ok s ->
  totalThreads (tp s) + b2z (pendingWorkerThreadStart (tp s)) <= M.
Proof.
  intros HM Hr. pose proof (reach_inv ok s Hr) as HI.
  rewrite <- (live_threads s HI). by apply (reach_bounded M ok s HM).
Qed.

Lemma pool_max_threads_witness :
  reach at_most_ten add_twice /\ totalThreads (tp add_twice) + 0 <= 10.
Proof.
  assert (Hr : reach at_most_ten add_twice).
  { do 2 (apply reach_run; [|reflexivity]). apply reach_init_small. }
  split; [exact Hr|]. exact (pool_max_threads at_most_ten 10 add_twice (fun _ H => H) Hr).
Defined.

(** C6. No job is lost track of or duplicated: in every reachable state the jobs
    that were accepted are, counted with multiplicity, those waiting in the three
    queues or as persistent job, those given to a worker, those taken out by
    [ThreadPoolRemove], those discarded by the shutdown, and those dropped because
    a list node could not be allocated or a persistent job was overwritten. *)
Theorem pool_jobs_conserved ok s :
  reach ok s ->
  accepted s ≡ₚ highJobQ (tp s) ++ medJobQ (tp s) ++ lowJobQ (tp s)
    ++ option_list (persistentJob (tp s)) ++ ran s ++ removed s ++ discarded s ++ lost s.
Proof.
  intros Hr. apply reach_inv in Hr as [_ HJ]. unfold conserved, all_jobs in HJ.
  rewrite HJ, <- !app_assoc. by destruct (persistentJob (tp s)).
Qed.

Lemma pool_jobs_conserved_witness :
  accepted persist_twice ≡ₚ ran persist_twice ++ option_list (persistentJob (tp persist_twice))
    ++ lost persist_twice /\ length (lost persist_twice) = 1%nat.
Proof.
  assert (Hr : reach at_most_ten persist_twice).
  { do 2 (apply reach_run; [|reflexivity]). apply reach_init_small. }
  split; [|vm_compute; reflexivity].
  pose proof (pool_jobs_conserved at_most_ten persist_twice Hr) as HP.
  vm_compute in HP. vm_compute. etransitivity; [exact HP|]. apply Permutation_swap.
Defined.

(** Ageing: [BumpPriority] ends; the low-priority jobs that have waited long
    enough pass to the end of the medium queue and from there, with the medium
    ones that have waited long enough, to the end of the high queue, each queue in
    its order; afterwards the first job of each lower queue has not waited that
    long. *)
Theorem bump_priority_correct e t :
  node_ok e = true ->
  exists t' hs ls, BumpPriority e t = (t', [])
    /\ lowJobQ t = ls ++ lowJobQ t' /\ medJobQ t ++ ls = hs ++ medJobQ t'
    /\ highJobQ t' = highJobQ t ++ hs
    /\ Forall (fun j => starvationTime (attr t) <= DiffMillis (now e) (requestTime j)) hs
    /\ Forall (fun j => maxIdleTime (attr t) <= DiffMillis (now e) (requestTime j)) ls
    /\ (forall j r, medJobQ t' = j :: r ->
          DiffMillis (now e) (requestTime j) < starvationTime (attr t))
    /\ (forall j r, lowJobQ t' = j :: r ->
          DiffMillis (now e) (requestTime j) < maxIdleTime (attr t)).
Proof.
  intros Hn. destruct (bump_loop_spec (bump_fuel t) e t [] Hn) as (t' & hs & ls & E & []).
  { unfold bump_fuel. lia. }
  exists t', hs, ls. split_and!; done.
Qed.

Definition old_job (p id : Z) : ThreadPoolJob := Job 1 2 0 (TV 0 0) p id.
Lemma bump_priority_correct_witness :
  let t := set_queues [old_job 0 1] [old_job 1 2] [old_job 2 3] (pool0 TPAttrInit) in
  exists t', BumpPriority env0 t = (t', []) /\ map jobId (highJobQ t') = [3; 2; 1].
Proof.
  intros t. destruct (bump_priority_correct env0 t eq_refl)
    as (t' & hs & ls & E & _).
  exists t'. split; [exact E|]. vm_compute in E. injection E as <-. reflexivity.
Defined.

(** The order in which jobs are taken: a worker that wakes up in a running pool
    takes the persistent job if there is one, else the first job of the high, the
    medium and the low queue, in this order, after ageing; the other jobs stay. *)
Theorem worker_takes_first e s :
  node_ok e = true -> shutdown (tp s) = false ->
  exists t1 s' w, BumpPriority e (add_idle_stat (-1) (tp s)) = (t1, []) /\ worker_wake e s = (s', w)
  /\ match persistentJob (tp s) with
     | Some j => w = WRun j 1 /\ persistentJob (tp s') = None
         /\ highJobQ (tp s') ++ medJobQ (tp s') ++ lowJobQ (tp s')
            = highJobQ t1 ++ medJobQ t1 ++ lowJobQ t1
     | None =>
         match highJobQ t1 ++ medJobQ t1 ++ lowJobQ t1 with
         | j :: r => w = WRun j 0 /\ ran s' = ran s ++ [j]
             /\ highJobQ (tp s') ++ medJobQ (tp s') ++ lowJobQ (tp s') = r
         | [] => w = WExit /\ ran s' = ran s
         end
     end.
Proof.
  intros Hn Hs.
  destruct (bump_loop_spec (bump_fuel (add_idle_stat (-1) (tp s))) e (add_idle_stat (-1) (tp s)) [] Hn)
    as (t1 & hs & ls & E & [S _ _ _ _ _ _ _]); [unfold bump_fuel; lia|].
  destruct S as (_ & _ & _ & _ & _ & _ & _ & S1 & S2 & _). cbn in S1, S2.
  exists t1. unfold worker_wake. cbn [tp with_tp]. unfold BumpPriority. rewrite E.
  cbn [tp log_lost with_tp]. rewrite S1, Hs. unfold pick_job. cbn [tp log_lost with_tp].
  rewrite S2. destruct (persistentJob (tp s)) as [j|].
  - eexists _, _. split_and!; reflexivity.
  - cbn. destruct (highJobQ t1) as [|j h] eqn:Eh; cbn.
    + destruct (medJobQ t1) as [|j m] eqn:Em; cbn.
      * destruct (lowJobQ t1) as [|j l] eqn:El; cbn; eexists _, _; split_and!; try done; cbn;
          by rewrite ?Eh, ?Em.
      * eexists _, _; split_and!; try done; cbn; by rewrite ?Eh.
    + eexists _, _; by split_and!.
Qed.

Lemma worker_takes_first_witness :
  let s := with_tp (fun t => set_queues [old_job 0 1] [] [old_job 2 3] t) (sys0 TPAttrInit) in
  exists s', worker_wake (Env (TV 0 0) true true 0 0 0 false) s = (s', WRun (old_job 2 3) 0).
Proof.
  intros s. destruct (worker_takes_first (Env (TV 0 0) true true 0 0 0 false) s eq_refl eq_refl)
    as (t1 & s' & w & E1 & E2 & T).
  exists s'. vm_compute in E1. injection E1 as <-. cbn in T. destruct T as (-> & _ & _). exact E2.
Defined.


Definition stopped : sys := run env0 busy_pool [TCall DoShutdown].

(** [ThreadPoolAdd], on every branch: without a job or with a full pool nothing
    changes; without memory for the job nothing changes but the id that is stored;
    without memory for the list node the queues are as before and the call is going
    to fail; else the job, with the next id and the time, is the last of the queue
    of its priority, and the call is going to succeed.  Any other priority than high
    and medium counts as low. *)
Theorem add_correct e job s s' pc :
  ThreadPoolAdd e (Some job) s = (s', pc) ->
  let t := tp s in
  let j := Job (func job) (arg job) (free_func job) (now e) (priority job) (lastJobId t) in
  let outcome rc := match pc with
    | CDone r (Some id) => r = rc /\ id = lastJobId t /\ lastJobId (tp s') = lastJobId t + 1
    | CCreate (KAdd r _ _) | CStarting (KAdd r _ _) _ => r = rc
    | _ => False end in
  let queues := (highJobQ (tp s'), medJobQ (tp s'), lowJobQ (tp s')) in
  if maxJobsTotal (attr t) <=? zlen (highJobQ t) + zlen (lowJobQ t) + zlen (medJobQ t)
  then s' = s /\ pc = CDone EOUTOFMEM None
  else if negb (job_ok e) then s' = s /\ pc = CDone EOUTOFMEM (Some INVALID_JOB_ID)
  else if negb (node_ok e)
  then outcome EOUTOFMEM /\ accepted s' = accepted s
       /\ queues = (highJobQ t, medJobQ t, lowJobQ t)
  else outcome 0 /\ accepted s' = accepted s ++ [j]
       /\ queues = if priority job =? HIGH_PRIORITY then (highJobQ t ++ [j], medJobQ t, lowJobQ t)
                   else if priority job =? MED_PRIORITY
                   then (highJobQ t, medJobQ t ++ [j], lowJobQ t)
                   else (highJobQ t, medJobQ t, lowJobQ t ++ [j]).
Proof.
  unfold ThreadPoolAdd, total_jobs, CreateThreadPoolJob. intros E. cbv zeta.
  destruct (_ <=? _); [by injection E as <- <-|].
  destruct (job_ok e); cbn [negb]; [|by injection E as <- <-].
  destruct (node_ok e); cbn [negb].
  - apply AddWorker_queues in E as (H1 & H2 & H3 & H4 & H5). cbn in *.
    unfold enqueue in *.
    destruct (priority job =? HIGH_PRIORITY), (priority job =? MED_PRIORITY); cbn in *;
      by rewrite H2, H3, H4.
  - apply AddWorker_queues in E as (H1 & H2 & H3 & H4 & H5). by rewrite H2, H3, H4.
Qed.

Lemma add_correct_witness :
  exists s', ThreadPoolAdd env0 (Some job0) (sys0 small) = (s', CStarting (KAdd 0 0 1) 0)
    /\ map jobId (accepted s') = [0].
Proof.
  destruct (ThreadPoolAdd env0 (Some job0) (sys0 small)) as [s' pc] eqn:E.
  pose proof (add_correct env0 job0 (sys0 small) s' pc E) as T.
  change (maxJobsTotal _ <=? _) with false in T. cbv zeta iota beta in T.
  change (negb (job_ok env0)) with false in T. change (negb (node_ok env0)) with false in T.
  destruct T as (_ & T & _). exists s'. split; [|rewrite T; reflexivity].
  rewrite <- E. vm_compute in E. injection E as <- <-. vm_compute. reflexivity.
Defined.
End Pool.
