(* ===== verification/TimerThread.v ===== *)
(** * The timer thread

    [threadutil/src/TimerThread.c].  The timer is the first client of the linked
    lists: its queue is a [LinkedList] whose items are the addresses of events,
    which live in a heap of their own and come from a free list; a dangling address
    is a fault ([None]).  As in [ThreadPool.v] a function runs with the mutex of the
    timer held, and a section between two waits is one operation ([top]); a run of
    the program is a sequence of such operations in any order ([t_run]).  The pool
    is called with the mutex of the timer held: what it answers is an input of the
    section ([tick]), what it is given is recorded ([handed]), and so are the calls
    of the [free_func] of a job ([freed_calls]).  The header asks that nothing is called
    after [TimerThreadShutdown]; such an operation is not enabled. *)

From S2P Require Import Prelude LinkedList ThreadPool.
#[local] Open Scope Z_scope.

Definition INVALID_EVENT_ID : Z := Z.land (-10) (Z.shiftl 1 29).

Inductive TimeoutType := ABS_SEC | REL_SEC.
Inductive Duration := SHORT_TERM | PERSISTENT.

Record TimerEvent := Event {
  job : ThreadPoolJob;
  eventTime : Z;
  persistent : Duration;
  ev_id : Z
}.

(** The first word of an event is the function of its job. *)
#[export] Instance FreeElem_event : FreeElem TimerEvent := {
  get_link e := func (job e);
  set_link p e :=
    let j := job e in
    Event (Job p (arg j) (ThreadPool.free_func j) (requestTime j) (priority j) (jobId j))
          (eventTime e) (persistent e) (ev_id e);
  fresh_elem := Event (Job 85 85 85 (TV 85 85) 85 85) 85 SHORT_TERM 85;
  get_set_link _ _ := eq_refl
}.
Definition sizeof_TimerEvent : Z := 64.

Record TimerThread := Timer {
  lastEventId : Z;
  eventQ : lstate;
  t_shutdown : bool;
  freeEvents : FreeList;
  events : gmap Z TimerEvent
}.

Definition set_lastEventId (v : Z) (t : TimerThread) : TimerThread :=
  Timer v (eventQ t) (t_shutdown t) (freeEvents t) (events t).
Definition set_eventQ (q : lstate) (t : TimerThread) : TimerThread :=
  Timer (lastEventId t) q (t_shutdown t) (freeEvents t) (events t).
Definition set_t_shutdown (b : bool) (t : TimerThread) : TimerThread :=
  Timer (lastEventId t) (eventQ t) b (freeEvents t) (events t).
Definition set_events (h : gmap Z TimerEvent) (fl : FreeList) (t : TimerThread) : TimerThread :=
  Timer (lastEventId t) (eventQ t) (t_shutdown t) fl h.

(** An event given to the thread pool: when, and what the pool answered. *)
Record handing := Handing { h_event : TimerEvent; h_time : Z; h_rc : Z }.

Section Timer.
Context `{Heap}.

Definition FreeTimerEvent (t : TimerThread) (event : Z) : option TimerThread :=
  '(_, h, fl) ← FreeListFree (events t) (freeEvents t) event;
  Some (set_events h fl t).

(** [now] is what [time] returns. *)
Definition CalculateEventTime (now timeout : Z) (type : TimeoutType) : Z :=
  match type with
  | ABS_SEC => timeout
  | REL_SEC => swrap 64 (timeout + now)
  end.

Definition CreateTimerEvent (t : TimerThread) (j : ThreadPoolJob) (d : Duration)
    (time id : Z) : option (Z * TimerThread) :=
  '(temp, h, fl) ← FreeListAlloc (events t) (freeEvents t);
  if temp =? 0 then Some (temp, set_events h fl t)
  else
    _ ← h !! temp;
    Some (temp, set_events (<[temp := Event j time d id]> h) fl t).

(** [hd], [tl]: the addresses of the sentinels; [os_rc]: the sum of the results of
    the thread library; [add_rc]: the result of [ThreadPoolAddPersistent]. *)
Definition TimerThreadInit (os_rc add_rc hd tl : Z) (h : gmap Z ListNode)
  : option (Z * TimerThread) :=
  let '(rc1, fl) := FreeListInit sizeof_TimerEvent 100 in
  let '(rc2, q) := ListInit hd tl None false h in
  let t := Timer 0 q false fl ∅ in
  let rc := if negb (os_rc + rc1 + rc2 =? 0) then EAGAIN else add_rc in
  if negb (rc =? 0) then
    '(_, h, fl) ← FreeListDestroy (events t) (freeEvents t);
    '(_, q) ← ListDestroy false (eventQ t);
    Some (rc, set_eventQ q (set_events h fl t))
  else Some (rc, t).

(** The search of [TimerThreadSchedule]: the result and [found]. *)
Fixpoint schedule_loop (fuel : nat) (tempNode newEvent timeout : Z) (t : TimerThread)
  : option (Z * bool * TimerThread) :=
  match fuel with
  | O => None
  | S f =>
      if tempNode =? 0 then Some (EOUTOFMEM, false, t)
      else
        n ← nodes (eventQ t) !! tempNode;
        temp ← events t !! item n;
        if timeout <=? eventTime temp then
          '(r, q) ← ListAddBefore newEvent tempNode (eventQ t);
          Some (if r =? 0 then EOUTOFMEM else 0, true, set_eventQ q t)
        else
          nx ← ListNext tempNode (eventQ t);
          schedule_loop f nx newEvent timeout t
  end.

Definition queue_fuel (t : TimerThread) : nat := S (size (nodes (eventQ t))).

(** The result, the id stored for the caller, and the timer. *)
Definition TimerThreadSchedule (now timeout : Z) (type : TimeoutType) (j : ThreadPoolJob)
    (duration : Duration) (t : TimerThread) : option (Z * Z * TimerThread) :=
  let timeout := CalculateEventTime now timeout type in
  '(newEvent, t) ← CreateTimerEvent t j duration timeout (lastEventId t);
  if newEvent =? 0 then Some (EOUTOFMEM, INVALID_EVENT_ID, t)
  else
    tempNode ← ListHead (eventQ t);
    (* Q is ordered by eventTime with the head of the Q being the next event *)
    '(rc, found, t) ← schedule_loop (queue_fuel t) tempNode newEvent timeout t;
    '(rc, t) ← (if found : bool then Some (rc, t)
                else
                  '(r, q) ← ListAddTail newEvent (eventQ t);
                  Some (if r =? 0 then rc else 0, set_eventQ q t));
    t ← (if rc =? 0 then Some t else FreeTimerEvent t newEvent);
    Some (rc, lastEventId t, set_lastEventId (s32 (lastEventId t + 1)) t).

(** The search of [TimerThreadRemove]; the job is what [out] receives. *)
Fixpoint remove_loop (fuel : nat) (tempNode id : Z) (t : TimerThread)
  : option (Z * option ThreadPoolJob * TimerThread) :=
  match fuel with
  | O => None
  | S f =>
      if tempNode =? 0 then Some (INVALID_EVENT_ID, None, t)
      else
        n ← nodes (eventQ t) !! tempNode;
        temp ← events t !! item n;
        if ev_id temp =? id then
          '(_, q) ← ListDelNode tempNode false (eventQ t);
          t ← FreeTimerEvent (set_eventQ q t) (item n);
          Some (0, Some (job temp), t)
        else
          nx ← ListNext tempNode (eventQ t);
          remove_loop f nx id t
  end.
Definition TimerThreadRemove (id : Z) (t : TimerThread)
  : option (Z * option ThreadPoolJob * TimerThread) :=
  tempNode ← ListHead (eventQ t);
  remove_loop (queue_fuel t) tempNode id t.

(** A call of the [free_func] of a job on its argument. *)
Definition free_call (j : ThreadPoolJob) : list (Z * Z) :=
  if ThreadPool.free_func j =? 0 then [] else [(ThreadPool.free_func j, arg j)].

(** The loop of [TimerThreadShutdown]: the deleted events and the calls. *)
Fixpoint drain_loop (fuel : nat) (tempNode : Z) (t : TimerThread)
  : option (list TimerEvent * list (Z * Z) * TimerThread) :=
  match fuel with
  | O => None
  | S f =>
      if tempNode =? 0 then Some ([], [], t)
      else
        n ← nodes (eventQ t) !! tempNode;
        temp ← events t !! item n;
        tempNode2 ← ListNext tempNode (eventQ t);
        '(_, q) ← ListDelNode tempNode false (eventQ t);
        t ← FreeTimerEvent (set_eventQ q t) (item n);
        '(l, c, t) ← drain_loop f tempNode2 t;
        Some (temp :: l, free_call (job temp) ++ c, t)
  end.

(** [TimerThreadShutdown] up to its wait. *)
Definition TimerThreadShutdown (t : TimerThread)
  : option (list TimerEvent * list (Z * Z) * TimerThread) :=
  let t := set_t_shutdown true t in
  tempNode ← ListHead (eventQ t);
  '(l, c, t) ← drain_loop (queue_fuel t) tempNode t;
  '(_, q) ← ListDestroy false (eventQ t);
  '(_, h, fl) ← FreeListDestroy (events t) (freeEvents t);
  Some (l, c, set_eventQ q (set_events h fl t)).

(** ** The worker *)

(** One round of [TimerThreadWorker]: the time it reads and what the pool answers. *)
Record tick := Tick { t_now : Z; t_rc : Z }.

(** The worker is about to lock the mutex, waits (until a time, when the queue has an
    event), or has returned. *)
Inductive worker_pc := TStart | TWait (until : option Z) | TGone.

(** The argument is freed when the pool refuses the job. *)
Definition refused (rc : Z) (j : ThreadPoolJob) : list (Z * Z) :=
  if (rc =? 0) || (arg j =? 0) then [] else free_call j.

(** A section of the worker, from the lock or the end of a wait to the next wait. *)
Fixpoint worker_loop (fuel : nat) (e : nat -> tick) (t : TimerThread)
    (hs : list handing) (cs : list (Z * Z))
  : option (worker_pc * TimerThread * list handing * list (Z * Z)) :=
  match fuel with
  | O => None
  | S f =>
      if t_shutdown t then Some (TGone, set_t_shutdown false t, hs, cs)
      else if 0 <? ListSize (eventQ t) then
        head ← ListHead (eventQ t);
        if head =? 0 then Some (TGone, t, hs, cs)
        else
          n ← nodes (eventQ t) !! head;
          nextEvent ← events t !! item n;
          if eventTime nextEvent <=? t_now (e 0%nat) then
            let hs := hs ++ [Handing nextEvent (t_now (e 0%nat)) (t_rc (e 0%nat))] in
            let cs := cs ++ refused (t_rc (e 0%nat)) (job nextEvent) in
            '(_, q) ← ListDelNode head false (eventQ t);
            t ← FreeTimerEvent (set_eventQ q t) (item n);
            worker_loop f (fun i => e (S i)) t hs cs
          else Some (TWait (Some (eventTime nextEvent)), t, hs, cs)
      else Some (TWait None, t, hs, cs)
  end.
Definition TimerThreadWorker (e : nat -> tick) (t : TimerThread)
  : option (worker_pc * TimerThread * list handing * list (Z * Z)) :=
  worker_loop (queue_fuel t) e t [] [].

(** ** The system *)

(** The thread that calls [TimerThreadShutdown]: not yet, at its wait, returned. *)
Inductive stop_pc := SIdle | SWait | SDone.

Record tsys := TSys {
  timer : TimerThread;
  worker : worker_pc;
  stopper : stop_pc;
  handed : list handing;
  freed_calls : list (Z * Z);
  scheduled : list TimerEvent;
  cancelled : list (Z * ThreadPoolJob);
  dropped : list TimerEvent
}.

Inductive top :=
| OSchedule (now timeout : Z) (type : TimeoutType) (j : ThreadPoolJob) (d : Duration)
| ORemove (id : Z)
| OShutdown
| OStopped
| OWorker (e : nat -> tick).

Definition t_exec (op : top) (s : tsys) : option tsys :=
  match op, stopper s with
  | OSchedule now timeout type j d, SIdle =>
      '(rc, id, t) ← TimerThreadSchedule now timeout type j d (timer s);
      let new := if rc =? 0 then [Event j (CalculateEventTime now timeout type) d id] else [] in
      Some (TSys t (worker s) SIdle (handed s) (freed_calls s) (scheduled s ++ new)
                 (cancelled s) (dropped s))
  | ORemove id, SIdle =>
      '(_, out, t) ← TimerThreadRemove id (timer s);
      let gone := match out with Some j => [(id, j)] | None => [] end in
      Some (TSys t (worker s) SIdle (handed s) (freed_calls s) (scheduled s)
                 (cancelled s ++ gone) (dropped s))
  | OShutdown, SIdle =>
      '(l, c, t) ← TimerThreadShutdown (timer s);
      Some (TSys t (worker s) SWait (handed s) (freed_calls s ++ c) (scheduled s)
                 (cancelled s) (dropped s ++ l))
  | OStopped, SWait =>
      Some (TSys (timer s) (worker s) (if t_shutdown (timer s) then SWait else SDone)
                 (handed s) (freed_calls s) (scheduled s) (cancelled s) (dropped s))
  | OWorker e, _ =>
      match worker s with
      | TGone => Some s
      | _ =>
          '(w, t, hs, cs) ← TimerThreadWorker e (timer s);
          Some (TSys t w (stopper s) (handed s ++ hs) (freed_calls s ++ cs) (scheduled s)
                     (cancelled s) (dropped s))
      end
  | _, _ => Some s
  end.

Fixpoint t_run (ops : list top) (s : tsys) : option tsys :=
  match ops with
  | [] => Some s
  | op :: ops => s ← t_exec op s; t_run ops s
  end.

(** After a successful [TimerThreadInit]. *)
Definition tsys0 (t : TimerThread) : tsys := TSys t TStart SIdle [] [] [] [] [].
End Timer.
