(* ===== verification/TimerFacts.v ===== *)
(** * Correctness of the timer thread

    The timer on its heaps implements a queue of events sorted by time
    ([spec_exec]); the invariants are proved on that specification and transferred
    to every run of the code. *)

From S2P Require Import Prelude LinkedList ListFacts ThreadPool TimerThread.
From stdpp Require Import sorting.
#[local] Open Scope Z_scope.

(** ** Free lists of any element *)

Section FreeListFacts.
Context `{Heap} {E : Type} `{FreeElem E}.
Implicit Types (h : gmap Z E) (fl : FreeList).

Fixpoint echain h (p : Z) (fs : list Z) : Prop :=
  match fs with
  | [] => p = 0
  | f :: fs => p = f /\ exists e, h !! f = Some e /\ echain h (get_link e) fs
  end.

Lemma echain_frame h h' p fs :
  echain h p fs -> (forall q, q ∈ fs -> h' !! q = h !! q) -> echain h' p fs.
Proof.
  revert p. induction fs as [|f fs IH]; intros p; [done|]. cbn.
  intros (-> & e & He & Hf) Hp. split; [done|]. exists e. split; [rewrite Hp; [done|by left]|].
  apply IH; [done|]. intros r Hr. apply Hp. by right.
Qed.

(** The heap is the blocks [used] and the free blocks [fs]; nothing leaks. *)
Record frep h fl (used fs : list Z) : Prop := {
  fr_nodup : NoDup (used ++ fs);
  fr_zero : 0 ∉ used ++ fs;
  fr_dom : forall p, is_Some (h !! p) <-> p ∈ used ++ fs;
  fr_chain : echain h (fl_head fl) fs;
  fr_len : freeListLength fl = zlen fs;
  fr_max : zlen fs < maxFreeListLength fl
}.

Lemma frep_perm h fl used used' fs : used ≡ₚ used' -> frep h fl used fs -> frep h fl used' fs.
Proof.
  intros Hp [H1 H2 H3 H4 H5 H6]. split; try done.
  - by rewrite <- Hp.
  - by rewrite <- Hp.
  - intros p. rewrite H3. by rewrite Hp.
Qed.

Definition heap_full h : Prop := exists n, malloc (dom h) n = None.

Lemma FreeListAlloc_ok h fl used fs :
  frep h fl used fs ->
  (FreeListAlloc h fl = Some (0, h, fl) /\ heap_full h) \/
  exists p h' fl' fs', FreeListAlloc h fl = Some (p, h', fl') /\ p <> 0 /\ p ∉ used
    /\ frep h' fl' (p :: used) fs' /\ (forall q, q ∈ used -> h' !! q = h !! q)
    /\ maxFreeListLength fl' = maxFreeListLength fl.
Proof.
  intros [H1 H2 H3 H4 H5 H6]. unfold FreeListAlloc. destruct fs as [|p fs].
  - cbn in H4. rewrite H4. cbn [Z.eqb negb]. destruct (malloc _ _) as [p|] eqn:Em; [|left; by split; [|eexists]].
    right. apply malloc_ok in Em as [Hp0 Hpd]. rewrite app_nil_r in *.
    assert (Hpu : p ∉ used). { intros Hp. apply Hpd, elem_of_dom, H3, Hp. }
    exists p, (<[p := fresh_elem]> h), fl, []. split_and!; try done.
    + split; rewrite ?app_nil_r; try done.
      * by constructor.
      * by apply not_elem_of_cons.
      * intros q. rewrite elem_of_cons, <- H3. destruct (decide (q = p)) as [->|Hn].
        -- rewrite lookup_insert_eq. split; [by left|by eexists].
        -- rewrite lookup_insert_ne by done. split; [by right|by intros [|]].
    + intros q Hq. apply lookup_insert_ne. by intros ->.
  - cbn in H4. destruct H4 as (E1 & e & He & H4). rewrite E1.
    assert (Hp0 : p <> 0) by (intros ->; apply H2, elem_of_app; right; by left).
    rewrite (proj2 (Z.eqb_neq p 0) Hp0), He. cbn. right.
    assert (Hperm : used ++ p :: fs ≡ₚ (p :: used) ++ fs) by (by rewrite <- Permutation_middle).
    assert (Hpu : p ∉ used).
    { rewrite Hperm in H1. cbn in H1. apply NoDup_cons in H1 as [H1 _]. intros Hp.
      apply H1, elem_of_app. by left. }
    revert H5 H6. zlen_norm. intros H5 H6.
    exists p, h, (Free (get_link e) (element_size fl) (maxFreeListLength fl) (freeListLength fl - 1)), fs.
    split_and!; try done. split; cbn; try lia; try done.
    + by rewrite Hperm in H1.
    + by rewrite Hperm in H2.
    + intros q. rewrite H3, Hperm. done.
Qed.

Lemma FreeListFree_ok h fl used fs p :
  frep h fl (p :: used) fs ->
  exists h' fl' fs', FreeListFree h fl p = Some (0, h', fl') /\ frep h' fl' used fs'
    /\ (forall q, q ∈ used -> h' !! q = h !! q)
    /\ maxFreeListLength fl' = maxFreeListLength fl.
Proof.
  intros [H1 H2 H3 H4 H5 H6]. unfold FreeListFree.
  cbn in H1, H2. apply NoDup_cons in H1 as [Hpn H1]. apply not_elem_of_cons in H2 as [Hp0 H2].
  destruct (proj2 (H3 p) ltac:(by left)) as [e He].
  assert (forall q, q ∈ used -> q <> p) as Hne.
  { intros q Hq ->. apply Hpn, elem_of_app. by left. }
  assert (forall q, q ∈ fs -> q <> p) as Hne'.
  { intros q Hq ->. apply Hpn, elem_of_app. by right. }
  rewrite (proj2 (Z.eqb_neq p 0) (not_eq_sym Hp0)). cbn [negb andb].
  destruct (Z.ltb_spec (freeListLength fl + 1) (maxFreeListLength fl)).
  - rewrite He. cbn [mbind option_bind]. eexists _, _, (p :: fs). split_and!; [done| | |done].
    + assert (Hperm : used ++ p :: fs ≡ₚ p :: used ++ fs) by (by rewrite <- Permutation_middle).
      split; cbn; try (zlen_norm; lia).
      * rewrite Hperm. by constructor.
      * rewrite Hperm. by apply not_elem_of_cons.
      * intros q. rewrite Hperm. change (p :: used ++ fs) with ((p :: used) ++ fs). rewrite <- H3.
        destruct (decide (q = p)) as [->|Hn]; [rewrite lookup_insert_eq, He; split; by eexists|].
        by rewrite lookup_insert_ne.
      * split; [done|]. rewrite lookup_insert_eq. eexists. split; [done|].
        rewrite get_set_link. eapply echain_frame; [exact H4|]. intros q Hq.
        apply lookup_insert_ne. intros ->. by apply (Hne' q Hq).
    + intros q Hq. apply lookup_insert_ne. intros ->. by apply (Hne q Hq).
  - unfold free_block. rewrite (proj2 (Z.eqb_neq p 0) (not_eq_sym Hp0)), He. cbn [mbind option_bind].
    eexists _, _, fs. split_and!; [done| | |done].
    + split; try done.
      * intros q. specialize (H3 q). cbn in H3. rewrite elem_of_cons in H3.
        destruct (decide (q = p)) as [->|Hn].
        -- rewrite lookup_delete_eq. split; [by intros [? ?]|done].
        -- rewrite lookup_delete_ne by done. rewrite H3. split; [by intros [|]|by right].
      * eapply echain_frame; [exact H4|]. intros q Hq. apply lookup_delete_ne. intros ->.
        by apply (Hne' q Hq).
    + intros q Hq. apply lookup_delete_ne. intros ->. by apply (Hne q Hq).
Qed.

Lemma free_chain_ok h p fs fuel :
  echain h p fs -> NoDup fs -> 0 ∉ fs -> (forall q, is_Some (h !! q) <-> q ∈ fs) ->
  (length fs < fuel)%nat -> free_chain fuel h p = Some ∅.
Proof.
  revert h p fuel. induction fs as [|f fs IH]; intros h p [|fuel] Hc Hnd Hz Hd Hl; cbn in Hl; try lia;
    cbn in Hc |- *.
  - rewrite Hc. cbn. f_equal. apply map_empty. intros q. apply eq_None_not_Some.
    rewrite Hd. apply not_elem_of_nil.
  - destruct Hc as (-> & e & He & Hc). apply NoDup_cons in Hnd as [Hn Hnd].
    apply not_elem_of_cons in Hz as [Hf0 Hz].
    rewrite (proj2 (Z.eqb_neq f 0)), He by done. cbn [mbind option_bind]. unfold free_block.
    rewrite (proj2 (Z.eqb_neq f 0)), He by done. cbn [mbind option_bind].
    apply IH; [|done|done| |lia].
    + eapply echain_frame; [exact Hc|]. intros q Hq. apply lookup_delete_ne. by intros ->.
    + intros q. specialize (Hd q). rewrite elem_of_cons in Hd.
      destruct (decide (q = f)) as [->|Hne].
      * rewrite lookup_delete_eq. split; [by intros [? ?]|done].
      * rewrite lookup_delete_ne by done. rewrite Hd. split; [by intros [|]|by right].
Qed.

Lemma FreeListDestroy_ok h fl fs :
  frep h fl [] fs ->
  exists fl', FreeListDestroy h fl = Some (0, ∅, fl') /\ frep ∅ fl' [] []
    /\ maxFreeListLength fl' = maxFreeListLength fl.
Proof.
  intros [H1 H2 H3 H4 H5 H6]. cbn [app] in *. unfold FreeListDestroy.
  rewrite (free_chain_ok h (fl_head fl) fs); try done.
  - cbn [mbind option_bind]. eexists. split_and!; [done| |done].
    split; cbn; try done; [apply NoDup_nil_2|apply not_elem_of_nil| |change (zlen []) with 0; pose proof (zlen_nonneg fs); lia].
    intros p. rewrite lookup_empty. split; [by intros [? ?]|by intros ?%not_elem_of_nil].
  - assert (list_to_set fs ⊆ dom h) as Hs.
    { intros q Hq. apply elem_of_list_to_set in Hq. by apply elem_of_dom, H3. }
    apply subseteq_size in Hs. rewrite size_list_to_set, size_dom in Hs by done. lia.
Qed.
End FreeListFacts.

(** ** The queue on its heaps *)

(** The events at [xs], in the nodes [ps], are [q]; [extra] are events outside the
    queue; [fs] and [es] are the free nodes and the free events. *)
Record trep (R : gmap Z ListNode) (t : TimerThread) (q : list TimerEvent)
    (ps xs extra fs es : list Z) : Prop := {
  tr_list : lrep R (eventQ t) ps xs fs [];
  tr_plain : LinkedList.free_func (lst (eventQ t)) = false;
  tr_items : Forall2 (fun x e => events t !! x = Some e) xs q;
  tr_events : frep (events t) (freeEvents t) (extra ++ xs) es;
  tr_max : maxFreeListLength (freeEvents t) = 100
}.

(** The timer holds the queue [q] and nothing else. *)
Definition holds (R : gmap Z ListNode) (t : TimerThread) (q : list TimerEvent) : Prop :=
  exists ps xs fs es, trep R t q ps xs [] fs es.

(** ** The specification *)

(** A new event goes before the first one that is not earlier. *)
Fixpoint insert_event (e : TimerEvent) (q : list TimerEvent) : list TimerEvent :=
  match q with
  | [] => [e]
  | x :: r => if eventTime e <=? eventTime x then e :: q else x :: insert_event e r
  end.

(** The first event with the id, and the others. *)
Fixpoint remove_event (id : Z) (q : list TimerEvent) : option (TimerEvent * list TimerEvent) :=
  match q with
  | [] => None
  | x :: r => if ev_id x =? id then Some (x, r)
              else '(e, r) ← remove_event id r; Some (e, x :: r)
  end.

(** The worker hands over the events that are due, each at its own reading of the
    clock, and waits for the first that is not. *)
Fixpoint fire (e : nat -> tick) (q : list TimerEvent)
  : worker_pc * list TimerEvent * list handing * list (Z * Z) :=
  match q with
  | [] => (TWait None, [], [], [])
  | x :: r =>
      if eventTime x <=? t_now (e 0%nat) then
        let '(w, q, hs, cs) := fire (fun i => e (S i)) r in
        (w, q, Handing x (t_now (e 0%nat)) (t_rc (e 0%nat)) :: hs,
         refused (t_rc (e 0%nat)) (job x) ++ cs)
      else (TWait (Some (eventTime x)), q, [], [])
  end.

Section TimerFacts.
Context `{Heap}.

Lemma items_frame (h h' : gmap Z TimerEvent) xs q :
  Forall2 (fun x e => h !! x = Some e) xs q -> (forall x, x ∈ xs -> h' !! x = h !! x) ->
  Forall2 (fun x e => h' !! x = Some e) xs q.
Proof.
  intros Hf. induction Hf as [|x e xs q Hx Hf IH]; intros Hh; constructor.
  - rewrite Hh; [done|by left].
  - apply IH. intros y Hy. apply Hh. by right.
Qed.

Lemma trep_lengths R t q ps xs extra fs es :
  trep R t q ps xs extra fs es -> length ps = length q /\ length xs = length q
  /\ (length ps < queue_fuel t)%nat /\ lsize (lst (eventQ t)) = zlen q.
Proof.
  intros [Hl _ Hi _ _]. apply Forall2_length in Hi.
  pose proof (lrep_length _ _ _ _ _ _ Hl) as H1. pose proof (owned_size _ _ _ _ _ _ Hl) as Hs.
  rewrite length_app, chain_length in Hs. unfold queue_fuel. split_and!; try lia.
  rewrite (lr_size _ _ _ _ _ _ Hl). unfold zlen. lia.
Qed.

(** What the loops read at a node. *)
Lemma trep_at R t q1 e q2 ps1 p ps2 xs1 x xs2 extra fs es :
  trep R t (q1 ++ e :: q2) (ps1 ++ p :: ps2) (xs1 ++ x :: xs2) extra fs es ->
  length ps1 = length q1 -> length xs1 = length q1 ->
  p <> 0 /\ (exists n, nodes (eventQ t) !! p = Some n /\ item n = x) /\ events t !! x = Some e.
Proof.
  intros [Hl _ Hi _ _] H1 H2. split; [|split].
  - apply (nodes_nonzero _ _ _ _ _ _ _ Hl). apply elem_of_app. right. by left.
  - pose proof (lr_item _ _ _ _ _ _ Hl) as HI. apply Forall2_app_inv in HI as [_ HI]; [|lia].
    apply Forall2_cons_1 in HI as [HI _]. unfold itm in HI.
    destruct (nodes (eventQ t) !! p) as [n|]; [|done]. cbn in HI. injection HI as HI. by exists n.
  - apply Forall2_app_inv in Hi as [_ Hi]; [|lia]. by apply Forall2_cons_1 in Hi as [Hi _].
Qed.

(** [ListDelNode] then [FreeTimerEvent]. *)
Lemma trep_delete R t q1 e q2 ps1 p ps2 xs1 x xs2 fs es :
  trep R t (q1 ++ e :: q2) (ps1 ++ p :: ps2) (xs1 ++ x :: xs2) [] fs es ->
  length ps1 = length q1 -> length xs1 = length q1 ->
  exists l t' fs' es', ListDelNode p false (eventQ t) = Some (x, l)
    /\ FreeTimerEvent (set_eventQ l t) x = Some t'
    /\ trep R t' (q1 ++ q2) (ps1 ++ ps2) (xs1 ++ xs2) [] fs' es'
    /\ lastEventId t' = lastEventId t /\ t_shutdown t' = t_shutdown t.
Proof.
  intros [Hl Hf Hi He Hm] H1 H2.
  destruct (ListDelNode_spec R (eventQ t) ps1 p ps2 xs1 x xs2 fs false Hl ltac:(lia))
    as (l & fs' & E1 & Hl' & _ & Hs).
  cbn in He. assert (Hp : xs1 ++ x :: xs2 ≡ₚ x :: xs1 ++ xs2) by (by rewrite <- Permutation_middle).
  destruct (FreeListFree_ok _ _ _ _ _ (frep_perm _ _ _ _ _ Hp He))
    as (h & fl & es' & E2 & He' & Hsame & Hm').
  cbn [andb] in E1. exists l, (set_events h fl (set_eventQ l t)), fs', es'.
  unfold FreeTimerEvent. cbn [events freeEvents set_eventQ]. rewrite E2.
  split_and!; try done. split; cbn; try done.
  - destruct Hs as (_ & -> & _). done.
  - eapply items_frame; [|exact Hsame]. apply Forall2_app_inv in Hi as [Hi1 Hi2]; [|lia].
    apply Forall2_cons_1 in Hi2 as [_ Hi2]. by apply Forall2_app.
  - congruence.
Qed.

(** [ListAddBefore] of a new event. *)
Lemma trep_insert R t e q1 q2 ps1 ps2 xs1 xs2 x fs es b l2 :
  trep R t (q1 ++ q2) (ps1 ++ ps2) (xs1 ++ xs2) [x] fs es ->
  events t !! x = Some e -> length ps1 = length q1 -> length xs1 = length q1 ->
  ps2 ++ [ltail (lst (eventQ t))] = b :: l2 ->
  (ListAddBefore x b (eventQ t) = Some (0, eventQ t) /\ out_of_memory (eventQ t)) \/
  exists p l fs', ListAddBefore x b (eventQ t) = Some (p, l) /\ p <> 0
    /\ trep R (set_eventQ l t) (q1 ++ e :: q2) (ps1 ++ p :: ps2) (xs1 ++ x :: xs2) [] fs' es.
Proof.
  intros [Hl Hf Hi He Hm] Hx H1 H2 Hb.
  destruct (ListAddBefore_spec R (eventQ t) ps1 ps2 xs1 xs2 fs x b l2 Hl ltac:(lia) Hb)
    as [Hn|(p & l & fs' & E & Hp & Hl' & _ & Hs)]; [by left|right].
  exists p, l, fs'. split_and!; [done|done|]. split; cbn; try done.
  - destruct Hs as (_ & -> & _). done.
  - apply Forall2_app_inv in Hi as [Hi1 Hi2]; [|lia]. apply Forall2_app; [done|]. by constructor.
  - eapply frep_perm; [|exact He]. cbn. by rewrite <- Permutation_middle.
Qed.

(** ** The operations *)

Lemma schedule_loop_ok R t e q1 q2 ps1 ps2 xs1 xs2 x fs es fuel :
  trep R t (q1 ++ q2) (ps1 ++ ps2) (xs1 ++ xs2) [x] fs es ->
  events t !! x = Some e -> length ps1 = length q1 -> length xs1 = length q1 ->
  (length ps2 < fuel)%nat ->
  (schedule_loop fuel (hd 0 ps2) x (eventTime e) t = Some (EOUTOFMEM, false, t)
   /\ insert_event e q2 = q2 ++ [e]) \/
  (schedule_loop fuel (hd 0 ps2) x (eventTime e) t = Some (EOUTOFMEM, true, t)
   /\ out_of_memory (eventQ t)) \/
  exists l ps fs' xs, schedule_loop fuel (hd 0 ps2) x (eventTime e) t
      = Some (0, true, set_eventQ l t)
    /\ trep R (set_eventQ l t) (q1 ++ insert_event e q2) ps xs [] fs' es.
Proof.
  revert q1 q2 ps1 ps2 xs1 xs2. induction fuel as [|fuel IH]; intros q1 q2 ps1 ps2 xs1 xs2 Hr Hx H1 H2 Hf;
    [lia|].
  destruct (trep_lengths _ _ _ _ _ _ _ _ Hr) as (L1 & L2 & _). rewrite !length_app in L1, L2.
  destruct ps2 as [|p ps2], q2 as [|y q2], xs2 as [|z xs2]; cbn in L1, L2, Hf; try lia.
  { left. done. }
  destruct (trep_at _ _ _ _ _ _ _ _ _ _ _ _ _ _ Hr H1 H2) as (Hp & (n & Hn & Hz) & Hy).
  cbn [hd schedule_loop]. rewrite (proj2 (Z.eqb_neq p 0) Hp), Hn. cbn [mbind option_bind].
  rewrite Hz, Hy. cbn [mbind option_bind insert_event].
  destruct (Z.leb_spec (eventTime e) (eventTime y)) as [Hle|Hgt].
  - right. destruct (trep_insert R t e q1 (y :: q2) ps1 (p :: ps2) xs1 (z :: xs2) x fs es p
      (ps2 ++ [ltail (lst (eventQ t))]) Hr Hx H1 H2 eq_refl)
      as [[-> Ho]|(p' & l & fs' & -> & Hp' & Hr')]; cbn [mbind option_bind].
    + left. destruct t. done.
    + right. rewrite (proj2 (Z.eqb_neq p' 0) Hp'). by eexists l, _, fs', _.
  - rewrite (ListNext_spec _ _ _ _ _ _ _ (tr_list _ _ _ _ _ _ _ _ Hr)). cbn [mbind option_bind].
    assert (Hr2 : trep R t ((q1 ++ [y]) ++ q2) ((ps1 ++ [p]) ++ ps2) ((xs1 ++ [z]) ++ xs2) [x] fs es)
      by (by rewrite <- !app_assoc).
    destruct (IH (q1 ++ [y]) q2 _ _ _ _ Hr2 Hx ltac:(rewrite !length_app; cbn; lia)
      ltac:(rewrite !length_app; cbn; lia) ltac:(lia)) as [[E Hi]|[E|(l & ps & fs' & xs & E & Hr')]].
    + left. split; [done|]. by rewrite Hi.
    + right. by left.
    + right. right. exists l, ps, fs', xs. rewrite <- app_assoc in Hr'. done.
Qed.

(** What memory was short of. *)
Inductive shortage := NoEvent | NoNode | Enough.
Definition short (m : shortage) (t : TimerThread) : Prop :=
  match m with
  | NoEvent => heap_full (events t)
  | NoNode => out_of_memory (eventQ t)
  | Enough => True
  end.

Lemma CreateTimerEvent_ok R t q ps xs fs es j d time id :
  trep R t q ps xs [] fs es ->
  (CreateTimerEvent t j d time id = Some (0, t) /\ heap_full (events t)) \/
  exists x t' es', CreateTimerEvent t j d time id = Some (x, t') /\ x <> 0
    /\ trep R t' q ps xs [x] fs es' /\ events t' !! x = Some (Event j time d id)
    /\ eventQ t' = eventQ t /\ lastEventId t' = lastEventId t /\ t_shutdown t' = t_shutdown t.
Proof.
  intros [Hl Hf Hi He Hm]. unfold CreateTimerEvent. cbn [app] in He.
  destruct (FreeListAlloc_ok _ _ _ _ He) as [[-> Ho]|(x & h & fl & es' & -> & Hx & Hn & He' & Hs & Hm')];
    cbn [mbind option_bind]; [left; by destruct t|right].
  rewrite (proj2 (Z.eqb_neq x 0) Hx).
  destruct (proj2 (fr_dom _ _ _ _ He' x) ltac:(by left)) as [e0 E0]. rewrite E0. cbn [mbind option_bind].
  exists x, (set_events (<[x:=Event j time d id]> h) fl t), es'. split_and!; try done.
  2: apply lookup_insert_eq.
  destruct He' as [F1 F2 F3 F4 F5 F6].
  assert (Hxe : x ∉ es') by (cbn in F1; apply NoDup_cons in F1 as [F1 _]; intros Hx'; apply F1, elem_of_app; by right).
  split; cbn [eventQ events freeEvents set_events]; try done.
  - eapply items_frame; [exact Hi|]. intros y Hy. rewrite lookup_insert_ne by (by intros ->). by apply Hs.
  - split; try done.
    + intros p. cbn [app] in *. rewrite <- F3. destruct (decide (p = x)) as [->|Hne].
      * rewrite lookup_insert_eq, E0. split; by eexists.
      * by rewrite lookup_insert_ne.
    + eapply echain_frame; [exact F4|]. intros y Hy. apply lookup_insert_ne. by intros ->.
  - congruence.
Qed.

Lemma FreeTimerEvent_extra R t q ps xs fs es x :
  trep R t q ps xs [x] fs es ->
  exists t', FreeTimerEvent t x = Some t' /\ holds R t' q
    /\ lastEventId t' = lastEventId t /\ t_shutdown t' = t_shutdown t.
Proof.
  intros [Hl Hf Hi He Hm]. unfold FreeTimerEvent.
  destruct (FreeListFree_ok _ _ _ _ _ He) as (h & fl & es' & -> & He' & Hs & Hm').
  cbn [mbind option_bind]. eexists. split_and!; [done| |done|done].
  exists ps, xs, fs, es'. split; cbn; try done; [by eapply items_frame|congruence].
Qed.

Lemma holds_same R t t' q :
  eventQ t' = eventQ t -> events t' = events t -> freeEvents t' = freeEvents t ->
  holds R t q -> holds R t' q.
Proof.
  intros E1 E2 E3 (ps & xs & fs & es & [H1 H2 H3 H4 H5]). exists ps, xs, fs, es.
  split; rewrite ?E1, ?E2, ?E3; done.
Qed.

Lemma TimerThreadSchedule_ok R t q now timeout ty j d :
  holds R t q ->
  let e := Event j (CalculateEventTime now timeout ty) d (lastEventId t) in
  exists rc id t' m, TimerThreadSchedule now timeout ty j d t = Some (rc, id, t')
    /\ short m t /\ t_shutdown t' = t_shutdown t /\
    match m with
    | NoEvent => rc = EOUTOFMEM /\ id = INVALID_EVENT_ID /\ holds R t' q
                 /\ lastEventId t' = lastEventId t
    | NoNode => rc = EOUTOFMEM /\ id = lastEventId t /\ holds R t' q
                /\ lastEventId t' = s32 (lastEventId t + 1)
    | Enough => rc = 0 /\ id = lastEventId t /\ holds R t' (insert_event e q)
                /\ lastEventId t' = s32 (lastEventId t + 1)
    end.
Proof.
  intros (ps & xs & fs & es & Hr) e. unfold TimerThreadSchedule. fold (CalculateEventTime now timeout ty).
  set (time := CalculateEventTime now timeout ty) in *.
  destruct (CreateTimerEvent_ok R t q ps xs fs es j d time (lastEventId t) Hr)
    as [[-> Ho]|(x & t1 & es1 & -> & Hx & Hr1 & He1 & Hq & Hid & Hsd)]; cbn [mbind option_bind].
  { exists EOUTOFMEM, INVALID_EVENT_ID, t, NoEvent. split_and!; try done. by exists ps, xs, fs, es. }
  fold e in He1. rewrite (proj2 (Z.eqb_neq x 0) Hx).
  rewrite (ListHead_spec _ _ _ _ _ (tr_list _ _ _ _ _ _ _ _ Hr1)). cbn [mbind option_bind].
  destruct (trep_lengths _ _ _ _ _ _ _ _ Hr1) as (L1 & L2 & Hfuel & _).
  destruct (schedule_loop_ok R t1 e [] q [] ps [] xs x fs es1 _ Hr1 He1 eq_refl eq_refl Hfuel)
    as [[E Hi]|[[E Ho]|(l & ps' & fs' & xs' & E & Hr')]]; cbn [eventTime e] in E; rewrite E;
    cbn [mbind option_bind].
  - unfold ListAddTail.
    destruct (trep_insert R t1 e q [] ps [] xs [] x fs es1 (ltail (lst (eventQ t1))) []
      ltac:(by rewrite !app_nil_r) He1 L1 L2 eq_refl) as [[-> Ho]|(p & l & fs' & -> & Hp & Hr')];
      cbn [mbind option_bind].
    + cbn [Z.eqb]. assert (set_eventQ (eventQ t1) t1 = t1) as -> by (by destruct t1).
      change (EOUTOFMEM =? 0) with false. cbn match.
      destruct (FreeTimerEvent_extra _ _ _ _ _ _ _ _ Hr1) as (t2 & -> & Hr2 & Hid2 & Hsd2).
      cbn [mbind option_bind]. exists EOUTOFMEM, (lastEventId t2), (set_lastEventId (s32 (lastEventId t2 + 1)) t2), NoNode.
      split_and!; try done; [by rewrite Hq in Ho|cbn; by rewrite Hsd2|by rewrite Hid2
                            |by eapply holds_same, Hr2|cbn; by rewrite Hid2, Hid].
    + rewrite (proj2 (Z.eqb_neq p 0) Hp). cbn [mbind option_bind].
      eexists _, _, _, Enough. split_and!; [done|done|done|done|done| |cbn; by rewrite Hid].
      rewrite Hi. eapply (holds_same R (set_eventQ l t1)); [done..|].
      eexists _, _, fs', es1. exact Hr'.
  - change (EOUTOFMEM =? 0) with false. cbn match.
    destruct (FreeTimerEvent_extra _ _ _ _ _ _ _ _ Hr1) as (t2 & -> & Hr2 & Hid2 & Hsd2).
    cbn [mbind option_bind].
    exists EOUTOFMEM, (lastEventId t2), (set_lastEventId (s32 (lastEventId t2 + 1)) t2), NoNode.
    split_and!; try done; [cbn; by rewrite Hq in Ho|cbn; by rewrite Hsd2|by rewrite Hid2
                          |by eapply holds_same, Hr2|cbn; by rewrite Hid2, Hid].
  - cbn [Z.eqb mbind option_bind]. eexists _, _, _, Enough.
    split_and!; [done|done|done|done|done| |cbn; by rewrite Hid].
    eapply (holds_same R (set_eventQ l t1)); [done..|]. by eexists _, _, fs', es1.
Qed.

Lemma remove_loop_ok R t q1 q2 ps1 ps2 xs1 xs2 fs es id fuel :
  trep R t (q1 ++ q2) (ps1 ++ ps2) (xs1 ++ xs2) [] fs es ->
  length ps1 = length q1 -> length xs1 = length q1 -> (length ps2 < fuel)%nat ->
  match remove_event id q2 with
  | None => remove_loop fuel (hd 0 ps2) id t = Some (INVALID_EVENT_ID, None, t)
  | Some (e, r) =>
      exists t', remove_loop fuel (hd 0 ps2) id t = Some (0, Some (job e), t')
        /\ holds R t' (q1 ++ r) /\ lastEventId t' = lastEventId t /\ t_shutdown t' = t_shutdown t
  end.
Proof.
  revert q1 q2 ps1 ps2 xs1 xs2. induction fuel as [|fuel IH]; intros q1 q2 ps1 ps2 xs1 xs2 Hr H1 H2 Hf;
    [lia|].
  destruct (trep_lengths _ _ _ _ _ _ _ _ Hr) as (L1 & L2 & _). rewrite !length_app in L1, L2.
  destruct ps2 as [|p ps2], q2 as [|y q2], xs2 as [|z xs2]; cbn in L1, L2, Hf; try lia; [done|].
  destruct (trep_at _ _ _ _ _ _ _ _ _ _ _ _ _ _ Hr H1 H2) as (Hp & (n & Hn & Hz) & Hy).
  cbn [hd remove_loop remove_event]. rewrite (proj2 (Z.eqb_neq p 0) Hp), Hn. cbn [mbind option_bind].
  rewrite Hz, Hy. cbn [mbind option_bind]. destruct (ev_id y =? id).
  - destruct (trep_delete _ _ _ _ _ _ _ _ _ _ _ _ _ Hr H1 H2) as (l & t' & fs' & es' & -> & E & Hr' & Hid & Hsd).
    cbn [mbind option_bind]. rewrite E. cbn [mbind option_bind]. exists t'. split_and!; try done.
    by eexists _, _, fs', es'.
  - rewrite (ListNext_spec _ _ _ _ _ _ _ (tr_list _ _ _ _ _ _ _ _ Hr)). cbn [mbind option_bind].
    assert (Hr2 : trep R t ((q1 ++ [y]) ++ q2) ((ps1 ++ [p]) ++ ps2) ((xs1 ++ [z]) ++ xs2) [] fs es)
      by (by rewrite <- !app_assoc).
    specialize (IH (q1 ++ [y]) q2 _ _ _ _ Hr2 ltac:(rewrite !length_app; cbn; lia)
      ltac:(rewrite !length_app; cbn; lia) ltac:(lia)).
    destruct (remove_event id q2) as [[e r]|]; cbn [mbind option_bind]; [|done].
    rewrite <- app_assoc in IH. done.
Qed.

Lemma TimerThreadRemove_ok R t q id :
  holds R t q ->
  match remove_event id q with
  | None => TimerThreadRemove id t = Some (INVALID_EVENT_ID, None, t)
  | Some (e, r) =>
      exists t', TimerThreadRemove id t = Some (0, Some (job e), t')
        /\ holds R t' r /\ lastEventId t' = lastEventId t /\ t_shutdown t' = t_shutdown t
  end.
Proof.
  intros (ps & xs & fs & es & Hr). unfold TimerThreadRemove.
  rewrite (ListHead_spec _ _ _ _ _ (tr_list _ _ _ _ _ _ _ _ Hr)). cbn [mbind option_bind].
  destruct (trep_lengths _ _ _ _ _ _ _ _ Hr) as (_ & _ & Hfuel & _).
  apply (remove_loop_ok R t [] q [] ps [] xs fs es id _ Hr eq_refl eq_refl Hfuel).
Qed.

(** The head of a queue that is not empty, and the queue without it. *)
Lemma trep_head R t e q ps xs fs es :
  trep R t (e :: q) ps xs [] fs es ->
  exists p x ps' xs', ps = p :: ps' /\ xs = x :: xs' /\ p <> 0
    /\ (exists n, nodes (eventQ t) !! p = Some n /\ item n = x) /\ events t !! x = Some e
    /\ ListNext p (eventQ t) = Some (hd 0 ps')
    /\ exists l t' fs' es', ListDelNode p false (eventQ t) = Some (x, l)
      /\ FreeTimerEvent (set_eventQ l t) x = Some t' /\ trep R t' q ps' xs' [] fs' es'
      /\ lastEventId t' = lastEventId t /\ t_shutdown t' = t_shutdown t.
Proof.
  intros Hr. destruct (trep_lengths _ _ _ _ _ _ _ _ Hr) as (L1 & L2 & _).
  destruct ps as [|p ps], xs as [|x xs]; cbn in L1, L2; try lia.
  exists p, x, ps, xs. split; [done|]. split; [done|].
  destruct (trep_at R t [] e q [] p ps [] x xs [] fs es Hr eq_refl eq_refl) as (Hp & Hn & Hy).
  split; [done|]. split; [done|]. split; [done|]. split.
  - apply (ListNext_spec R (eventQ t) [] p ps (x :: xs) fs), Hr.
  - apply (trep_delete R t [] e q [] p ps [] x xs fs es Hr eq_refl eq_refl).
Qed.

Lemma drain_loop_ok R t q ps xs fs es fuel :
  trep R t q ps xs [] fs es -> (length ps < fuel)%nat ->
  exists t', drain_loop fuel (hd 0 ps) t
      = Some (q, concat (map (fun e => free_call (job e)) q), t')
    /\ holds R t' [] /\ lastEventId t' = lastEventId t /\ t_shutdown t' = t_shutdown t.
Proof.
  revert t q ps xs fs es. induction fuel as [|fuel IH]; intros t q ps xs fs es Hr Hf; [lia|].
  destruct q as [|e q].
  { destruct (trep_lengths _ _ _ _ _ _ _ _ Hr) as (L1 & _). destruct ps; [|done].
    exists t. split_and!; try done. by eexists _, _, fs, es. }
  destruct (trep_head _ _ _ _ _ _ _ _ Hr)
    as (p & x & ps' & xs' & -> & -> & Hp & (n & Hn & Hx) & He & Hnx & l & t1 & fs' & es' & E1 & E2 & Hr1 & I1 & S1).
  cbn [hd drain_loop map concat]. rewrite (proj2 (Z.eqb_neq p 0) Hp), Hn. cbn [mbind option_bind].
  rewrite Hx, He. cbn [mbind option_bind]. rewrite Hnx. cbn [mbind option_bind].
  rewrite E1. cbn [mbind option_bind]. rewrite E2. cbn [mbind option_bind].
  cbn in Hf. destruct (IH _ _ _ _ _ _ Hr1 ltac:(lia)) as (t2 & -> & Hr2 & I2 & S2).
  cbn [mbind option_bind]. exists t2. by rewrite I2, S2.
Qed.

Lemma TimerThreadShutdown_ok R t q :
  holds R t q ->
  exists t', TimerThreadShutdown t = Some (q, concat (map (fun e => free_call (job e)) q), t')
    /\ holds R t' [] /\ lastEventId t' = lastEventId t /\ t_shutdown t' = true
    /\ events t' = ∅.
Proof.
  intros (ps & xs & fs & es & Hr). unfold TimerThreadShutdown.
  assert (Hr0 : trep R (set_t_shutdown true t) q ps xs [] fs es) by (destruct Hr; by split).
  rewrite (ListHead_spec _ _ _ _ _ (tr_list _ _ _ _ _ _ _ _ Hr0)). cbn [mbind option_bind].
  destruct (trep_lengths _ _ _ _ _ _ _ _ Hr0) as (_ & _ & Hfuel & _).
  destruct (drain_loop_ok _ _ _ _ _ _ _ _ Hr0 Hfuel) as (t1 & -> & (ps1 & xs1 & fs1 & es1 & Hr1) & I1 & S1).
  cbn [mbind option_bind]. destruct Hr1 as [H1 H2 H3 H4 H5].
  destruct (ListDestroy_spec _ _ _ _ _ false H1) as (l & -> & Hl & _ & Hs). cbn [mbind option_bind].
  apply Forall2_nil_inv_r in H3 as ->. cbn [app] in H4.
  destruct (FreeListDestroy_ok _ _ _ H4) as (fl & -> & Hf & Hm). cbn [mbind option_bind].
  eexists. split_and!; [done| |done|done|done].
  exists [], [], [], []. split; cbn; try done.
  - destruct Hs as (_ & -> & _). done.
  - congruence.
Qed.

(** ** The worker *)

Lemma worker_loop_ok R fuel e t q ps xs fs es hs cs :
  trep R t q ps xs [] fs es -> t_shutdown t = false -> (length ps < fuel)%nat ->
  let '(w, q', hs', cs') := fire e q in
  exists t', worker_loop fuel e t hs cs = Some (w, t', hs ++ hs', cs ++ cs')
    /\ holds R t' q' /\ lastEventId t' = lastEventId t /\ t_shutdown t' = false.
Proof.
  revert e t q ps xs fs es hs cs. induction fuel as [|fuel IH]; intros e t q ps xs fs es hs cs Hr Hsd Hf; [lia|].
  cbn [worker_loop]. rewrite Hsd. unfold ListSize.
  destruct (trep_lengths _ _ _ _ _ _ _ _ Hr) as (_ & _ & _ & ->).
  destruct q as [|y q]; cbn [fire].
  { change (0 <? zlen []) with false. cbn match. rewrite !app_nil_r. exists t. split_and!; try done.
    by eexists _, _, fs, es. }
  assert (0 <? zlen (y :: q) = true) as -> by (apply Z.ltb_lt; zlen_norm; pose proof (zlen_nonneg q); lia).
  destruct (trep_head _ _ _ _ _ _ _ _ Hr)
    as (p & x & ps' & xs' & -> & -> & Hp & (n & Hn & Hx) & He & Hnx & l & t1 & fs' & es' & E1 & E2 & Hr1 & I1 & S1).
  rewrite (ListHead_spec _ _ _ _ _ (tr_list _ _ _ _ _ _ _ _ Hr)). cbn [mbind option_bind hd].
  rewrite (proj2 (Z.eqb_neq p 0) Hp), Hn. cbn [mbind option_bind]. rewrite Hx, He. cbn [mbind option_bind].
  destruct (eventTime y <=? t_now (e 0%nat)).
  - rewrite E1. cbn [mbind option_bind]. rewrite E2. cbn [mbind option_bind]. cbn in Hf.
    specialize (IH (fun i => e (S i)) t1 q ps' xs' fs' es'
      (hs ++ [Handing y (t_now (e 0%nat)) (t_rc (e 0%nat))]) (cs ++ refused (t_rc (e 0%nat)) (job y))
      Hr1 ltac:(congruence) ltac:(lia)).
    destruct (fire (fun i => e (S i)) q) as [[[w q'] hs'] cs'].
    destruct IH as (t2 & -> & Hr2 & I2 & S2). exists t2. rewrite <- !app_assoc.
    split_and!; try done. congruence.
  - exists t. rewrite !app_nil_r. split_and!; try done. by eexists _, _, fs, es.
Qed.

Lemma TimerThreadWorker_ok R e t q :
  holds R t q ->
  let '(w, q', hs, cs) := if t_shutdown t then (TGone, q, [], []) else fire e q in
  exists t', TimerThreadWorker e t = Some (w, t', hs, cs)
    /\ holds R t' q' /\ lastEventId t' = lastEventId t /\ t_shutdown t' = false.
Proof.
  intros Hh. pose proof Hh as (ps & xs & fs & es & Hr). unfold TimerThreadWorker.
  destruct (t_shutdown t) eqn:Hsd.
  - unfold queue_fuel. cbn [worker_loop]. rewrite Hsd. eexists. split_and!; [done| |done|done].
    by eapply holds_same, Hh.
  - destruct (trep_lengths _ _ _ _ _ _ _ _ Hr) as (_ & _ & Hfuel & _).
    pose proof (worker_loop_ok R _ e t q ps xs fs es [] [] Hr Hsd Hfuel) as HL.
    by destruct (fire e q) as [[[w q'] hs] cs].
Qed.
End TimerFacts.

(** ** The system *)

Record aspec := ASys {
  a_last : Z;
  a_queue : list TimerEvent;
  a_down : bool;
  a_worker : worker_pc;
  a_stopper : stop_pc;
  a_handed : list handing;
  a_calls : list (Z * Z);
  a_scheduled : list TimerEvent;
  a_cancelled : list (Z * ThreadPoolJob);
  a_dropped : list TimerEvent
}.

Definition abs (s : tsys) (q : list TimerEvent) : aspec :=
  ASys (lastEventId (timer s)) q (t_shutdown (timer s)) (worker s) (stopper s) (handed s)
       (freed_calls s) (scheduled s) (cancelled s) (dropped s).

(** The operations on a queue of events; [m] is what memory was short of. *)
Definition spec_exec (op : top) (m : shortage) (a : aspec) : aspec :=
  match op, a_stopper a with
  | OSchedule now timeout type j d, SIdle =>
      let e := Event j (CalculateEventTime now timeout type) d (a_last a) in
      match m with
      | NoEvent => a
      | NoNode =>
          ASys (s32 (a_last a + 1)) (a_queue a) (a_down a) (a_worker a) (a_stopper a) (a_handed a)
               (a_calls a) (a_scheduled a) (a_cancelled a) (a_dropped a)
      | Enough =>
          ASys (s32 (a_last a + 1)) (insert_event e (a_queue a)) (a_down a) (a_worker a)
               (a_stopper a) (a_handed a) (a_calls a) (a_scheduled a ++ [e]) (a_cancelled a)
               (a_dropped a)
      end
  | ORemove id, SIdle =>
      match remove_event id (a_queue a) with
      | None => a
      | Some (e, q) =>
          ASys (a_last a) q (a_down a) (a_worker a) (a_stopper a) (a_handed a) (a_calls a)
               (a_scheduled a) (a_cancelled a ++ [(id, job e)]) (a_dropped a)
      end
  | OShutdown, SIdle =>
      ASys (a_last a) [] true (a_worker a) SWait (a_handed a)
           (a_calls a ++ concat (map (fun e => free_call (job e)) (a_queue a))) (a_scheduled a)
           (a_cancelled a) (a_dropped a ++ a_queue a)
  | OStopped, SWait =>
      ASys (a_last a) (a_queue a) (a_down a) (a_worker a) (if a_down a then SWait else SDone)
           (a_handed a) (a_calls a) (a_scheduled a) (a_cancelled a) (a_dropped a)
  | OWorker e, _ =>
      match a_worker a with
      | TGone => a
      | _ =>
          let '(w, q, hs, cs) := if a_down a then (TGone, a_queue a, [], [])
                                 else fire e (a_queue a) in
          ASys (a_last a) q false w (a_stopper a) (a_handed a ++ hs) (a_calls a ++ cs)
               (a_scheduled a) (a_cancelled a) (a_dropped a)
      end
  | _, _ => a
  end.

Section System.
Context `{Heap}.

Lemma t_exec_ok R s q op :
  holds R (timer s) q ->
  exists s' q' m, t_exec op s = Some s' /\ holds R (timer s') q'
    /\ abs s' q' = spec_exec op m (abs s q) /\ short m (timer s)
    /\ (op = OShutdown -> stopper s = SIdle -> events (timer s') = ∅).
Proof.
  intros Hh. destruct op as [nw timeout ty j d|id| | |e]; unfold t_exec, spec_exec;
    cbn [a_stopper abs].
  - destruct (stopper s) eqn:Es; try (by exists s, q, Enough).
    destruct (TimerThreadSchedule_ok R _ q nw timeout ty j d Hh) as (rc & id & t' & m & -> & Hm & Hsd & Hc).
    cbn [mbind option_bind]. destruct m; destruct Hc as (-> & -> & Hh' & El); cbn [Z.eqb];
      eexists _, _, _; (split_and!; [done|exact Hh'| |exact Hm|done]); unfold abs; cbn;
      rewrite ?Es, ?El, ?Hsd, ?app_nil_r; done.
  - destruct (stopper s) eqn:Es; try (by exists s, q, Enough).
    pose proof (TimerThreadRemove_ok R _ q id Hh) as HR. cbn [a_queue].
    destruct (remove_event id q) as [[e r]|] eqn:Er.
    + destruct HR as (t' & -> & Hh' & El & Hsd). cbn [mbind option_bind].
      eexists _, _, Enough. split_and!; [done|exact Hh'| |done|done]. unfold abs; cbn.
      by rewrite Er, ?El, ?Hsd.
    + rewrite HR. cbn [mbind option_bind]. eexists _, q, Enough. split_and!; [done|exact Hh| |done|done].
      unfold abs; cbn. by rewrite Er, app_nil_r, Es.
  - destruct (stopper s) eqn:Es; try (by exists s, q, Enough).
    destruct (TimerThreadShutdown_ok R _ q Hh) as (t' & -> & Hh' & El & Hsd & He).
    cbn [mbind option_bind]. eexists _, _, Enough. split_and!; [done|exact Hh'| |done|done].
    unfold abs; cbn. by rewrite ?El, ?Hsd.
  - destruct (stopper s) eqn:Es; try (by exists s, q, Enough).
    eexists _, q, Enough. split_and!; [done|exact Hh|done|done|done].
  - pose proof (TimerThreadWorker_ok R e _ q Hh) as HW. cbn [a_worker a_down a_queue].
    destruct (worker s) eqn:Ew; [| |by exists s, q, Enough; split_and!; try done;
                                     unfold abs; cbn; rewrite Ew; destruct (stopper s)];
      destruct (if t_shutdown (timer s) then _ else _) as [[[w q'] hs] cs] eqn:EE;
      destruct HW as (t' & -> & Hh' & El & Hsd); cbn [mbind option_bind];
      (eexists (TSys t' w (stopper s) _ _ _ _ _), q', Enough; split_and!;
       [by destruct (stopper s)|exact Hh'| |done|done]);
      unfold abs; cbn; by rewrite Ew, El, Hsd.
Qed.

(** ** Invariants of the specification *)

Definition earlier (a b : TimerEvent) : Prop := eventTime a <= eventTime b.
Definition key (e : TimerEvent) : Z * ThreadPoolJob := (ev_id e, job e).

Lemma insert_event_perm e q : insert_event e q ≡ₚ e :: q.
Proof.
  induction q as [|x q IH]; cbn; [done|]. case_match; [done|]. rewrite IH. constructor.
Qed.

Lemma insert_event_sorted e q : StronglySorted earlier q -> StronglySorted earlier (insert_event e q).
Proof.
  induction 1 as [|x q Hs IH Hf]; cbn; [repeat constructor|].
  destruct (Z.leb_spec (eventTime e) (eventTime x)) as [Hle|Hgt].
  - constructor; [by constructor|]. constructor; [done|].
    eapply Forall_impl; [exact Hf|]. unfold earlier. cbn. lia.
  - constructor; [done|]. rewrite insert_event_perm. constructor; [unfold earlier; lia|done].
Qed.

Lemma remove_event_some id q e r :
  remove_event id q = Some (e, r) -> q ≡ₚ e :: r /\ ev_id e = id /\ r `sublist_of` q.
Proof.
  revert r. induction q as [|x q IH]; intros r; cbn [remove_event]; [done|].
  destruct (Z.eqb_spec (ev_id x) id) as [<-|Hne].
  - intros [= <- <-]. split_and!; [done|done|by constructor].
  - destruct (remove_event id q) as [[e' r']|]; cbn [mbind option_bind]; [|done].
    intros [= <- <-]. destruct (IH r' eq_refl) as (Hp & Hi & Hs). split_and!; [|done|by constructor].
    rewrite Hp. constructor.
Qed.

Lemma sublist_sorted q r : r `sublist_of` q -> StronglySorted earlier q -> StronglySorted earlier r.
Proof.
  induction 1 as [|x l1 l2 Hs IH|x l1 l2 Hs IH]; intros Hq; [done| |];
    apply StronglySorted_inv in Hq as [Hq Hf]; [|by apply IH].
  constructor; [by apply IH|]. rewrite Forall_forall in *. intros y Hy. apply Hf. by eapply elem_of_sublist.
Qed.

(** What a section of the worker hands over is a prefix of the queue, all of it
    due; the worker then waits for the next event. *)
Lemma fire_ok e q w q' hs cs :
  fire e q = (w, q', hs, cs) ->
  q = map h_event hs ++ q' /\ Forall (fun h => eventTime (h_event h) <= h_time h) hs
  /\ w = TWait (eventTime <$> head q')
  /\ cs = concat (map (fun h => refused (h_rc h) (job (h_event h))) hs).
Proof.
  revert e w q' hs cs. induction q as [|x q IH]; intros e w q' hs cs; cbn [fire]; [by intros [= <- <- <- <-]|].
  destruct (Z.leb_spec (eventTime x) (t_now (e 0%nat))); [|by intros [= <- <- <- <-]].
  destruct (fire (fun i => e (S i)) q) as [[[w1 q1] hs1] cs1] eqn:E. intros [= <- <- <- <-].
  destruct (IH _ _ _ _ _ E) as (-> & Hf & -> & ->). split_and!; [done|by constructor|done|done].
Qed.

(** [n] bounds the number of schedulings. *)
Record spec_inv (n : Z) (a : aspec) : Prop := {
  si_sorted : StronglySorted earlier (a_queue a);
  si_due : Forall (fun h => eventTime (h_event h) <= h_time h) (a_handed a);
  si_all : map key (a_scheduled a)
           ≡ₚ map key (a_queue a) ++ map (fun h => key (h_event h)) (a_handed a)
              ++ a_cancelled a ++ map key (a_dropped a);
  si_ids : n < 2 ^ 31 -> 0 <= a_last a <= n /\ NoDup (map ev_id (a_scheduled a))
           /\ Forall (fun e => ev_id e < a_last a) (a_scheduled a);
  si_stop : a_stopper a <> SIdle -> a_queue a = [];
  si_gone : a_worker a = TGone -> a_down a = false /\ a_stopper a <> SIdle;
  si_down : a_down a = true -> a_stopper a = SWait
}.

Lemma spec_exec_inv n op m a :
  0 <= n -> spec_inv n a -> spec_inv (n + 1) (spec_exec op m a).
Proof.
  intros Hn [Hs Hd Ha Hi Hst Hg Hdn].
  assert (Hsame : spec_inv (n + 1) a).
  { split; try done. intros Hlt. destruct (Hi ltac:(lia)) as (? & ? & ?). split_and!; try done; lia. }
  destruct op as [nw timeout ty j d|id| | |e]; unfold spec_exec.
  - destruct (a_stopper a) eqn:Es; try done. destruct m; [done| |].
    + split; cbn; try done. intros Hlt. destruct (Hi ltac:(lia)) as (H1 & H2 & H3).
      rewrite s32_small by lia. split_and!; try done; try lia.
      eapply Forall_impl; [exact H3|]. cbn. lia.
    + set (ev := Event _ _ _ _). split; cbn; try done.
      * by apply insert_event_sorted.
      * rewrite map_app, insert_event_perm. cbn [map]. rewrite Ha. by rewrite Permutation_app_comm.
      * intros Hlt. destruct (Hi ltac:(lia)) as (H1 & H2 & H3). rewrite s32_small by lia.
        split; [lia|]. split.
        -- rewrite map_app. apply NoDup_app. split; [done|]. split; [|cbn; apply NoDup_singleton].
           intros k Hk Hk'. cbn in Hk'. apply list_elem_of_singleton in Hk' as ->.
           apply list_elem_of_fmap in Hk as (y & Ey & Hy). rewrite Forall_forall in H3.
           specialize (H3 y Hy). lia.
        -- apply Forall_app. split; [|constructor; [cbn; lia|constructor]].
           eapply Forall_impl; [exact H3|]. cbn. lia.
  - destruct (a_stopper a) eqn:Es; try done.
    destruct (remove_event id (a_queue a)) as [[e r]|] eqn:E; [|done].
    destruct (remove_event_some _ _ _ _ E) as (Hp & <- & Hsub).
    destruct Hsame as [_ _ _ Hi' _ _ _].
    split; cbn; try done.
    + by eapply sublist_sorted.
    + rewrite Ha, Hp. cbn [map]. change (ev_id e, job e) with (key e). solve_Permutation.
  - destruct (a_stopper a) eqn:Es; try done. destruct Hsame as [_ _ _ Hi' _ _ _].
    split; cbn; try done.
    + constructor.
    + rewrite Ha, map_app. solve_Permutation.
    + intros Hw. destruct (Hg Hw) as [_ Hx]. done.
  - destruct (a_stopper a) eqn:Es; try done. destruct Hsame as [_ _ _ Hi' _ _ _].
    split; cbn; try done.
    + intros _. by apply Hst.
    + intros Hw. destruct (Hg Hw) as [-> _]. done.
    + intros Hb. by rewrite Hb.
  - assert (Hgo : a_worker a <> TGone -> spec_inv (n + 1)
      (let '(w, q, hs, cs) := if a_down a then (TGone, a_queue a, [], []) else fire e (a_queue a) in
          ASys (a_last a) q false w (a_stopper a) (a_handed a ++ hs) (a_calls a ++ cs)
               (a_scheduled a) (a_cancelled a) (a_dropped a))).
    { intros Hw. destruct Hsame as [_ _ _ Hi' _ _ _]. destruct (a_down a) eqn:Ed.
      - specialize (Hdn eq_refl). split; cbn; rewrite ?app_nil_r; try done.
        intros _. by rewrite Hdn.
      - destruct (fire e (a_queue a)) as [[[w q] hs] cs] eqn:Ef.
        destruct (fire_ok _ _ _ _ _ _ Ef) as (Eq & Hf & -> & _).
        split; cbn; try done.
        + eapply sublist_sorted; [|exact Hs]. rewrite Eq. by apply sublist_inserts_l.
        + by apply Forall_app.
        + rewrite Ha, Eq, !map_app, map_map. solve_Permutation.
        + intros Hx. specialize (Hst Hx). rewrite Eq in Hst. by apply app_nil in Hst as [_ ->]. }
    destruct (a_stopper a), (a_worker a) eqn:Ew; try done; by apply Hgo.
Qed.

Lemma t_run_ok R n ops s q :
  0 <= n -> holds R (timer s) q -> spec_inv n (abs s q) ->
  exists s' q', t_run ops s = Some s' /\ holds R (timer s') q'
    /\ spec_inv (n + zlen ops) (abs s' q').
Proof.
  revert n s q. induction ops as [|op ops IH]; intros n s q Hn Hh Hi; cbn [t_run].
  - exists s, q. split_and!; [done|done|]. change (zlen []) with 0. by rewrite Z.add_0_r.
  - destruct (t_exec_ok R s q op Hh) as (s1 & q1 & m & -> & Hh1 & Ha & _). cbn [mbind option_bind].
    destruct (IH (n + 1) s1 q1) as (s' & q' & E & Hh' & Hi'); [lia|done| |].
    + rewrite Ha. by apply spec_exec_inv.
    + exists s', q'. split_and!; [done|done|]. rewrite zlen_cons.
      by replace (n + (1 + zlen ops)) with (n + 1 + zlen ops) by lia.
Qed.

Lemma TimerThreadInit_ok R hd tl :
  hd <> 0 -> tl <> 0 -> hd <> tl -> R !! hd = None -> R !! tl = None ->
  exists t, TimerThreadInit 0 0 hd tl R = Some (0, t) /\ holds R t [] /\ lastEventId t = 0
    /\ t_shutdown t = false.
Proof.
  intros H1 H2 H3 H4 H5. destruct (ListInit_spec hd tl None false R H1 H2 H3 H4 H5) as [Hl _].
  eexists. split; [reflexivity|]. split_and!; [|done|done].
  exists [], [], [], []. split; cbn; try done. split; cbn; try done; [apply NoDup_nil_2|apply not_elem_of_nil|].
  intros p. rewrite lookup_empty. split; [by intros [? ?]|by intros ?%not_elem_of_nil].
Qed.
End System.

Module Timers.

(** C35. Each operation of the timer thread on the linked list of nodes, the heap of
    events and their free lists faults nowhere, leaks nothing, and is the operation
    [spec_exec] on the queue of events: scheduling inserts before the first event
    that is not earlier or, when memory is short, changes nothing but the next id;
    removal takes out the first event with the id; a section of the worker hands
    over the events that are due, in order, and waits for the next; shutdown empties
    the queue and frees the arguments in order and all events. *)
Theorem timer_refines `{Heap} R s q op :
  holds R (timer s) q ->
  exists s' q' m, t_exec op s = Some s' /\ holds R (timer s') q'
    /\ abs s' q' = spec_exec op m (abs s q) /\ short m (timer s)
    /\ (op = OShutdown -> stopper s = SIdle -> events (timer s') = ∅).
Proof. apply t_exec_ok. Qed.

Definition job_at (f a free : Z) : ThreadPoolJob := Job f a free (TV 0 0) MED_PRIORITY 0.

Lemma timer_refines_witness :
  exists t, TimerThreadInit 0 0 8 32 ∅ = Some (0, t)
    /\ exists s' q' m,
      t_exec (H := heap_fresh) (OSchedule 100 5 REL_SEC (job_at 7 8 9) SHORT_TERM) (tsys0 t) = Some s'
      /\ holds ∅ (timer s') q' /\ (m = Enough -> q' = [Event (job_at 7 8 9) 105 SHORT_TERM 0]).
Proof.
  destruct (TimerThreadInit_ok ∅ 8 32) as (t & E & Hh & Hl & _); try done.
  exists t. split; [exact E|].
  destruct (@timer_refines heap_fresh ∅ (tsys0 t) []
    (OSchedule 100 5 REL_SEC (job_at 7 8 9) SHORT_TERM) Hh)
    as (s' & q' & m & E' & Hh' & Ha & _).
  exists s', q', m. split; [exact E'|]. split; [exact Hh'|].
  intros ->. cbn in Ha. rewrite Hl in Ha. injection Ha as _ Hq _. rewrite Hq. reflexivity.
Defined.


Definition ops1 : list top :=
  [OSchedule 100 50 REL_SEC (job_at 1 11 0) SHORT_TERM;
   OSchedule 100 120 ABS_SEC (job_at 2 12 0) PERSISTENT;
   OSchedule 100 20 REL_SEC (job_at 3 13 0) SHORT_TERM;
   OWorker (fun _ => Tick 110 0); ORemove 0;
   OSchedule 112 40 REL_SEC (job_at 4 14 99) SHORT_TERM;
   OWorker (fun i => Tick (119 + Z.of_nat i) 0);
   OWorker (fun i => Tick (120 + Z.of_nat i) (1 - Z.of_nat i));
   OShutdown; OWorker (fun _ => Tick 121 0); OStopped].

End Timers.

(** The run of the witness: event 2 was scheduled last for the same time as event 1
    and goes first; event 0 is cancelled; event 3 is dropped by the shutdown, which
    returns. *)
Example timer_run :
  match TimerThreadInit 0 0 8 32 ∅ with
  | Some (_, t) =>
      match t_run (H := heap_fresh) Timers.ops1 (tsys0 t) with
      | Some s =>
          (map (fun h => (ev_id (h_event h), h_time h)) (handed s), map fst (cancelled s),
           map ev_id (dropped s), freed_calls s, stopper s)
          = ([(2, 120); (1, 121)], [0], [3], [(99, 14)], SDone)
      | None => False
      end
  | None => False
  end.
Proof. vm_compute. reflexivity. Qed.

(** [INVALID_EVENT_ID] is the id of no event only by accident: it is positive. *)
Example invalid_event_id_positive : INVALID_EVENT_ID = 2 ^ 29.
Proof. reflexivity. Qed.
