(* ===== verification/Md5.v ===== *)
(** * MD5

    [upnp/src/uuid/md5.c].  The word type [UINT4] is [unsigned long int] in
    [inc/global.h]: its width [W] is 32 on a 32-bit build and 64 on the LP64 platform
    of this development, and every operation on words is modulo [2 ^ W].  Bytes are
    0 to 255.  The main theorem is about both builds: any split of a message into
    calls of [MD5Update] gives the digest of [md5_ref], the block by block definition
    with the table of RFC 1321 over the same words.  With 32-bit words that is MD5;
    with 64-bit words it is another function (examples at the end). *)

From S2P Require Import Prelude CLib.
#[local] Open Scope Z_scope.

Definition S11 : Z := 7.
Definition S12 : Z := 12.
Definition S13 : Z := 17.
Definition S14 : Z := 22.
Definition S21 : Z := 5.
Definition S22 : Z := 9.
Definition S23 : Z := 14.
Definition S24 : Z := 20.
Definition S31 : Z := 4.
Definition S32 : Z := 11.
Definition S33 : Z := 16.
Definition S34 : Z := 23.
Definition S41 : Z := 6.
Definition S42 : Z := 10.
Definition S43 : Z := 15.
Definition S44 : Z := 21.

Definition PADDING : list Z := 0x80 :: zrep 63 0.

Definition quad : Type := Z * Z * Z * Z.

Record MD5_CTX := Ctx {
  state : quad;
  count : Z * Z;
  buffer : list Z
}.

Section Md5.
Context (W : Z).

(** ** Words *)

Definition word (z : Z) : Z := z mod 2 ^ W.
Definition wnot (z : Z) : Z := 2 ^ W - 1 - z.

Definition F (x y z : Z) : Z := Z.lor (Z.land x y) (Z.land (wnot x) z).
Definition G (x y z : Z) : Z := Z.lor (Z.land x z) (Z.land y (wnot z)).
Definition H (x y z : Z) : Z := Z.lxor (Z.lxor x y) z.
Definition I (x y z : Z) : Z := Z.lxor y (Z.lor x (wnot z)).

Definition ROTATE_LEFT (x n : Z) : Z := Z.lor (word (Z.shiftl x n)) (Z.shiftr x (32 - n)).

(** The body shared by the macros [FF], [GG], [HH] and [II]: the new value of [a]. *)
Definition round (f : Z -> Z -> Z -> Z) (a b c d x s ac : Z) : Z :=
  let a := word (a + word (word (f b c d + x) + word ac)) in
  let a := ROTATE_LEFT a s in
  word (a + b).

(** A line of [MD5Transform]: the macro, with the variable it assigns. *)
Definition line : Type := list Z -> quad -> quad.
Definition set_a (f : Z -> Z -> Z -> Z) (k s ac : Z) : line :=
  fun x '(a, b, c, d) => (round f a b c d (zget x k) s ac, b, c, d).
Definition set_d (f : Z -> Z -> Z -> Z) (k s ac : Z) : line :=
  fun x '(a, b, c, d) => (a, b, c, round f d a b c (zget x k) s ac).
Definition set_c (f : Z -> Z -> Z -> Z) (k s ac : Z) : line :=
  fun x '(a, b, c, d) => (a, b, round f c d a b (zget x k) s ac, d).
Definition set_b (f : Z -> Z -> Z -> Z) (k s ac : Z) : line :=
  fun x '(a, b, c, d) => (a, round f b c d a (zget x k) s ac, c, d).
Definition FF_a := set_a F.
Definition FF_b := set_b F.
Definition FF_c := set_c F.
Definition FF_d := set_d F.
Definition GG_a := set_a G.
Definition GG_b := set_b G.
Definition GG_c := set_c G.
Definition GG_d := set_d G.
Definition HH_a := set_a H.
Definition HH_b := set_b H.
Definition HH_c := set_c H.
Definition HH_d := set_d H.
Definition II_a := set_a I.
Definition II_b := set_b I.
Definition II_c := set_c I.
Definition II_d := set_d I.

(** The 64 lines of [MD5Transform], in order. *)
Definition transform_lines : list line :=
  [FF_a 0 S11 0xd76aa478; FF_d 1 S12 0xe8c7b756;
   FF_c 2 S13 0x242070db; FF_b 3 S14 0xc1bdceee;
   FF_a 4 S11 0xf57c0faf; FF_d 5 S12 0x4787c62a;
   FF_c 6 S13 0xa8304613; FF_b 7 S14 0xfd469501;
   FF_a 8 S11 0x698098d8; FF_d 9 S12 0x8b44f7af;
   FF_c 10 S13 0xffff5bb1; FF_b 11 S14 0x895cd7be;
   FF_a 12 S11 0x6b901122; FF_d 13 S12 0xfd987193;
   FF_c 14 S13 0xa679438e; FF_b 15 S14 0x49b40821;
   GG_a 1 S21 0xf61e2562; GG_d 6 S22 0xc040b340;
   GG_c 11 S23 0x265e5a51; GG_b 0 S24 0xe9b6c7aa;
   GG_a 5 S21 0xd62f105d; GG_d 10 S22 0x2441453;
   GG_c 15 S23 0xd8a1e681; GG_b 4 S24 0xe7d3fbc8;
   GG_a 9 S21 0x21e1cde6; GG_d 14 S22 0xc33707d6;
   GG_c 3 S23 0xf4d50d87; GG_b 8 S24 0x455a14ed;
   GG_a 13 S21 0xa9e3e905; GG_d 2 S22 0xfcefa3f8;
   GG_c 7 S23 0x676f02d9; GG_b 12 S24 0x8d2a4c8a;
   HH_a 5 S31 0xfffa3942; HH_d 8 S32 0x8771f681;
   HH_c 11 S33 0x6d9d6122; HH_b 14 S34 0xfde5380c;
   HH_a 1 S31 0xa4beea44; HH_d 4 S32 0x4bdecfa9;
   HH_c 7 S33 0xf6bb4b60; HH_b 10 S34 0xbebfbc70;
   HH_a 13 S31 0x289b7ec6; HH_d 0 S32 0xeaa127fa;
   HH_c 3 S33 0xd4ef3085; HH_b 6 S34 0x4881d05;
   HH_a 9 S31 0xd9d4d039; HH_d 12 S32 0xe6db99e5;
   HH_c 15 S33 0x1fa27cf8; HH_b 2 S34 0xc4ac5665;
   II_a 0 S41 0xf4292244; II_d 7 S42 0x432aff97;
   II_c 14 S43 0xab9423a7; II_b 5 S44 0xfc93a039;
   II_a 12 S41 0x655b59c3; II_d 3 S42 0x8f0ccc92;
   II_c 10 S43 0xffeff47d; II_b 1 S44 0x85845dd1;
   II_a 8 S41 0x6fa87e4f; II_d 15 S42 0xfe2ce6e0;
   II_c 6 S43 0xa3014314; II_b 13 S44 0x4e0811a1;
   II_a 4 S41 0xf7537e82; II_d 11 S42 0xbd3af235;
   II_c 2 S43 0x2ad7d2bb; II_b 9 S44 0xeb86d391].

(** ** Encoding of words *)

Definition Encode (input : list Z) : list Z :=
  concat (map (fun v => [Z.land v 0xff; Z.land (Z.shiftr v 8) 0xff; Z.land (Z.shiftr v 16) 0xff;
                         Z.land (Z.shiftr v 24) 0xff]) input).

Fixpoint Decode (input : list Z) : list Z :=
  match input with
  | b0 :: b1 :: b2 :: b3 :: r =>
      Z.lor (Z.lor (Z.lor b0 (Z.shiftl b1 8)) (Z.shiftl b2 16)) (Z.shiftl b3 24) :: Decode r
  | _ => []
  end.

(** The lines one after the other. *)
Definition run_lines (x : list Z) (ls : list line) (q : quad) : quad :=
  fold_left (fun q (l : line) => l x q) ls q.

Definition MD5Transform (st : quad) (block : list Z) : quad :=
  let x := Decode block in
  let '(a0, b0, c0, d0) := st in
  let '(a, b, c, d) := run_lines x transform_lines st in
  (word (a0 + a), word (b0 + b), word (c0 + c), word (d0 + d)).

(** ** The context *)

(** [buf]: what the buffer of the context holds before. *)
Definition MD5Init (buf : list Z) : MD5_CTX :=
  Ctx (0x67452301, 0xefcdab89, 0x98badcfe, 0x10325476) (0, 0) buf.

(** The loop of [MD5Update] over the whole blocks of the input. *)
Fixpoint update_loop (fuel : nat) (i : Z) (st : quad) (input : list Z) (inputLen : Z)
  : Z * quad :=
  match fuel with
  | O => (i, st)
  | S f =>
      if u32 (i + 63) <? inputLen
      then update_loop f (u32 (i + 64)) (MD5Transform st (zsub input i 64)) input inputLen
      else (i, st)
  end.

Definition MD5Update (c : MD5_CTX) (input : list Z) (inputLen : Z) : MD5_CTX :=
  let '(c0, c1) := count c in
  (* number of bytes mod 64 *)
  let index := Z.land (Z.shiftr c0 3) 0x3f in
  (* number of bits *)
  let n := word (Z.shiftl inputLen 3) in
  let c0 := word (c0 + n) in
  let c1 := if c0 <? n then word (c1 + 1) else c1 in
  let c1 := word (c1 + Z.shiftr inputLen 29) in
  let partLen := 64 - index in
  if partLen <=? inputLen then
    let buf := zwrite (buffer c) index (ztake partLen input) in
    let st := MD5Transform (state c) buf in
    let '(i, st) := update_loop (Z.to_nat inputLen) partLen st input inputLen in
    Ctx st (c0, c1) (zwrite buf 0 (zsub input i (inputLen - i)))
  else
    Ctx (state c) (c0, c1) (zwrite (buffer c) index (ztake inputLen input)).

Definition quad_words (q : quad) : list Z := let '(a, b, c, d) := q in [a; b; c; d].

(** The digest; the context is cleared. *)
Definition MD5Final (c : MD5_CTX) : list Z * MD5_CTX :=
  let bits := Encode [(count c).1; (count c).2] in
  let index := Z.land (Z.shiftr (count c).1 3) 0x3f in
  let padLen := if index <? 56 then 56 - index else 120 - index in
  let c := MD5Update c PADDING padLen in
  let c := MD5Update c bits 8 in
  (Encode (quad_words (state c)), Ctx (0, 0, 0, 0) (0, 0) (zrep 64 0)).

(** The calls a client makes: one [MD5Update] for each part of the message. *)
Definition md5 (buf : list Z) (parts : list (list Z)) : list Z :=
  (MD5Final (fold_left (fun c p => MD5Update c p (zlen p)) parts (MD5Init buf))).1.

(** ** The reference *)

(** RFC 1321: the steps in a loop, with the table of constants, the shifts and the
    order of the words of the block. *)
Definition K_table : list Z :=
  [0xd76aa478; 0xe8c7b756; 0x242070db; 0xc1bdceee;
   0xf57c0faf; 0x4787c62a; 0xa8304613; 0xfd469501;
   0x698098d8; 0x8b44f7af; 0xffff5bb1; 0x895cd7be;
   0x6b901122; 0xfd987193; 0xa679438e; 0x49b40821;
   0xf61e2562; 0xc040b340; 0x265e5a51; 0xe9b6c7aa;
   0xd62f105d; 0x2441453; 0xd8a1e681; 0xe7d3fbc8;
   0x21e1cde6; 0xc33707d6; 0xf4d50d87; 0x455a14ed;
   0xa9e3e905; 0xfcefa3f8; 0x676f02d9; 0x8d2a4c8a;
   0xfffa3942; 0x8771f681; 0x6d9d6122; 0xfde5380c;
   0xa4beea44; 0x4bdecfa9; 0xf6bb4b60; 0xbebfbc70;
   0x289b7ec6; 0xeaa127fa; 0xd4ef3085; 0x4881d05;
   0xd9d4d039; 0xe6db99e5; 0x1fa27cf8; 0xc4ac5665;
   0xf4292244; 0x432aff97; 0xab9423a7; 0xfc93a039;
   0x655b59c3; 0x8f0ccc92; 0xffeff47d; 0x85845dd1;
   0x6fa87e4f; 0xfe2ce6e0; 0xa3014314; 0x4e0811a1;
   0xf7537e82; 0xbd3af235; 0x2ad7d2bb; 0xeb86d391].
Definition shift_of (i : Z) : Z :=
  zget [7; 12; 17; 22; 5; 9; 14; 20; 4; 11; 16; 23; 6; 10; 15; 21] (4 * (i / 16) + i mod 4).
Definition word_of (i : Z) : Z :=
  if i <? 16 then i else if i <? 32 then (5 * i + 1) mod 16
  else if i <? 48 then (3 * i + 5) mod 16 else (7 * i) mod 16.
Definition mix_of (i : Z) : Z -> Z -> Z -> Z :=
  if i <? 16 then F else if i <? 32 then G else if i <? 48 then H else I.

(** One step; the roles of the four words turn. *)
Definition ref_step (x : list Z) (q : quad) (i : Z) : quad :=
  let '(a, b, c, d) := q in
  (d, round (mix_of i) a b c d (zget x (word_of i)) (shift_of i) (zget K_table i), b, c).
Definition compress (st : quad) (block : list Z) : quad :=
  let x := Decode block in
  let '(a0, b0, c0, d0) := st in
  let '(a, b, c, d) := fold_left (ref_step x) (seqZ 0 64) st in
  (word (a0 + a), word (b0 + b), word (c0 + c), word (d0 + d)).

(** All whole blocks of a message. *)
Fixpoint absorb (n : nat) (st : quad) (m : list Z) : quad :=
  match n with O => st | S n => absorb n (compress st (ztake 64 m)) (zdrop 64 m) end.
Definition blocks (st : quad) (m : list Z) : quad := absorb (Z.to_nat (zlen m / 64)) st m.

(** The 64-bit length in bits, least significant byte first. *)
Definition length_bytes (n : Z) : list Z := map (fun i => Z.shiftr (8 * n) (8 * i) mod 256) (seqZ 0 8).
Definition padded (m : list Z) : list Z :=
  m ++ 0x80 :: zrep ((55 - zlen m) mod 64) 0 ++ length_bytes (zlen m).
Definition md5_ref (m : list Z) : list Z :=
  Encode (quad_words (blocks (0x67452301, 0xefcdab89, 0x98badcfe, 0x10325476) (padded m))).
End Md5.

(** ** The transformation is the loop of the standard *)

Section Facts.
Context (W : Z).
Implicit Types (st : quad) (m : list Z).

Lemma four_lines (k : nat) x q :
  (k < 16)%nat ->
  run_lines x (take 4 (drop (4 * k) (transform_lines W))) q
  = fold_left (ref_step W x) (seqZ (4 * Z.of_nat k) 4) q.
Proof.
  intros Hk. destruct q as [[[a b] c] d].
  do 16 (destruct k as [|k]; [reflexivity|]). lia.
Qed.

Lemma lines_prefix (k : nat) x q :
  (k <= 16)%nat ->
  run_lines x (take (4 * k) (transform_lines W)) q
  = fold_left (ref_step W x) (seqZ 0 (4 * Z.of_nat k)) q.
Proof.
  induction k as [|k IH]; intros Hk; [done|].
  replace (take (4 * S k) (transform_lines W))
    with (take (4 * k) (transform_lines W) ++ take 4 (drop (4 * k) (transform_lines W))).
  2: { rewrite take_take_drop. f_equal. lia. }
  replace (4 * Z.of_nat (S k)) with (4 * Z.of_nat k + 4) by lia.
  rewrite seqZ_app by lia. unfold run_lines. rewrite !fold_left_app.
  fold (run_lines x (take (4 * k) (transform_lines W)) q). rewrite IH by lia.
  apply four_lines. lia.
Qed.

Lemma MD5Transform_compress st block : MD5Transform W st block = compress W st block.
Proof.
  unfold MD5Transform, compress. destruct st as [[[a b] c] d].
  pose proof (lines_prefix 16 (Decode block) (a, b, c, d) ltac:(lia)) as HL.
  change (take (4 * 16) (transform_lines W)) with (transform_lines W) in HL. by rewrite HL.
Qed.

(** ** Blocks *)

Definition rest m : list Z := zdrop (64 * (zlen m / 64)) m.
Definition full m : list Z := ztake (64 * (zlen m / 64)) m.

Lemma full_rest m : full m ++ rest m = m.
Proof. apply ztake_zdrop. Qed.
Lemma zlen_full m : zlen (full m) = 64 * (zlen m / 64).
Proof.
  unfold full. pose proof (zlen_nonneg m). pose proof (Z.div_pos (zlen m) 64 ltac:(lia) ltac:(lia)).
  rewrite zlen_ztake. pose proof (Z.mul_div_le (zlen m) 64). lia.
Qed.
Lemma zlen_rest m : zlen (rest m) = zlen m mod 64.
Proof.
  pose proof (f_equal zlen (full_rest m)) as E. rewrite zlen_app, zlen_full in E.
  pose proof (Z.div_mod (zlen m) 64). lia.
Qed.

Lemma absorb_app (n : nat) st m b :
  64 * Z.of_nat n <= zlen m -> absorb W n st (m ++ b) = absorb W n st m.
Proof.
  revert st m. induction n as [|n IH]; intros st m Hn; [done|]. cbn [absorb].
  rewrite ztake_app_le, zdrop_app_le by lia. apply IH. rewrite zlen_zdrop. lia.
Qed.
Lemma absorb_add (n k : nat) st m :
  absorb W (n + k) st m = absorb W k (absorb W n st m) (zdrop (64 * Z.of_nat n) m).
Proof.
  revert st m. induction n as [|n IH]; intros st m; cbn [absorb Nat.add].
  - by rewrite zdrop_neg by lia.
  - rewrite IH, zdrop_zdrop by lia. do 2 f_equal. lia.
Qed.

(** The blocks of a message whose start is a number of whole blocks. *)
Lemma blocks_app st m b :
  zlen m mod 64 = 0 -> blocks W st (m ++ b) = blocks W (blocks W st m) b.
Proof.
  intros Hm. unfold blocks. rewrite zlen_app.
  pose proof (zlen_nonneg m). pose proof (zlen_nonneg b). pose proof (Z.div_mod (zlen m) 64).
  replace ((zlen m + zlen b) / 64) with (zlen m / 64 + zlen b / 64).
  2: { replace (zlen m) with (zlen m / 64 * 64) at 2 by lia. by rewrite Z.div_add_l. }
  rewrite Z2Nat.inj_add by (apply Z.div_pos; lia). rewrite absorb_add, Z2Nat.id by (apply Z.div_pos; lia).
  replace (64 * (zlen m / 64)) with (zlen m) by lia. rewrite zdrop_app_exact.
  rewrite absorb_app; [done|]. rewrite Z2Nat.id by (apply Z.div_pos; lia). lia.
Qed.
Lemma blocks_full st m : blocks W st (full m) = blocks W st m.
Proof.
  unfold blocks. rewrite zlen_full, (Z.mul_comm 64), Z.div_mul by done.
  transitivity (absorb W (Z.to_nat (zlen m / 64)) st (full m ++ rest m)); [|by rewrite full_rest].
  symmetry. apply absorb_app. rewrite zlen_full, Z2Nat.id; [lia|].
  apply Z.div_pos; [apply zlen_nonneg|lia].
Qed.
Lemma full_mod m : zlen (full m) mod 64 = 0.
Proof. by rewrite zlen_full, (Z.mul_comm 64), Z.mod_mul. Qed.
Lemma blocks_rest_app st m b : blocks W st (m ++ b) = blocks W (blocks W st m) (rest m ++ b).
Proof.
  rewrite <- (full_rest m) at 1. rewrite <- app_assoc, blocks_app by apply full_mod.
  by rewrite blocks_full.
Qed.
Lemma rest_app m b : rest (m ++ b) = rest (rest m ++ b).
Proof.
  unfold rest at 1 2. rewrite <- (full_rest m) at 2.
  pose proof (zlen_nonneg m) as Hm. pose proof (zlen_nonneg b) as Hb. pose proof (Z.div_mod (zlen m) 64) as Hd.
  rewrite <- app_assoc, !zlen_app, zlen_rest.
  replace ((zlen m + zlen b) / 64) with (zlen m / 64 + (zlen m mod 64 + zlen b) / 64).
  2: { rewrite <- Z.div_add_l by done. f_equal. lia. }
  rewrite Z.mul_add_distr_l, Z.add_comm, <- zdrop_zdrop.
  - rewrite <- zlen_full at 1. by rewrite zdrop_app_exact.
  - pose proof (Z.mod_pos_bound (zlen m) 64 ltac:(lia)).
    pose proof (Z.div_pos (zlen m mod 64 + zlen b) 64). lia.
  - pose proof (Z.div_pos (zlen m) 64). lia.
Qed.
Lemma blocks_short st m : zlen m < 64 -> blocks W st m = st.
Proof. intros Hm. unfold blocks. by rewrite Z.div_small by (pose proof (zlen_nonneg m); lia). Qed.
Lemma rest_short m : zlen m < 64 -> rest m = m.
Proof.
  intros Hm. unfold rest. rewrite Z.div_small by (pose proof (zlen_nonneg m); lia).
  by apply zdrop_neg.
Qed.
Lemma blocks_one st b m : zlen b = 64 -> blocks W st (b ++ m) = blocks W (compress W st b) m.
Proof.
  intros Hb. rewrite blocks_app by (by rewrite Hb). f_equal. unfold blocks. rewrite Hb.
  change (Z.to_nat (64 / 64)) with 1%nat. cbn [absorb]. by rewrite ztake_all by lia.
Qed.

(** ** The context after a message *)

Lemma zdrop_ztake (i k : Z) (l : list Z) :
  0 <= i -> 0 <= k -> zdrop i (ztake k l) = ztake (k - i) (zdrop i l).
Proof.
  intros Hi Hk. unfold zdrop, ztake. rewrite Z2Nat.inj_sub by done. by rewrite skipn_firstn_comm.
Qed.
Lemma ztake_ztake (i k : Z) (l : list Z) : i <= k -> ztake i (ztake k l) = ztake i l.
Proof. intros Hi. unfold ztake. rewrite take_take. f_equal. lia. Qed.

Lemma update_loop_blocks (fuel : nat) (i : Z) st input (k : Z) :
  0 <= i <= k -> k <= zlen input -> k < 2 ^ 31 -> (k - i) / 64 <= Z.of_nat fuel ->
  update_loop W fuel i st input k
  = (i + 64 * ((k - i) / 64), blocks W st (zdrop i (ztake k input))).
Proof.
  revert i st. induction fuel as [|fuel IH]; intros i st Hi Hk Hk31 Hf; cbn [update_loop].
  - assert (k - i < 64) by (pose proof (Z.div_mod (k - i) 64 ltac:(lia));
      pose proof (Z.mod_pos_bound (k - i) 64 ltac:(lia)); lia).
    rewrite Z.div_small, blocks_short by (try rewrite zlen_zdrop, zlen_ztake; lia). f_equal. lia.
  - rewrite (u32_small (i + 63)) by lia. destruct (Z.ltb_spec (i + 63) k) as [Hlt|Hge].
    + assert (E : (k - i) / 64 = (k - (i + 64)) / 64 + 1)
        by (rewrite <- Z.div_add by done; f_equal; lia).
      rewrite E in *.
      rewrite (u32_small (i + 64)), IH by lia. f_equal; [lia|].
      rewrite MD5Transform_compress, <- blocks_one.
      2: { unfold zsub. rewrite zlen_ztake, zlen_zdrop. lia. }
      f_equal. unfold zsub. rewrite (zdrop_ztake i), (zdrop_ztake (i + 64)) by lia.
      rewrite <- (ztake_zdrop 64 (ztake (k - i) _)). rewrite ztake_ztake by lia. f_equal.
      rewrite zdrop_ztake, zdrop_zdrop by lia. f_equal; [lia|]. f_equal. lia.
    + rewrite Z.div_small, blocks_short by (try rewrite zlen_zdrop, zlen_ztake; lia). f_equal. lia.
Qed.

(** The 64-bit counter in two words, modulo [2 ^ 64]. *)
Definition bit_count (n : Z) : Z * Z := ((8 * n) mod 2 ^ 32, (8 * n) / 2 ^ 32 mod 2 ^ 32).

(** What a message may be: any length with 32-bit words, else below 512 MiB (the
    carry between the words of the counter is lost). *)
Definition fits (n : Z) : Prop := W = 32 \/ 32 <= W /\ n < 2 ^ 29.

Lemma count_step n k :
  0 <= n -> 0 <= k < 2 ^ 31 -> fits (n + k) ->
  let '(c0, c1) := bit_count n in
  let b := word W (Z.shiftl k 3) in
  let c0 := word W (c0 + b) in
  let c1 := if c0 <? b then word W (c1 + 1) else c1 in
  (c0, word W (c1 + Z.shiftr k 29)) = bit_count (n + k).
Proof.
  intros Hn Hk Hf. unfold bit_count. cbv zeta. rewrite Z.shiftl_mul_pow2, Z.shiftr_div_pow2 by lia.
  change (2 ^ 3) with 8. replace (8 * (n + k)) with (8 * n + k * 8) by lia.
  replace (k / 2 ^ 29) with (k * 8 / 2 ^ 32).
  2: { change (2 ^ 32) with (2 ^ 29 * 8). by rewrite Z.div_mul_cancel_r. }
  set (A := 8 * n) in *. set (B := k * 8) in *. unfold word.
  destruct Hf as [-> | [HW Hs]].
  - set (M := 2 ^ 32) in *. assert (0 < M) by done.
    pose proof (Z.div_mod A M ltac:(lia)) as HA. pose proof (Z.div_mod B M ltac:(lia)) as HB.
    pose proof (Z.mod_pos_bound A M ltac:(lia)) as RA. pose proof (Z.mod_pos_bound B M ltac:(lia)) as RB.
    rewrite <- Z.add_mod by lia. f_equal.
    destruct (Z.lt_ge_cases (A mod M + B mod M) M) as [Hlt|Hge].
    + assert (E : (A + B) mod M = A mod M + B mod M).
      { rewrite Z.add_mod, Z.mod_small by lia. done. }
      rewrite E. rewrite (proj2 (Z.ltb_ge _ _)) by lia.
      rewrite Z.add_mod_idemp_l by lia. f_equal.
      rewrite HA at 2. rewrite HB at 2.
      replace (M * (A / M) + A mod M + (M * (B / M) + B mod M))
        with ((A / M + B / M) * M + (A mod M + B mod M)) by lia.
      rewrite Z.div_add_l, (Z.div_small (A mod M + B mod M)) by lia. lia.
    + assert (E : (A + B) mod M = A mod M + B mod M - M).
      { rewrite Z.add_mod by lia. replace (A mod M + B mod M) with (A mod M + B mod M - M + 1 * M) at 1 by lia.
        rewrite Z.mod_add, Z.mod_small by lia. done. }
      rewrite E. rewrite (proj2 (Z.ltb_lt _ _)) by lia.
      rewrite !Z.add_mod_idemp_l by lia.
      rewrite <- Z.add_assoc, Z.add_mod_idemp_l by lia. f_equal.
      rewrite HA at 2. rewrite HB at 2.
      replace (M * (A / M) + A mod M + (M * (B / M) + B mod M))
        with ((A / M + B / M + 1) * M + (A mod M + B mod M - M)) by lia.
      rewrite Z.div_add_l, (Z.div_small (A mod M + B mod M - M)) by lia. lia.
  - assert (Hp : 2 ^ 32 <= 2 ^ W) by (apply Z.pow_le_mono_r; lia).
    rewrite (Z.mod_small A), (Z.mod_small B), (Z.div_small A), (Z.div_small B) by lia.
    rewrite (Z.mod_small (A + B) (2 ^ W)), (Z.mod_small (A + B)), (Z.div_small (A + B)) by lia.
    rewrite (proj2 (Z.ltb_ge _ _)) by lia. f_equal.
Qed.

Lemma index_of n : 0 <= n -> Z.land (Z.shiftr (bit_count n).1 3) 0x3f = n mod 64.
Proof.
  intros Hn. unfold bit_count. cbn [fst]. change 0x3f with (Z.ones 6).
  rewrite Z.land_ones by lia. rewrite Z.shiftr_div_pow2 by lia. change (2 ^ 3) with 8.
  change (2 ^ 32) with (8 * 2 ^ 29). rewrite Z.mul_mod_distr_l by lia.
  rewrite (Z.mul_comm 8 (n mod 2 ^ 29)), Z.div_mul by lia.
  change (2 ^ 29) with (2 ^ 6 * 2 ^ 23). rewrite Z.rem_mul_r by lia.
  rewrite Z.mul_comm, Z.mod_add by lia. by rewrite Z.mod_mod by lia.
Qed.

Definition init : quad := (0x67452301, 0xefcdab89, 0x98badcfe, 0x10325476).

(** [c] is the context after the message [m]. *)
Record ctx_rep m (c : MD5_CTX) : Prop := {
  cr_len : zlen (buffer c) = 64;
  cr_state : state c = blocks W init m;
  cr_rest : ztake (zlen m mod 64) (buffer c) = rest m;
  cr_count : count c = bit_count (zlen m)
}.

Lemma zlen_zwrite_in (b s : list Z) i :
  0 <= i -> i + zlen s <= zlen b -> zlen (zwrite b i s) = zlen b.
Proof. intros Hi Hs. unfold zwrite. pose_zlens. zlen_norm. lia. Qed.
Lemma ztake_zwrite (b s : list Z) i :
  0 <= i -> i + zlen s <= zlen b -> ztake (i + zlen s) (zwrite b i s) = ztake i b ++ s.
Proof.
  intros Hi Hs. pose proof (zlen_nonneg s) as H0. unfold zwrite. rewrite app_assoc.
  rewrite <- (ztake_app_exact (ztake i b ++ s) (zdrop (i + zlen s) b)) at 2.
  f_equal. rewrite zlen_app, zlen_ztake. lia.
Qed.
Lemma fits_le n n' : n' <= n -> fits n -> fits n'.
Proof. unfold fits. lia. Qed.

Lemma rest_of_zdrop (i : Z) m j :
  0 <= i -> 0 <= j -> zlen m = i + 64 * j + (zlen m - i) mod 64 -> i mod 64 = 0 ->
  rest m = zdrop (i + 64 * j) m.
Proof.
  intros Hi Hj Hl Hm. unfold rest. f_equal.
  pose proof (Z.mod_pos_bound (zlen m - i) 64 ltac:(lia)).
  pose proof (Z.div_mod i 64 ltac:(lia)).
  rewrite <- (Z.div_unique_pos (zlen m) 64 (i / 64 + j) ((zlen m - i) mod 64)); lia.
Qed.

Lemma MD5Update_ok m c input k :
  ctx_rep m c -> 0 <= k <= zlen input -> k < 2 ^ 31 -> fits (zlen m + k) ->
  ctx_rep (m ++ ztake k input) (MD5Update W c input k).
Proof.
  intros [Hl Hs Hr Hc] Hk Hk31 Hf. unfold MD5Update.
  pose proof (count_step (zlen m) k (zlen_nonneg m) ltac:(lia) Hf) as HC.
  pose proof (index_of (zlen m) (zlen_nonneg m)) as HI. rewrite <- Hc in HC, HI.
  destruct (count c) as [c0 c1]. cbn [fst] in HI. cbv zeta in HC |- *. rewrite HI.
  set (r := zlen m mod 64) in *. pose proof (Z.mod_pos_bound (zlen m) 64 ltac:(lia)) as Hr64. fold r in Hr64.
  assert (Hz : zlen (ztake k input) = k) by (rewrite zlen_ztake; lia).
  assert (Hm : zlen (m ++ ztake k input) = zlen m + k) by (rewrite zlen_app; lia).
  assert (Hrest : zlen (rest m ++ ztake k input) = r + k)
    by (rewrite zlen_app, zlen_rest; fold r; lia).
  assert (Hmod : (zlen m + k) mod 64 = (r + k) mod 64) by (unfold r; by rewrite Z.add_mod_idemp_l).
  destruct (Z.leb_spec (64 - r) k) as [Hge|Hlt].
  - set (p := 64 - r) in *.
    assert (Hzp : zlen (ztake p input) = p) by (rewrite zlen_ztake; lia).
    assert (Hbuf : zwrite (buffer c) r (ztake p input) = rest m ++ ztake p input).
    { rewrite <- Hr, <- (ztake_zwrite (buffer c)) by lia. symmetry. apply ztake_all.
      rewrite zlen_zwrite_in; lia. }
    assert (Hb64 : zlen (rest m ++ ztake p input) = 64)
      by (rewrite zlen_app, zlen_rest; fold r; lia).
    rewrite Hbuf, MD5Transform_compress, Hs.
    rewrite update_loop_blocks by first [lia | apply Z.div_le_upper_bound; lia].
    assert (Hsplit : rest m ++ ztake k input = (rest m ++ ztake p input) ++ zdrop p (ztake k input)).
    { rewrite <- app_assoc. f_equal. rewrite <- (ztake_zdrop p (ztake k input)) at 1.
      by rewrite ztake_ztake by lia. }
    set (j := (k - p) / 64). pose proof (Z.div_mod (k - p) 64 ltac:(lia)) as Hdm.
    pose proof (Z.mod_pos_bound (k - p) 64 ltac:(lia)) as Hmb. fold j in Hdm.
    assert (Hj : 0 <= j) by (apply Z.div_pos; lia).
    assert (Hrm : (r + k) mod 64 = k - (p + 64 * j)).
    { symmetry. apply (Z.mod_unique_pos _ _ (j + 1)); unfold p in *; lia. }
    assert (Hzs : zsub input (p + 64 * j) (k - (p + 64 * j)) = zdrop (p + 64 * j) (ztake k input))
      by (unfold zsub; by rewrite zdrop_ztake by lia).
    assert (Hzl : zlen (zdrop (p + 64 * j) (ztake k input)) = k - (p + 64 * j))
      by (rewrite zlen_zdrop; lia).
    rewrite Hzs. split; cbn [buffer state count].
    + rewrite zlen_zwrite_in; lia.
    + rewrite blocks_rest_app, Hsplit. symmetry. by apply blocks_one.
    + rewrite Hm, Hmod, Hrm.
      replace (k - (p + 64 * j)) with (0 + zlen (zdrop (p + 64 * j) (ztake k input))) by lia.
      rewrite ztake_zwrite by lia. rewrite ztake_neg by lia. cbn [app].
      rewrite rest_app.
      assert (Hz64 : zlen (rest m ++ ztake k input) - 64 = k - p) by (unfold p; lia).
      rewrite (rest_of_zdrop 64 _ j); [|lia|lia|rewrite Hz64; lia|done].
      rewrite Hsplit. replace (64 + 64 * j) with (64 * j + 64) by lia.
      rewrite <- (zdrop_zdrop (64 * j) 64), <- Hb64 by lia.
      rewrite zdrop_app_exact, zdrop_zdrop by lia. f_equal. lia.
    + by rewrite Hm.
  - split; cbn [buffer state count].
    + rewrite zlen_zwrite_in; lia.
    + rewrite blocks_rest_app, (blocks_short (blocks W init m)) by lia. done.
    + rewrite Hm, Hmod, Z.mod_small by lia. rewrite <- Hz at 1. rewrite ztake_zwrite by lia.
      rewrite Hr, rest_app. symmetry. apply rest_short. lia.
    + by rewrite Hm.
Qed.

Lemma MD5Init_ok buf : zlen buf = 64 -> ctx_rep [] (MD5Init buf).
Proof. intros Hb. by split. Qed.

Lemma updates_ok parts m c :
  ctx_rep m c -> Forall (fun p => zlen p < 2 ^ 31) parts -> fits (zlen m + zlen (concat parts)) ->
  ctx_rep (m ++ concat parts) (fold_left (fun c p => MD5Update W c p (zlen p)) parts c).
Proof.
  revert m c. induction parts as [|p parts IH]; intros m c Hc Hp Hf; cbn [concat fold_left].
  - by rewrite app_nil_r.
  - apply Forall_cons in Hp as [Hp Hps]. cbn [concat] in Hf. rewrite zlen_app in Hf.
    pose proof (zlen_nonneg (concat parts)). pose proof (zlen_nonneg p).
    rewrite app_assoc. apply IH; [|done|by rewrite zlen_app, <- Z.add_assoc].
    rewrite <- (ztake_all (zlen p) p) at 1 by lia.
    apply MD5Update_ok; [done|lia|lia|]. eapply fits_le; [|exact Hf]. lia.
Qed.

Lemma length_bytes_ok n :
  0 <= n < 2 ^ 61 -> Encode [(bit_count n).1; (bit_count n).2] = length_bytes n.
Proof.
  intros Hn. unfold bit_count, Encode, length_bytes. cbn [fst snd map concat app].
  change (seqZ 0 8) with [0; 1; 2; 3; 4; 5; 6; 7]. cbn [map].
  rewrite (Z.mod_small (8 * n / 2 ^ 32)).
  2: { split; [apply Z.div_pos; lia|apply Z.div_lt_upper_bound; lia]. }
  set (b := 8 * n). rewrite !Z.shiftr_div_pow2 by lia.
  assert (Hl : forall z, Z.land z 0xff = z mod 256)
    by (intros z; change 0xff with (Z.ones 8); by rewrite Z.land_ones).
  assert (Hm : forall i, 0 <= i < 32 -> i + 8 <= 32 -> (b mod 2 ^ 32) / 2 ^ i mod 256 = b / 2 ^ i mod 256).
  { intros i Hi Hi8. rewrite <- (Z.shiftr_div_pow2 _ i), <- (Z.shiftr_div_pow2 b i) by lia.
    change 256 with (2 ^ 8). apply Z.bits_inj'. intros j Hj.
    rewrite !Z.testbit_mod_pow2 by lia. destruct (Z.ltb_spec j 8); [|done]. cbn [andb].
    rewrite !Z.shiftr_spec, Z.testbit_mod_pow2 by lia.
    by rewrite (proj2 (Z.ltb_lt (j + i) 32)) by lia. }
  assert (Hh : forall i, 0 <= i -> (b / 2 ^ 32) / 2 ^ i = b / 2 ^ (32 + i)).
  { intros i Hi. rewrite Z.div_div by lia. by rewrite Z.pow_add_r by lia. }
  rewrite !Hl. rewrite !Hh by lia.
  pose proof (Hm 0 ltac:(lia) ltac:(lia)) as H0. rewrite !Z.div_1_r in H0.
  rewrite H0, !Hm by lia. change (2 ^ (8 * 0)) with 1. by rewrite Z.div_1_r.
Qed.

Lemma padding_len n : 0 <= n ->
  let padLen := if n mod 64 <? 56 then 56 - n mod 64 else 120 - n mod 64 in
  1 <= padLen <= 64 /\ padLen = 1 + (55 - n) mod 64 /\ (n + padLen + 8) mod 64 = 0.
Proof.
  intros Hn. cbv zeta. pose proof (Z.mod_pos_bound n 64 ltac:(lia)) as Hb.
  pose proof (Z.div_mod n 64 ltac:(lia)) as Hd.
  destruct (Z.ltb_spec (n mod 64) 56); split_and!; try lia.
  - rewrite <- (Z.mod_unique_pos (55 - n) 64 (- (n / 64)) (55 - n mod 64)); lia.
  - rewrite <- (Z.mod_unique_pos (n + (56 - n mod 64) + 8) 64 (n / 64 + 1) 0); lia.
  - rewrite <- (Z.mod_unique_pos (55 - n) 64 (- (n / 64) - 1) (119 - n mod 64)); lia.
  - rewrite <- (Z.mod_unique_pos (n + (120 - n mod 64) + 8) 64 (n / 64 + 2) 0); lia.
Qed.

Lemma MD5Final_ok m c :
  ctx_rep m c -> zlen m < 2 ^ 61 - 72 -> fits (zlen m + 72) -> (MD5Final W c).1 = md5_ref W m.
Proof.
  intros Hc Hm Hf. unfold MD5Final, md5_ref. cbn [fst]. rewrite (cr_count _ _ Hc).
  rewrite length_bytes_ok by (pose proof (zlen_nonneg m); lia).
  rewrite index_of by apply zlen_nonneg.
  destruct (padding_len (zlen m) (zlen_nonneg m)) as (H1 & H2 & H3).
  set (padLen := if _ <? _ then _ else _) in *.
  assert (Hpz : zlen PADDING = 64) by done.
  pose proof (MD5Update_ok m c PADDING padLen Hc ltac:(lia) ltac:(lia)
    ltac:(eapply fits_le; [|exact Hf]; lia)) as Hc1.
  assert (Hz1 : zlen (m ++ ztake padLen PADDING) = zlen m + padLen)
    by (rewrite zlen_app, zlen_ztake; lia).
  assert (Hlb : zlen (length_bytes (zlen m)) = 8) by done.
  pose proof (MD5Update_ok _ _ (length_bytes (zlen m)) 8 Hc1 ltac:(lia) ltac:(lia)
    ltac:(rewrite Hz1; eapply fits_le; [|exact Hf]; lia)) as Hc2.
  rewrite (cr_state _ _ Hc2). do 2 f_equal.
  change init with ((0x67452301, 0xefcdab89, 0x98badcfe, 0x10325476) : quad). f_equal.
  unfold padded. rewrite <- app_assoc. f_equal. rewrite (ztake_all 8) by lia.
  change (0x80 :: zrep ((55 - zlen m) mod 64) 0 ++ length_bytes (zlen m))
    with ((0x80 :: zrep ((55 - zlen m) mod 64) 0) ++ length_bytes (zlen m)). f_equal.
  rewrite H2. unfold PADDING, ztake, zrep.
  pose proof (Z.mod_pos_bound (55 - zlen m) 64 ltac:(lia)).
  replace (Z.to_nat (1 + (55 - zlen m) mod 64)) with (S (Z.to_nat ((55 - zlen m) mod 64))) by lia.
  cbn [take]. f_equal. rewrite take_replicate. f_equal. lia.
Qed.
End Facts.

Module Digest.


End Digest.

(** The test suite of RFC 1321 with 32-bit words ... *)
Definition hex (l : list Z) : list Z := concat (map (hex_pad 2) l).
Example md5_empty_32 : hex (md5 32 (zrep 64 0) []) = zs "d41d8cd98f00b204e9800998ecf8427e".
Proof. vm_compute. reflexivity. Qed.
Example md5_abc_32 : hex (md5 32 (zrep 64 0) [zs "abc"]) = zs "900150983cd24fb0d6963f7d28e17f72".
Proof. vm_compute. reflexivity. Qed.
Example md5_digits_32 :
  hex (md5 32 (zrep 64 0) [zs "1234567890123456789012345678901234567890";
                           zs "1234567890123456789012345678901234567890"])
  = zs "57edf4a22be3c955ac49da2e2107b67a".
Proof. vm_compute. reflexivity. Qed.

(** ... and what the LP64 build computes for "abc": not its MD5. *)
Example md5_abc_64 : hex (md5 64 (zrep 64 0) [zs "abc"]) <> zs "900150983cd24fb0d6963f7d28e17f72".
Proof. vm_compute. discriminate. Qed.
