(* ===== verification/Uuid.v ===== *)
(** * UUIDs

    [upnp/src/uuid/uuid.c] and [sysdep.c].  The generator of version 1 UUIDs keeps
    its state in static variables; they are the record [uuid_static].  The readings
    of the clock ([gettimeofday], as seconds and microseconds) are a list the
    operations consume: a generator that runs too fast for the clock reads it again
    and again, and [None] is a list used up before it has moved on.  [rand] is an
    input; the seed it gets is not modelled.  The mutex makes [uuid_create] one step.
    Structures are little-endian in memory (x86-64). *)

From S2P Require Import Prelude CLib Md5.
From Stdlib Require Import Sorted.
#[local] Open Scope Z_scope.

Record uuid_upnp := Uuid {
  time_low : Z;
  time_mid : Z;
  time_hi_and_version : Z;
  clock_seq_hi_and_reserved : Z;
  clock_seq_low : Z;
  node : list Z
}.

(** ** Version 1 *)

Definition UUIDS_PER_TICK : Z := 1024.

Record uuid_state := UState { ts : Z; st_node : list Z; cs : Z }.

(** The static variables of the two files. *)
Record uuid_static := Static {
  st : uuid_state;
  stateInited : bool;
  next_save : Z;
  time_last : Z;
  uuids_this_tick : Z;
  tick_inited : bool;
  rand_inited : bool;
  saved_node : list Z;
  node_inited : bool
}.
Definition static0 : uuid_static :=
  Static (UState 0 (zrep 6 0) 0) false 0 0 0 false false (zrep 6 0) false.

(** What the clock is read as: seconds and microseconds. *)
Definition reading : Type := Z * Z.

Definition get_system_time (tp : reading) : Z :=
  u64 (tp.1 * 10000000 + tp.2 * 10 + 0x01B21DD213814000).

(** A number in memory. *)
Fixpoint le_bytes (n : nat) (v : Z) : list Z :=
  match n with O => [] | S n => v mod 256 :: le_bytes n (v / 256) end.

(** [sizeof (randomness)]: the time, the host name in 257 bytes, 7 of padding. *)
Definition get_random_info (tp : reading) (hostname : list Z) : list Z :=
  let r := le_bytes 8 (u64 tp.1) ++ le_bytes 8 (u64 tp.2)
           ++ ztake 264 (ztake 256 hostname ++ zrep 264 0) in
  md5 64 (zrep 64 0) [r].

(** The second component are the readings that are left. *)
Definition get_ieee_node_identifier (hostname : list Z) (rs : list reading) (s : uuid_static)
  : option (list Z * list reading * uuid_static) :=
  if node_inited s then Some (saved_node s, rs, s)
  else
    match rs with
    | [] => None
    | tp :: rs =>
        let seed := get_random_info tp hostname in
        let seed := zset seed 0 (Z.lor (zget seed 0) 0x80) in
        let n := ztake 6 seed in
        Some (n, rs, Static (st s) (stateInited s) (next_save s) (time_last s) (uuids_this_tick s)
                            (tick_inited s) (rand_inited s) n true)
    end.

(** The loop of [get_current_time]: the reading it ends with and the count. *)
Fixpoint time_loop (rs : list reading) (last tick : Z) : option (Z * Z * list reading) :=
  match rs with
  | [] => None
  | tp :: rs =>
      let time_now := get_system_time tp in
      if negb (last =? time_now) then Some (time_now, 0, rs)
      else if tick <? UUIDS_PER_TICK then Some (time_now, tick + 1, rs)
      else (* going too fast for our clock; spin *) time_loop rs last tick
  end.
Definition get_current_time (rs : list reading) (s : uuid_static)
  : option (Z * list reading * uuid_static) :=
  let tick := if tick_inited s then uuids_this_tick s else UUIDS_PER_TICK in
  '(time_now, tick, rs) ← time_loop rs (time_last s) tick;
  let timestamp := u64 (time_now + tick) in
  Some (timestamp, rs, Static (st s) (stateInited s) (next_save s) timestamp tick true
                              (rand_inited s) (saved_node s) (node_inited s)).

Definition read_state (s : uuid_static) : option (Z * Z * list Z) :=
  if stateInited s then Some (cs (st s), ts (st s), st_node (st s)) else None.

Definition write_state (clockseq timestamp : Z) (n : list Z) (s : uuid_static) : uuid_static :=
  let next := if stateInited s then next_save s else timestamp in
  let next := if next <=? timestamp then u64 (timestamp + 10 * 10 * 1000 * 1000) else next in
  Static (UState timestamp n clockseq) true next (time_last s) (uuids_this_tick s) (tick_inited s)
         (rand_inited s) (saved_node s) (node_inited s).

(** [rnd]: what [rand] returns. *)
Definition true_random (rnd : Z) (rs : list reading) (s : uuid_static)
  : option (Z * list reading * uuid_static) :=
  if rand_inited s then Some (u16 rnd, rs, s)
  else
    match rs with
    | [] => None
    | _ :: rs =>
        Some (u16 rnd, rs, Static (st s) (stateInited s) (next_save s) (time_last s)
                (uuids_this_tick s) (tick_inited s) true (saved_node s) (node_inited s))
    end.

Definition format_uuid_v1 (clock_seq timestamp : Z) (n : list Z) : uuid_upnp :=
  Uuid (u32 (Z.land timestamp 0xFFFFFFFF))
       (u16 (Z.land (Z.shiftr timestamp 32) 0xFFFF))
       (Z.lor (u16 (Z.land (Z.shiftr timestamp 48) 0x0FFF)) (Z.shiftl 1 12))
       (Z.lor (u8 (Z.shiftr (Z.land clock_seq 0x3F00) 8)) 0x80)
       (u8 (Z.land clock_seq 0xFF))
       n.

(** The environment of a call: the host name, the readings of the clock, [rand]. *)
Record uuid_env := UEnv { hostname : list Z; readings : list reading; rnd : Z }.

Definition uuid_create (e : uuid_env) (s : uuid_static) : option (uuid_upnp * uuid_static) :=
  '(timestamp, rs, s) ← get_current_time (readings e) s;
  '(n, rs, s) ← get_ieee_node_identifier (hostname e) rs s;
  '(clockseq, s) ←
    match read_state s with
    | Some (clockseq, last_time, last_node) =>
        if bool_decide (n = last_node)
        then Some (if timestamp <? last_time then u16 (clockseq + 1) else clockseq, s)
        else '(c, _, s) ← true_random (rnd e) rs s; Some (c, s)
    | None => '(c, _, s) ← true_random (rnd e) rs s; Some (c, s)
    end;
  Some (format_uuid_v1 clockseq timestamp n, write_state clockseq timestamp n s).

(** [sprintf] with "%8.8x-%4.4x-%4.4x-%2.2x%2.2x-%2.2x...%2.2x". *)
Definition uuid_unpack (u : uuid_upnp) : list Z :=
  hex_pad 8 (time_low u) ++ MINUS :: hex_pad 4 (time_mid u)
  ++ MINUS :: hex_pad 4 (time_hi_and_version u)
  ++ MINUS :: hex_pad 2 (clock_seq_hi_and_reserved u) ++ hex_pad 2 (clock_seq_low u)
  ++ MINUS :: concat (map (hex_pad 2) (node u)).

(** ** Version 3 *)

Definition be (l : list Z) : Z := fold_left (fun a b => a * 256 + b) l 0.

(** The hash, copied over the structure, then converted from network byte order. *)
Definition format_uuid_v3 (hash : list Z) : uuid_upnp :=
  Uuid (be (zsub hash 0 4)) (be (zsub hash 4 2))
       (Z.lor (Z.land (be (zsub hash 6 2)) 0x0FFF) (Z.shiftl 3 12))
       (Z.lor (Z.land (zget hash 8) 0x3F) 0x80)
       (zget hash 9) (zsub hash 10 6).

(** The structure in memory with its numbers in network byte order. *)
Definition net_bytes (u : uuid_upnp) : list Z :=
  rev (le_bytes 4 (time_low u)) ++ rev (le_bytes 2 (time_mid u))
  ++ rev (le_bytes 2 (time_hi_and_version u))
  ++ [clock_seq_hi_and_reserved u; clock_seq_low u] ++ node u.

(** [buf]: the buffer of the uninitialised context. *)
Definition uuid_create_from_name (buf : list Z) (nsid : uuid_upnp) (name : list Z) : uuid_upnp :=
  format_uuid_v3 (md5 64 buf [net_bytes nsid; name]).

(** ** Comparison *)

Fixpoint node_compare (n : nat) (a b : list Z) : Z :=
  match n, a, b with
  | S n, x :: a, y :: b => if x <? y then -1 else if y <? x then 1 else node_compare n a b
  | _, _, _ => 0
  end.
Definition check (f1 f2 k : Z) : Z := if negb (f1 =? f2) then (if f1 <? f2 then -1 else 1) else k.
Definition uuid_compare (u1 u2 : uuid_upnp) : Z :=
  check (time_low u1) (time_low u2)
  (check (time_mid u1) (time_mid u2)
  (check (time_hi_and_version u1) (time_hi_and_version u2)
  (check (clock_seq_hi_and_reserved u1) (clock_seq_hi_and_reserved u2)
  (check (clock_seq_low u1) (clock_seq_low u2)
   (node_compare 6 (node u1) (node u2)))))).

(** A run of the generator: one call after the other. *)
Fixpoint uuid_run (es : list uuid_env) (s : uuid_static) : option (list uuid_upnp * uuid_static) :=
  match es with
  | [] => Some ([], s)
  | e :: es =>
      '(u, s) ← uuid_create e s;
      '(us, s) ← uuid_run es s;
      Some (u :: us, s)
  end.

(** ** The text determines the UUID *)

Lemma hex_digit_inj a b : 0 <= a < 16 -> 0 <= b < 16 -> hex_digit a = hex_digit b -> a = b.
Proof. unfold hex_digit. intros. destruct (Z.ltb_spec a 10), (Z.ltb_spec b 10); lia. Qed.

Lemma length_hex_pad w v : length (hex_pad w v) = w.
Proof. revert v. induction w as [|w IH]; intros v; [done|]. cbn. rewrite length_app, IH. cbn. lia. Qed.

Lemma hex_pad_inj (w : nat) a b :
  0 <= a < 16 ^ Z.of_nat w -> 0 <= b < 16 ^ Z.of_nat w -> hex_pad w a = hex_pad w b -> a = b.
Proof.
  revert a b. induction w as [|w IH]; intros a b Ha Hb; cbn [hex_pad]; [cbn in *; lia|].
  replace (Z.of_nat (S w)) with (Z.of_nat w + 1) in * by lia.
  rewrite Z.pow_add_r, Z.pow_1_r in * by lia. intros E. apply app_inj_2 in E as [E1 E2]; [|done].
  injection E2 as E2.
  apply IH in E1; try (split; [apply Z.div_pos; lia|apply Z.div_lt_upper_bound; lia]).
  apply hex_digit_inj in E2; try (apply Z.mod_pos_bound; lia).
  rewrite (Z.div_mod a 16), (Z.div_mod b 16) by lia. by rewrite E1, E2.
Qed.

(** The parts of a version 1 UUID and what they keep. *)
Definition v1_parts (clock_seq timestamp : Z) : list Z :=
  [timestamp mod 2 ^ 32; timestamp / 2 ^ 32 mod 2 ^ 16; timestamp / 2 ^ 48 mod 2 ^ 12;
   clock_seq / 2 ^ 8 mod 2 ^ 6; clock_seq mod 2 ^ 8].

Lemma lor_high v k : 0 <= k -> 0 <= v < 2 ^ k -> Z.lor v (2 ^ k) = v + 2 ^ k.
Proof.
  intros Hk Hv. pose proof (Z.add_lor_land v (2 ^ k)) as E.
  assert (Z.land v (2 ^ k) = 0); [|lia].
  apply Z.bits_inj'. intros j Hj. rewrite Z.land_spec, Z.bits_0, Z.pow2_bits_eqb by done.
  destruct (Z.eqb_spec k j) as [->|]; [|by rewrite andb_false_r].
  rewrite andb_true_r. rewrite <- (Z.mod_small v (2 ^ j)) by done.
  by apply Z.mod_pow2_bits_high.
Qed.

Lemma land_mod z k m : 0 <= k -> m = 2 ^ k - 1 -> Z.land z m = z mod 2 ^ k.
Proof. intros Hk ->. rewrite <- Z.land_ones by done. f_equal. rewrite Z.ones_equiv. lia. Qed.

Lemma format_uuid_v1_parts c t n :
  0 <= t -> 0 <= c ->
  format_uuid_v1 c t n
  = match v1_parts c t with
    | [a; b; h; r; l] => Uuid a b (h + 2 ^ 12) (r + 2 ^ 7) l n
    | _ => Uuid 0 0 0 0 0 []
    end.
Proof.
  intros Ht Hc. unfold format_uuid_v1, v1_parts, u32, u16, u8.
  rewrite (land_mod t 32), (land_mod (Z.shiftr t 32) 16), (land_mod (Z.shiftr t 48) 12), (land_mod c 8 0xFF)
    by (try reflexivity; lia).
  rewrite !Z.shiftr_div_pow2 by lia. rewrite !Z.mod_mod by lia.
  assert (Hb : 0 <= t / 2 ^ 48 mod 2 ^ 12 < 2 ^ 12) by (apply Z.mod_pos_bound; lia).
  rewrite (Z.mod_small (t / 2 ^ 48 mod 2 ^ 12)) by lia.
  change (Z.shiftl 1 12) with (2 ^ 12). rewrite lor_high by lia.
  assert (E : Z.land c 0x3F00 / 2 ^ 8 = c / 2 ^ 8 mod 2 ^ 6).
  { rewrite <- !Z.shiftr_div_pow2, Z.shiftr_land by lia. change (Z.shiftr 0x3F00 8) with 63.
    by apply land_mod. }
  rewrite E. assert (Hr : 0 <= c / 2 ^ 8 mod 2 ^ 6 < 2 ^ 6) by (apply Z.mod_pos_bound; lia).
  rewrite (Z.mod_small (c / 2 ^ 8 mod 2 ^ 6)) by lia. change 0x80 with (2 ^ 7).
  rewrite lor_high by lia. done.
Qed.

Lemma v1_unpack_inj c t c' t' n :
  0 <= t < 2 ^ 60 -> 0 <= t' < 2 ^ 60 -> 0 <= c -> 0 <= c' ->
  uuid_unpack (format_uuid_v1 c t n) = uuid_unpack (format_uuid_v1 c' t' n) ->
  t = t' /\ c mod 2 ^ 14 = c' mod 2 ^ 14.
Proof.
  intros Ht Ht' Hc Hc'. rewrite !format_uuid_v1_parts by lia. unfold v1_parts, uuid_unpack.
  cbn [time_low time_mid time_hi_and_version clock_seq_hi_and_reserved clock_seq_low node].
  assert (HB : forall z k, 0 <= k -> 0 <= z mod 2 ^ k < 2 ^ k)
    by (intros z k Hk; apply Z.mod_pos_bound; lia).
  intros E. apply app_inj_1 in E as [E1 E]; [|by rewrite !length_hex_pad].
  apply (f_equal tail) in E. cbn [tail] in E. apply app_inj_1 in E as [E2 E]; [|by rewrite !length_hex_pad].
  apply (f_equal tail) in E. cbn [tail] in E. apply app_inj_1 in E as [E3 E]; [|by rewrite !length_hex_pad].
  apply (f_equal tail) in E. cbn [tail] in E. apply app_inj_1 in E as [E4 E]; [|by rewrite !length_hex_pad].
  apply app_inj_1 in E as [E5 _]; [|by rewrite !length_hex_pad].
  apply hex_pad_inj in E1; [|apply (HB _ 32); lia|apply (HB _ 32); lia].
  apply hex_pad_inj in E2; [|apply (HB _ 16); lia|apply (HB _ 16); lia].
  apply hex_pad_inj in E3;
    [|pose proof (HB (t / 2 ^ 48) 12); cbn; lia|pose proof (HB (t' / 2 ^ 48) 12); cbn; lia].
  apply hex_pad_inj in E4;
    [|pose proof (HB (c / 2 ^ 8) 6); cbn; lia|pose proof (HB (c' / 2 ^ 8) 6); cbn; lia].
  apply hex_pad_inj in E5; [|apply (HB _ 8); lia|apply (HB _ 8); lia].
  assert (Hsplit : forall z, 0 <= z < 2 ^ 60 ->
    z = z mod 2 ^ 32 + 2 ^ 32 * (z / 2 ^ 32 mod 2 ^ 16) + 2 ^ 48 * (z / 2 ^ 48 mod 2 ^ 12)).
  { intros z Hz. rewrite (Z.mod_small (z / 2 ^ 48)).
    2: { split; [apply Z.div_pos; lia|apply Z.div_lt_upper_bound; lia]. }
    change (2 ^ 48) with (2 ^ 32 * 2 ^ 16). rewrite <- Z.div_div by lia.
    pose proof (Z.div_mod z (2 ^ 32) ltac:(lia)). pose proof (Z.div_mod (z / 2 ^ 32) (2 ^ 16) ltac:(lia)). lia. }
  split.
  - rewrite (Hsplit t Ht), (Hsplit t' Ht'). lia.
  - change (2 ^ 14) with (2 ^ 8 * 2 ^ 6). rewrite !Z.rem_mul_r by lia. lia.
Qed.

(** ** Uniqueness *)

(** Readings before the year 5236, when 60 bits are used up. *)
Definition calm (e : uuid_env) : Prop :=
  Forall (fun tp => get_system_time tp < 2 ^ 60 - UUIDS_PER_TICK) (readings e).

Lemma time_loop_spec rs last tick t k rs' :
  time_loop rs last tick = Some (t, k, rs') ->
  (exists tp, tp ∈ rs /\ t = get_system_time tp)
  /\ (t <> last /\ k = 0 \/ t = last /\ k = tick + 1 /\ tick < UUIDS_PER_TICK).
Proof.
  induction rs as [|tp rs IH]; cbn [time_loop]; [done|].
  destruct (Z.eqb_spec last (get_system_time tp)) as [E|E]; cbn [negb].
  - destruct (Z.ltb_spec tick UUIDS_PER_TICK).
    + intros [= <- <- <-]. split; [exists tp; split; [by left|done]|]. right. by rewrite E.
    + intros Hl. destruct (IH Hl) as [(tp' & Hi & ->) HH]. split; [|done].
      exists tp'. split; [by right|done].
  - intros [= <- <- <-]. split; [exists tp; split; [by left|done]|]. left. split; [congruence|done].
Qed.

Lemma get_current_time_spec e s t rs s' :
  calm e -> 0 <= uuids_this_tick s ->
  get_current_time (readings e) s = Some (t, rs, s') ->
  (t = time_last s -> False) /\ 0 <= t < 2 ^ 60
  /\ s' = Static (st s) (stateInited s) (next_save s) t (uuids_this_tick s') true
                 (rand_inited s) (saved_node s) (node_inited s)
  /\ 0 <= uuids_this_tick s'.
Proof.
  intros Hc Ht. unfold get_current_time.
  destruct (time_loop _ _ _) as [[[tn k] rs']|] eqn:E; cbn [mbind option_bind]; [|done].
  apply time_loop_spec in E as [(tp & Hi & ->) Hk]. intros [= <- <- <-]. cbn [uuids_this_tick].
  unfold calm in Hc. rewrite Forall_forall in Hc. specialize (Hc tp Hi). cbn in Hc.
  assert (H0 : 0 <= get_system_time tp) by apply u64_range.
  change UUIDS_PER_TICK with 1024 in *.
  destruct Hk as [[Hne ->]|(He & -> & Hlt)].
  - rewrite u64_small by lia. split_and!; try done; lia.
  - assert (0 <= (if tick_inited s then uuids_this_tick s else 1024) < 1024) as Hb
      by (destruct (tick_inited s); lia).
    set (k := if tick_inited s then _ else _) in *.
    rewrite u64_small by lia. split_and!; try done; lia.
Qed.

(** The state after a call whose UUID had the timestamp [t], [k] steps of the clock
    sequence after [c0]; the node is [n]. *)
Record gen_inv (c0 : Z) (n : list Z) (k t : Z) (s : uuid_static) : Prop := {
  gi_state : stateInited s = true;
  gi_node : node_inited s = true;
  gi_saved : saved_node s = n;
  gi_st : st s = UState t n (u16 (c0 + k));
  gi_last : time_last s = t;
  gi_tick : 0 <= uuids_this_tick s
}.

Definition later (p q : Z * Z) : Prop := q.1 = p.1 /\ p.2 < q.2 \/ p.1 < q.1.
Definition v1_of (c0 : Z) (n : list Z) (p : Z * Z) : uuid_upnp :=
  format_uuid_v1 (u16 (c0 + p.1)) p.2 n.

Lemma u16_succ z : u16 (u16 z + 1) = u16 (z + 1).
Proof. unfold u16. by rewrite Z.add_mod_idemp_l by lia. Qed.

Lemma uuid_create_next c0 n k t s e u s' :
  gen_inv c0 n k t s -> calm e -> uuid_create e s = Some (u, s') ->
  exists k' t', u = v1_of c0 n (k', t') /\ gen_inv c0 n k' t' s'
    /\ later (k, t) (k', t') /\ k <= k' <= k + 1 /\ 0 <= t' < 2 ^ 60.
Proof.
  intros [G1 G2 G3 G4 G5 G6] Hc. unfold uuid_create.
  destruct (get_current_time _ _) as [[[t' rs] s1]|] eqn:E1; cbn [mbind option_bind]; [|done].
  destruct (get_current_time_spec _ _ _ _ _ Hc G6 E1) as (Hne & Hb & Es1 & Hk1).
  set (k1 := uuids_this_tick s1) in *. rewrite Es1.
  unfold get_ieee_node_identifier. cbn [node_inited]. rewrite G2. cbn [mbind option_bind saved_node].
  unfold read_state. cbn [stateInited st]. rewrite G1, G4, G3. cbn [cs ts st_node].
  rewrite bool_decide_eq_true_2 by done. cbn [mbind option_bind].
  rewrite G5 in Hne. rewrite u16_succ. intros [= <- <-].
  destruct (Z.ltb_spec t' t) as [Hlt|Hge].
  - exists (k + 1), t'. split; [unfold v1_of; cbn [fst snd]; do 2 f_equal; lia|]. split; [|split].
    + split; cbn; try done; try (unfold write_state; cbn; by rewrite ?Z.add_assoc).
    + right. cbn. lia.
    + lia.
  - exists k, t'. split; [done|]. split; [|split].
    + by split.
    + left. cbn. split; [done|]. assert (t' <> t) by (intros ->; by apply Hne). lia.
    + lia.
Qed.

Lemma uuid_run_spec c0 n k t s es us s' :
  gen_inv c0 n k t s -> Forall calm es -> uuid_run es s = Some (us, s') ->
  exists g, us = map (v1_of c0 n) g
    /\ StronglySorted later ((k, t) :: g)
    /\ Forall (fun p => k <= p.1 <= k + zlen es /\ 0 <= p.2 < 2 ^ 60) g.
Proof.
  revert k t s us. induction es as [|e es IH]; intros k t s us Hg Hc; cbn [uuid_run].
  - intros [= <- <-]. exists []. split; [done|]. split; [|constructor]. constructor; [apply SSorted_nil|constructor].
  - apply Forall_cons in Hc as [Hce Hces].
    destruct (uuid_create e s) as [[u s1]|] eqn:E1; cbn [mbind option_bind]; [|done].
    destruct (uuid_run es s1) as [[us1 s2]|] eqn:E2; cbn [mbind option_bind]; [|done].
    intros [= <- <-].
    destruct (uuid_create_next _ _ _ _ _ _ _ _ Hg Hce E1) as (k' & t' & -> & Hg' & Hl & Hk & Ht).
    destruct (IH _ _ _ _ Hg' Hces E2) as (g & -> & Hs & Hf).
    exists ((k', t') :: g). split; [done|].
    apply StronglySorted_inv in Hs as Hs2. destruct Hs2 as [Hs1 Hs2]. rewrite zlen_cons.
    pose proof (zlen_nonneg es). split.
    + constructor; [done|]. constructor; [done|]. eapply Forall_impl; [exact Hs2|].
      unfold later in *. cbn in *. lia.
    + constructor; [cbn; lia|]. eapply Forall_impl; [exact Hf|]. cbn. lia.
Qed.

Lemma length_md5 W buf parts : length (md5 W buf parts) = 16%nat.
Proof.
  unfold md5, MD5Final. cbn [fst]. unfold quad_words.
  destruct (state _) as [[[a b] c] d]. done.
Qed.

Lemma uuid_create_first e u s' :
  calm e -> uuid_create e static0 = Some (u, s') ->
  exists c0 n t, u = v1_of c0 n (0, t) /\ gen_inv c0 n 0 t s' /\ 0 <= t < 2 ^ 60 /\ length n = 6%nat.
Proof.
  intros Hc. unfold uuid_create.
  destruct (get_current_time _ _) as [[[t rs] s1]|] eqn:E1; cbn [mbind option_bind]; [|done].
  destruct (get_current_time_spec e static0 _ _ _ Hc ltac:(cbn; lia) E1) as (_ & Hb & Es1 & Hk1).
  set (k1 := uuids_this_tick s1) in *. rewrite Es1.
  unfold get_ieee_node_identifier. cbn [node_inited static0].
  destruct rs as [|tp rs]; [done|]. cbn [mbind option_bind].
  set (n := ztake 6 _). unfold read_state. cbn [stateInited static0].
  unfold true_random. cbn [rand_inited static0]. destruct rs as [|tp' rs]; [done|].
  cbn [mbind option_bind]. intros [= <- <-].
  exists (rnd e), n, t. split; [unfold v1_of; cbn [fst snd]; by rewrite Z.add_0_r|].
  split; [|split; [done|]].
  - split; cbn; try done. by rewrite Z.add_0_r.
  - unfold n, ztake. rewrite length_take. unfold zset.
    change (0 <? 0) with false. cbn match. rewrite length_insert.
    unfold get_random_info. by rewrite length_md5.
Qed.

Lemma length_uuid_unpack c0 n p : length n = 6%nat -> length (uuid_unpack (v1_of c0 n p)) = 36%nat.
Proof.
  intros Hn. do 6 (destruct n as [|? n]; [done|]). destruct n; [|done]. done.
Qed.

Lemma later_neq c0 n k t g :
  StronglySorted later g -> Forall (fun p => k <= p.1 < k + 2 ^ 14 /\ 0 <= p.2 < t) g -> t <= 2 ^ 60 ->
  NoDup (map (fun p => uuid_unpack (v1_of c0 n p)) g).
Proof.
  intros Hs Hf Ht. induction Hs as [|p g Hs IH Hl]; cbn [map]; [constructor|].
  apply Forall_cons in Hf as [[Hk Hp] Hf]. constructor; [|by apply IH].
  intros Hin. apply list_elem_of_fmap in Hin as (q & Eq & Hq).
  rewrite Forall_forall in Hl, Hf. specialize (Hl q Hq). destruct (Hf q Hq) as [Hkq Hpq].
  apply v1_unpack_inj in Eq as [Et Ec]; [|lia|lia|apply Z.mod_pos_bound; lia|apply Z.mod_pos_bound; lia].
  destruct Hl as [[H1 H2]|H1]; [lia|].
  assert (Hu : forall z, u16 z mod 2 ^ 14 = z mod 2 ^ 14).
  { intros z. unfold u16. change (2 ^ 16) with (2 ^ 14 * 4). rewrite Z.rem_mul_r by lia.
    rewrite (Z.mul_comm (2 ^ 14)), Z.mod_add by lia. by rewrite Z.mod_mod by lia. }
  rewrite !Hu in Ec. set (a := c0 + p.1) in *.
  replace (c0 + q.1) with (a + (q.1 - p.1)) in Ec by lia.
  pose proof (Z.div_mod a (2 ^ 14) ltac:(lia)). pose proof (Z.div_mod (a + (q.1 - p.1)) (2 ^ 14) ltac:(lia)).
  nia.
Qed.

Module Generator.

(** C37. UUIDs of version 1 are unique: in a run of at most 2^14 calls from the start
    of the program, whatever the clock reads (it may stand still or go backwards, and
    two calls may even get the same timestamp), the texts of all UUIDs are different,
    and each fills exactly 36 characters. *)
Theorem uuid_unique es us s :
  uuid_run es static0 = Some (us, s) -> Forall calm es -> zlen es <= 2 ^ 14 ->
  NoDup (map uuid_unpack us) /\ Forall (fun u => length (uuid_unpack u) = 36%nat) us.
Proof.
  destruct es as [|e es]; cbn [uuid_run].
  { intros [= <- <-] _ _. split; constructor. }
  intros Hr Hc Hl. apply Forall_cons in Hc as [Hce Hces]. rewrite zlen_cons in Hl. revert Hr.
  destruct (uuid_create e static0) as [[u s1]|] eqn:E1; cbn [mbind option_bind]; [|done].
  destruct (uuid_run es s1) as [[us1 s2]|] eqn:E2; cbn [mbind option_bind]; [|done].
  intros [= <- <-].
  destruct (uuid_create_first _ _ _ Hce E1) as (c0 & n & t & -> & Hg & Ht & Hn).
  destruct (uuid_run_spec _ _ _ _ _ _ _ _ Hg Hces E2) as (g & -> & Hs & Hf).
  change (v1_of c0 n (0, t) :: map (v1_of c0 n) g) with (map (v1_of c0 n) ((0, t) :: g)).
  pose proof (zlen_nonneg es). split.
  - rewrite map_map. apply (later_neq c0 n 0 (2 ^ 60)); [done| |lia].
    constructor; [cbn; lia|]. eapply Forall_impl; [exact Hf|]. cbn. lia.
  - apply Forall_forall. intros u Hu. apply list_elem_of_fmap in Hu as (p & -> & _).
    by apply length_uuid_unpack.
Qed.

(** Four calls while the clock stands still, one after it has gone back. *)
Definition still : uuid_env := UEnv [] (replicate 3 (1000, 5)) 77.
Definition back : uuid_env := UEnv [] [(999, 0)] 0.
Definition calls : list uuid_env := [still; still; still; still; back].

Lemma uuid_unique_witness :
  exists us s, uuid_run calls static0 = Some (us, s) /\ length us = 5%nat /\ NoDup (map uuid_unpack us).
Proof.
  destruct (uuid_run calls static0) as [[us s]|] eqn:E.
  - exists us, s. split; [exact eq_refl|]. split.
    + assert (Hl : option_map (fun r => length r.1) (uuid_run calls static0) = Some 5%nat)
        by (vm_compute; reflexivity).
      rewrite E in Hl. injection Hl as Hl. exact Hl.
    + apply (uuid_unique calls us s E); [|vm_compute; discriminate].
      repeat constructor.
  - exfalso. assert (Hs : match uuid_run calls static0 with Some _ => true | None => false end = true)
      by (vm_compute; reflexivity).
    rewrite E in Hs. discriminate Hs.
Defined.
End Generator.

(** While the clock stands still the timestamps alternate between two values: the
    third UUID repeats the timestamp of the first, and only its clock sequence
    differs.  ([time_last] is set to the timestamp, not to the reading.) *)
Example timestamps_repeat :
  option_map (fun r => map (fun u => (time_low u, clock_seq_low u)) r.1)
             (uuid_run Generator.calls static0)
  = Some [(0x678d2432, 77); (0x678d2433, 77); (0x678d2432, 78); (0x678d2433, 78); (0x66f48d80, 79)].
Proof. vm_compute. reflexivity. Qed.

Lemma check_zero a b k : check a b k = 0 <-> a = b /\ k = 0.
Proof. unfold check. destruct (Z.eqb_spec a b); cbn [negb]; [tauto|]. destruct (a <? b); lia. Qed.

Lemma node_compare_zero n a b :
  length a = n -> length b = n -> node_compare n a b = 0 <-> a = b.
Proof.
  revert a b. induction n as [|n IH]; intros [|x a] [|y b] Ha Hb; try done. cbn [node_compare].
  injection Ha as Ha. injection Hb as Hb. specialize (IH a b Ha Hb).
  destruct (Z.ltb_spec x y), (Z.ltb_spec y x); split; intros E; try lia; try (injection E as -> ->; lia).
  - apply IH in E as ->. f_equal. lia.
  - injection E as -> ->. by apply IH.
Qed.

(** [uuid_compare] answers 0 exactly on equal UUIDs. *)
Lemma uuid_compare_zero u v :
  length (node u) = 6%nat -> length (node v) = 6%nat -> uuid_compare u v = 0 <-> u = v.
Proof.
  intros Hu Hv. unfold uuid_compare. rewrite !check_zero, node_compare_zero by done.
  destruct u, v; cbn. split; [intros (-> & -> & -> & -> & -> & ->); done|by intros [= -> -> -> -> -> ->]].
Qed.
