(* ===== verification/TimerIface.v ===== *)
(** * What the timer thread promises to its clients

    A client schedules and removes jobs and sees what the worker hands over; it does
    not see the list and the heap behind.  [TimerIface] states that against the queue
    of events, and the timer thread of [TimerThread.v] is an instance. *)

From S2P Require Import Prelude LinkedList ListFacts ThreadPool TimerThread TimerFacts.
#[local] Open Scope Z_scope.

Class TimerIface (T : Type) := {
  (** [TimerThreadSchedule (timer, timeout, REL_SEC, job, SHORT_TERM, &id)] at a time. *)
  tm_schedule : Z -> Z -> ThreadPoolJob -> T -> option (Z * Z * T);
  tm_remove : Z -> T -> option (Z * option ThreadPoolJob * T);
  tm_worker : (nat -> tick) -> T -> option (T * list handing);
  (** the queue, and the next id *)
  tm_holds : T -> list TimerEvent -> Z -> Prop;
  tm_schedule_ok now timeout j t q n :
    tm_holds t q n ->
    exists rc id t' n', tm_schedule now timeout j t = Some (rc, id, t')
      /\ (rc <> 0 /\ tm_holds t' q n' /\ (n' = n \/ n' = s32 (n + 1))
          \/ rc = 0 /\ id = n /\ n' = s32 (n + 1)
             /\ tm_holds t' (insert_event (Event j (CalculateEventTime now timeout REL_SEC)
                                                 SHORT_TERM n) q) n');
  tm_remove_ok id t q n :
    tm_holds t q n ->
    exists rc out t' q', tm_remove id t = Some (rc, out, t') /\ tm_holds t' q' n
      /\ match remove_event id q with
         | Some (e, r) => rc = 0 /\ out = Some (job e) /\ q' = r
         | None => rc <> 0 /\ out = None /\ q' = q
         end;
  tm_worker_ok e t q n :
    tm_holds t q n ->
    exists t' q' hs, tm_worker e t = Some (t', hs) /\ tm_holds t' q' n
      /\ q = map h_event hs ++ q'
}.

(** The timer thread, while it is not shut down. *)
#[export, refine] Instance TimerIface_TimerThread `{Heap} (R : gmap Z ListNode)
  : TimerIface TimerThread := {
  tm_schedule now timeout j t := TimerThreadSchedule now timeout REL_SEC j SHORT_TERM t;
  tm_remove := TimerThreadRemove;
  tm_worker e t := '(_, t, hs, _) ← TimerThreadWorker e t; Some (t, hs);
  tm_holds t q n := holds R t q /\ lastEventId t = n /\ t_shutdown t = false
}.
Proof.
  - intros now timeout j t q n (Hh & <- & Hs).
    destruct (TimerThreadSchedule_ok R t q now timeout REL_SEC j SHORT_TERM Hh)
      as (rc & id & t' & m & E & _ & Hsd & Hm).
    exists rc, id, t', (lastEventId t'). split; [exact E|]. rewrite Hs in Hsd.
    destruct m; destruct Hm as (-> & -> & Hh' & E'); [left|left|right]; repeat split; try done;
      rewrite E'; auto.
  - intros id t q n (Hh & <- & Hs). pose proof (TimerThreadRemove_ok R t q id Hh) as HR.
    destruct (remove_event id q) as [[e r]|].
    + destruct HR as (t' & E & Hh' & El & Hsd). exists 0, (Some (job e)), t', r.
      split; [exact E|]. split; [|done]. rewrite El, Hsd. done.
    + exists INVALID_EVENT_ID, None, t, q. done.
  - intros e t q n (Hh & <- & Hs). pose proof (TimerThreadWorker_ok R e t q Hh) as HW.
    rewrite Hs in HW. destruct (fire e q) as [[[w q'] hs] cs] eqn:Ef.
    destruct HW as (t' & E & Hh' & El & Hsd). rewrite E. cbn [mbind option_bind].
    exists t', q', hs. rewrite El, Hsd. split; [done|]. split; [done|].
    by destruct (fire_ok _ _ _ _ _ _ Ef).
Defined.
