(* ===== verification/ClientTable.v ===== *)
(** * The table of subscriptions

    [upnp/src/genlib/client_table/client_table.c], [upnp_timeout.c] and the part of
    [gena_ctrlpt.c] that schedules renewals.  The subscriptions of a client are a
    singly linked list of heap objects; a renewal is a heap object too, which the
    argument of a timer job points to.  Access to an address without an object, and
    freeing one, is a fault ([None]).  An [UpnpString] in an object is the string it
    holds: its allocations succeed in this model (the code does not check them).  A
    copy made by [UpnpClientSubscription_assign] into a local object is a value. *)

From S2P Require Import Prelude CLib Membuffer Tables LinkedList ThreadPool TimerThread TimerIface.
#[local] Open Scope Z_scope.

Definition UPNP_INFINITE : Z := -1.
Definition AUTO_RENEW_TIME : Z := 10.
Definition SID_SIZE : Z := 44.
Definition GENA_SUCCESS : Z := 0.

(** [struct SClientSubscription] *)
Record ClientSubscription := Sub {
  m_renewEventId : Z;
  m_SID : list Z;
  m_actualSID : list Z;
  m_eventURL : list Z;
  m_next : Z
}.

(** [upnp_timeout] with its [Upnp_Event_Subscribe]. *)
Record upnp_timeout := Renewal {
  r_handle : Z;
  r_eventId : Z;
  r_Sid : list Z;
  r_ErrCode : Z;
  r_PublisherUrl : list Z;
  r_TimeOut : Z
}.

Definition UpnpClientSubscription_new : ClientSubscription := Sub 0 [] [] [] 0.
(** Neither the event id nor the link is copied. *)
Definition UpnpClientSubscription_assign (p : ClientSubscription) : ClientSubscription :=
  Sub (-1) (m_SID p) (m_actualSID p) (m_eventURL p) 0.

Definition UpnpClientSubscription_set_RenewEventId (n : Z) (p : ClientSubscription) : ClientSubscription :=
  Sub n (m_SID p) (m_actualSID p) (m_eventURL p) (m_next p).
Definition UpnpClientSubscription_set_SID (s : list Z) (p : ClientSubscription) : ClientSubscription :=
  Sub (m_renewEventId p) s (m_actualSID p) (m_eventURL p) (m_next p).
Definition UpnpClientSubscription_set_ActualSID (s : list Z) (p : ClientSubscription) : ClientSubscription :=
  Sub (m_renewEventId p) (m_SID p) s (m_eventURL p) (m_next p).
Definition UpnpClientSubscription_set_EventURL (s : list Z) (p : ClientSubscription) : ClientSubscription :=
  Sub (m_renewEventId p) (m_SID p) (m_actualSID p) s (m_next p).
Definition UpnpClientSubscription_set_Next (q : Z) (p : ClientSubscription) : ClientSubscription :=
  Sub (m_renewEventId p) (m_SID p) (m_actualSID p) (m_eventURL p) q.

(** The heaps of subscriptions and renewals, and the timer. *)
Record store (T : Type) := Store {
  subs : gmap Z ClientSubscription;
  renewals : gmap Z upnp_timeout;
  tm : T
}.
Arguments Store {T}. Arguments subs {T}. Arguments renewals {T}. Arguments tm {T}.

Section ClientTable.
Context `{Heap} {T : Type} `{TimerIface T}.
Implicit Types (s : store T).

Definition set_subs (h : gmap Z ClientSubscription) s : store T := Store h (renewals s) (tm s).
Definition set_renewals (h : gmap Z upnp_timeout) s : store T := Store (subs s) h (tm s).
Definition set_tm (t : T) s : store T := Store (subs s) (renewals s) t.

(** An assignment to the subscription at [p]. *)
Definition upd_sub (p : Z) (f : ClientSubscription -> ClientSubscription) s : option (store T) :=
  x ← subs s !! p; Some (set_subs (<[p := f x]> (subs s)) s).

Definition UpnpClientSubscription_delete (p : Z) s : option (store T) :=
  if p =? 0 then Some s else _ ← subs s !! p; Some (set_subs (delete p (subs s)) s).

Definition free_upnp_timeout (event : Z) s : option (store T) :=
  if event =? 0 then Some s
  else _ ← renewals s !! event; Some (set_renewals (delete event (renewals s)) s).

(** [TimerThreadRemove], and the renewal that the job held is freed. *)
Definition remove_renewal (id : Z) s : option (store T) :=
  '(rc, out, t) ← tm_remove id (tm s);
  let s := set_tm t s in
  match out with
  | Some tempJob => if rc =? 0 then free_upnp_timeout (arg tempJob) s else Some s
  | None => Some s
  end.

Definition free_client_subscription (sub : Z) s : option (store T) :=
  if sub =? 0 then Some s
  else
    x ← subs s !! sub;
    let renewEventId := m_renewEventId x in
    s ← upd_sub sub (fun x => UpnpClientSubscription_set_EventURL []
                                (UpnpClientSubscription_set_ActualSID [] x)) s;
    s ← (if negb (renewEventId =? -1) then remove_renewal renewEventId s else Some s);
    upd_sub sub (UpnpClientSubscription_set_RenewEventId (-1)) s.

Fixpoint freeClientSubList_loop (fuel : nat) (list : Z) s : option (store T) :=
  match fuel with
  | O => None
  | S f =>
      if list =? 0 then Some s
      else
        s ← free_client_subscription list s;
        x ← subs s !! list;
        s ← UpnpClientSubscription_delete list s;
        freeClientSubList_loop f (m_next x) s
  end.
Definition list_fuel s : nat := S (size (subs s)).
Definition freeClientSubList (list : Z) s : option (store T) :=
  freeClientSubList_loop (list_fuel s) list s.

(** The head of the list, afterwards, is the first result. *)
Fixpoint remove_sid_loop (fuel : nat) (head finger previous : Z) (sid : list Z) s
  : option (Z * store T) :=
  match fuel with
  | O => None
  | S f =>
      if finger =? 0 then Some (head, s)
      else
        x ← subs s !! finger;
        if bool_decide (cstr sid = cstr (m_SID x)) then
          '(head, s) ← (if negb (previous =? 0)
                        then s ← upd_sub previous (UpnpClientSubscription_set_Next (m_next x)) s;
                             Some (head, s)
                        else Some (m_next x, s));
          s ← upd_sub finger (UpnpClientSubscription_set_Next 0) s;
          s ← freeClientSubList finger s;
          Some (head, s)
        else remove_sid_loop f head (m_next x) finger sid s
  end.
Definition RemoveClientSubClientSID (head : Z) (sid : list Z) s : option (Z * store T) :=
  remove_sid_loop (list_fuel s) head head 0 sid s.

(** The first subscription from [next] on that satisfies a test, or 0. *)
Fixpoint find_sub_loop (fuel : nat) (test : ClientSubscription -> bool) (next : Z) s : option Z :=
  match fuel with
  | O => None
  | S f =>
      if next =? 0 then Some 0
      else
        x ← subs s !! next;
        if test x then Some next else find_sub_loop f test (m_next x) s
  end.
Definition GetClientSubClientSID (head : Z) (sid : list Z) s : option Z :=
  find_sub_loop (list_fuel s) (fun x => bool_decide (cstr (m_SID x) = cstr sid)) head s.

(** [memcmp] of the token with the string and its terminator: every prefix of the SID
    matches. *)
Definition actual_sid_match (sid : list Z) (x : ClientSubscription) : bool :=
  memcmp (m_actualSID x ++ [0]) sid (zlen sid) =? 0.
Definition GetClientSubActualSID (head : Z) (sid : list Z) s : option Z :=
  find_sub_loop (list_fuel s) (actual_sid_match sid) head s.

(** ** Renewals *)

(** The code addresses of [GenaAutoRenewSubscription] and [free_upnp_timeout]. *)
Definition fn_GenaAutoRenewSubscription : Z := 1.
Definition fn_free_upnp_timeout : Z := 2.
Definition sizeof_upnp_timeout : Z := 24.

Definition zero_job : ThreadPoolJob := Job 0 0 0 (TV 0 0) 0 0.
Definition renew_job (event : Z) : ThreadPoolJob :=
  let job := (TPJobInit zero_job fn_GenaAutoRenewSubscription event).2 in
  let job := (TPJobSetFreeFunction job fn_free_upnp_timeout).2 in
  (TPJobSetPriority job MED_PRIORITY).2.

(** [struct_ok]: the first [malloc] succeeds; [now]: the clock. *)
Definition ScheduleGenaAutoRenew (struct_ok : bool) (now : Z) (client_handle TimeOut sub : Z) s
  : option (Z * store T) :=
  x ← subs s !! sub;
  if TimeOut =? UPNP_INFINITE then Some (GENA_SUCCESS, s)
  else if negb struct_ok then Some (UPNP_E_OUTOF_MEMORY, s)
  else
    match malloc (dom (renewals s)) sizeof_upnp_timeout with
    | None => Some (UPNP_E_OUTOF_MEMORY, s)
    | Some ev =>
        let r id := Renewal client_handle id (ztake (SID_SIZE - 1) (m_SID x)) 0
                            (ztake (FixedCopy.NAME_SIZE - 1) (m_eventURL x)) TimeOut in
        '(rc, id, t) ← tm_schedule now (s32 (TimeOut - AUTO_RENEW_TIME)) (renew_job ev) (tm s);
        let s := set_tm t (set_renewals (<[ev := r id]> (renewals s)) s) in
        if negb (rc =? 0) then s ← free_upnp_timeout ev s; Some (rc, s)
        else
          s ← upd_sub sub (UpnpClientSubscription_set_RenewEventId id) s;
          Some (GENA_SUCCESS, s)
    end.
End ClientTable.
