(* ===== verification/Gena.v ===== *)
(** * Event subscriptions of a control point

    [upnp/src/gena/gena_ctrlpt.c], the dispatcher of [gena_callback2.c], and from
    [upnp/src/api/upnpapi.c] the handle table, the registration of the client and the
    subscription functions, synchronous and asynchronous.

    A thread inside one of these functions is a [gthread]: its program counter
    between two sections, with its local variables.  A section runs from the
    acquisition of a lock to its release or to the next lock or network call; it is
    one step ([section]).  The two locks matter: [GlobalHndRWLock] is taken for a
    section, but one path keeps it as a reader while it waits for the other lock
    ([readers] counts those threads), and [GlobalClientSubscribeMutex] is held over a
    network call ([sub_lock]).  What the network answers, the clock, the new UUID, the
    addresses of new objects and the success of allocations are the environment
    [genv] of a section.  The search list of a handle belongs to SSDP and is left
    out.  An asynchronous call is a job of the thread pool: a thread that starts when
    the pool runs it. *)

From S2P Require Import Prelude CLib Codes Membuffer Uri Tables Scanner HttpParser LinkedList ThreadPool.
From S2P Require Import TimerThread TimerIface ClientTable.
#[local] Open Scope Z_scope.

Definition GENA_E_BAD_SID : Z := UPNP_E_INVALID_SID.
Definition GENA_E_BAD_HANDLE : Z := UPNP_E_INVALID_HANDLE.
Definition CP_MINIMUM_SUBSCRIPTION_TIME : Z := AUTO_RENEW_TIME + 5.


(** ** Messages *)

Section Messages.
Context `{Malloc, Resolver}.

(** The value of the first header with an id. *)
Definition hdr_value (m : http_message_t) (id : Z) : option membuffer :=
  i ← httpmsg_find_hdr m id; h ← headers m !! i; Some (value h).

(** The timeout in the request, as [snprintf] writes it. *)
Definition request_timeout (timeout : Z) : option Z :=
  if timeout <? 0 then None
  else if timeout <? CP_MINIMUM_SUBSCRIPTION_TIME then Some CP_MINIMUM_SUBSCRIPTION_TIME
  else Some timeout.

(** [gena_subscribe] on the result of [http_RequestAndResponse] (or of a step before
    it) and the response: result, [*timeout] and SID ([None]: left cleared). *)
Definition gena_subscribe (return_code : Z) (response : http_message_t) (timeout : Z)
  : Z * Z * option (list Z) :=
  if negb (return_code =? 0) then (return_code, timeout, None)
  else if negb (status_code response =? HTTP_OK) then (UPNP_E_SUBSCRIBE_UNACCEPTED, timeout, None)
  else
    match hdr_value response HDR_SID, hdr_value response HDR_TIMEOUT with
    | Some sid_hdr, Some timeout_hdr =>
        if (mb_length sid_hdr =? 0) || (mb_length timeout_hdr =? 0)
        then (UPNP_E_BAD_RESPONSE, timeout, None)
        else
          let '(parse_ret, outs) :=
            default (PARSE_FAILURE, [])
              (matchstr 1 (mb_block timeout_hdr) (mb_length timeout_hdr) (zs "%iSecond-%d%0")) in
          let timeout := default timeout (arg_int outs 0) in
          let sid := cstr (ztake (mb_length sid_hdr) (mb_block sid_hdr)) in
          if decide (parse_ret = PARSE_OK) then (UPNP_E_SUCCESS, timeout, Some sid)
          else if memptr_cmp_nocase (mb_block timeout_hdr) (mb_length timeout_hdr)
                    (zs "Second-infinite") =? 0
          then (UPNP_E_SUCCESS, -1, Some sid)
          else (UPNP_E_BAD_RESPONSE, timeout, None)
    | _, _ => (UPNP_E_BAD_RESPONSE, timeout, None)
    end.

Definition gena_unsubscribe (return_code : Z) (response : http_message_t) : Z :=
  if negb (return_code =? 0) then return_code
  else if negb (status_code response =? HTTP_OK) then UPNP_E_UNSUBSCRIBE_UNACCEPTED
  else 0.

(** The checks of a notification: the response code of an error, or the SID and the
    event key. *)
Definition check_notification (event : http_message_t) : Z + list Z * Z :=
  match hdr_value event HDR_SID with
  | None => inl HTTP_PRECONDITION_FAILED
  | Some sid_hdr =>
      let sid := ztake (mb_length sid_hdr) (mb_block sid_hdr) in
      match hdr_value event HDR_SEQ ≫= (fun v => matchstr 1 (mb_block v) (mb_length v) (zs "%d%0")) with
      | Some (PARSE_OK, outs) =>
          match hdr_value event HDR_NT, hdr_value event HDR_NTS with
          | Some nt_hdr, Some nts_hdr =>
              if negb (memptr_cmp (mb_block nt_hdr) (mb_length nt_hdr) (zs "upnp:event") =? 0)
                 || negb (memptr_cmp (mb_block nts_hdr) (mb_length nts_hdr) (zs "upnp:propchange") =? 0)
              then inl HTTP_PRECONDITION_FAILED
              else inr (sid, default 0 (arg_int outs 0))
          | _, _ => inl HTTP_BAD_REQUEST
          end
      | _ => inl HTTP_BAD_REQUEST
      end
  end.
End Messages.

(** ** Handles *)

Inductive Upnp_Handle_Type := HND_INVALID | HND_CLIENT | HND_DEVICE.
#[export] Instance handle_type_eq : EqDecision Upnp_Handle_Type.
Proof. solve_decision. Defined.

Record Handle_Info := HInfo {
  HType : Upnp_Handle_Type;
  Callback : Z;
  Cookie : Z;
  ClientSubList : Z
}.

Definition NUM_HANDLE : Z := 200.
Notation handle_table := (list (option Handle_Info)).
Definition HandleTable0 : handle_table := replicate (Z.to_nat NUM_HANDLE) None.

Definition handle_at (t : handle_table) (h : Z) : option Handle_Info :=
  match t !! Z.to_nat h with Some o => o | None => None end.

(** The first free handle from [i] on; handle 0 is not used. *)
Fixpoint free_handle_loop (fuel : nat) (i : Z) (t : handle_table) : Z :=
  match fuel with
  | O => i
  | S f => if (i <? NUM_HANDLE) && bool_decide (is_Some (handle_at t i))
           then free_handle_loop f (i + 1) t else i
  end.
Definition GetFreeHandle (t : handle_table) : Z :=
  let i := free_handle_loop (Z.to_nat NUM_HANDLE) 1 t in
  if i =? NUM_HANDLE then UPNP_E_OUTOF_HANDLE else i.

Definition FreeHandle (h : Z) (t : handle_table) : Z * handle_table :=
  if (h <? 1) || (NUM_HANDLE <=? h) then (UPNP_E_INVALID_HANDLE, t)
  else
    match handle_at t h with
    | None => (UPNP_E_INVALID_HANDLE, t)
    | Some _ => (UPNP_E_SUCCESS, <[Z.to_nat h := None]> t)
    end.

Definition GetHandleInfo (h : Z) (t : handle_table) : option Handle_Info :=
  if (h <? 1) || (NUM_HANDLE <=? h) then None else handle_at t h.

(** The handle when its type is [HND_CLIENT]. *)
Definition client_info (h : Z) (t : handle_table) : option Handle_Info :=
  i ← GetHandleInfo h t; if decide (HType i = HND_CLIENT) then Some i else None.

(** Assumes at most one client. *)
Definition GetClientHandleInfo (t : handle_table) : option (Z * Handle_Info) :=
  match client_info 1 t with
  | Some i => Some (1, i)
  | None => match client_info 2 t with Some i => Some (2, i) | None => None end
  end.

(** [handle_info->ClientSubList = p]. *)
Definition set_sub_list (h p : Z) (t : handle_table) : handle_table :=
  match GetHandleInfo h t with
  | Some i => <[Z.to_nat h := Some (HInfo (HType i) (Callback i) (Cookie i) p)]> t
  | None => t
  end.

(** ** Threads *)

(** Who runs a GENA function: a caller of the synchronous API, a job of the
    asynchronous one with its callback, or the renewal job with its event. *)
Inductive origin :=
| Direct
| Async (fn cookie : Z)
| Auto (event : Z).

(** Program counters: before the first section; at a lock; in the network. *)
Inductive gthread :=
| SubStart (o : origin) (h : Z) (url : list Z) (timeout : Z)
| SubBad (o : origin) (url : list Z) (timeout : Z)
| SubWait (o : origin) (h : Z) (url : list Z) (timeout : Z)
| SubNet (o : origin) (h : Z) (url : list Z) (timeout : Z)
| AutoStart (event : Z)
| RenStart (o : origin) (h : Z) (sid : list Z) (timeout : Z)
| RenNet (o : origin) (h : Z) (sid : list Z) (timeout : Z) (copy : ClientSubscription)
| AutoEnd (event : Z) (rc timeout : Z)
| UnsStart (o : origin) (h : Z) (sid : list Z)
| UnsNet (o : origin) (h : Z) (sid : list Z) (copy : ClientSubscription)
| UnregStart (h : Z)
| UnregLoop (h : Z)
| UnregNet (h : Z) (copy : ClientSubscription)
| UnregEnd (h : Z)
| NotStart (sid : list Z) (eventKey : Z)
| NotWait (sid : list Z) (eventKey : Z)
| NotHeld (sid : list Z) (eventKey : Z)
| GDone (rc : Z) (sid : list Z) (timeout : Z).

(** Events delivered to a client ([Callback (EventType, Event, Cookie)]), and
    answers to notifications. *)
Inductive event_type :=
| UPNP_EVENT_SUBSCRIBE_COMPLETE | UPNP_EVENT_UNSUBSCRIBE_COMPLETE | UPNP_EVENT_RENEWAL_COMPLETE
| UPNP_EVENT_AUTORENEWAL_FAILED | UPNP_EVENT_SUBSCRIPTION_EXPIRED | UPNP_EVENT_RECEIVED.
Record delivery := Deliver {
  d_type : event_type; d_fn : Z; d_cookie : Z; d_sid : list Z; d_code : Z; d_timeout : Z
}.

Record genv := GEnv {
  e_rc : Z;                      (* http_RequestAndResponse, or an earlier failure *)
  e_response : http_message_t;
  e_uuid : list Z;               (* uuid_create, uuid_unpack *)
  e_now : Z;
  e_struct_ok : bool
}.

Record gsys (T : Type) := GSys {
  UpnpSdkInit : bool;
  UpnpSdkClientRegistered : bool;
  HandleTable : handle_table;
  st : store T;
  readers : nat;
  sub_lock : bool;
  threads : list gthread;
  delivered : list delivery;
  answers : list Z
}.
Arguments GSys {T}. Arguments UpnpSdkInit {T}. Arguments UpnpSdkClientRegistered {T}.
Arguments HandleTable {T}. Arguments st {T}. Arguments readers {T}. Arguments sub_lock {T}.
Arguments threads {T}. Arguments delivered {T}. Arguments answers {T}.

(** A section: it faults, its thread waits for a lock, or it runs. *)
Inductive outcome (A : Type) := Fault | Blocked | Ran (a : A).
Arguments Fault {A}. Arguments Blocked {A}. Arguments Ran {A}.

Section Gena.
Context `{Malloc, Resolver, Heap} {T : Type} `{TimerIface T}.
Implicit Types (s : gsys T).

Definition set_registered b s : gsys T :=
  GSys (UpnpSdkInit s) b (HandleTable s) (st s) (readers s) (sub_lock s) (threads s)
       (delivered s) (answers s).
Definition set_table t s : gsys T :=
  GSys (UpnpSdkInit s) (UpnpSdkClientRegistered s) t (st s) (readers s) (sub_lock s) (threads s)
       (delivered s) (answers s).
Definition set_st x s : gsys T :=
  GSys (UpnpSdkInit s) (UpnpSdkClientRegistered s) (HandleTable s) x (readers s) (sub_lock s)
       (threads s) (delivered s) (answers s).
Definition set_readers n s : gsys T :=
  GSys (UpnpSdkInit s) (UpnpSdkClientRegistered s) (HandleTable s) (st s) n (sub_lock s)
       (threads s) (delivered s) (answers s).
Definition set_sub_lock b s : gsys T :=
  GSys (UpnpSdkInit s) (UpnpSdkClientRegistered s) (HandleTable s) (st s) (readers s) b
       (threads s) (delivered s) (answers s).
Definition set_threads l s : gsys T :=
  GSys (UpnpSdkInit s) (UpnpSdkClientRegistered s) (HandleTable s) (st s) (readers s) (sub_lock s)
       l (delivered s) (answers s).
Definition deliver d s : gsys T :=
  GSys (UpnpSdkInit s) (UpnpSdkClientRegistered s) (HandleTable s) (st s) (readers s) (sub_lock s)
       (threads s) (delivered s ++ [d]) (answers s).
Definition error_respond c s : gsys T :=
  GSys (UpnpSdkInit s) (UpnpSdkClientRegistered s) (HandleTable s) (st s) (readers s) (sub_lock s)
       (threads s) (delivered s) (answers s ++ [c]).

(** A section that needs the handle lock for writing, the subscribe lock. *)
Definition writing s (k : option (gsys T * gthread)) : outcome (gsys T * gthread) :=
  if decide (readers s = 0%nat) then match k with Some r => Ran r | None => Fault end else Blocked.
Definition subscribing s (k : outcome (gsys T * gthread)) : outcome (gsys T * gthread) :=
  if sub_lock s then Blocked else k.

(** The end of a GENA function: back to the caller, the callback of
    [UpnpThreadDistribution], or the rest of [GenaAutoRenewSubscription]. *)
Definition finish (o : origin) (ty : event_type) (rc : Z) (sid : list Z) (timeout : Z) s
  : gsys T * gthread :=
  match o with
  | Direct => (s, GDone rc (ztake (SID_SIZE - 1) sid) timeout)
  | Async fn cookie =>
      (deliver (Deliver ty fn cookie (ztake (SID_SIZE - 1) sid) rc timeout) s,
       GDone rc (ztake (SID_SIZE - 1) sid) timeout)
  | Auto event => (s, AutoEnd event rc timeout)
  end.
Notation sub_done o := (finish o UPNP_EVENT_SUBSCRIBE_COMPLETE).
Notation ren_done o := (finish o UPNP_EVENT_RENEWAL_COMPLETE).
Notation uns_done o := (finish o UPNP_EVENT_UNSUBSCRIBE_COMPLETE).

(** *** [genaSubscribe] *)

Definition sub_start o h url timeout s : outcome (gsys T * gthread) :=
  match client_info h (HandleTable s) with
  | None => (* the handle lock is kept *) Ran (set_readers (S (readers s)) s, SubBad o url timeout)
  | Some _ => Ran (s, SubWait o h url timeout)
  end.
Definition sub_bad o timeout s : outcome (gsys T * gthread) :=
  subscribing s (Ran (sub_done o GENA_E_BAD_HANDLE [] timeout (set_readers (pred (readers s)) s))).
Definition sub_wait o h url timeout s : outcome (gsys T * gthread) :=
  subscribing s (Ran (set_sub_lock true s, SubNet o h url timeout)).

Definition sizeof_ClientSubscription : Z := 40.

(** The subscription (made at the start of the function, private until here) is
    linked in front; when its renewal cannot be scheduled it
    is deleted, but it stays linked. *)
Definition sub_link (e : genv) (h : Z) (i : Handle_Info) (url actual sid : list Z) (timeout : Z) s
  : option (Z * gsys T) :=
  match malloc (dom (subs (st s))) sizeof_ClientSubscription with
  | None => (* the constructor does not check [calloc] *) None
  | Some p =>
      let new := UpnpClientSubscription_set_Next (ClientSubList i)
                   (UpnpClientSubscription_set_EventURL url
                   (UpnpClientSubscription_set_ActualSID actual
                   (UpnpClientSubscription_set_SID sid
                   (UpnpClientSubscription_set_RenewEventId (-1) UpnpClientSubscription_new)))) in
      let x := set_subs (<[p := new]> (subs (st s))) (st s) in
      '(rc, x) ← ScheduleGenaAutoRenew (e_struct_ok e) (e_now e) h timeout p x;
      x ← (if negb (rc =? 0) then UpnpClientSubscription_delete p x else Some x);
      Some (rc, set_table (set_sub_list h p (HandleTable s)) (set_st x s))
  end.

Definition sub_net (e : genv) o h url timeout s : outcome (gsys T * gthread) :=
  writing s (
    let '(rc, timeout, actual) := gena_subscribe (e_rc e) (e_response e) timeout in
    let s := set_sub_lock false s in
    if negb (rc =? 0) then Some (sub_done o rc [] timeout s)
    else
      match client_info h (HandleTable s) with
      | None => Some (sub_done o GENA_E_BAD_HANDLE [] timeout s)
      | Some i =>
          (* generate client SID *)
          let sid := zs "uuid:" ++ e_uuid e in
          if SID_SIZE <=? zlen sid then Some (sub_done o UPNP_E_OUTOF_MEMORY [] timeout s)
          else
            '(rc, s) ← sub_link e h i url (default [] actual) sid timeout s;
            Some (sub_done o rc sid timeout s)
      end).

(** *** [genaRenewSubscription] and [GenaAutoRenewSubscription] *)

Definition auto_start event s : outcome (gsys T * gthread) :=
  match renewals (st s) !! event with
  | None => Fault
  | Some r =>
      if AUTO_RENEW_TIME =? 0 then Ran (s, AutoEnd event UPNP_E_SUCCESS (r_TimeOut r))
      else Ran (s, RenStart (Auto event) (r_handle r) (r_Sid r) (r_TimeOut r))
  end.

Definition ren_start o h sid timeout s : outcome (gsys T * gthread) :=
  writing s (
    match client_info h (HandleTable s) with
    | None => Some (ren_done o GENA_E_BAD_HANDLE sid timeout s)
    | Some i =>
        p ← GetClientSubClientSID (ClientSubList i) sid (st s);
        if p =? 0 then Some (ren_done o GENA_E_BAD_SID sid timeout s)
        else
          (* remove old events *)
          x ← subs (st s) !! p;
          y ← remove_renewal (m_renewEventId x) (st s);
          y ← upd_sub p (UpnpClientSubscription_set_RenewEventId (-1)) y;
          Some (set_st y s, RenNet o h sid timeout (UpnpClientSubscription_assign x))
    end).

Definition ren_net (e : genv) o h sid timeout s : outcome (gsys T * gthread) :=
  writing s (
    let '(rc, timeout, actual) := gena_subscribe (e_rc e) (e_response e) timeout in
    match client_info h (HandleTable s) with
    | None => Some (ren_done o GENA_E_BAD_HANDLE sid timeout s)
    | Some i =>
        if negb (rc =? 0) then
          (* network failure (remove client sub) *)
          '(hd, x) ← RemoveClientSubClientSID (ClientSubList i) sid (st s);
          Some (ren_done o rc sid timeout (set_table (set_sub_list h hd (HandleTable s)) (set_st x s)))
        else
          p ← GetClientSubClientSID (ClientSubList i) sid (st s);
          if p =? 0 then Some (ren_done o GENA_E_BAD_SID sid timeout s)
          else
            (* store actual sid *)
            x ← upd_sub p (UpnpClientSubscription_set_ActualSID (default [] actual)) (st s);
            '(rc, x) ← ScheduleGenaAutoRenew (e_struct_ok e) (e_now e) h timeout p x;
            if negb (rc =? 0) then
              v ← subs x !! p;
              '(hd, x) ← RemoveClientSubClientSID (ClientSubList i) (m_SID v) x;
              Some (ren_done o rc sid timeout
                     (set_table (set_sub_list h hd (HandleTable s)) (set_st x s)))
            else Some (ren_done o rc sid timeout (set_st x s))
    end).

(** The callback, unless the renewal succeeded or its subscription is gone. *)
Definition auto_end event rc timeout s : outcome (gsys T * gthread) :=
  match renewals (st s) !! event with
  | None => Fault
  | Some r =>
      let send := if AUTO_RENEW_TIME =? 0 then Some UPNP_EVENT_SUBSCRIPTION_EXPIRED
                  else if negb (rc =? UPNP_E_SUCCESS) && negb (rc =? GENA_E_BAD_SID)
                          && negb (rc =? GENA_E_BAD_HANDLE)
                  then Some UPNP_EVENT_AUTORENEWAL_FAILED else None in
      let s := match send, client_info (r_handle r) (HandleTable s) with
               | Some ty, Some i =>
                   deliver (Deliver ty (Callback i) (Cookie i) (r_Sid r) rc timeout) s
               | _, _ => s
               end in
      match free_upnp_timeout event (st s) with
      | None => Fault
      | Some x => Ran (set_st x s, GDone rc (r_Sid r) timeout)
      end
  end.

(** *** [genaUnSubscribe] *)

Definition uns_start o h sid s : outcome (gsys T * gthread) :=
  writing s (
    match client_info h (HandleTable s) with
    | None => Some (uns_done o GENA_E_BAD_HANDLE sid 0 s)
    | Some i =>
        p ← GetClientSubClientSID (ClientSubList i) sid (st s);
        if p =? 0 then Some (uns_done o GENA_E_BAD_SID sid 0 s)
        else
          x ← subs (st s) !! p;
          Some (s, UnsNet o h sid (UpnpClientSubscription_assign x))
    end).
Definition uns_net (e : genv) o h sid s : outcome (gsys T * gthread) :=
  writing s (
    let rc := gena_unsubscribe (e_rc e) (e_response e) in
    match client_info h (HandleTable s) with
    | None => Some (uns_done o GENA_E_BAD_HANDLE sid 0 s)
    | Some i =>
        '(hd, x) ← RemoveClientSubClientSID (ClientSubList i) sid (st s);
        Some (uns_done o rc sid 0 (set_table (set_sub_list h hd (HandleTable s)) (set_st x s)))
    end).

(** *** [UpnpUnRegisterClient] and [genaUnregisterClient] *)

Definition unreg_start h s : outcome (gsys T * gthread) :=
  writing s (
    if negb (UpnpSdkClientRegistered s) then Some (s, GDone UPNP_E_INVALID_HANDLE [] 0)
    else Some (s, UnregLoop h)).
Definition unreg_loop h s : outcome (gsys T * gthread) :=
  writing s (
    match client_info h (HandleTable s) with
    | None => Some (s, GDone UPNP_E_INVALID_HANDLE [] 0)
    | Some i =>
        if ClientSubList i =? 0 then
          x ← freeClientSubList (ClientSubList i) (st s);
          Some (set_st x s, UnregEnd h)
        else
          v ← subs (st s) !! ClientSubList i;
          let copy := UpnpClientSubscription_assign v in
          '(hd, x) ← RemoveClientSubClientSID (ClientSubList i) (m_SID copy) (st s);
          Some (set_table (set_sub_list h hd (HandleTable s)) (set_st x s), UnregNet h copy)
    end).
Definition unreg_end h s : outcome (gsys T * gthread) :=
  writing s (
    match GetHandleInfo h (HandleTable s) with
    | None => Some (s, GDone UPNP_E_INVALID_HANDLE [] 0)
    | Some _ =>
        Some (set_registered false (set_table (FreeHandle h (HandleTable s)).2 s),
              GDone UPNP_E_SUCCESS [] 0)
    end).

(** *** [gena_process_notification_event] *)

(** The subscription that gets the event, or 0. *)
Definition not_deliver (i : Handle_Info) (p eventKey : Z) s : option (gsys T * gthread) :=
  x ← subs (st s) !! p;
  let sid := ztake (SID_SIZE - 1) (m_SID x) in
  Some (deliver (Deliver UPNP_EVENT_RECEIVED (Callback i) (Cookie i) sid eventKey 0)
                (error_respond HTTP_OK s),
        GDone HTTP_OK sid 0).
Definition not_reject s : gsys T * gthread :=
  (error_respond HTTP_PRECONDITION_FAILED s, GDone HTTP_PRECONDITION_FAILED [] 0).

Definition not_start sid eventKey s : outcome (gsys T * gthread) :=
  writing s (
    match GetClientHandleInfo (HandleTable s) with
    | None => Some (not_reject s)
    | Some (_, i) =>
        p ← GetClientSubActualSID (ClientSubList i) sid (st s);
        if negb (p =? 0) then not_deliver i p eventKey s
        else if eventKey =? 0 then
          (* wait until we've finished processing a subscription *)
          Some (s, NotWait sid eventKey)
        else Some (not_reject s)
    end).
Definition not_wait sid eventKey s : outcome (gsys T * gthread) :=
  subscribing s (Ran (set_sub_lock true s, NotHeld sid eventKey)).
Definition not_held sid eventKey s : outcome (gsys T * gthread) :=
  writing s (
    let s := set_sub_lock false s in
    match GetClientHandleInfo (HandleTable s) with
    | None => Some (not_reject s)
    | Some (_, i) =>
        p ← GetClientSubActualSID (ClientSubList i) sid (st s);
        if p =? 0 then Some (not_reject s) else not_deliver i p eventKey s
    end).

(** ** Steps *)

Definition section (e : genv) (th : gthread) s : outcome (gsys T * gthread) :=
  match th with
  | SubStart o h url timeout => sub_start o h url timeout s
  | SubBad o url timeout => sub_bad o timeout s
  | SubWait o h url timeout => sub_wait o h url timeout s
  | SubNet o h url timeout => sub_net e o h url timeout s
  | AutoStart event => auto_start event s
  | RenStart o h sid timeout => ren_start o h sid timeout s
  | RenNet o h sid timeout _ => ren_net e o h sid timeout s
  | AutoEnd event rc timeout => auto_end event rc timeout s
  | UnsStart o h sid => uns_start o h sid s
  | UnsNet o h sid _ => uns_net e o h sid s
  | UnregStart h => unreg_start h s
  | UnregLoop h => unreg_loop h s
  | UnregNet h _ => Ran (s, UnregLoop h)
  | UnregEnd h => unreg_end h s
  | NotStart sid eventKey => not_start sid eventKey s
  | NotWait sid eventKey => not_wait sid eventKey s
  | NotHeld sid eventKey => not_held sid eventKey s
  | GDone _ _ _ => Ran (s, th)
  end.

(** Thread [i] runs its next section. *)
Definition run_thread (i : nat) (e : genv) s : outcome (gsys T) :=
  match threads s !! i with
  | None => Ran s
  | Some th =>
      match section e th s with
      | Fault => Fault
      | Blocked => Blocked
      | Ran (s', th') => Ran (set_threads (<[i := th']> (threads s')) s')
      end
  end.

(** *** The calls of the API *)

Definition UpnpRegisterClient (handle_ok : bool) (fn cookie : Z) s : Z * option Z * gsys T :=
  if negb (UpnpSdkInit s) then (UPNP_E_FINISH, None, s)
  else if fn =? 0 then (UPNP_E_INVALID_PARAM, None, s)
  else if UpnpSdkClientRegistered s then (UPNP_E_ALREADY_REGISTERED, None, s)
  else
    let h := GetFreeHandle (HandleTable s) in
    if h =? UPNP_E_OUTOF_HANDLE then (UPNP_E_OUTOF_MEMORY, Some h, s)
    else if negb handle_ok then (UPNP_E_OUTOF_MEMORY, Some h, s)
    else
      (UPNP_E_SUCCESS, Some h,
       set_registered true
         (set_table (<[Z.to_nat h := Some (HInfo HND_CLIENT fn cookie 0)]> (HandleTable s)) s)).

(** A call: the thread it starts, at its first lock. [None] pointers are [NULL].  An
    asynchronous call has the result of [malloc] and of [ThreadPoolAdd]: when the pool
    refuses the job, the call still succeeds.  [url_new], [sid_new]: whether
    [UpnpString_new] gives the string. *)
Inductive gcall :=
| UpnpSubscribe (h : Z) (url : option (list Z)) (timeout : option Z) (sid_ok url_new sid_new : bool)
| UpnpSubscribeAsync (h : Z) (url : option (list Z)) (timeout fn cookie : Z) (malloc_ok : bool)
                     (add_rc : Z)
| UpnpUnSubscribe (h : Z) (sid : option (list Z)) (sid_new : bool)
| UpnpUnSubscribeAsync (h : Z) (sid : option (list Z)) (fn cookie : Z) (malloc_ok : bool)
                       (add_rc : Z)
| UpnpRenewSubscription (h : Z) (timeout : option Z) (sid : option (list Z)) (sid_new : bool)
| UpnpRenewSubscriptionAsync (h timeout : Z) (sid : option (list Z)) (fn cookie : Z)
                             (malloc_ok : bool) (add_rc : Z)
| UpnpUnRegisterClient (h : Z)
| genaCallback (request : http_message_t).

Definition bad_timeout (t : Z) : bool := negb (t =? UPNP_INFINITE) && (t <? 1).

(** The job of an asynchronous call. *)
Definition async_job (malloc_ok : bool) (add_rc : Z) (th : gthread) : list gthread :=
  if negb malloc_ok then [GDone UPNP_E_OUTOF_MEMORY [] 0]
  else GDone UPNP_E_SUCCESS [] 0 :: (if add_rc =? 0 then [th] else []).

Definition call_ret (rc : Z) s : list gthread * gsys T := ([GDone rc [] 0], s).
Definition is_client (h : Z) s : bool := bool_decide (is_Some (client_info h (HandleTable s))).

Definition call_UpnpSubscribe (h : Z) (url : option (list Z)) (timeout : option Z) (sid_ok url_new sid_new : bool) s :=
  if negb (UpnpSdkInit s) then call_ret UPNP_E_FINISH s
  else if negb url_new then call_ret UPNP_E_OUTOF_MEMORY s
  else match url with
       | None => call_ret UPNP_E_INVALID_PARAM s
       | Some url =>
           if negb sid_new then call_ret UPNP_E_OUTOF_MEMORY s
           else if negb sid_ok then call_ret UPNP_E_INVALID_PARAM s
           else match timeout with
                | None => call_ret UPNP_E_INVALID_PARAM s
                | Some timeout =>
                    if negb (is_client h s) then call_ret UPNP_E_INVALID_HANDLE s
                    else ([SubStart Direct h url timeout], s)
                end
       end.

Definition call_UpnpSubscribeAsync (h : Z) (url : option (list Z)) (timeout fn cookie : Z) (malloc_ok : bool) (add_rc : Z) s :=
  if negb (UpnpSdkInit s) then call_ret UPNP_E_FINISH s
  else if negb (is_client h s) then call_ret UPNP_E_INVALID_HANDLE s
  else match url with
       | Some url =>
           if bad_timeout timeout || (fn =? 0) then call_ret UPNP_E_INVALID_PARAM s
           else (async_job malloc_ok add_rc
                   (SubStart (Async fn cookie) h (ztake (FixedCopy.NAME_SIZE - 1) url) timeout), s)
       | None => call_ret UPNP_E_INVALID_PARAM s
       end.

Definition call_UpnpUnSubscribe (h : Z) (sid : option (list Z)) (sid_new : bool) s :=
  if negb (UpnpSdkInit s) then call_ret UPNP_E_FINISH s
  else if negb sid_new then call_ret UPNP_E_OUTOF_MEMORY s
  else match sid with
       | Some sid =>
           if negb (is_client h s) then call_ret UPNP_E_INVALID_HANDLE s else ([UnsStart Direct h sid], s)
       | None => call_ret UPNP_E_INVALID_PARAM s
       end.

Definition call_UpnpUnSubscribeAsync (h : Z) (sid : option (list Z)) (fn cookie : Z) (malloc_ok : bool) (add_rc : Z) s :=
  if negb (UpnpSdkInit s) then call_ret UPNP_E_FINISH s
  else match sid with
       | Some sid =>
           if fn =? 0 then call_ret UPNP_E_INVALID_PARAM s
           else if negb (is_client h s) then call_ret UPNP_E_INVALID_HANDLE s
           else (async_job malloc_ok add_rc
                   (UnsStart (Async fn cookie) h (ztake (SID_SIZE - 1) sid)), s)
       | None => call_ret UPNP_E_INVALID_PARAM s
       end.

Definition call_UpnpRenewSubscription (h : Z) (timeout : option Z) (sid : option (list Z)) (sid_new : bool) s :=
  if negb (UpnpSdkInit s) then call_ret UPNP_E_FINISH s
  else if negb sid_new then call_ret UPNP_E_OUTOF_MEMORY s
  else match sid, timeout with
       | Some sid, Some timeout =>
           if negb (is_client h s) then call_ret UPNP_E_INVALID_HANDLE s
           else ([RenStart Direct h sid timeout], s)
       | _, _ => call_ret UPNP_E_INVALID_PARAM s
       end.

Definition call_UpnpRenewSubscriptionAsync (h timeout : Z) (sid : option (list Z)) (fn cookie : Z) (malloc_ok : bool) (add_rc : Z) s :=
  if negb (UpnpSdkInit s) then call_ret UPNP_E_FINISH s
  else if negb (is_client h s) then call_ret UPNP_E_INVALID_HANDLE s
  else if bad_timeout timeout then call_ret UPNP_E_INVALID_PARAM s
  else match sid with
       | Some sid =>
           if fn =? 0 then call_ret UPNP_E_INVALID_PARAM s
           else (async_job malloc_ok add_rc
                   (RenStart (Async fn cookie) h (ztake (SID_SIZE - 1) sid) timeout), s)
       | None => call_ret UPNP_E_INVALID_PARAM s
       end.

Definition call_genaCallback (request : http_message_t) s : list gthread * gsys T :=
  if method request =? HTTPMETHOD_NOTIFY then
    match check_notification request with
    | inl code => ([GDone code [] 0], error_respond code s)
    | inr (sid, eventKey) => ([NotStart sid eventKey], s)
    end
  else ([GDone HTTP_NOT_IMPLEMENTED [] 0], error_respond HTTP_NOT_IMPLEMENTED s).

Definition start_call (c : gcall) s : list gthread * gsys T :=
  match c with
  | UpnpSubscribe h url timeout sid_ok url_new sid_new => call_UpnpSubscribe h url timeout sid_ok url_new sid_new s
  | UpnpSubscribeAsync h url timeout fn cookie malloc_ok add_rc => call_UpnpSubscribeAsync h url timeout fn cookie malloc_ok add_rc s
  | UpnpUnSubscribe h sid sid_new => call_UpnpUnSubscribe h sid sid_new s
  | UpnpUnSubscribeAsync h sid fn cookie malloc_ok add_rc => call_UpnpUnSubscribeAsync h sid fn cookie malloc_ok add_rc s
  | UpnpRenewSubscription h timeout sid sid_new => call_UpnpRenewSubscription h timeout sid sid_new s
  | UpnpRenewSubscriptionAsync h timeout sid fn cookie malloc_ok add_rc => call_UpnpRenewSubscriptionAsync h timeout sid fn cookie malloc_ok add_rc s
  | UpnpUnRegisterClient h => if negb (UpnpSdkInit s) then call_ret UPNP_E_FINISH s else ([UnregStart h], s)
  | genaCallback request => call_genaCallback request s
  end.

(** What the timer's worker hands over: a renewal becomes a job of the pool; when the
    pool refuses it, the worker frees the renewal. *)
Fixpoint hand_over (hs : list handing) s : option (gsys T) :=
  match hs with
  | [] => Some s
  | h :: hs =>
      let event := arg (job (h_event h)) in
      if h_rc h =? 0 then hand_over hs (set_threads (threads s ++ [AutoStart event]) s)
      else x ← free_upnp_timeout event (st s); hand_over hs (set_st x s)
  end.

(** An action of the program or its environment. *)
Inductive gop :=
| OCall (c : gcall)
| ORegister (handle_ok : bool) (fn cookie : Z)
| ORun (i : nat) (e : genv)
| OTimer (e : nat -> tick).

Definition g_exec (op : gop) s : outcome (gsys T) :=
  match op with
  | OCall c => let '(l, s) := start_call c s in Ran (set_threads (threads s ++ l) s)
  | ORegister ok fn cookie =>
      if decide (readers s = 0%nat) then Ran (UpnpRegisterClient ok fn cookie s).2 else Blocked
  | ORun i e => run_thread i e s
  | OTimer e =>
      match tm_worker e (tm (st s)) with
      | None => Fault
      | Some (t, hs) =>
          match hand_over hs (set_st (set_tm t (st s)) s) with
          | None => Fault
          | Some s => Ran s
          end
      end
  end.

(** A sequence of actions; one that waits changes nothing. *)
Fixpoint g_run (ops : list gop) s : option (gsys T) :=
  match ops with
  | [] => Some s
  | op :: ops =>
      match g_exec op s with
      | Fault => None
      | Blocked => g_run ops s
      | Ran s => g_run ops s
      end
  end.

(** After [UpnpInit]. *)
Definition gsys0 (t : T) : gsys T :=
  GSys true false HandleTable0 (Store ∅ ∅ t) 0 false [] [] [].
End Gena.
