(* ===== verification/GenaFacts.v ===== *)
(** * Memory safety of the subscriptions

    For every interleaving of calls, renewals, notifications and timer events, the
    list of subscriptions stays a list of live objects and every renewal is freed
    exactly once, as long as no new subscription fails to get its renewal scheduled;
    when one does, the list is left with a dangling pointer, and the next access
    faults (last section, with the deadlock of the two locks). *)

From S2P Require Import Prelude CLib Codes Membuffer Uri Tables Scanner HttpParser HttpFacts LinkedList ListFacts.
From S2P Require Import ThreadPool TimerThread TimerFacts TimerIface ClientTable Gena.
#[local] Open Scope Z_scope.

(** ** The store *)

(** The objects from [p] to [m] in the order of the links. *)
Fixpoint seg (h : gmap Z ClientSubscription) (p : Z) (ps : list Z) (m : Z) : Prop :=
  match ps with
  | [] => p = m
  | a :: ps => p = a /\ a <> 0 /\ exists x, h !! a = Some x /\ seg h (m_next x) ps m
  end.
Notation chain h p ps := (seg h p ps 0).

Lemma seg_app h p l1 l2 m : seg h p (l1 ++ l2) m <-> exists k, seg h p l1 k /\ seg h k l2 m.
Proof.
  revert p. induction l1 as [|a l1 IH]; intros p; cbn.
  - split; [intros Hs; by exists p|by intros (k & -> & Hs)].
  - split.
    + intros (-> & H0 & x & Hx & Hs). apply IH in Hs as (k & H1 & H2). exists k.
      split; [|done]. split; [done|]. split; [done|]. by exists x.
    + intros (k & (-> & H0 & x & Hx & H1) & H2). split; [done|]. split; [done|]. exists x.
      split; [done|]. apply IH. by exists k.
Qed.

(** The links of two heaps agree. *)
Definition same_links (h h' : gmap Z ClientSubscription) : Prop :=
  forall a, m_next <$> h' !! a = m_next <$> h !! a.

Lemma seg_links h h' p ps m :
  seg h p ps m -> (forall a, a ∈ ps -> m_next <$> h' !! a = m_next <$> h !! a) -> seg h' p ps m.
Proof.
  revert p. induction ps as [|a ps IH]; intros p; [done|]. cbn. intros (-> & H0 & x & Hx & Hc) Hl.
  split; [done|]. split; [done|]. pose proof (Hl a ltac:(by left)) as Ha. rewrite Hx in Ha.
  destruct (h' !! a) as [y|]; [|done]. injection Ha as Ha. exists y. split; [done|]. rewrite Ha.
  apply IH; [done|]. intros b Hb. apply Hl. by right.
Qed.

Lemma seg_some h p ps m a : seg h p ps m -> a ∈ ps -> is_Some (h !! a) /\ a <> 0.
Proof.
  revert p. induction ps as [|b ps IH]; intros p; [by intros _ ?%not_elem_of_nil|].
  cbn. intros (-> & H0 & x & Hx & Hs) Ha. apply elem_of_cons in Ha as [->|Ha].
  - split; [by exists x|done].
  - by eapply IH.
Qed.

Lemma seg_length h p ps m : seg h p ps m -> NoDup ps -> (length ps <= size h)%nat.
Proof.
  intros Hs Hn. rewrite <- (size_list_to_set (C := gset Z) ps Hn), <- size_dom.
  apply subseteq_size. intros a Ha. apply elem_of_list_to_set in Ha. apply elem_of_dom.
  by eapply seg_some.
Qed.

Definition ev_arg (e : TimerEvent) : Z := arg (job e).

Section GenaFacts.
Context `{Heap} {T : Type} `{TimerIface T}.
Implicit Types (x : store T).

(** The list at [p] is [ps]; the timer holds [q]; the renewals are those of the
    queue and [evs]. *)
Record storep x (p : Z) (ps : list Z) (q : list TimerEvent) (evs : list Z) : Prop := {
  so_chain : chain (subs x) p ps;
  so_nodup : NoDup ps;
  so_tm : exists n, tm_holds (tm x) q n;
  so_evs : NoDup (map ev_arg q ++ evs);
  so_zero : 0 ∉ map ev_arg q ++ evs;
  so_dom : forall a, is_Some (renewals x !! a) <-> a ∈ map ev_arg q ++ evs
}.

Lemma storep_perm x p ps q evs evs' : evs ≡ₚ evs' -> storep x p ps q evs -> storep x p ps q evs'.
Proof.
  intros Hp [H1 H2 H3 H4 H5 H6]. split; try done.
  - by rewrite <- Hp.
  - by rewrite <- Hp.
  - intros a. rewrite H6. by rewrite Hp.
Qed.

(** A change of the subscriptions only. *)
Lemma storep_subs x h p ps q evs p' ps' :
  storep x p ps q evs -> chain h p' ps' -> NoDup ps' -> storep (set_subs h x) p' ps' q evs.
Proof. intros [H1 H2 H3 H4 H5 H6] Hc Hn. by split. Qed.

Lemma free_event_ok x p ps q evs ev :
  storep x p ps q (ev :: evs) ->
  exists x', free_upnp_timeout ev x = Some x' /\ storep x' p ps q evs /\ subs x' = subs x.
Proof.
  intros [H1 H2 H3 H4 H5 H6]. unfold free_upnp_timeout.
  assert (Hp : map ev_arg q ++ ev :: evs ≡ₚ ev :: map ev_arg q ++ evs)
    by (by rewrite <- Permutation_middle).
  rewrite Hp in H4, H5. apply NoDup_cons in H4 as [H4 H4']. apply not_elem_of_cons in H5 as [H5 H5'].
  rewrite (proj2 (Z.eqb_neq ev 0)) by done.
  destruct (proj2 (H6 ev)) as [r Hr]; [rewrite Hp; by left|]. rewrite Hr. cbn [mbind option_bind].
  eexists. split; [done|]. split; [|done]. split; cbn; try done.
  intros a. specialize (H6 a). rewrite Hp, elem_of_cons in H6.
  destruct (decide (a = ev)) as [->|Hn].
  - rewrite lookup_delete_eq. split; [by intros [? ?]|done].
  - rewrite lookup_delete_ne by done. rewrite H6. split; [by intros [|]|by right].
Qed.

Lemma remove_renewal_ok x p ps q evs id :
  storep x p ps q evs ->
  exists x' q', remove_renewal id x = Some x' /\ storep x' p ps q' evs /\ subs x' = subs x.
Proof.
  intros [H1 H2 [n H3] H4 H5 H6]. unfold remove_renewal.
  destruct (tm_remove_ok id _ _ _ H3) as (rc & out & t' & q' & -> & H3' & Hc).
  cbn [mbind option_bind].
  destruct (remove_event id q) as [[e r]|] eqn:Er.
  - destruct Hc as (-> & -> & ->). cbn [Z.eqb].
    destruct (remove_event_some _ _ _ _ Er) as (Hp & _ & _).
    assert (Hq : map ev_arg q ++ evs ≡ₚ map ev_arg r ++ ev_arg e :: evs).
    { rewrite Hp. cbn [map]. by rewrite <- Permutation_middle. }
    destruct (free_event_ok (set_tm t' x) p ps r evs (ev_arg e)) as (x' & E & Hx' & Hs).
    { split; cbn; try done; [by exists n|by rewrite <- Hq|by rewrite <- Hq|].
      intros a. rewrite H6. by rewrite Hq. }
    exists x', r. done.
  - destruct Hc as (_ & -> & ->). exists (set_tm t' x), q. split; [done|]. split; [|done].
    split; cbn; try done. by exists n.
Qed.

Lemma upd_sub_ok x p ps q evs a f :
  storep x p ps q evs -> is_Some (subs x !! a) -> (forall y, m_next (f y) = m_next y) ->
  exists x', upd_sub a f x = Some x' /\ storep x' p ps q evs /\ same_links (subs x) (subs x')
    /\ dom (subs x') = dom (subs x) /\ renewals x' = renewals x /\ tm x' = tm x.
Proof.
  intros Hs [y Hy] Hf. unfold upd_sub. rewrite Hy. cbn [mbind option_bind].
  assert (Hl : same_links (subs x) (<[a := f y]> (subs x))).
  { intros b. destruct (decide (b = a)) as [->|]; [|by rewrite lookup_insert_ne].
    rewrite lookup_insert_eq, Hy. cbn. by rewrite Hf. }
  eexists. split; [done|]. split; [|split; [exact Hl|split; [|done]]].
  - eapply storep_subs; [exact Hs| |apply Hs]. eapply seg_links; [apply Hs|]. intros b _. apply Hl.
  - cbn. rewrite dom_insert_L. apply elem_of_dom_2 in Hy. set_solver.
Qed.

Lemma same_links_trans h1 h2 h3 : same_links h1 h2 -> same_links h2 h3 -> same_links h1 h3.
Proof. intros A B a. by rewrite B, A. Qed.

Lemma same_links_some h h' a : same_links h h' -> is_Some (h !! a) -> is_Some (h' !! a).
Proof. intros Hl [x Hx]. specialize (Hl a). rewrite Hx in Hl. by destruct (h' !! a). Qed.

Lemma free_client_subscription_ok x p ps q evs a :
  storep x p ps q evs -> is_Some (subs x !! a) -> a <> 0 ->
  exists x' q', free_client_subscription a x = Some x' /\ storep x' p ps q' evs
    /\ same_links (subs x) (subs x') /\ dom (subs x') = dom (subs x).
Proof.
  intros Hs Ha Hz. unfold free_client_subscription. rewrite (proj2 (Z.eqb_neq a 0) Hz).
  pose proof Ha as [y Hy]. rewrite Hy. cbn [mbind option_bind].
  match goal with |- context [upd_sub a ?f x] =>
    destruct (upd_sub_ok x p ps q evs a f Hs Ha (fun z => eq_refl)) as (x1 & -> & Hs1 & L1 & D1 & _) end.
  cbn [mbind option_bind].
  assert (Hx2 : exists x2 q2, (if negb (m_renewEventId y =? -1) then remove_renewal (m_renewEventId y) x1
      else Some x1) = Some x2 /\ storep x2 p ps q2 evs /\ subs x2 = subs x1).
  { destruct (negb _); [by eapply remove_renewal_ok|by exists x1, q]. }
  destruct Hx2 as (x2 & q2 & -> & Hs2 & E2). cbn [mbind option_bind].
  destruct (upd_sub_ok x2 p ps q2 evs a (UpnpClientSubscription_set_RenewEventId (-1)) Hs2)
    as (x3 & -> & Hs3 & L3 & D3 & _); [rewrite E2; by eapply same_links_some|done|].
  exists x3, q2. split; [done|]. split; [done|]. rewrite E2 in L3, D3.
  split; [by eapply same_links_trans|congruence].
Qed.

Lemma free_single x p ps q evs a y :
  storep x p ps q evs -> a ∉ ps -> subs x !! a = Some y -> m_next y = 0 -> a <> 0 ->
  exists x' q', freeClientSubList a x = Some x' /\ storep x' p ps q' evs.
Proof.
  intros Hs Hn Hy Hm Hz. unfold freeClientSubList, list_fuel.
  assert (Hsz : exists k, size (subs x) = S k).
  { destruct (size (subs x)) as [|k] eqn:E; [|by exists k]. apply map_size_empty_iff in E.
    by rewrite E, lookup_empty in Hy. }
  destruct Hsz as [k ->]. cbn [freeClientSubList_loop]. rewrite (proj2 (Z.eqb_neq a 0) Hz).
  destruct (free_client_subscription_ok x p ps q evs a Hs ltac:(by exists y) Hz)
    as (x1 & q1 & -> & Hs1 & L1 & D1). cbn [mbind option_bind].
  pose proof (L1 a) as La. rewrite Hy in La. destruct (subs x1 !! a) as [y1|] eqn:E1; [|done].
  injection La as La. cbn [mbind option_bind]. unfold UpnpClientSubscription_delete.
  rewrite (proj2 (Z.eqb_neq a 0) Hz), E1. cbn [mbind option_bind]. rewrite La, Hm. cbn [Z.eqb].
  eexists _, q1. split; [done|]. eapply storep_subs; [exact Hs1| |apply Hs1].
  eapply seg_links; [apply Hs1|]. intros b Hb. rewrite lookup_delete_ne; [done|by intros ->].
Qed.

(** The removal of the object behind [ps1]. *)
Lemma unlink_ok x p ps1 a ps2 q evs y :
  storep x p (ps1 ++ a :: ps2) q evs -> subs x !! a = Some y ->
  exists p' x', (if negb (default 0 (last ps1) =? 0)
                 then s ← upd_sub (default 0 (last ps1)) (UpnpClientSubscription_set_Next (m_next y)) x;
                      Some (p, s)
                 else Some (m_next y, x)) = Some (p', x')
    /\ storep x' p' (ps1 ++ ps2) q evs /\ a ∉ ps1 ++ ps2 /\ subs x' !! a = Some y.
Proof.
  intros Hs Hy. pose proof (so_chain _ _ _ _ _ Hs) as Hc. pose proof (so_nodup _ _ _ _ _ Hs) as Hn.
  assert (Ha : a ∉ ps1 ++ ps2 /\ NoDup (ps1 ++ ps2)).
  { rewrite <- Permutation_middle in Hn. by apply NoDup_cons in Hn. }
  destruct Ha as [Ha Hn']. apply seg_app in Hc as (k & H1 & H2). cbn in H2.
  destruct H2 as (-> & Hz & y' & Hy' & H2). rewrite Hy in Hy'. injection Hy' as <-.
  destruct ps1 as [|b ps1 _] using rev_ind.
  - cbn. cbn in H1. subst p. exists (m_next y), x. split; [done|].
    split; [|done]. destruct Hs. by split.
  - rewrite last_snoc. apply seg_app in H1 as (k & H1 & H3). cbn in H3.
    destruct H3 as (-> & Hbz & z & Hb & H3). cbn [default from_option]. unfold id.
    rewrite (proj2 (Z.eqb_neq b 0) Hbz). cbn [negb].
    assert (Hba : b <> a) by (intros ->; apply Ha; set_solver).
    unfold upd_sub. rewrite Hb. cbn [mbind option_bind]. eexists p, _. split; [done|].
    split; [|split; [done|cbn; by rewrite lookup_insert_ne]].
    eapply storep_subs; [exact Hs| |done].
    apply seg_app. exists (m_next y). split; [apply seg_app; exists b; split|].
    + eapply seg_links; [exact H1|]. intros c Hc. rewrite lookup_insert_ne; [done|]. intros ->.
      rewrite <- app_assoc in Hn'. apply NoDup_app in Hn' as (_ & Hd & _). apply (Hd c Hc). set_solver.
    + cbn. split; [done|]. split; [done|]. eexists. split; [by rewrite lookup_insert_eq|done].
    + eapply seg_links; [exact H2|]. intros c Hc. rewrite lookup_insert_ne; [done|]. intros ->.
      apply NoDup_app in Hn' as (_ & Hd & _). apply (Hd c); set_solver.
Qed.

Lemma remove_sid_loop_ok fuel x p ps1 ps2 q evs sid :
  storep x p (ps1 ++ ps2) q evs -> (length ps2 < fuel)%nat ->
  exists p' x' ps' q', remove_sid_loop fuel p (hd 0 ps2) (default 0 (last ps1)) sid x = Some (p', x')
    /\ storep x' p' ps' q' evs.
Proof.
  revert ps1 ps2. induction fuel as [|fuel IH]; intros ps1 ps2 Hs Hf; [lia|].
  destruct ps2 as [|a ps2]; cbn [hd remove_sid_loop].
  - by exists p, x, (ps1 ++ []), q.
  - cbn in Hf. pose proof (so_chain _ _ _ _ _ Hs) as Hc. apply seg_app in Hc as (k & H1 & H2). cbn in H2.
    destruct H2 as (-> & Hz & y & Hy & H2). rewrite (proj2 (Z.eqb_neq a 0) Hz), Hy. cbn [mbind option_bind].
    destruct (bool_decide _).
    + destruct (unlink_ok _ _ _ _ _ _ _ _ Hs Hy) as (p' & x1 & -> & Hs1 & Hn & Hy1).
      cbn [mbind option_bind]. unfold upd_sub at 1. rewrite Hy1. cbn [mbind option_bind].
      destruct (free_single (set_subs (<[a:=UpnpClientSubscription_set_Next 0 y]> (subs x1)) x1)
        p' (ps1 ++ ps2) q evs a (UpnpClientSubscription_set_Next 0 y)) as (x2 & q2 & -> & Hs2).
      * eapply storep_subs; [exact Hs1| |apply Hs1]. eapply seg_links; [apply Hs1|].
        intros b Hb. rewrite lookup_insert_ne; [done|by intros ->].
      * done.
      * cbn. by rewrite lookup_insert_eq.
      * done.
      * done.
      * cbn [mbind option_bind]. by exists p', x2, (ps1 ++ ps2), q2.
    + assert (Hnx : m_next y = hd 0 ps2) by (destruct ps2; cbn in H2; [done|by destruct H2]).
      rewrite Hnx. specialize (IH (ps1 ++ [a]) ps2). rewrite last_snoc in IH. apply IH; [|lia].
      by rewrite <- app_assoc.
Qed.

Lemma RemoveClientSubClientSID_ok x p ps q evs sid :
  storep x p ps q evs ->
  exists p' x' ps' q', RemoveClientSubClientSID p sid x = Some (p', x') /\ storep x' p' ps' q' evs.
Proof.
  intros Hs. unfold RemoveClientSubClientSID, list_fuel.
  pose proof (seg_length _ _ _ _ (so_chain _ _ _ _ _ Hs) (so_nodup _ _ _ _ _ Hs)).
  assert (Hp : hd 0 ps = p).
  { pose proof (so_chain _ _ _ _ _ Hs) as Hc. destruct ps; cbn in *; [done|by destruct Hc]. }
  pose proof (remove_sid_loop_ok (S (size (subs x))) x p [] ps q evs sid Hs ltac:(lia)) as HR.
  by rewrite Hp in HR.
Qed.

Lemma find_sub_loop_ok fuel x p ps test :
  chain (subs x) p ps -> (length ps < fuel)%nat ->
  exists r, find_sub_loop fuel test p x = Some r
    /\ (r = 0 \/ r ∈ ps /\ exists y, subs x !! r = Some y /\ test y = true).
Proof.
  revert p ps. induction fuel as [|fuel IH]; intros p ps Hc Hf; [lia|]. cbn [find_sub_loop].
  destruct ps as [|a ps]; cbn in Hc.
  - rewrite Hc. exists 0. split; [done|by left].
  - destruct Hc as (-> & Hz & y & Hy & Hc). rewrite (proj2 (Z.eqb_neq a 0) Hz), Hy. cbn [mbind option_bind].
    destruct (test y) eqn:Et.
    + exists a. split; [done|]. right. split; [by left|by exists y].
    + cbn in Hf. destruct (IH _ _ Hc ltac:(lia)) as (r & E & Hr). exists r. split; [done|].
      destruct Hr as [|[Hr Hy']]; [by left|]. right. split; [by right|done].
Qed.

Lemma find_sub_ok x p ps q evs test :
  storep x p ps q evs ->
  exists r, find_sub_loop (list_fuel x) test p x = Some r
    /\ (r = 0 \/ r ∈ ps /\ exists y, subs x !! r = Some y /\ test y = true).
Proof.
  intros Hs. eapply find_sub_loop_ok; [apply Hs|]. unfold list_fuel.
  pose proof (seg_length _ _ _ _ (so_chain _ _ _ _ _ Hs) (so_nodup _ _ _ _ _ Hs)). lia.
Qed.

Lemma ScheduleGenaAutoRenew_ok x p ps q evs ok now h timeout sub :
  storep x p ps q evs -> is_Some (subs x !! sub) ->
  exists rc x' q', ScheduleGenaAutoRenew ok now h timeout sub x = Some (rc, x')
    /\ storep x' p ps q' evs /\ same_links (subs x) (subs x') /\ dom (subs x') = dom (subs x).
Proof.
  intros Hs Hsub. pose proof Hsub as [y Hy]. unfold ScheduleGenaAutoRenew. rewrite Hy. cbn [mbind option_bind].
  destruct (timeout =? UPNP_INFINITE); [by exists GENA_SUCCESS, x, q|].
  destruct ok; cbn [negb]; [|by exists UPNP_E_OUTOF_MEMORY, x, q].
  destruct (malloc (dom (renewals x)) sizeof_upnp_timeout) as [ev|] eqn:Em;
    [|by exists UPNP_E_OUTOF_MEMORY, x, q].
  apply malloc_ok in Em as [Hz Hd].
  pose proof Hs as [H1 H2 [n H3] H4 H5 H6].
  assert (Hnew : ev ∉ map ev_arg q ++ evs) by (intros Hi; apply Hd, elem_of_dom, H6, Hi).
  destruct (tm_schedule_ok now (s32 (timeout - AUTO_RENEW_TIME)) (renew_job ev) _ _ _ H3)
    as (rc & id & t' & n' & -> & Hc). cbn [mbind option_bind].
  set (r := Renewal _ _ _ _ _ _).
  assert (Hdom : forall a, is_Some (<[ev := r]> (renewals x) !! a) <-> a ∈ ev :: map ev_arg q ++ evs).
  { intros a. rewrite elem_of_cons, <- H6. destruct (decide (a = ev)) as [->|Hne].
    - rewrite lookup_insert_eq. split; [by left|by eexists].
    - rewrite lookup_insert_ne by done. split; [by right|by intros [|]]. }
  destruct Hc as [(Hrc & Hh & _)|(-> & -> & _ & Hh)].
  - rewrite (proj2 (Z.eqb_neq rc 0) Hrc). cbn [negb].
    destruct (free_event_ok (set_tm t' (set_renewals (<[ev:=r]> (renewals x)) x)) p ps q evs ev)
      as (x' & -> & Hs' & Hsub').
    + assert (Hp : map ev_arg q ++ ev :: evs ≡ₚ ev :: map ev_arg q ++ evs)
        by (by rewrite <- Permutation_middle).
      split; cbn; try done; [by exists n'|by rewrite Hp; constructor
        |by rewrite Hp; apply not_elem_of_cons|intros a; by rewrite Hdom, Hp].
    + cbn [mbind option_bind]. exists rc, x', q. rewrite Hsub'. done.
  - cbn [Z.eqb negb].
    set (e := Event _ _ _ _) in Hh. set (x1 := set_tm t' _).
    assert (Hs1 : storep x1 p ps (insert_event e q) evs).
    { assert (Hp : map ev_arg (insert_event e q) ++ evs ≡ₚ ev :: map ev_arg q ++ evs)
        by (by rewrite insert_event_perm).
      split; cbn; try done; [by exists n'|by rewrite Hp; constructor
        |by rewrite Hp; apply not_elem_of_cons|intros a; by rewrite Hdom, Hp]. }
    match goal with |- context [upd_sub sub ?f x1] =>
      destruct (upd_sub_ok x1 p ps _ evs sub f Hs1 Hsub (fun z => eq_refl)) as (x2 & -> & Hs2 & L2 & D2 & _) end.
    cbn [mbind option_bind]. by exists GENA_SUCCESS, x2, (insert_event e q).
Qed.
End GenaFacts.

(** ** Sections *)

Section Sections.
Context `{Malloc, Resolver, Heap} {T : Type} `{TimerIface T}.
Implicit Types (s : gsys T).

(** The first subscription of the client, or 0. *)
Definition head s : Z :=
  match client_info 1 (HandleTable s) with Some i => ClientSubList i | None => 0 end.

(** The list of the client starts with a freed subscription. *)
Definition dangling s : bool :=
  negb (head s =? 0) && bool_decide (subs (st s) !! head s = None).

(** At most one client, with handle 1. *)
Definition handles_ok s : Prop :=
  HandleTable s = HandleTable0 /\ UpnpSdkClientRegistered s = false
  \/ exists i, HandleTable s = <[1%nat := Some i]> HandleTable0 /\ HType i = HND_CLIENT
       /\ UpnpSdkClientRegistered s = true.

(** The renewal a thread works for. *)
Definition origin_event (o : origin) : list Z := match o with Auto ev => [ev] | _ => [] end.
Definition thread_event (th : gthread) : list Z :=
  match th with
  | SubStart o _ _ _ | SubBad o _ _ | SubWait o _ _ _ | SubNet o _ _ _
  | RenStart o _ _ _ | RenNet o _ _ _ _ | UnsStart o _ _ | UnsNet o _ _ _ => origin_event o
  | AutoStart ev | AutoEnd ev _ _ => [ev]
  | _ => []
  end.

(** Threads that keep the handle lock, and that hold the subscribe lock. *)
Definition keeps_handle_lock (th : gthread) : nat := match th with SubBad _ _ _ => 1 | _ => 0 end.
Definition holds_subscribe_lock (th : gthread) : nat :=
  match th with SubNet _ _ _ _ | NotHeld _ _ => 1 | _ => 0 end.

(** The state between two sections; [evs], [nb], [nl]: renewals, kept handle locks and
    subscribe locks of the threads. *)
Record core s (q : list TimerEvent) (evs : list Z) (nb nl : nat) : Prop := {
  co_table : handles_ok s;
  co_store : exists ps, storep (st s) (head s) ps q evs;
  co_readers : readers s = nb;
  co_lock : nl = if sub_lock s then 1%nat else 0%nat
}.

Definition good s evs nb nl (r : outcome (gsys T * gthread)) : Prop :=
  match r with
  | Fault => False
  | Blocked => True
  | Ran (s', th) =>
      threads s' = threads s /\
      (dangling s' = true \/
       exists q, core s' q (thread_event th ++ evs) (keeps_handle_lock th + nb)
                      (holds_subscribe_lock th + nl))
  end.

Lemma handle_at_0 h : handle_at HandleTable0 h = None.
Proof.
  unfold handle_at, HandleTable0. case_match eqn:E; [|done].
  apply list_elem_of_lookup_2 in E. by apply elem_of_replicate_inv in E.
Qed.
Lemma handle_at_1 h i : 1 <= h -> handle_at (<[1%nat := Some i]> HandleTable0) h = if h =? 1 then Some i else None.
Proof.
  intros Hh. destruct (Z.eqb_spec h 1) as [->|Hne].
  - done.
  - unfold handle_at. rewrite list_lookup_insert_ne by lia. apply handle_at_0.
Qed.

Lemma client_info_ok s h i :
  handles_ok s -> client_info h (HandleTable s) = Some i ->
  h = 1 /\ HandleTable s = <[1%nat := Some i]> HandleTable0 /\ HType i = HND_CLIENT
  /\ UpnpSdkClientRegistered s = true /\ head s = ClientSubList i.
Proof.
  intros Ht. unfold client_info, GetHandleInfo.
  destruct ((h <? 1) || (NUM_HANDLE <=? h)) eqn:Eh; [done|].
  apply orb_false_iff in Eh as [Eh _]. apply Z.ltb_ge in Eh.
  destruct Ht as [[Ht Hr]|(j & Ht & Hj & Hr)]; rewrite Ht.
  - by rewrite handle_at_0.
  - rewrite handle_at_1 by done. destruct (Z.eqb_spec h 1) as [->|]; [|done].
    cbn [mbind option_bind]. rewrite decide_True by done. intros [= <-].
    repeat split; try done. unfold head, client_info, GetHandleInfo. rewrite Ht.
    cbn [Z.ltb Z.leb Z.compare orb Pos.compare Pos.compare_cont NUM_HANDLE].
    rewrite handle_at_1 by done. cbn. by rewrite decide_True.
Qed.

Lemma head_link s i p s' :
  HandleTable s = <[1%nat := Some i]> HandleTable0 -> HType i = HND_CLIENT ->
  HandleTable s' = set_sub_list 1 p (HandleTable s) ->
  HandleTable s' = <[1%nat := Some (HInfo HND_CLIENT (Callback i) (Cookie i) p)]> HandleTable0
  /\ head s' = p.
Proof.
  intros Ht Hi E. unfold set_sub_list, GetHandleInfo in E. rewrite Ht in E. cbn -[insert HandleTable0] in E.
  rewrite handle_at_1 in E by done. cbn -[insert HandleTable0] in E. rewrite Hi in E.
  rewrite list_insert_insert_eq in E. split; [done|].
  unfold head. rewrite E. unfold client_info, GetHandleInfo. cbn -[insert HandleTable0].
  rewrite handle_at_1 by done. done.
Qed.

(** A section that changes the store under the list, or relinks it. *)
Lemma core_st s q evs nb nl x q' evs' :
  core s q evs nb nl -> (exists ps, storep x (head s) ps q' evs') -> core (set_st x s) q' evs' nb nl.
Proof. intros [H1' H2' H3' H4'] Hx. by split. Qed.

Lemma core_relink s q evs nb nl x hd ps q' h i :
  core s q evs nb nl -> client_info h (HandleTable s) = Some i -> storep x hd ps q' evs ->
  core (set_table (set_sub_list h hd (HandleTable s)) (set_st x s)) q' evs nb nl.
Proof.
  intros [H1' H2' H3' H4'] Hc Hx. destruct (client_info_ok _ _ _ H1' Hc) as (-> & Ht & Hi & Hr & _).
  destruct (head_link s i hd (set_table (set_sub_list 1 hd (HandleTable s)) (set_st x s)) Ht Hi eq_refl)
    as [E Hh].
  split; [|rewrite Hh; by exists ps|done|done].
  right. eexists. split; [exact E|done].
Qed.

Lemma core_deliver s q evs nb nl d : core s q evs nb nl -> core (deliver d s) q evs nb nl.
Proof. intros [H1' H2' H3' H4']. by split. Qed.
Lemma core_answer s q evs nb nl c : core s q evs nb nl -> core (error_respond c s) q evs nb nl.
Proof. intros [H1' H2' H3' H4']. by split. Qed.

Lemma writing_good s evs nb nl k :
  (exists r, k = Some r /\ good s evs nb nl (Ran r)) -> good s evs nb nl (writing s k).
Proof. intros (r & -> & Hr). unfold writing. by destruct (decide _). Qed.

Lemma good_core s s' th q evs nb nl :
  threads s' = threads s ->
  core s' q (thread_event th ++ evs) (keeps_handle_lock th + nb) (holds_subscribe_lock th + nl) ->
  good s evs nb nl (Ran (s', th)).
Proof. intros Ht Hc. split; [done|]. right. by exists q. Qed.

(** The end of a GENA function in a state that is fine. *)
Lemma finish_good s s' o ty rc sid timeout q evs nb nl :
  threads s' = threads s -> core s' q (origin_event o ++ evs) nb nl ->
  good s evs nb nl (Ran (finish o ty rc sid timeout s')).
Proof.
  intros Ht Hc. destruct o; cbn; (split; [done|]); right; exists q; cbn in Hc;
    [done|by apply core_deliver|done].
Qed.

(** *** Section by section *)

Lemma sub_start_good s q evs nb nl o h url timeout :
  core s q (origin_event o ++ evs) nb nl -> good s evs nb nl (sub_start o h url timeout s).
Proof.
  intros Hc. unfold sub_start. destruct (client_info _ _); (eapply good_core; [done|]); [exact Hc|].
  destruct Hc as [? ? <- ?]. by split.
Qed.

Lemma sub_bad_good s q evs nb nl o timeout :
  core s q (origin_event o ++ evs) (S nb) nl -> good s evs nb nl (sub_bad o timeout s).
Proof.
  intros Hc. unfold sub_bad, subscribing. destruct (sub_lock s); [done|].
  eapply finish_good; [done|]. destruct Hc as [? ? Hr ?]. split; try done. cbn. by rewrite Hr.
Qed.

Lemma take_lock s q evs nb nl :
  sub_lock s = false -> core s q evs nb nl -> core (set_sub_lock true s) q evs nb (S nl).
Proof. intros Hl [? ? ? ->]. rewrite Hl. by split. Qed.
Lemma leave_lock s q evs nb nl :
  core s q evs nb (S nl) -> core (set_sub_lock false s) q evs nb nl.
Proof. intros [? ? ? Hn]. split; try done. cbn. destruct (sub_lock s); by inversion Hn. Qed.

Lemma sub_wait_good s q evs nb nl o h url timeout :
  core s q (origin_event o ++ evs) nb nl -> good s evs nb nl (sub_wait o h url timeout s).
Proof.
  intros Hc. unfold sub_wait, subscribing. destruct (sub_lock s) eqn:El; [done|].
  eapply good_core; [done|]. by apply take_lock.
Qed.

Hypothesis alloc : forall used, is_Some (malloc used sizeof_ClientSubscription).

Lemma sub_link_good e h i url actual sid timeout s q evs nb nl :
  core s q evs nb nl -> client_info h (HandleTable s) = Some i ->
  exists rc s', sub_link e h i url actual sid timeout s = Some (rc, s') /\ threads s' = threads s
    /\ (dangling s' = true \/ exists q', core s' q' evs nb nl).
Proof.
  intros Hc Hi. pose proof Hc as [Ht [ps Hs] _ _].
  destruct (client_info_ok _ _ _ Ht Hi) as (-> & Htab & Hty & Hreg & Hhd).
  unfold sub_link. destruct (alloc (dom (subs (st s)))) as [p Hp]. rewrite Hp.
  apply malloc_ok in Hp as [Hz Hd]. set (new := UpnpClientSubscription_set_Next _ _).
  assert (Hn : p ∉ ps).
  { intros Hi'. apply Hd, elem_of_dom. by eapply seg_some, Hi'; apply Hs. }
  assert (Hs1 : storep (set_subs (<[p := new]> (subs (st s))) (st s)) p (p :: ps) q evs).
  { eapply storep_subs; [exact Hs| |by apply NoDup_cons; split; [done|apply Hs]].
    cbn. split; [done|]. split; [done|]. exists new. rewrite lookup_insert_eq. split; [done|].
    cbn. eapply seg_links; [rewrite <- Hhd; apply Hs|]. intros a Ha.
    rewrite lookup_insert_ne; [done|by intros ->]. }
  destruct (ScheduleGenaAutoRenew_ok _ _ _ _ _ (e_struct_ok e) (e_now e) 1 timeout p Hs1)
    as (rc & x & q' & -> & Hs2 & _ & Hdom); [cbn; rewrite lookup_insert_eq; by eexists|].
  cbn [mbind option_bind]. destruct (negb (rc =? 0)).
  - unfold UpnpClientSubscription_delete. rewrite (proj2 (Z.eqb_neq p 0) Hz).
    pose proof (so_chain _ _ _ _ _ Hs2) as (_ & _ & y & Hy & _). rewrite Hy. cbn [mbind option_bind].
    eexists rc, _. split; [done|]. split; [done|]. left.
    set (s' := set_table _ _). destruct (head_link s i p s' Htab Hty eq_refl) as [_ Hh].
    unfold dangling. rewrite Hh, (proj2 (Z.eqb_neq p 0) Hz), bool_decide_true; [done|].
    cbn. apply lookup_delete_eq.
  - cbn [mbind option_bind]. eexists rc, _. split; [done|]. split; [done|]. right. exists q'.
    by eapply core_relink.
Qed.

Lemma sub_net_good s q evs nb nl e o h url timeout :
  core s q (origin_event o ++ evs) nb (S nl) -> good s evs nb nl (sub_net e o h url timeout s).
Proof.
  intros Hc. apply leave_lock in Hc. apply writing_good.
  destruct (gena_subscribe _ _ _) as [[rc timeout'] actual].  cbv zeta.
  destruct (negb (rc =? 0)); [eexists; split; [done|by eapply finish_good]|].
  destruct (client_info h (HandleTable (set_sub_lock false s))) as [i|] eqn:Ei;
    [|eexists; split; [done|by eapply finish_good]].
  destruct (SID_SIZE <=? _); [eexists; split; [done|by eapply finish_good]|].
  match goal with |- context [sub_link e h i url ?a ?sd ?t ?s'] =>
    destruct (sub_link_good e h i url a sd t s' _ _ _ _ Hc Ei) as (rc' & s1 & -> & Ht & Hd) end.
  cbn [mbind option_bind]. eexists. split; [done|].
  destruct Hd as [Hd|[q' Hd]]; [|by eapply finish_good].
  destruct o; cbn; (split; [done|]); by left.
Qed.

Lemma auto_start_good s q evs nb nl event :
  core s q (event :: evs) nb nl -> good s evs nb nl (auto_start event s).
Proof.
  intros Hc. pose proof Hc as [_ [ps Hs] _ _]. unfold auto_start.
  destruct (proj2 (so_dom _ _ _ _ _ Hs event)) as [r ->]; [set_solver|].
  destruct (AUTO_RENEW_TIME =? 0); by eapply good_core.
Qed.

Lemma find_good s q evs nb nl h i test :
  core s q evs nb nl -> client_info h (HandleTable s) = Some i ->
  exists p, find_sub_loop (list_fuel (st s)) test (ClientSubList i) (st s) = Some p
    /\ (p = 0 \/ p <> 0 /\ exists y, subs (st s) !! p = Some y).
Proof.
  intros Hc Ei. pose proof Hc as [Ht [ps Hs] _ _].
  pose proof (client_info_ok _ _ _ Ht Ei) as (_ & _ & _ & _ & Hhd). rewrite <- Hhd.
  destruct (find_sub_ok _ _ _ _ _ test Hs) as (p & -> & Hp). exists p. split; [done|].
  destruct (decide (p = 0)); [by left|right]. split; [done|].
  destruct Hp as [|(_ & y & Hy & _)]; [done|]. by exists y.
Qed.

Lemma ren_start_good s q evs nb nl o h sid timeout :
  core s q (origin_event o ++ evs) nb nl -> good s evs nb nl (ren_start o h sid timeout s).
Proof.
  intros Hc. apply writing_good. destruct (client_info h (HandleTable s)) as [i|] eqn:Ei;
    [|eexists; split; [done|by eapply finish_good]].
  pose proof Hc as [_ [ps Hs] _ _].
  unfold GetClientSubClientSID. match goal with |- context [find_sub_loop _ ?f _ _] =>
    destruct (find_good _ _ _ _ _ _ _ f Hc Ei) as (p & -> & Hp) end. cbn [mbind option_bind].
  destruct Hp as [->|(Ep & y & Hy)]; [eexists; split; [done|by eapply finish_good]|].
  rewrite (proj2 (Z.eqb_neq p 0) Ep). rewrite Hy. cbn [mbind option_bind].
  destruct (remove_renewal_ok _ _ _ _ _ (m_renewEventId y) Hs) as (x1 & q1 & -> & Hs1 & E1).
  cbn [mbind option_bind].
  destruct (upd_sub_ok x1 _ _ _ _ p (UpnpClientSubscription_set_RenewEventId (-1)) Hs1)
    as (x2 & -> & Hs2 & _); [rewrite E1; by eexists|done|].
  cbn [mbind option_bind]. eexists. split; [done|]. eapply good_core; [done|].
  eapply core_st; [exact Hc|]. by exists ps.
Qed.

Lemma remove_sid_good s q evs nb nl h i sid :
  core s q evs nb nl -> client_info h (HandleTable s) = Some i ->
  exists hd x q', RemoveClientSubClientSID (ClientSubList i) sid (st s) = Some (hd, x)
    /\ core (set_table (set_sub_list h hd (HandleTable s)) (set_st x s)) q' evs nb nl.
Proof.
  intros Hc Ei. pose proof Hc as [Ht [ps Hs] _ _].
  pose proof (client_info_ok _ _ _ Ht Ei) as (_ & _ & _ & _ & Hhd). rewrite <- Hhd.
  destruct (RemoveClientSubClientSID_ok _ _ _ _ _ sid Hs) as (hd & x & ps' & q' & -> & Hs').
  exists hd, x, q'. split; [done|]. by eapply core_relink.
Qed.

Lemma ren_net_good s q evs nb nl e o h sid timeout :
  core s q (origin_event o ++ evs) nb nl -> good s evs nb nl (ren_net e o h sid timeout s).
Proof.
  intros Hc. apply writing_good. destruct (gena_subscribe _ _ _) as [[rc timeout'] actual].
  destruct (client_info h (HandleTable s)) as [i|] eqn:Ei;
    [|eexists; split; [done|by eapply finish_good]].
  destruct (negb (rc =? 0)).
  { destruct (remove_sid_good _ _ _ _ _ _ _ sid Hc Ei) as (hd & x & q' & -> & Hc').
    eexists. split; [done|by eapply finish_good]. }
  pose proof Hc as [_ [ps Hs] _ _].
  unfold GetClientSubClientSID. match goal with |- context [find_sub_loop _ ?f _ _] =>
    destruct (find_good _ _ _ _ _ _ _ f Hc Ei) as (p & -> & Hp) end. cbn [mbind option_bind].
  destruct Hp as [->|(Ep & y & Hy)]; [eexists; split; [done|by eapply finish_good]|].
  rewrite (proj2 (Z.eqb_neq p 0) Ep).
  match goal with |- context [upd_sub p ?f _] =>
    destruct (upd_sub_ok _ _ _ _ _ p f Hs) as (x1 & -> & Hs1 & L1 & D1 & _); [by eexists|done|] end.
  cbn [mbind option_bind].
  assert (Hp1 : is_Some (subs x1 !! p)) by (eapply same_links_some; [exact L1|by eexists]).
  destruct (ScheduleGenaAutoRenew_ok _ _ _ _ _ (e_struct_ok e) (e_now e) h timeout' p Hs1 Hp1)
    as (rc' & x2 & q2 & -> & Hs2 & L2 & _). cbn [mbind option_bind].
  assert (Hc2 : core (set_st x2 s) q2 (origin_event o ++ evs) nb nl)
    by (eapply core_st; [exact Hc|by exists ps]).
  destruct (negb (rc' =? 0)); [|eexists; split; [done|by eapply finish_good]].
  destruct (same_links_some _ _ _ L2 Hp1) as [v Hv]. rewrite Hv. cbn [mbind option_bind].
  destruct (remove_sid_good (set_st x2 s) _ _ _ _ _ _ (m_SID v) Hc2 Ei) as (hd & x & q' & E & Hc').
  cbn [st set_st] in E. rewrite E. cbn [mbind option_bind].
  eexists. split; [done|by eapply finish_good].
Qed.

Lemma auto_end_good s q evs nb nl event rc timeout :
  core s q (event :: evs) nb nl -> good s evs nb nl (auto_end event rc timeout s).
Proof.
  intros Hc. pose proof Hc as [_ [ps Hs] _ _]. unfold auto_end.
  destruct (proj2 (so_dom _ _ _ _ _ Hs event)) as [r ->]; [set_solver|]. cbv zeta.
  set (s1 := match _ with Some _ => _ | None => s end).
  assert (Hc1 : core s1 q (event :: evs) nb nl /\ threads s1 = threads s).
  { unfold s1. destruct (if AUTO_RENEW_TIME =? 0 then _ else _); [|done].
    destruct (client_info _ _); [|done]. split; [by apply core_deliver|done]. }
  destruct Hc1 as [Hc1 E1]. pose proof Hc1 as [_ [ps1 Hs1] _ _].
  destruct (free_event_ok _ _ _ _ _ _ Hs1) as (x & -> & Hx & _).
  eapply good_core; [exact E1|]. eapply core_st; [exact Hc1|by exists ps1].
Qed.

Lemma uns_start_good s q evs nb nl o h sid :
  core s q (origin_event o ++ evs) nb nl -> good s evs nb nl (uns_start o h sid s).
Proof.
  intros Hc. apply writing_good. destruct (client_info h (HandleTable s)) as [i|] eqn:Ei;
    [|eexists; split; [done|by eapply finish_good]].
  pose proof Hc as [_ [ps Hs] _ _].
  unfold GetClientSubClientSID. match goal with |- context [find_sub_loop _ ?f _ _] =>
    destruct (find_good _ _ _ _ _ _ _ f Hc Ei) as (p & -> & Hp) end. cbn [mbind option_bind].
  destruct Hp as [->|(Ep & y & Hy)]; [eexists; split; [done|by eapply finish_good]|].
  rewrite (proj2 (Z.eqb_neq p 0) Ep). rewrite Hy. cbn [mbind option_bind].
  eexists. split; [done|by eapply good_core].
Qed.

Lemma uns_net_good s q evs nb nl e o h sid :
  core s q (origin_event o ++ evs) nb nl -> good s evs nb nl (uns_net e o h sid s).
Proof.
  intros Hc. apply writing_good. cbv zeta. destruct (client_info h (HandleTable s)) as [i|] eqn:Ei;
    [|eexists; split; [done|by eapply finish_good]].
  destruct (remove_sid_good _ _ _ _ _ _ _ sid Hc Ei) as (hd & x & q' & -> & Hc').
  eexists. split; [done|by eapply finish_good].
Qed.

Lemma unreg_loop_good s q evs nb nl h : core s q evs nb nl -> good s evs nb nl (unreg_loop h s).
Proof.
  intros Hc. apply writing_good. destruct (client_info h (HandleTable s)) as [i|] eqn:Ei;
    [|eexists; split; [done|by eapply good_core]].
  pose proof Hc as [Ht [ps Hs] _ _]. pose proof (client_info_ok _ _ _ Ht Ei) as (_ & _ & _ & _ & Hhd).
  destruct (Z.eqb_spec (ClientSubList i) 0) as [E0|Hne].
  - rewrite E0. cbn. eexists. split; [done|]. eapply good_core; [done|].
    eapply core_st; [exact Hc|by exists ps].
  - pose proof (so_chain _ _ _ _ _ Hs) as Hch. destruct ps as [|a ps]; cbn in Hch; [congruence|].
    destruct Hch as (Ea & _ & y & Hy & _). rewrite <- Hhd, Ea, Hy, <- Ea, Hhd. cbn [mbind option_bind].
    match goal with |- context [RemoveClientSubClientSID _ ?sd _] =>
      destruct (remove_sid_good _ _ _ _ _ _ _ sd Hc Ei) as (hd & x & q' & -> & Hc') end.
    eexists. split; [done|by eapply good_core].
Qed.

Lemma unreg_end_good s q evs nb nl h : core s q evs nb nl -> good s evs nb nl (unreg_end h s).
Proof.
  intros Hc. apply writing_good. pose proof Hc as [Ht [ps Hs] Hr Hl].
  destruct (GetHandleInfo h (HandleTable s)) as [i|] eqn:Ei;
    [|eexists; split; [done|by eapply good_core]].
  eexists. split; [done|]. eapply good_core; [done|].
  unfold GetHandleInfo in Ei. unfold FreeHandle.
  destruct ((h <? 1) || (NUM_HANDLE <=? h)) eqn:Eh; [done|]. rewrite Ei.
  apply orb_false_iff in Eh as [Eh _]. apply Z.ltb_ge in Eh.
  destruct Ht as [[Ht _]|(j & Ht & _)]; rewrite Ht in Ei |- *; [by rewrite handle_at_0 in Ei|].
  rewrite handle_at_1 in Ei by done. destruct (Z.eqb_spec h 1) as [->|]; [|done].
  cbn [snd]. change (Z.to_nat 1) with 1%nat. rewrite list_insert_insert_eq.
  assert (E0 : <[1%nat := None]> HandleTable0 = HandleTable0) by (by rewrite list_insert_id).
  rewrite E0. split; [by left| |done|done].
  exists []. destruct Hs. split; try done. apply NoDup_nil_2.
Qed.


(** Both sections of a notification look the subscription up. *)
Lemma not_reject_good s s' q evs nb nl :
  threads s' = threads s -> core s' q evs nb nl -> good s evs nb nl (Ran (not_reject s')).
Proof. intros Ht Hc. eapply good_core; [done|]. by apply core_answer. Qed.

Lemma not_deliver_good s s' q evs nb nl h i sid :
  threads s' = threads s -> core s' q evs nb nl -> client_info h (HandleTable s') = Some i ->
  exists p, GetClientSubActualSID (ClientSubList i) sid (st s') = Some p
    /\ (p = 0 \/ p <> 0 /\ forall eventKey, exists r, not_deliver i p eventKey s' = Some r
                            /\ good s evs nb nl (Ran r)).
Proof.
  intros Ht Hc Ei. unfold GetClientSubActualSID.
  destruct (find_good _ _ _ _ _ _ _ (actual_sid_match sid) Hc Ei) as (p & -> & Hp).
  exists p. split; [done|]. destruct Hp as [->|(Hp & y & Hy)]; [by left|right]. split; [done|].
  intros eventKey. unfold not_deliver. rewrite Hy. cbn [mbind option_bind]. eexists. split; [done|].
  eapply good_core; [exact Ht|]. by apply core_deliver, core_answer.
Qed.

Lemma GetClientHandleInfo_client t h i :
  GetClientHandleInfo t = Some (h, i) -> client_info h t = Some i.
Proof.
  unfold GetClientHandleInfo. destruct (client_info 1 t) eqn:E1; [by intros [= <- <-]|].
  destruct (client_info 2 t) eqn:E2; [by intros [= <- <-]|done].
Qed.

Lemma not_start_good s q evs nb nl sid eventKey :
  core s q evs nb nl -> good s evs nb nl (not_start sid eventKey s).
Proof.
  intros Hc. apply writing_good. destruct (GetClientHandleInfo (HandleTable s)) as [[h i]|] eqn:Ei;
    [|eexists; split; [done|by eapply not_reject_good]].
  apply GetClientHandleInfo_client in Ei.
  destruct (not_deliver_good s s _ _ _ _ h i sid eq_refl Hc Ei) as (p & -> & Hp). cbn [mbind option_bind].
  destruct Hp as [->|[Hp Hd]].
  - cbn [negb Z.eqb]. destruct (eventKey =? 0); eexists; (split; [done|]);
      [by eapply good_core|by eapply not_reject_good].
  - rewrite (proj2 (Z.eqb_neq p 0) Hp). apply Hd.
Qed.

Lemma not_wait_good s q evs nb nl sid eventKey :
  core s q evs nb nl -> good s evs nb nl (not_wait sid eventKey s).
Proof.
  intros Hc. unfold not_wait, subscribing. destruct (sub_lock s) eqn:El; [done|].
  eapply good_core; [done|]. by apply take_lock.
Qed.

Lemma not_held_good s q evs nb nl sid eventKey :
  core s q evs nb (S nl) -> good s evs nb nl (not_held sid eventKey s).
Proof.
  intros Hc. apply leave_lock in Hc. apply writing_good. cbv zeta.
  destruct (GetClientHandleInfo (HandleTable (set_sub_lock false s))) as [[h i]|] eqn:Ei;
    [|eexists; split; [done|by eapply not_reject_good]].
  apply GetClientHandleInfo_client in Ei.
  destruct (not_deliver_good s (set_sub_lock false s) _ _ _ _ h i sid eq_refl Hc Ei) as (p & -> & Hp).
  cbn [mbind option_bind]. destruct Hp as [->|[Hp Hd]].
  - eexists. split; [done|by eapply not_reject_good].
  - rewrite (proj2 (Z.eqb_neq p 0) Hp). apply Hd.
Qed.

Lemma section_good s q evs nb nl e th :
  core s q (thread_event th ++ evs) (keeps_handle_lock th + nb) (holds_subscribe_lock th + nl) ->
  good s evs nb nl (section e th s).
Proof.
  intros Hc. destruct th; cbn [section];
    [by eapply sub_start_good|by eapply sub_bad_good|by eapply sub_wait_good|by eapply sub_net_good
    |by eapply auto_start_good|by eapply ren_start_good|by eapply ren_net_good|by eapply auto_end_good
    |by eapply uns_start_good|by eapply uns_net_good| |by eapply unreg_loop_good
    |by eapply good_core|by eapply unreg_end_good|by eapply not_start_good|by eapply not_wait_good
    |by eapply not_held_good|by eapply good_core].
  unfold unreg_start. apply writing_good. destruct (negb _); eexists; (split; [done|by eapply good_core]).
Qed.

(** *** Actions *)

Definition thread_events (l : list gthread) : list Z := l ≫= thread_event.
Definition kept (l : list gthread) : nat := sum_list (map keeps_handle_lock l).
Definition held (l : list gthread) : nat := sum_list (map holds_subscribe_lock l).
Definition ginv s : Prop :=
  exists q, core s q (thread_events (threads s)) (kept (threads s)) (held (threads s)).

Lemma core_threads s q evs nb nl l : core s q evs nb nl -> core (set_threads l s) q evs nb nl.
Proof. intros [? ? ? ?]. by split. Qed.

Lemma core_perm s q evs evs' nb nl : evs ≡ₚ evs' -> core s q evs nb nl -> core s q evs' nb nl.
Proof. intros Hp [? [ps Hs] ? ?]. split; try done. exists ps. by eapply storep_perm. Qed.

Lemma threads_app l1 l2 :
  thread_events (l1 ++ l2) = thread_events l1 ++ thread_events l2
  /\ kept (l1 ++ l2) = (kept l1 + kept l2)%nat /\ held (l1 ++ l2) = (held l1 + held l2)%nat.
Proof.
  unfold thread_events, kept, held. rewrite bind_app. split; [done|]. split; induction l1; cbn; lia.
Qed.

Lemma threads_mid l1 th l2 :
  thread_events (l1 ++ th :: l2) ≡ₚ thread_event th ++ thread_events (l1 ++ l2)
  /\ kept (l1 ++ th :: l2) = (keeps_handle_lock th + kept (l1 ++ l2))%nat
  /\ held (l1 ++ th :: l2) = (holds_subscribe_lock th + held (l1 ++ l2))%nat.
Proof.
  destruct (threads_app l1 (th :: l2)) as (-> & -> & ->). destruct (threads_app l1 l2) as (-> & -> & ->).
  split; [|unfold kept, held; cbn; lia].
  unfold thread_events at 2. rewrite bind_cons. fold (thread_events l2).
  rewrite !app_assoc. by rewrite (Permutation_app_comm (thread_events l1)).
Qed.

(** What an action leaves behind. *)
Definition kept_up (r : outcome (gsys T)) : Prop :=
  match r with Fault => False | Blocked => True | Ran s => dangling s = true \/ ginv s end.

Lemma run_thread_ok s i e : ginv s -> kept_up (run_thread i e s).
Proof.
  intros [q Hc]. unfold run_thread. destruct (threads s !! i) as [th|] eqn:Ei;
    [|right; by exists q].
  pose proof (take_drop_middle _ _ _ Ei) as El. revert Hc.
  set (l1 := take i (threads s)) in *. set (l2 := drop (S i) (threads s)) in *.
  assert (Hi : forall th', <[i := th']> (threads s) = l1 ++ th' :: l2).
  { intros th'. rewrite <- El at 1. apply lookup_lt_Some in Ei.
    assert (Hlen : i = (length l1 + 0)%nat) by (unfold l1; rewrite length_take; lia).
    rewrite Hlen at 1. by rewrite insert_app_r. }
  rewrite <- El at 1 2 3. destruct (threads_mid l1 th l2) as (Hp & -> & ->). intros Hc.
  apply (core_perm _ _ _ _ _ _ Hp) in Hc. pose proof (section_good _ _ _ _ _ e _ Hc) as Hg.
  destruct (section e th s) as [| |[s' th']]; [done|done|]. destruct Hg as [Ht Hg].
  cbn. rewrite Ht, Hi. destruct Hg as [Hg|[q' Hg]]; [by left|right]. exists q'.
  destruct (threads_mid l1 th' l2) as (Hp' & E1 & E2). cbn [threads set_threads]. rewrite E1, E2.
  apply core_threads. eapply core_perm; [by symmetry|done].
Qed.

Lemma add_threads s q l :
  core s q (thread_events (threads s)) (kept (threads s)) (held (threads s)) ->
  thread_events l = [] -> kept l = 0%nat -> held l = 0%nat ->
  ginv (set_threads (threads s ++ l) s).
Proof.
  intros Hc H1' H2' H3'. exists q. cbn [threads set_threads].
  destruct (threads_app (threads s) l) as (-> & -> & ->). rewrite H1', H2', H3', app_nil_r, !Nat.add_0_r.
  by apply core_threads.
Qed.

Lemma start_call_ok c s q evs nb nl :
  core s q evs nb nl ->
  let '(l, s') := start_call c s in
  core s' q evs nb nl /\ threads s' = threads s /\ thread_events l = [] /\ kept l = 0%nat /\ held l = 0%nat.
Proof.
  intros Hc. destruct c; cbn [start_call]; unfold call_UpnpSubscribe, call_UpnpSubscribeAsync, call_UpnpUnSubscribe, call_UpnpUnSubscribeAsync, call_UpnpRenewSubscription, call_UpnpRenewSubscriptionAsync, call_genaCallback, call_ret, async_job;
    repeat case_match; simplify_eq;
    try done; (split; [by apply core_answer|done]).
Qed.

Lemma hand_over_ok hs s q :
  (exists evs, evs ≡ₚ map ev_arg (map h_event hs) ++ thread_events (threads s)
     /\ core s q evs (kept (threads s)) (held (threads s))) ->
  exists s', hand_over hs s = Some s' /\ ginv s'.
Proof.
  revert s. induction hs as [|h hs IH]; intros s (evs & Hp & Hc); cbn [hand_over].
  - exists s. split; [done|]. exists q. by eapply core_perm.
  - cbn [map app] in Hp. apply (core_perm _ _ _ _ _ _ Hp) in Hc. cbv zeta.
    destruct (h_rc h =? 0).
    + apply IH. cbn [threads set_threads].
      destruct (threads_app (threads s) [AutoStart (arg (job (h_event h)))]) as (-> & -> & ->).
      eexists. split; [reflexivity|]. rewrite !Nat.add_0_r. apply core_threads.
      eapply core_perm; [|exact Hc]. cbn. rewrite app_assoc. apply Permutation_cons_append.
    + pose proof Hc as [_ [ps Hs] _ _]. destruct (free_event_ok _ _ _ _ _ _ Hs) as (x & E & Hx & _).
      unfold ev_arg in E at 1. rewrite E. cbn [mbind option_bind]. apply IH.
      eexists. split; [reflexivity|]. eapply core_st; [exact Hc|by exists ps].
Qed.

Lemma register_ok ok fn cookie s : ginv s -> ginv (UpnpRegisterClient ok fn cookie s).2.
Proof.
  intros [q Hc]. pose proof Hc as [Ht [ps Hs] Hr Hl].
  assert (Hi : ginv s) by (by exists q). unfold UpnpRegisterClient.
  destruct (negb (UpnpSdkInit s)); [done|]. destruct (fn =? 0); [done|].
  destruct (UpnpSdkClientRegistered s) eqn:Er; [done|].
  destruct Ht as [[Ht _]|(j & _ & _ & Hj)]; [|congruence]. cbv zeta.
  destruct (_ =? UPNP_E_OUTOF_HANDLE); [done|]. destruct (negb ok); [done|]. cbn [snd].
  rewrite Ht. change (Z.to_nat (GetFreeHandle HandleTable0)) with 1%nat.
  exists q. split; [right; by eexists| |done|done].
  assert (Hh : head s = 0) by (unfold head; by rewrite Ht). rewrite Hh in Hs.
  exists []. pose proof (so_chain _ _ _ _ _ Hs) as Hch. destruct ps as [|a ps]; [exact Hs|].
  cbn in Hch. by destruct Hch as (<- & ? & _).
Qed.

Lemma timer_ok e s : ginv s -> kept_up (g_exec (OTimer e) s).
Proof.
  intros [q Hc]. pose proof Hc as [Ht [ps Hs] Hr Hl]. cbn [g_exec].
  destruct (so_tm _ _ _ _ _ Hs) as [n Hn].
  destruct (tm_worker_ok e _ _ _ Hn) as (t' & q' & hs & -> & Hn' & Hq).
  destruct (hand_over_ok hs (set_st (set_tm t' (st s)) s) q') as (s' & -> & Hs'); [|by right].
  eexists. split; [reflexivity|]. eapply core_st; [exact Hc|]. exists ps.
  assert (Hp : map ev_arg q ++ thread_events (threads s)
    ≡ₚ map ev_arg q' ++ map ev_arg (map h_event hs) ++ thread_events (threads s)).
  { rewrite Hq, map_app, <- !app_assoc. by rewrite !app_assoc, (Permutation_app_comm (map ev_arg (map _ _))). }
  destruct Hs as [H1' H2' H3' H4' H5' H6']. split; cbn; try done; [by exists n|by rewrite <- Hp|by rewrite <- Hp|].
  intros a. by rewrite H6', Hp.
Qed.

Lemma g_exec_ok op s : ginv s -> kept_up (g_exec op s).
Proof.
  intros Hi. destruct op as [c|ok fn cookie|i e|e].
  - destruct Hi as [q Hc]. cbn [g_exec]. pose proof (start_call_ok c _ _ _ _ _ Hc) as Hk.
    destruct (start_call c s) as [l s']. destruct Hk as (Hc' & Et & He & Hk & Hh). right.
    rewrite <- Et in Hc'. by eapply add_threads.
  - cbn [g_exec]. destruct (decide _); [|done]. right. by apply register_ok.
  - by apply run_thread_ok.
  - by apply timer_ok.
Qed.

(** The states a sequence of actions passes through. *)
Fixpoint g_trace (ops : list gop) s : list (gsys T) :=
  s :: match ops with
       | [] => []
       | op :: ops =>
           match g_exec op s with Fault => [] | Blocked => g_trace ops s | Ran s => g_trace ops s end
       end.

(** No state of the run has the freed subscription in front. *)
Definition never_dangling (ops : list gop) s : bool := forallb (fun s => negb (dangling s)) (g_trace ops s).

Lemma never_dangling_head ops s : never_dangling ops s = true -> dangling s = false.
Proof.
  unfold never_dangling. destruct ops; cbn; intros [Hd _]%andb_true_iff; by apply negb_true_iff.
Qed.

Lemma g_run_ok ops s :
  ginv s -> never_dangling ops s = true -> exists s', g_run ops s = Some s' /\ ginv s'.
Proof.
  revert s. induction ops as [|op ops IH]; intros s Hi Hd; cbn [g_run]; [by exists s|].
  pose proof (g_exec_ok op s Hi) as Hk. unfold never_dangling in Hd. cbn in Hd.
  apply andb_true_iff in Hd as [_ Hd].
  destruct (g_exec op s) as [| |s']; [done|by apply IH|].
  apply IH; [|done]. destruct Hk as [Hk|Hk]; [|done]. apply never_dangling_head in Hd. congruence.
Qed.
(** *** The deadlock of the two locks *)

(** Some thread keeps the handle lock as a reader, and some thread holds the subscribe
    lock: nobody who needs either lock exclusively ever gets it. *)
Definition locked s : Prop := (0 < readers s)%nat /\ sub_lock s = true.

Lemma writing_locked s k : locked s -> writing s k = Blocked.
Proof. intros [Hr _]. unfold writing. rewrite decide_False by lia. done. Qed.
Lemma subscribing_locked s k : locked s -> subscribing s k = Blocked.
Proof. intros [_ Hl]. unfold subscribing. by rewrite Hl. Qed.

Lemma auto_end_locks event rc timeout s s' th :
  auto_end event rc timeout s = Ran (s', th) -> readers s' = readers s /\ sub_lock s' = sub_lock s.
Proof. unfold auto_end. intros E. repeat case_match; simplify_eq; done. Qed.

Lemma section_locked e th s s' th' : section e th s = Ran (s', th') -> locked s -> locked s'.
Proof.
  intros E Hl. destruct th; cbn [section] in E;
    try (by (unfold ren_start, ren_net, sub_net, uns_start, uns_net, unreg_start, unreg_loop, unreg_end,
             not_start, not_held in E; rewrite writing_locked in E));
    try (by (unfold sub_bad, sub_wait, not_wait in E; rewrite subscribing_locked in E)).
  - destruct Hl as [Hr Hl]. unfold sub_start in E. case_match; simplify_eq; (split; [cbn; lia|done]).
  - unfold auto_start in E. repeat case_match; by simplify_eq.
  - apply auto_end_locks in E as [Er El]. unfold locked. by rewrite Er, El.
  - by simplify_eq.
  - by simplify_eq.
Qed.

Lemma hand_over_locked hs s s' : hand_over hs s = Some s' -> locked s -> locked s'.
Proof.
  revert s. induction hs as [|h hs IH]; intros s; cbn [hand_over]; [by intros [= <-]|].
  cbv zeta. intros E Hl. destruct (h_rc h =? 0); [by eapply IH|].
  destruct (free_upnp_timeout _ _) as [x|]; [|done]. by eapply IH.
Qed.

Lemma g_exec_locked op s s' : g_exec op s = Ran s' -> locked s -> locked s'.
Proof.
  intros E Hl. destruct op as [c|ok fn cookie|i e|e]; cbn [g_exec] in E.
  - destruct c; cbn [start_call] in E; unfold call_UpnpSubscribe, call_UpnpSubscribeAsync, call_UpnpUnSubscribe, call_UpnpUnSubscribeAsync, call_UpnpRenewSubscription, call_UpnpRenewSubscriptionAsync, call_genaCallback, call_ret, async_job in E;
    repeat case_match; by simplify_eq.
  - rewrite decide_False in E by (destruct Hl; lia). done.
  - unfold run_thread in E. destruct (threads s !! i) as [th|]; [|by simplify_eq].
    destruct (section e th s) as [| |[s1 th']] eqn:Es; simplify_eq. by apply section_locked in Es.
  - destruct (tm_worker e (tm (st s))) as [[t' hs]|]; [|done].
    destruct (hand_over hs _) as [s1|] eqn:Eh; [|done]. simplify_eq. by eapply hand_over_locked in Eh.
Qed.

Lemma g_run_locked ops s s' : g_run ops s = Some s' -> locked s -> locked s'.
Proof.
  revert s. induction ops as [|op ops IH]; intros s; cbn [g_run]; [by intros [= <-]|].
  destruct (g_exec op s) as [| |s1] eqn:E; [done|apply IH|]. intros Er Hl. eapply IH; [done|].
  by eapply g_exec_locked.
Qed.
End Sections.

(** ** Runs *)

Module Runs.
#[local] Existing Instance malloc_always.
#[local] Existing Instance resolver_two.
#[local] Existing Instance heap_fresh.
#[local] Instance timer_iface : TimerIface TimerThread := TimerIface_TimerThread ∅.

Definition timer0 : option TimerThread := snd <$> TimerThreadInit 0 0 8 32 ∅.
Definition run_from0 (ops : list gop) : option (gsys TimerThread) :=
  t ← timer0; g_run ops (gsys0 t).
Definition clean_from0 (ops : list gop) : bool :=
  match timer0 with Some t => never_dangling ops (gsys0 t) | None => false end.

Lemma from0 ops t :
  TimerThreadInit 0 0 8 32 ∅ = Some (0, t) ->
  run_from0 ops = g_run ops (gsys0 t) /\ clean_from0 ops = never_dangling ops (gsys0 t).
Proof. unfold run_from0, clean_from0, timer0. by intros ->. Qed.

Definition eol : list Z := [CR; LF].
Definition parsed (p : http_parser_t) (text : list Z) : http_message_t :=
  match parser_append p text (zlen text) with Some (_, p) => pmsg p | None => pmsg p end.
Definition granted : http_message_t :=
  parsed (parser_response_init HTTPMETHOD_SUBSCRIBE)
    (zs "HTTP/1.1 200 OK" ++ eol ++ zs "SID: uuid:dev1" ++ eol ++ zs "TIMEOUT: Second-1800" ++ eol ++ eol).
Definition notification (sid seq : list Z) : http_message_t :=
  parsed parser_request_init
    (zs "NOTIFY /cb HTTP/1.1" ++ eol ++ zs "SID:" ++ sid ++ eol ++ zs "NT: upnp:event" ++ eol
     ++ zs "NTS: upnp:propchange" ++ eol ++ zs "SEQ: " ++ seq ++ eol ++ eol).

Definition reply (rc now : Z) (struct_ok : bool) : genv := GEnv rc granted (zs "u1") now struct_ok.
Definition go (i : nat) : gop := ORun i (reply 0 100 true).

Definition subscribe : list gop :=
  [ORegister true 7 70; OCall (UpnpSubscribe 1 (Some (zs "http://d/ev")) (Some 1800) true true true);
   go 0; go 0; go 0].

(** A notification for the new subscription; its renewal, which the network refuses;
    and a notification that comes too late. *)
Definition life : list gop :=
  subscribe ++
  [OCall (genaCallback (notification (zs " uuid:dev1") (zs "0"))); go 1;
   OTimer (fun _ => Tick 1890 0); go 2; go 2; ORun 2 (reply (-204) 1891 true); go 2;
   OCall (genaCallback (notification (zs " uuid:dev1") (zs "1"))); go 3].

(** While a subscription waits for its answer, the client unregisters and a second
    subscription finds its handle gone. *)
Definition deadlock : list gop :=
  [ORegister true 7 70; OCall (UpnpSubscribe 1 (Some (zs "http://d/ev")) (Some 1800) true true true);
   go 0; go 0; OCall (UpnpSubscribe 1 (Some (zs "http://d/ev")) (Some 1800) true true true);
   OCall (UpnpUnRegisterClient 1); go 2; go 2; go 2; go 1].
Definition go_on (ops : list gop) (s : gsys TimerThread) : option (gsys TimerThread) := g_run ops s.
Definition next (i : nat) (s : gsys TimerThread) : outcome (gsys TimerThread) :=
  run_thread i (reply 0 100 true) s.
End Runs.

Module Subscriptions.


(** C32. The deadlock of [genaSubscribe]: once a thread waits for the subscribe lock
    with the handle lock kept (its handle was bad), while another holds the subscribe
    lock, nothing that needs the handle lock for writing or the subscribe lock ever
    runs again, whatever the program and the environment do: those two threads stay
    where they are. *)
Theorem subscribe_deadlock `{Malloc, Resolver, Heap} {T} `{TimerIface T} (s : gsys T) ops s' :
  (0 < readers s)%nat -> sub_lock s = true -> g_run ops s = Some s' ->
  (0 < readers s')%nat /\ sub_lock s' = true
  /\ forall i e th, threads s' !! i = Some th ->
       match th with
       | SubBad _ _ _ | SubWait _ _ _ _ | SubNet _ _ _ _ | RenStart _ _ _ _ | RenNet _ _ _ _ _
       | UnsStart _ _ _ | UnsNet _ _ _ _ | UnregStart _ | UnregLoop _ | UnregEnd _
       | NotStart _ _ | NotWait _ _ | NotHeld _ _ => run_thread i e s' = Blocked
       | _ => True
       end.
Proof.
  intros Hr Hl E. pose proof (g_run_locked ops s s' E (conj Hr Hl)) as Hlk.
  split; [apply Hlk|]. split; [apply Hlk|]. intros i e th Hi. unfold run_thread. rewrite Hi.
  destruct th; try done; cbn [section];
    unfold sub_bad, sub_wait, sub_net, ren_start, ren_net, uns_start, uns_net, unreg_start, unreg_loop,
      unreg_end, not_start, not_wait, not_held;
    (rewrite writing_locked by done) || (rewrite subscribing_locked by done); done.
Qed.

Lemma subscribe_deadlock_witness :
  exists s s', Runs.run_from0 Runs.deadlock = Some s /\ Runs.go_on [Runs.go 0; Runs.go 1] s = Some s'
    /\ Runs.next 0 s' = Blocked.
Proof.
  assert (Hc : option_map (fun s => (readers s, sub_lock s,
      option_map (fun s' => threads s' !! 0%nat) (Runs.go_on [Runs.go 0; Runs.go 1] s)))
      (Runs.run_from0 Runs.deadlock)
    = Some (1%nat, true, Some (Some (SubNet Direct 1 (zs "http://d/ev") 1800)))) by (vm_compute; reflexivity).
  destruct (Runs.run_from0 Runs.deadlock) as [s|]; [|discriminate Hc]. cbn [option_map] in Hc.
  apply (inj Some) in Hc. apply pair_equal_spec in Hc as [Hr Hc]. apply pair_equal_spec in Hr as [Hr Hl].
  destruct (Runs.go_on _ s) as [s'|] eqn:E; [|discriminate Hc]. cbn [option_map] in Hc.
  apply (inj Some) in Hc.
  destruct (@subscribe_deadlock malloc_always resolver_two heap_fresh TimerThread Runs.timer_iface
    s [Runs.go 0; Runs.go 1] s' ltac:(rewrite Hr; lia) Hl E) as (_ & _ & Hb).
  exists s, s'. split; [done|]. split; [done|]. exact (Hb 0%nat _ _ Hc).
Defined.
End Subscriptions.

Section Examples.
Import Runs.

(** The life of a subscription: the notification is delivered, the refused renewal
    removes the subscription and tells the client, the late notification is refused. *)
Example gena_life :
  match run_from0 life with
  | Some s => (answers s, map d_type (delivered s), map d_code (delivered s), head s, size (renewals (st s)))
              = ([200; 412], [UPNP_EVENT_RECEIVED; UPNP_EVENT_AUTORENEWAL_FAILED], [0; -204], 0, 0%nat)
  | None => False
  end.
Proof. vm_compute. reflexivity. Qed.

(** A subscription whose renewal cannot be scheduled stays linked after it is freed,
    and the next notification reads it. *)
Definition unscheduled : list gop :=
  [ORegister true 7 70; OCall (UpnpSubscribe 1 (Some (zs "http://d/ev")) (Some 1800) true true true);
   go 0; go 0; ORun 0 (reply 0 100 false)].
Example use_after_free :
  option_map (fun s => (threads s !! 0%nat, head s =? 0, bool_decide (subs (st s) = ∅))) (run_from0 unscheduled)
    = Some (Some (GDone UPNP_E_OUTOF_MEMORY (zs "uuid:u1") 1800), false, true)
  /\ run_from0 (unscheduled ++ [OCall (genaCallback (notification (zs " uuid:dev1") (zs "0"))); go 1])
    = None.
Proof. vm_compute. split; reflexivity. Qed.

(** Any beginning of the SID of the device selects the subscription. *)
Example sid_prefix :
  option_map answers
    (run_from0 (subscribe ++ [OCall (genaCallback (notification (zs " uu") (zs "5"))); go 1]))
  = Some [200].
Proof. vm_compute. reflexivity. Qed.

(** The deadlock is reachable. *)
Example deadlock_reached :
  option_map (fun s => (threads s, readers s, sub_lock s)) (run_from0 deadlock)
  = Some ([SubNet Direct 1 (zs "http://d/ev") 1800; SubBad Direct (zs "http://d/ev") 1800;
           GDone UPNP_E_SUCCESS [] 0], 1%nat, true).
Proof. vm_compute. reflexivity. Qed.
End Examples.
