(* ===== verification/Ssdp.v ===== *)
(** * Discovery

    [upnp/src/ssdp/ssdp_server.c], [ssdp_ctrlpt.c] and from [upnpapi.c] the search
    call: the datagrams a control point receives, the searches it has open and their
    timeouts.

    The first part are functions of one message.  In the second part a thread inside
    one of the functions is an [sthread], as in [Gena.v]: a section runs under the
    handle lock and is one step.  The client is what [GetClientHandleInfo] finds (the
    handle table is in [Gena.v]); its search list is the sequence of the items of the
    [LinkedList].  The entries of the list and the cells that hold the ids of timer
    events are heap objects; a use after [free] is a fault ([None]).  Strings are
    values and their allocations succeed.  The sockets, the clock, the thread pool and
    the allocator are the environment [senv]. *)

From S2P Require Import Prelude CLib Codes Membuffer Uri Tables Scanner HttpParser LinkedList ThreadPool.
From S2P Require Import TimerThread TimerIface ClientTable Gena.
#[local] Open Scope Z_scope.

Definition SSDP_IP : list Z := zs "239.255.255.250".
Definition SSDP_IPV6_LINKLOCAL : list Z := zs "FF02::C".
Definition SSDP_IPV6_SITELOCAL : list Z := zs "FF05::C".
Definition SSDP_PORT : Z := 1900.
Definition BUFSIZE : Z := 2500.
Definition COMMAND_LEN : Z := 300.
Definition NO_ERROR_FOUND : Z := 0.
Definition E_HTTP_SYNTEX : Z := -6.
Definition MIN_SEARCH_TIME : Z := 2.
Definition MAX_SEARCH_TIME : Z := 80.
Definition NUM_SSDP_COPY : nat := 2.
Definition DEFAULT_MX : Z := 5.
(** The application's. *)
Definition OhmSearchType : list Z := zs "urn:device:ohm:1".

(** ** Search targets *)

Inductive SsdpSearchType :=
| SSDP_SERROR | SSDP_ALL | SSDP_ROOTDEVICE | SSDP_DEVICEUDN | SSDP_DEVICETYPE | SSDP_SERVICE.
#[export] Instance search_type_eq : EqDecision SsdpSearchType.
Proof. solve_decision. Defined.

Record SsdpEvent := Evt { RequestType : SsdpSearchType; ErrCode : Z; SearchType : list Z }.

Definition has (cmd w : list Z) : bool := bool_decide (is_Some (strstr cmd w)).

(** [sizeof (Evt->SearchType - 1)] is the size of a pointer. *)
Definition sizeof_pointer : Z := 8.
Definition unique_service_name (cmd : list Z) (Evt0 : SsdpEvent) : Z * SsdpEvent :=
  if has cmd (zs "urn:") && has cmd (zs ":device:") then
    match strstr cmd (zs "urn") with
    | Some i =>
        (0, Evt (RequestType Evt0) (ErrCode Evt0)
                (zwrite (zrep FixedCopy.LINE_SIZE 0) 0 (strncpy_bytes (zdrop i cmd) sizeof_pointer)))
    | None => (-1, Evt0)
    end
  else (-1, Evt0).

Definition ssdp_request_type1 (cmd : list Z) : SsdpSearchType :=
  if has cmd (zs ":all") then SSDP_ALL
  else if has cmd (zs "urn:") && has cmd (zs ":device:") then SSDP_DEVICETYPE
  else SSDP_SERROR.

Definition ssdp_request_type (cmd : list Z) (Evt0 : SsdpEvent) : Z * SsdpEvent :=
  let '(_, e) := unique_service_name cmd Evt0 in
  let ty := ssdp_request_type1 cmd in
  if decide (ty = SSDP_SERROR) then (-1, Evt ty E_HTTP_SYNTEX (SearchType e))
  else (0, Evt ty NO_ERROR_FOUND (SearchType e)).

(** ** Search requests *)

(** [snprintf] into [TempBuf], then [strcat] to the request. *)
Definition temp_line (line : list Z) : Z + list Z :=
  if COMMAND_LEN <=? zlen line then inl UPNP_E_INTERNAL_ERROR else inr line.
Definition add_line (size : Z) (line : list Z) (buf : Z + list Z) : Z + list Z :=
  match buf with
  | inl e => inl e
  | inr b => if size <=? zlen b + zlen line then inl UPNP_E_BUFFER_TOO_SMALL else inr (b ++ line)
  end.
Definition add_temp (size : Z) (line : list Z) (buf : Z + list Z) : Z + list Z :=
  match buf with
  | inl e => inl e
  | inr b => match temp_line line with inl e => inl e | inr l => add_line size l (inr b) end
  end.

Definition client_request_packet (host_v6 : list Z) (RqstBufSize Mx : Z)
    (SearchTarget : option (list Z)) (AddressFamily : Z) : Z + list Z :=
  let command := zs "M-SEARCH * HTTP/1.1" ++ crlf in
  let man := zs "MAN: " ++ [DQUOTE] ++ zs "ssdp:discover" ++ [DQUOTE] ++ crlf in
  if RqstBufSize <=? zlen command then inl UPNP_E_INTERNAL_ERROR
  else
    let host := if AddressFamily =? AF_INET then Some SSDP_IP
                else if AddressFamily =? AF_INET6 then Some ([LBRACKET] ++ host_v6 ++ [RBRACKET])
                else None in
    match host with
    | None => inl UPNP_E_INVALID_ARGUMENT
    | Some host =>
        let r := add_temp RqstBufSize (zs "HOST: " ++ host ++ [COLON] ++ dec SSDP_PORT ++ crlf)
                          (inr command) in
        let r := add_line RqstBufSize man r in
        let r := if 0 <? Mx then add_temp RqstBufSize (zs "MX: " ++ dec Mx ++ crlf) r else r in
        let r := match SearchTarget with
                 | Some st => add_temp RqstBufSize (zs "ST: " ++ cstr st ++ crlf) r
                 | None => r
                 end in
        add_line RqstBufSize crlf r
    end.
Definition CreateClientRequestPacket := client_request_packet SSDP_IPV6_LINKLOCAL.
Definition CreateClientRequestPacketUlaGua := client_request_packet SSDP_IPV6_SITELOCAL.

(** ** Messages *)

Section Messages.
Context `{Malloc, Resolver}.

(** The text behind a pointer into the URL's buffer. *)
Definition url_text (m : http_message_t) (t : token) : list Z :=
  zdrop (tk_buff t - 1) (default [] (urlbuf m)).

Definition ssdp_hosts : list (list Z) :=
  [zs "239.255.255.250:1900"; zs "[FF02::C]:1900"; zs "[ff02::c]:1900"; zs "[FF05::C]:1900";
   zs "[ff05::c]:1900"].

Definition valid_ssdp_msg (hmsg : http_message_t) : bool :=
  if negb (method hmsg =? HTTPMETHOD_NOTIFY) && negb (method hmsg =? HTTPMETHOD_MSEARCH)
     && negb (request_method hmsg =? HTTPMETHOD_MSEARCH) then false
  else if negb (request_method hmsg =? HTTPMETHOD_MSEARCH) then
    let pq := uri_pathquery (uri hmsg) in
    (* check PATH == "*" *)
    if negb (bool_decide (uri_kind (uri hmsg) = RELATIVE))
       || negb (strncmp (zs "*") (url_text hmsg pq) (tk_size pq) =? 0) then false
    else
      match hdr_value hmsg HDR_HOST with
      | None => false
      | Some v => existsb (fun h => memptr_cmp (mb_block v) (mb_length v) h =? 0) ssdp_hosts
      end
  else true.

(** [None]: out of fuel; [Some None]: the message is dropped. *)
Definition start_event_handler (parser : http_parser_t) : option (option http_message_t) :=
  '(status, p) ← parser_parse parser;
  let m := pmsg p in
  let checked := if valid_ssdp_msg m then Some m else None in
  Some (if decide (status = PARSE_FAILURE) then
          if negb (method m =? HTTPMETHOD_NOTIFY) || negb (valid_ssdp_notify_hack p) then None
          else checked
        else if negb (bool_decide (status = PARSE_SUCCESS)) then None
        else checked).

(** The parser with the datagram in its buffer; [req_socket]: the socket for replies. *)
Definition ssdp_parser (req_socket : bool) : option http_parser_t :=
  let p := if req_socket then parser_response_init HTTPMETHOD_MSEARCH else parser_request_init in
  let '(rc, m) := membuffer_set_size (msg (pmsg p)) BUFSIZE in
  if rc =? 0 then Some (with_msg p (set_buf m)) else None.
Definition receive (b : list Z) (m : membuffer) : membuffer :=
  Membuffer (Some (zset (zwrite (mb_block m) 0 b) (zlen b) 0)) (u64 (mb_length m + zlen b))
            (mb_capacity m) (mb_size_inc m).

(** What becomes a job: the parser, when memory and pool have room. [received]: what
    [recvfrom] got. *)
Definition readFromSSDPSocket (data_ok req_socket : bool) (received : list Z) (add_rc : Z)
  : option http_parser_t :=
  let data := if data_ok then ssdp_parser req_socket else None in
  let b := ztake (BUFSIZE - 1) received in
  if 0 <? zlen b then
    match data with
    | Some p => if add_rc =? 0 then Some (with_msg p (fun m => set_buf (receive b (msg m)) m)) else None
    | None => None
    end
  else None.

(** *** [ssdp_handle_ctrlpt_msg] *)

Record Upnp_Discovery := Discovery {
  d_ErrCode : Z;
  UID : list Z;
  DeviceType : list Z;
  Location : list Z;
  DestAddr : sockaddr
}.

(** [strncpy (field, buf, length)] into a cleared array of [LINE_SIZE] bytes; more
    bytes are written past its end. *)
Definition copy_field (v : option membuffer) : option (list Z) :=
  match v with
  | None => Some (zrep FixedCopy.LINE_SIZE 0)
  | Some v =>
      if FixedCopy.LINE_SIZE <? mb_length v then None
      else Some (zwrite (zrep FixedCopy.LINE_SIZE 0) 0
                        (strncpy_bytes (zset (mb_block v) (mb_length v) 0) (mb_length v)))
  end.
Definition stack_line : list Z := map (fun k => junk (Z.of_nat k)) (seq 0 (Z.to_nat FixedCopy.LINE_SIZE)).

Definition discovery (hmsg : http_message_t) (dest_addr : sockaddr) : option Upnp_Discovery :=
  let location := zset stack_line 0 0 in
  let location := match hdr_value hmsg HDR_LOCATION with
                  | Some v => FixedCopy.linecopylen location (mb_block v) (mb_length v)
                  | None => location
                  end in
  dt ← copy_field (hdr_value hmsg HDR_DT);
  uid ← copy_field (hdr_value hmsg HDR_UID);
  Some (Discovery UPNP_E_SUCCESS uid dt location dest_addr).

Definition is_ohm (v : option membuffer) : bool :=
  match v with
  | None => false
  | Some v => strncmp (zset (mb_block v) (mb_length v) 0) OhmSearchType (strlen OhmSearchType) =? 0
  end.

Inductive verdict := Ignored | Alive | Byebye | Reply (st : membuffer).

Definition classify (hmsg : http_message_t) (param : Upnp_Discovery) : verdict :=
  let nt_found := is_ohm (hdr_value hmsg HDR_NT) in
  if is_request hmsg then
    match hdr_value hmsg HDR_NTS with
    | None => Ignored
    | Some v =>
        if memptr_cmp (mb_block v) (mb_length v) (zs "ssdp:alive") =? 0 then
          if negb nt_found || (strlen (Location param) =? 0) then Ignored else Alive
        else if memptr_cmp (mb_block v) (mb_length v) (zs "ssdp:byebye") =? 0 then
          if negb nt_found then Ignored else Byebye
        else Ignored
    end
  else
    match hdr_value hmsg HDR_ST with
    | Some v =>
        if negb (status_code hmsg =? HTTP_OK) || (strlen (Location param) =? 0) || negb (is_ohm (Some v))
        then Ignored else Reply v
    | None => Ignored
    end.
End Messages.

(** ** Searches *)

Record SsdpSearchArg := SearchArg {
  timeoutEventId : Z;
  searchTarget : list Z;
  sa_cookie : Z;
  requestType : SsdpSearchType
}.

Definition search_match (a : SsdpSearchArg) (st : membuffer) : bool :=
  let m := Z.min (mb_length st) (strlen (searchTarget a)) in
  match requestType a with
  | SSDP_ALL => true
  | SSDP_DEVICEUDN => strncmp (searchTarget a) (mb_block st) (mb_length st) =? 0
  | SSDP_DEVICETYPE | SSDP_SERVICE => strncmp (searchTarget a) (mb_block st) m =? 0
  | _ => false
  end.

Record client := Client { c_callback : Z; c_cookie : Z; SsdpSearchList : list Z }.

Inductive discovery_event :=
| UPNP_DISCOVERY_ADVERTISEMENT_ALIVE | UPNP_DISCOVERY_ADVERTISEMENT_BYEBYE
| UPNP_DISCOVERY_SEARCH_RESULT | UPNP_DISCOVERY_SEARCH_TIMEOUT.
Record called := Called {
  cb_event : discovery_event; cb_fn : Z; cb_param : option Upnp_Discovery; cb_cookie : Z
}.

(** A thread at its next section.  A [STimeout] that has found its search carries the
    id of the event and the cookie. *)
Inductive sthread :=
| SSearch (timeTillRead : Z) (St : list Z) (Cookie : Z) (requestType : SsdpSearchType)
          (packets : list (list Z))
| SMsg (hmsg : http_message_t) (dest_addr : sockaddr)
| SReply (fn : Z) (param : Upnp_Discovery) (st : membuffer)
| SResult (fn cookie : Z) (param : Upnp_Discovery)
| SExpired (id : Z)
| STimeout (id fn : Z) (found : option (Z * Z))
| SDone (rc : Z).

(** [timed_out], [dropped] and [started] record the searches (event id and cookie)
    whose timeout was delivered, that an unregistration ended, that were added;
    [lost]: a timer event, a list node or the job of an expired search had no room. *)
Record ssys (T : Type) := SSys {
  sdk_init : bool;
  the_client : option client;
  args : gmap Z SsdpSearchArg;
  ids : gmap Z Z;
  stm : T;
  sthreads : list sthread;
  calls : list called;
  sent : list (list Z);
  started : list (Z * Z);
  timed_out : list (Z * Z);
  dropped : list (Z * Z);
  lost : bool
}.
Arguments SSys {T}. Arguments sdk_init {T}. Arguments the_client {T}. Arguments args {T}.
Arguments ids {T}. Arguments stm {T}. Arguments sthreads {T}. Arguments calls {T}.
Arguments sent {T}. Arguments started {T}. Arguments timed_out {T}. Arguments dropped {T}.
Arguments lost {T}.

Record senv := SEnv {
  s_now : Z;
  s_node : bool;              (* ListAddTail has a node *)
  s_job : nat -> bool;        (* malloc and ThreadPoolAdd, per result *)
  s_select : bool;            (* select succeeds *)
  s_v4 : bool;                (* the request socket is there and writable *)
  s_v6 : bool
}.

Section Searches.
Context `{Malloc, Resolver, Heap} {T : Type} `{TimerIface T}.
Implicit Types (s : ssys T).

Definition set_client c s : ssys T :=
  SSys (sdk_init s) c (args s) (ids s) (stm s) (sthreads s) (calls s) (sent s) (started s)
       (timed_out s) (dropped s) (lost s).
Definition set_args h s : ssys T :=
  SSys (sdk_init s) (the_client s) h (ids s) (stm s) (sthreads s) (calls s) (sent s) (started s)
       (timed_out s) (dropped s) (lost s).
Definition set_ids h s : ssys T :=
  SSys (sdk_init s) (the_client s) (args s) h (stm s) (sthreads s) (calls s) (sent s) (started s)
       (timed_out s) (dropped s) (lost s).
Definition set_stm t s : ssys T :=
  SSys (sdk_init s) (the_client s) (args s) (ids s) t (sthreads s) (calls s) (sent s) (started s)
       (timed_out s) (dropped s) (lost s).
Definition set_sthreads l s : ssys T :=
  SSys (sdk_init s) (the_client s) (args s) (ids s) (stm s) l (calls s) (sent s) (started s)
       (timed_out s) (dropped s) (lost s).
Definition call_back c s : ssys T :=
  SSys (sdk_init s) (the_client s) (args s) (ids s) (stm s) (sthreads s) (calls s ++ [c]) (sent s)
       (started s) (timed_out s) (dropped s) (lost s).
Definition send l s : ssys T :=
  SSys (sdk_init s) (the_client s) (args s) (ids s) (stm s) (sthreads s) (calls s) (sent s ++ l)
       (started s) (timed_out s) (dropped s) (lost s).
Definition log l1 l2 l3 b s : ssys T :=
  SSys (sdk_init s) (the_client s) (args s) (ids s) (stm s) (sthreads s) (calls s) (sent s)
       (started s ++ l1) (timed_out s ++ l2) (dropped s ++ l3) (lost s || b).

Definition free_id (id : Z) s : option (ssys T) :=
  _ ← ids s !! id; Some (set_ids (delete id (ids s)) s).

(** *** [SearchByTarget] *)

Definition fn_searchExpired : Z := 3.
Definition fn_free : Z := 4.
Definition sizeof_SsdpSearchArg : Z := 32.
Definition sizeof_int : Z := 4.
Definition expire_job (id : Z) : ThreadPoolJob :=
  let job := (TPJobInit zero_job fn_searchExpired id).2 in
  let job := (TPJobSetPriority job MED_PRIORITY).2 in
  (TPJobSetFreeFunction job fn_free).2.

Definition item_of (x : SsdpSearchArg) : Z * Z := (timeoutEventId x, sa_cookie x).

(** The section under the lock; then the requests are sent.  The results of the
    scheduling and of [ListAddTail] are not used.  The result of a sent request is 1,
    which [UpnpSearchAsync] turns into [UPNP_E_SUCCESS]. *)
Definition search_section (e : senv) timeTillRead St Cookie ty (packets : list (list Z)) s
  : option (ssys T * sthread * list sthread) :=
  match the_client s with
  | None => Some (s, SDone UPNP_E_INTERNAL_ERROR, [])
  | Some c =>
      newArg ← malloc (dom (args s)) sizeof_SsdpSearchArg;
      id ← malloc (dom (ids s)) sizeof_int;
      '(rc, ev, t) ← tm_schedule (s_now e) timeTillRead (expire_job id) (stm s);
      let x := SearchArg ev St Cookie ty in
      let s := set_stm t (set_ids (<[id := ev]> (ids s)) (set_args (<[newArg := x]> (args s)) s)) in
      let s := log [item_of x] [] [] (negb (rc =? 0) || negb (s_node e)) s in
      let s := if s_node e
               then set_client (Some (Client (c_callback c) (c_cookie c) (SsdpSearchList c ++ [newArg]))) s
               else s in
      if s_select e then Some (send (if s_v4 e then packets else []) s, SDone 1, [])
      else Some (s, SDone UPNP_E_INTERNAL_ERROR, [])
  end.

(** Up to the lock: a result, or the thread.  IPv6 is not configured. *)
Definition SearchByTarget (Mx : Z) (St : list Z) (Cookie : Z) : Z + sthread :=
  let requestType := ssdp_request_type1 St in
  if decide (requestType = SSDP_SERROR) then inl UPNP_E_INVALID_PARAM
  else
    let timeTillRead := if Mx <? MIN_SEARCH_TIME then MIN_SEARCH_TIME
                        else if MAX_SEARCH_TIME <? Mx then MAX_SEARCH_TIME else Mx in
    match CreateClientRequestPacket BUFSIZE timeTillRead (Some St) AF_INET with
    | inl retVal => inl retVal
    | inr p => inr (SSearch timeTillRead (cstr St) Cookie requestType (repeat p NUM_SSDP_COPY))
    end.

(** [handle_ok]: the handle is the client's. *)
Definition UpnpSearchAsync (handle_ok : bool) (Mx : Z) (Target : option (list Z)) (Cookie : Z) s
  : Z + sthread :=
  if negb (sdk_init s) then inl UPNP_E_FINISH
  else if negb (handle_ok && bool_decide (is_Some (the_client s))) then inl UPNP_E_INVALID_HANDLE
  else
    let Mx := if Mx <? 1 then DEFAULT_MX else Mx in
    match Target with
    | None => inl UPNP_E_INVALID_PARAM
    | Some st => SearchByTarget Mx st Cookie
    end.

(** *** [searchExpired] *)

(** The first entry for the event, and its item. *)
Fixpoint expired_item (ev : Z) (l : list Z) (h : gmap Z SsdpSearchArg) : option (option (Z * SsdpSearchArg)) :=
  match l with
  | [] => Some None
  | a :: l =>
      item ← h !! a;
      if timeoutEventId item =? ev then Some (Some (a, item)) else expired_item ev l h
  end.

Definition searchExpired (id : Z) s : option (ssys T * sthread * list sthread) :=
  match the_client s with
  | None => s ← free_id id s; Some (s, SDone 0, [])
  | Some c =>
      ev ← ids s !! id;
      r ← expired_item ev (SsdpSearchList c) (args s);
      match r with
      | None => Some (s, STimeout id (c_callback c) None, [])
      | Some (a, item) =>
          Some (set_client (Some (Client (c_callback c) (c_cookie c)
                                    (filter (fun b => b <> a) (SsdpSearchList c))))
                  (set_args (delete a (args s)) s),
                STimeout id (c_callback c) (Some (item_of item)), [])
      end
  end.
Definition expired_end (id fn : Z) (found : option (Z * Z)) s : option (ssys T * sthread * list sthread) :=
  let s := match found with
           | Some it => log [] [it] [] false (call_back (Called UPNP_DISCOVERY_SEARCH_TIMEOUT fn None it.2) s)
           | None => s
           end in
  s ← free_id id s; Some (s, SDone 0, []).

(** *** [ssdp_handle_ctrlpt_msg], without the timeout flag (it is always [FALSE]) *)

Definition handle_msg hmsg dest_addr s : option (ssys T * sthread * list sthread) :=
  match the_client s with
  | None => Some (s, SDone 0, [])
  | Some c =>
      param ← discovery hmsg dest_addr;
      match classify hmsg param with
      | Ignored => Some (s, SDone 0, [])
      | Alive => Some (call_back (Called UPNP_DISCOVERY_ADVERTISEMENT_ALIVE (c_callback c) (Some param)
                                         (c_cookie c)) s, SDone 0, [])
      | Byebye => Some (call_back (Called UPNP_DISCOVERY_ADVERTISEMENT_BYEBYE (c_callback c) (Some param)
                                          (c_cookie c)) s, SDone 0, [])
      | Reply st => Some (s, SReply (c_callback c) param st, [])
      end
  end.

(** The jobs for the searches that match. *)
Fixpoint match_searches (i : nat) (e : senv) fn param st (l : list Z) (h : gmap Z SsdpSearchArg)
  : option (list sthread) :=
  match l with
  | [] => Some []
  | a :: l =>
      x ← h !! a;
      if search_match x st then
        r ← match_searches (S i) e fn param st l h;
        Some (if s_job e i then SResult fn (sa_cookie x) param :: r else r)
      else match_searches i e fn param st l h
  end.
Definition handle_reply (e : senv) fn param st s : option (ssys T * sthread * list sthread) :=
  match the_client s with
  | None => Some (s, SDone 0, [])
  | Some c =>
      jobs ← match_searches 0 e fn param st (SsdpSearchList c) (args s);
      Some (s, SDone 0, jobs)
  end.
Definition send_search_result fn cookie param s : ssys T :=
  call_back (Called UPNP_DISCOVERY_SEARCH_RESULT fn (Some param) cookie) s.

(** *** Registration *)

(** The loop of [UpnpUnRegisterClient] over the search list: the items it ends. *)
Fixpoint clean_searches (l : list Z) (h : gmap Z SsdpSearchArg)
  : option (list (Z * Z) * gmap Z SsdpSearchArg) :=
  match l with
  | [] => Some ([], h)
  | a :: l => x ← h !! a; '(its, h) ← clean_searches l (delete a h); Some (item_of x :: its, h)
  end.
Definition unregister s : option (ssys T) :=
  match the_client s with
  | None => Some s
  | Some c =>
      '(its, h) ← clean_searches (SsdpSearchList c) (args s);
      Some (set_client None (log [] [] its false (set_args h s)))
  end.
Definition register fn cookie s : ssys T :=
  match the_client s with None => set_client (Some (Client fn cookie [])) s | Some _ => s end.

(** *** Steps *)

Definition s_section (e : senv) (th : sthread) s : option (ssys T * sthread * list sthread) :=
  match th with
  | SSearch t st cookie ty packets => search_section e t st cookie ty packets s
  | SMsg m dest => handle_msg m dest s
  | SReply fn param st => handle_reply e fn param st s
  | SResult fn cookie param => Some (send_search_result fn cookie param s, SDone 0, [])
  | SExpired id => searchExpired id s
  | STimeout id fn found => expired_end id fn found s
  | SDone _ => Some (s, th, [])
  end.

Definition s_thread (i : nat) (e : senv) s : option (ssys T) :=
  match sthreads s !! i with
  | None => Some s
  | Some th =>
      '(s', th', new) ← s_section e th s;
      Some (set_sthreads (<[i := th']> (sthreads s') ++ new) s')
  end.

(** The timer hands its events over; the cell of a refused one is freed. *)
Fixpoint s_hand_over (hs : list handing) s : option (ssys T) :=
  match hs with
  | [] => Some s
  | h :: hs =>
      let id := arg (job (h_event h)) in
      if h_rc h =? 0 then s_hand_over hs (set_sthreads (sthreads s ++ [SExpired id]) s)
      else s ← free_id id s; s_hand_over hs (log [] [] [] true s)
  end.

Inductive sop :=
| SOSearch (handle_ok : bool) (Mx : Z) (Target : option (list Z)) (Cookie : Z)
| SODatagram (data_ok req_socket : bool) (received : list Z) (add_rc : Z) (from : sockaddr)
| SORun (i : nat) (e : senv)
| SOTimer (e : nat -> tick)
| SORegister (fn cookie : Z)
| SOUnRegister.

(** [ssdp_event_handler_thread] for a datagram. *)
Definition ssdp_event_handler (p : http_parser_t) (from : sockaddr) : option (list sthread) :=
  r ← start_event_handler p;
  Some (match r with
        | Some m => if (method m =? HTTPMETHOD_NOTIFY) || (request_method m =? HTTPMETHOD_MSEARCH)
                    then [SMsg m from] else []
        | None => []
        end).

Definition s_exec (op : sop) s : option (ssys T) :=
  match op with
  | SOSearch ok mx target cookie =>
      let th := match UpnpSearchAsync ok mx target cookie s with inl rc => SDone rc | inr th => th end in
      Some (set_sthreads (sthreads s ++ [th]) s)
  | SODatagram data_ok req_socket b rc from =>
      match readFromSSDPSocket data_ok req_socket b rc with
      | None => Some s
      | Some p => l ← ssdp_event_handler p from; Some (set_sthreads (sthreads s ++ l) s)
      end
  | SORun i e => s_thread i e s
  | SOTimer e =>
      '(t, hs) ← tm_worker e (stm s);
      s_hand_over hs (set_stm t s)
  | SORegister fn cookie => Some (register fn cookie s)
  | SOUnRegister => unregister s
  end.

Fixpoint s_run (ops : list sop) s : option (ssys T) :=
  match ops with [] => Some s | op :: ops => s ← s_exec op s; s_run ops s end.

Definition ssys0 (t : T) : ssys T := SSys true None ∅ ∅ t [] [] [] [] [] [] false.
End Searches.
