(* ===== verification/SsdpFacts.v ===== *)
(** * Facts about discovery

    First what a datagram can do to its handler; then, for every interleaving of
    searches, timeouts, messages and registrations, the fate of a search. *)

From S2P Require Import Prelude CLib Codes Membuffer Uri Tables Scanner HttpParser HttpFacts LinkedList ListFacts.
From S2P Require Import ThreadPool TimerThread TimerFacts TimerIface ClientTable Gena GenaFacts Ssdp.
#[local] Open Scope Z_scope.

(** ** Datagrams *)

Section Datagrams.
Context `{HM : Malloc, HR : Resolver}.
Hypothesis alloc : forall k, alloc_ok k = true.

Lemma parser_init_wf req :
  let p := if req : bool then parser_response_init HTTPMETHOD_MSEARCH else parser_request_init in
  parser_wf p /\ mb_buf (msg (pmsg p)) = None /\ mb_length (msg (pmsg p)) = 0 /\ (stage p < 4)%nat
  /\ mb_capacity (msg (pmsg p)) = 0.
Proof.
  intros p. assert (Hr : parser_reach p) by (destruct req; constructor).
  split; [by apply parser_reach_wf|]. unfold p. destruct req; cbn; auto with lia.
Qed.

Definition fresh (n : Z) : list Z := map (fun k => junk (Z.of_nat k)) (seq 0 (Z.to_nat n)).

Lemma realloc_none n : realloc None n = Some (fresh n).
Proof.
  unfold realloc, fresh. rewrite alloc. cbn [default from_option]. unfold ztake.
  by rewrite take_nil, Nat.sub_0_r.
Qed.
Lemma fresh_len n : 0 <= n -> zlen (fresh n) = n.
Proof. intros. unfold fresh, zlen. rewrite length_map, length_seq. lia. Qed.
#[local] Opaque fresh.
Notation fresh_block := (fresh (u64 (BUFSIZE + 1))).

Lemma ssdp_parser_ok req :
  exists p, ssdp_parser req = Some p /\ msg (pmsg p) = Membuffer (Some fresh_block) 0 BUFSIZE 5
    /\ cursor p = 0 /\ chunk_size p = 0 /\ (stage p < 4)%nat.
Proof.
  unfold ssdp_parser. cbv zeta. set (p := if req then _ else _).
  assert (Hm : msg (pmsg p) = Membuffer None 0 0 5 /\ cursor p = 0 /\ chunk_size p = 0 /\ (stage p < 4)%nat).
  { unfold p. destruct req; cbn; auto with lia. }
  destruct Hm as (-> & Hc & Hk & Hs).
  assert (E : membuffer_set_size (Membuffer None 0 0 5) BUFSIZE = (0, Membuffer (Some fresh_block) 0 BUFSIZE 5)).
  { unfold membuffer_set_size.
    change (membuffer_alloc_len (Membuffer None 0 0 5) BUFSIZE) with (Some BUFSIZE).
    unfold membuffer_realloc. cbn [mb_buf]. by rewrite realloc_none. }
  rewrite E. cbn. eexists. split; [reflexivity|]. done.
Qed.

(** A datagram that becomes a job: the parser with its bytes in the buffer. *)
Lemma readFromSSDPSocket_ok data_ok req received add_rc :
  match readFromSSDPSocket data_ok req received add_rc with
  | Some p => data_ok = true /\ add_rc = 0 /\ received <> [] /\ parser_wf p
              /\ mb_contents (msg (pmsg p)) = ztake (BUFSIZE - 1) received
              /\ mb_terminated (msg (pmsg p)) /\ (stage p < 4)%nat
  | None => data_ok = false \/ add_rc <> 0 \/ received = []
  end.
Proof.
  unfold readFromSSDPSocket. set (b := ztake (BUFSIZE - 1) received).
  assert (Hb : zlen b <= BUFSIZE - 1) by (unfold b; rewrite zlen_ztake; unfold BUFSIZE; lia).
  destruct (Z.ltb_spec 0 (zlen b)) as [Hpos|Hz].
  2:{ right; right. apply zlen_zero. unfold b in Hz. rewrite zlen_ztake in Hz.
      pose proof (zlen_nonneg received). unfold BUFSIZE in Hz. lia. }
  destruct data_ok; [|by left].
  destruct (ssdp_parser_ok req) as (p & -> & Em & Ec & Ek & Hs).
  destruct (Z.eqb_spec add_rc 0) as [->|]; [|by right; left].
  set (q := with_msg p _).
  assert (Hq : msg (pmsg q) = Membuffer (Some (zset (zwrite fresh_block 0 b) (zlen b) 0)) (zlen b) BUFSIZE 5).
  { unfold q, receive. cbn. rewrite Em. cbn [mb_block mb_buf default mb_length mb_capacity mb_size_inc].
    rewrite (u64_small (0 + zlen b)) by (unfold BUFSIZE in Hb; lia). done. }
  assert (Hf : zlen fresh_block = 2501).
  { by rewrite fresh_len. }
  split; [done|]. split; [done|]. split; [intros ->; unfold b in Hpos; by rewrite ztake_all in Hpos|].
  assert (Hl : zlen (zset (zwrite fresh_block 0 b) (zlen b) 0) = 2501).
  { rewrite zlen_zset, zlen_zwrite; unfold BUFSIZE in *; lia. }
  split; [|split; [|split; [|exact Hs]]].
  - split; unfold plen; rewrite ?Hq.
    + unfold mb_wf, room. cbn [mb_buf mb_length mb_capacity mb_size_inc]. rewrite Hl.
      unfold BUFSIZE in *. lia.
    + cbn. change (cursor q) with (cursor p). rewrite Ec. lia.
    + cbn. unfold BUFSIZE in *. lia.
    + change (chunk_size q) with (chunk_size p). rewrite Ek. lia.
  - rewrite Hq. unfold mb_contents, mb_block. cbn [mb_buf mb_length default from_option]. unfold id.
    unfold zset. rewrite (proj2 (Z.ltb_ge (zlen b) 0)) by lia. unfold ztake at 1.
    rewrite take_insert_ge by lia. fold (ztake (zlen b) (zwrite fresh_block 0 b)).
    unfold zwrite. rewrite (ztake_neg 0) by lia. cbn [app]. apply ztake_app_exact.
  - unfold mb_terminated. rewrite Hq. unfold mb_block. cbn [mb_buf mb_length default from_option]. unfold id.
    apply zget_zset_eq. rewrite zlen_zwrite; unfold BUFSIZE in *; lia.
Qed.

Lemma start_event_handler_ok p :
  parser_wf p -> (stage p < 4)%nat ->
  exists r, start_event_handler p = Some r
    /\ forall m, r = Some m -> valid_ssdp_msg m = true.
Proof.
  intros Hp Hs. unfold start_event_handler, parser_parse.
  destruct (parse_loop_ok alloc 4 p Hp Hs) as (st & q & -> & _ & _). cbn [mbind option_bind].
  eexists. split; [reflexivity|]. intros m.
  repeat case_match; intros E; simplify_eq; done.
Qed.

Lemma copy_field_ok v :
  (copy_field v = None <-> exists w, v = Some w /\ FixedCopy.LINE_SIZE < mb_length w)
  /\ forall f, copy_field v = Some f -> (forall w, v = Some w -> 0 <= mb_length w) -> zlen f = FixedCopy.LINE_SIZE.
Proof.
  unfold copy_field. destruct v as [w|].
  - destruct (Z.ltb_spec FixedCopy.LINE_SIZE (mb_length w)).
    + split; [|done]. split; [|done]. intros _. by exists w.
    + split; [split; [done|intros (? & [= <-] & ?); lia]|]. intros f [= <-] Hw. specialize (Hw w eq_refl).
      rewrite zlen_zwrite; rewrite ?zlen_strncpy_bytes; done || (try rewrite zlen_zrep); unfold FixedCopy.LINE_SIZE in *; lia.
  - split; [split; [done|by intros (? & ? & _)]|]. by intros f [= <-].
Qed.

Lemma location_ok hmsg :
  let l := match hdr_value hmsg HDR_LOCATION with
           | Some v => FixedCopy.linecopylen (zset stack_line 0 0) (mb_block v) (mb_length v)
           | None => zset stack_line 0 0
           end in
  strlen l < FixedCopy.LINE_SIZE.
Proof.
  assert (Hl : zlen (zset stack_line 0 0) = FixedCopy.LINE_SIZE).
  { rewrite zlen_zset. unfold stack_line, zlen. by rewrite length_map, length_seq. }
  assert (H0 : strlen (zset stack_line 0 0) = 0).
  { unfold stack_line. cbn. done. }
  cbv zeta. destruct (hdr_value hmsg HDR_LOCATION) as [v|]; [|by rewrite H0].
  destruct (Z.le_gt_cases 0 (mb_length v)) as [Hv|Hv].
  - destruct (CopyFacts.fixed_copies (zset stack_line 0 0) (mb_block v) (mb_length v)) as (_ & _ & E & _); [by left|done|].
    unfold strlen. rewrite E, zlen_ztake. unfold FixedCopy.LINE_SIZE. lia.
  - unfold FixedCopy.linecopylen. rewrite (proj2 (Z.ltb_lt _ _)) by (unfold FixedCopy.LINE_SIZE; lia).
    unfold zset at 1. rewrite (proj2 (Z.ltb_lt _ _)) by lia.
    assert (E : strncpy_bytes (mb_block v) (mb_length v) = []).
    { unfold strncpy_bytes. rewrite ztake_neg by lia. cbn. unfold zrep.
      pose proof (strlen_nonneg (mb_block v)). replace (Z.to_nat _) with 0%nat by lia. done. }
    rewrite E. change (zwrite (zset stack_line 0 0) 0 []) with (zset stack_line 0 0).
    rewrite H0. done.
Qed.

(** The fields of a message: past the end of their arrays, or in them. *)
Lemma discovery_ok hmsg from :
  (discovery hmsg from = None <->
     exists v, (hdr_value hmsg HDR_DT = Some v \/ hdr_value hmsg HDR_UID = Some v)
            /\ FixedCopy.LINE_SIZE < mb_length v)
  /\ forall d, discovery hmsg from = Some d ->
       strlen (Location d) < FixedCopy.LINE_SIZE /\ DestAddr d = from /\ d_ErrCode d = UPNP_E_SUCCESS
       /\ copy_field (hdr_value hmsg HDR_DT) = Some (DeviceType d)
       /\ copy_field (hdr_value hmsg HDR_UID) = Some (UID d).
Proof.
  unfold discovery. pose proof (location_ok hmsg) as Hl. cbv zeta in Hl |- *.
  set (l := match hdr_value hmsg HDR_LOCATION with Some _ => _ | None => _ end) in *.
  pose proof (copy_field_ok (hdr_value hmsg HDR_DT)) as [D _].
  pose proof (copy_field_ok (hdr_value hmsg HDR_UID)) as [U _].
  destruct (copy_field (hdr_value hmsg HDR_DT)) as [dt|]; cbn [mbind option_bind].
  - destruct (copy_field (hdr_value hmsg HDR_UID)) as [uid|]; cbn [mbind option_bind].
    + split; [|by intros d [= <-]]. split; [done|]. intros (v & [Hv|Hv] & Hlt).
      * by assert (Some dt = None) by (apply D; eauto).
      * by assert (Some uid = None) by (apply U; eauto).
    + split; [|done]. split; [|done]. intros _. destruct (proj1 U eq_refl) as (v & Hv & Hlt). eauto.
  - split; [|done]. split; [|done]. intros _. destruct (proj1 D eq_refl) as (v & Hv & Hlt). eauto.
Qed.
End Datagrams.

(** ** Searches *)

Section Searches.
Context `{HM : Malloc, HR : Resolver, HH : Heap} {T : Type} `{HT : TimerIface T}.
Implicit Types (s : ssys T).

(** The cell a thread will free; the search whose timeout it is about to deliver. *)
Definition thread_cell (th : sthread) : list Z :=
  match th with SExpired i | STimeout i _ _ => [i] | _ => [] end.
Definition thread_item (th : sthread) : list (Z * Z) :=
  match th with STimeout _ _ (Some it) => [it] | _ => [] end.
Definition cells (l : list sthread) : list Z := l ≫= thread_cell.
Definition items (l : list sthread) : list (Z * Z) := l ≫= thread_item.

(** The open searches. *)
Definition searches s : list Z := match the_client s with Some c => SsdpSearchList c | None => [] end.
Definition open_items (l : list Z) (h : gmap Z SsdpSearchArg) : list (Z * Z) :=
  omap (fun a => item_of <$> h !! a) l.

(** The fields of a message fit into their arrays. *)
Definition fits (m : http_message_t) : Prop := forall from, discovery m from <> None.

(** A search is due to expire: its event is in the queue, or its job has started. *)
Definition due s (l : list sthread) (q : list TimerEvent) (ev : Z) : Prop :=
  ev ∈ map ev_id q \/ exists i, SExpired i ∈ l /\ ids s !! i = Some ev.

(** [l]: the threads; [q]: the events not handed over yet, of which the timer holds
    [qt]; [n]: the next id, at most [k]. *)
Record sinv (k : Z) s (l : list sthread) (q qt : list TimerEvent) (n : Z) : Prop := {
  si_tm : tm_holds (stm s) qt n;
  si_nodup : NoDup (searches s);
  si_live : forall a, a ∈ searches s -> is_Some (args s !! a);
  si_cells : NoDup (map ev_arg q ++ cells l);
  si_ids : forall i, i ∈ map ev_arg q ++ cells l -> is_Some (ids s !! i);
  si_cell : forall e, e ∈ q -> ids s !! ev_arg e = Some (ev_id e);
  si_count : 0 <= n <= k;
  si_msgs : forall m from, SMsg m from ∈ l -> fits m;
  si_fate : lost s = false ->
    started s ≡ₚ open_items (searches s) (args s) ++ items l ++ timed_out s ++ dropped s;
  si_started : lost s = false -> NoDup (map fst (started s)) /\ Forall (fun it => it.1 < n) (started s);
  si_due : lost s = false -> forall a x, a ∈ searches s -> args s !! a = Some x ->
    due s l q (timeoutEventId x)
}.

Lemma cells_cons th l : cells (th :: l) = thread_cell th ++ cells l.
Proof. done. Qed.
Lemma items_cons th l : items (th :: l) = thread_item th ++ items l.
Proof. done. Qed.
Lemma cells_app l1 l2 : cells (l1 ++ l2) = cells l1 ++ cells l2.
Proof. apply bind_app. Qed.
Lemma items_app l1 l2 : items (l1 ++ l2) = items l1 ++ items l2.
Proof. apply bind_app. Qed.
Lemma cells_perm l l' : l ≡ₚ l' -> cells l ≡ₚ cells l'.
Proof. intros Hp. unfold cells. by rewrite Hp. Qed.
Lemma items_perm l l' : l ≡ₚ l' -> items l ≡ₚ items l'.
Proof. intros Hp. unfold items. by rewrite Hp. Qed.

Lemma sinv_perm k s l l' q qt n : l ≡ₚ l' -> sinv k s l q qt n -> sinv k s l' q qt n.
Proof.
  intros Hp [H1 H2 H3 H4 H5 H6 H7 H8 H9 H10 H11]. split; try done.
  - by rewrite <- (cells_perm _ _ Hp).
  - intros i. rewrite <- (cells_perm _ _ Hp). apply H5.
  - intros m from. rewrite <- Hp. apply H8.
  - intros Hl. rewrite <- (items_perm _ _ Hp). by apply H9.
  - intros Hl a x Ha Hx. destruct (H11 Hl a x Ha Hx) as [Hd|(i & Hi & Hd)]; [by left|right].
    exists i. by rewrite <- Hp.
Qed.

Lemma sinv_later k k' s l q qt n : k <= k' -> sinv k s l q qt n -> sinv k' s l q qt n.
Proof. intros Hk []. split; try done. lia. Qed.

Lemma open_items_live l h a x : a ∈ l -> h !! a = Some x -> item_of x ∈ open_items l h.
Proof.
  intros Ha Hx. unfold open_items. apply list_elem_of_omap. exists a. split; [done|]. by rewrite Hx.
Qed.

Lemma open_items_ext l h h' : (forall a, a ∈ l -> h' !! a = h !! a) -> open_items l h' = open_items l h.
Proof.
  induction l as [|a l IH]; intros He; [done|]. unfold open_items. cbn. rewrite He by left.
  fold (open_items l h') (open_items l h). rewrite IH; [done|]. intros b Hb. apply He. by right.
Qed.

(** A thread that owns nothing comes or goes. *)
Lemma sinv_plain k s l q qt n th :
  thread_cell th = [] -> thread_item th = [] -> (forall m from, th = SMsg m from -> fits m) ->
  sinv k s l q qt n -> sinv k s (th :: l) q qt n.
Proof.
  intros Hc Hi Hm [H1 H2 H3 H4 H5 H6 H7 H8 H9 H10 H11].
  split; rewrite ?cells_cons, ?items_cons, ?Hc, ?Hi; try done.
  - intros m from [Et|Hin]%elem_of_cons; [by eapply Hm|by eapply H8].
  - intros Hl a x Ha Hx. destruct (H11 Hl a x Ha Hx) as [Hd|(i & Hin & Hd)]; [by left|right].
    exists i. split; [by right|done].
Qed.

Lemma sinv_drop k s l q qt n th :
  thread_cell th = [] -> thread_item th = [] -> sinv k s (th :: l) q qt n -> sinv k s l q qt n.
Proof.
  intros Hc Hi [H1 H2 H3 H4 H5 H6 H7 H8 H9 H10 H11].
  rewrite ?cells_cons, ?items_cons, ?Hc, ?Hi in *. split; try done.
  - intros m from Hin. eapply H8. by right.
  - intros Hl a x Ha Hx. destruct (H11 Hl a x Ha Hx) as [Hd|(i & Hin & Hd)]; [by left|right].
    exists i. split; [|done]. apply elem_of_cons in Hin as [<-|Hin]; [done|done].
Qed.

(** ** Sections *)

Definition step_ok k s l (r : option (ssys T * sthread * list sthread)) : Prop :=
  exists s' th new q n, r = Some (s', th, new) /\ sthreads s' = sthreads s
    /\ sinv (k + 1) s' (th :: new ++ l) q q n.

(** The states a section leaves agree on the parts it does not change. *)
Lemma sinv_ext k s s' l q qt n :
  the_client s' = the_client s -> args s' = args s -> ids s' = ids s -> stm s' = stm s ->
  started s' = started s -> timed_out s' = timed_out s -> dropped s' = dropped s -> lost s' = lost s ->
  sinv k s l q qt n -> sinv k s' l q qt n.
Proof.
  intros E1 E2 E3 E4 E5 E6 E7 E8 [H1 H2 H3 H4 H5 H6 H7 H8 H9 H10 H11].
  assert (Es : searches s' = searches s) by (unfold searches; by rewrite E1).
  split; rewrite ?Es, ?E2, ?E3, ?E4, ?E5, ?E6, ?E7, ?E8; try done.
  intros Hl a x Ha Hx. unfold due. rewrite E3. by apply (H11 Hl a x).
Qed.

Lemma plain_ok k s s' l q n th th' :
  sinv k s (th :: l) q q n -> thread_cell th = [] -> thread_item th = [] ->
  thread_cell th' = [] -> thread_item th' = [] -> (forall m from, th' = SMsg m from -> fits m) ->
  the_client s' = the_client s -> args s' = args s -> ids s' = ids s -> stm s' = stm s ->
  started s' = started s -> timed_out s' = timed_out s -> dropped s' = dropped s -> lost s' = lost s ->
  sinv (k + 1) s' (th' :: l) q q n.
Proof.
  intros Hs Hc Hi Hc' Hi' Hm E1 E2 E3 E4 E5 E6 E7 E8. eapply sinv_ext; try eassumption.
  eapply sinv_later; [|apply sinv_plain; [done..|exact (sinv_drop _ _ _ _ _ _ _ Hc Hi Hs)]]. lia.
Qed.

(** The state once a search is added. *)
Definition with_search (e : senv) c a i t x (rc : Z) s : ssys T :=
  let s := set_stm t (set_ids (<[i := timeoutEventId x]> (ids s)) (set_args (<[a := x]> (args s)) s)) in
  let s := log [item_of x] [] [] (negb (rc =? 0) || negb (s_node e)) s in
  if s_node e
  then set_client (Some (Client (c_callback c) (c_cookie c) (SsdpSearchList c ++ [a]))) s else s.

Lemma with_search_fields e c a i t x rc s :
  the_client s = Some c ->
  let s' := with_search e c a i t x rc s in
  searches s' = searches s ++ (if s_node e then [a] else [])
  /\ args s' = <[a := x]> (args s) /\ ids s' = <[i := timeoutEventId x]> (ids s) /\ stm s' = t
  /\ started s' = started s ++ [item_of x] /\ timed_out s' = timed_out s ++ []
  /\ dropped s' = dropped s ++ [] /\ lost s' = lost s || (negb (rc =? 0) || negb (s_node e))
  /\ sthreads s' = sthreads s.
Proof.
  intros Hc. cbv zeta. unfold with_search, searches. rewrite Hc.
  destruct (s_node e); cbn; [|rewrite Hc, app_nil_r]; done.
Qed.

(** What holds whether or not something was lost. *)
Lemma with_search_own e c a i t x rc s k l q n q' n' :
  the_client s = Some c -> args s !! a = None -> ids s !! i = None -> k + 1 < 2 ^ 31 ->
  sinv k s l q q n -> tm_holds t q' n' ->
  (q' = q \/ exists ev, ev_arg ev = i /\ ev_id ev = timeoutEventId x /\ q' ≡ₚ ev :: q) ->
  (n' = n \/ n' = s32 (n + 1)) ->
  let s' := with_search e c a i t x rc s in
  (lost s' = false ->
    started s' ≡ₚ open_items (searches s') (args s') ++ items l ++ timed_out s' ++ dropped s') ->
  (lost s' = false -> NoDup (map fst (started s')) /\ Forall (fun it => it.1 < n') (started s')) ->
  (lost s' = false -> forall b y, b ∈ searches s' -> args s' !! b = Some y ->
     due s' l q' (timeoutEventId y)) ->
  sinv (k + 1) s' l q' q' n'.
Proof.
  intros Hc Ha Hi Hk [H1 H2 H3 H4 H5 H6 H7 H8 _ _ _] Ht Hq Hn. cbv zeta.
  destruct (with_search_fields e c a i t x rc s Hc) as (E1 & E2 & E3 & E4 & _).
  set (s' := with_search e c a i t x rc s) in *. intros F1 F2 F3.
  assert (Hal : a ∉ searches s) by (intros Hin; apply H3 in Hin as [? ?]; congruence).
  assert (Hio : i ∉ map ev_arg q ++ cells l) by (intros Hin; apply H5 in Hin as [? ?]; congruence).
  assert (Hcells : map ev_arg q' ++ cells l ≡ₚ map ev_arg q ++ cells l
                   \/ map ev_arg q' ++ cells l ≡ₚ i :: map ev_arg q ++ cells l).
  { destruct Hq as [->|(ev & Ea & _ & ->)]; [by left|right]. cbn. by rewrite Ea. }
  split; try done.
  - by rewrite E4.
  - rewrite E1. destruct (s_node e); [|by rewrite app_nil_r].
    apply NoDup_app. split; [done|]. split; [|apply NoDup_singleton].
    intros b Hb ->%list_elem_of_singleton. done.
  - rewrite E1, E2. intros b Hb. destruct (decide (b = a)) as [->|Hne].
    + rewrite lookup_insert_eq. by eexists.
    + rewrite lookup_insert_ne by done. apply H3.
      apply elem_of_app in Hb as [Hb|Hb]; [done|]. destruct (s_node e); [|by apply elem_of_nil in Hb].
      by apply list_elem_of_singleton in Hb.
  - destruct Hcells as [->| ->]; [done|]. by constructor.
  - rewrite E3. intros j Hj. destruct (decide (j = i)) as [->|Hne]; [rewrite lookup_insert_eq; by eexists|].
    rewrite lookup_insert_ne by done. apply H5. destruct Hcells as [Hp|Hp]; rewrite Hp in Hj; [done|].
    by apply elem_of_cons in Hj as [|].
  - rewrite E3. intros d Hd.
    assert (Hd' : d ∈ q \/ ev_arg d = i /\ ev_id d = timeoutEventId x).
    { destruct Hq as [->|(ev & Ea & Ei & Hp)]; [by left|]. rewrite Hp in Hd.
      apply elem_of_cons in Hd as [->|Hd]; [by right|by left]. }
    destruct Hd' as [Hd'|[-> ->]]; [|by rewrite lookup_insert_eq].
    rewrite lookup_insert_ne; [by apply H6|]. intros Hid. apply Hio, elem_of_app. left. rewrite Hid.
    by apply list_elem_of_fmap_2.
  - destruct Hn as [->| ->]; [lia|]. rewrite s32_small by lia. lia.
Qed.

Lemma with_search_ok e c a i t x s k l q n rc :
  the_client s = Some c -> args s !! a = None -> ids s !! i = None -> k + 1 < 2 ^ 31 ->
  sinv k s l q q n ->
  (rc <> 0 /\ (exists n', tm_holds t q n' /\ (n' = n \/ n' = s32 (n + 1)))
   \/ rc = 0 /\ timeoutEventId x = n
      /\ exists ev, ev_arg ev = i /\ ev_id ev = n /\ tm_holds t (insert_event ev q) (s32 (n + 1))) ->
  exists q' n', sinv (k + 1) (with_search e c a i t x rc s) l q' q' n'.
Proof.
  intros Hc Ha Hi Hk Hs Hcase.
  destruct (with_search_fields e c a i t x rc s Hc) as (E1 & E2 & E3 & _ & E5 & E6 & E7 & E8 & _).
  destruct Hcase as [(Hrc & n' & Ht & Hn)|(-> & Ex & ev & Ea & Ei & Ht)].
  { assert (El : lost (with_search e c a i t x rc s) = true).
    { rewrite E8, (proj2 (Z.eqb_neq rc 0) Hrc). cbn. by rewrite orb_true_r. }
    exists q, n'. eapply with_search_own; try done; [by left|rewrite El; done..]. }
  exists (insert_event ev q), (s32 (n + 1)).
  assert (Hp := insert_event_perm ev q).
  pose proof (si_count _ _ _ _ _ _ Hs) as Hn. rewrite s32_small in Ht |- * by lia.
  assert (Hq : exists ev0, ev_arg ev0 = i /\ ev_id ev0 = timeoutEventId x /\ insert_event ev q ≡ₚ ev0 :: q).
  { exists ev. by rewrite Ex. }
  eapply with_search_own; try done; [by right|right; by rewrite s32_small by lia|..];
    rewrite E8; cbn [Z.eqb negb orb]; intros [Hl Hnode]%orb_false_iff; apply negb_false_iff in Hnode;
    rewrite Hnode in E1.
  - rewrite E1, E2, E5, E6, E7, !app_nil_r, (si_fate _ _ _ _ _ _ Hs Hl).
    unfold open_items at 2. rewrite omap_app. fold (open_items (searches s) (<[a:=x]> (args s))).
    cbn. rewrite lookup_insert_eq. cbn. rewrite (open_items_ext _ (args s) (<[a:=x]> (args s))).
    + rewrite <- !app_assoc. apply Permutation_app_head. cbn. symmetry. rewrite Permutation_cons_append.
      by rewrite <- !app_assoc.
    + intros b Hb. rewrite lookup_insert_ne; [done|]. intros ->. apply (si_live _ _ _ _ _ _ Hs) in Hb as [? ?]. congruence.
  - rewrite E5. destruct (si_started _ _ _ _ _ _ Hs Hl) as [Hd Hlt]. rewrite map_app. split.
    + apply NoDup_app. split; [done|]. split; [|apply NoDup_singleton].
      intros y Hy Hy'%list_elem_of_singleton. apply list_elem_of_fmap in Hy as (it & -> & Hin).
      rewrite Forall_forall in Hlt. specialize (Hlt it Hin). cbn in Hy'. lia.
    + apply Forall_app. split; [eapply Forall_impl; [exact Hlt|cbn; lia]|]. apply Forall_singleton. cbn. lia.
  - intros b y Hb Hy. rewrite E1 in Hb. rewrite E2 in Hy.
    destruct (decide (b = a)) as [->|Hne].
    + rewrite lookup_insert_eq in Hy. injection Hy as <-. left. rewrite Ex, <- Ei.
      apply list_elem_of_fmap_2. rewrite Hp. by left.
    + rewrite lookup_insert_ne in Hy by done.
      apply elem_of_app in Hb as [Hb|Hb%list_elem_of_singleton]; [|done].
      destruct (si_due _ _ _ _ _ _ Hs Hl b y Hb Hy) as [Hd|(j & Hj & Hd)]; [left|right].
      * apply list_elem_of_fmap in Hd as (d & -> & Hd). apply list_elem_of_fmap_2. rewrite Hp. by right.
      * exists j. split; [done|]. rewrite E3, lookup_insert_ne; [done|]. intros <-. congruence.
Qed.

Lemma search_section_ok k s l q n e t st cookie ty packets :
  (forall used size, is_Some (malloc used size)) -> k + 1 < 2 ^ 31 ->
  sinv k s (SSearch t st cookie ty packets :: l) q q n ->
  step_ok k s l (search_section e t st cookie ty packets s).
Proof.
  intros Ha Hk Hs. unfold search_section.
  destruct (the_client s) as [c|] eqn:Ec.
  2:{ exists s, (SDone UPNP_E_INTERNAL_ERROR), [], q, n. split; [done|]. split; [done|]. by eapply plain_ok. }
  apply sinv_drop in Hs; [|done|done].
  destruct (Ha (dom (args s)) sizeof_SsdpSearchArg) as [a Ea]. rewrite Ea.
  destruct (Ha (dom (ids s)) sizeof_int) as [i Ei]. rewrite Ei.
  apply malloc_ok in Ea as [_ Ea]. apply malloc_ok in Ei as [_ Ei].
  apply not_elem_of_dom in Ea. apply not_elem_of_dom in Ei.
  destruct (tm_schedule_ok (s_now e) t (expire_job i) _ _ _ (si_tm _ _ _ _ _ _ Hs))
    as (rc & ev & t' & n' & E & Hc). cbn [mbind option_bind]. rewrite E. cbn [mbind option_bind]. cbv zeta.
  set (x := SearchArg ev st cookie ty).
  fold (with_search e c a i t' x rc s).
  destruct (with_search_ok e c a i t' x s k l q n rc Ec Ea Ei Hk Hs) as (q2 & n2 & Hs2).
  { destruct Hc as [(Hrc & Hh & Hn)|(-> & Hev & -> & Hh)]; [left|right].
    - split; [done|]. by exists n'.
    - split; [done|]. split; [done|]. eexists. split; [|split; [|exact Hh]]; done. }
  destruct (with_search_fields e c a i t' x rc s Ec) as (_ & _ & _ & _ & _ & _ & _ & _ & Et).
  destruct (s_select e); eexists _, _, [], q2, n2; (split; [reflexivity|]); (split; [exact Et|]);
    (apply sinv_plain; [done..|]); [eapply sinv_ext; [..|exact Hs2]; done|exact Hs2].
Qed.

(** *** Expiry *)

(** The event of thread [th], if its job has just started, is that of no open search. *)
Definition not_due s (th : sthread) : Prop :=
  forall j, th = SExpired j -> forall a x, a ∈ searches s -> args s !! a = Some x ->
    ids s !! j <> Some (timeoutEventId x).

Lemma due_other s th l q ev :
  (forall j, th = SExpired j -> ids s !! j <> Some ev) -> due s (th :: l) q ev -> due s l q ev.
Proof.
  intros Hn [Hd|(j & [E|Hj]%elem_of_cons & Hd)]; [by left| |right; by exists j].
  by destruct (Hn j (eq_sym E) Hd).
Qed.

Lemma sinv_swap k s th th' l q qt n :
  thread_cell th' = thread_cell th -> thread_item th' = thread_item th -> not_due s th ->
  (forall m from, th' <> SMsg m from) -> sinv k s (th :: l) q qt n -> sinv k s (th' :: l) q qt n.
Proof.
  intros Ec Ei Hn Hm [H1 H2 H3 H4 H5 H6 H7 H8 H9 H10 H11].
  rewrite ?cells_cons, ?items_cons in *. split; rewrite ?cells_cons, ?items_cons, ?Ec, ?Ei; try done.
  - intros m from [E|Hin]%elem_of_cons; [by destruct (Hm m from)|]. eapply H8. by right.
  - intros Hl a x Ha Hx. destruct (due_other s th l q (timeoutEventId x)) as [Hd|(j & Hj & Hd)].
    + intros j ->. by eapply Hn.
    + by apply H11 with a.
    + by left.
    + right. exists j. split; [by right|done].
Qed.

Lemma sinv_pop k s th i l q qt n :
  thread_cell th = [i] -> thread_item th = [] -> not_due s th -> sinv k s (th :: l) q qt n ->
  i ∉ map ev_arg q ++ cells l /\ is_Some (ids s !! i) /\ sinv k s l q qt n.
Proof.
  intros Ec Ei Hn [H1 H2 H3 H4 H5 H6 H7 H8 H9 H10 H11].
  rewrite ?cells_cons, ?items_cons, ?Ec, ?Ei in *.
  assert (Hp : map ev_arg q ++ [i] ++ cells l ≡ₚ i :: map ev_arg q ++ cells l)
    by (cbn [app]; by rewrite <- Permutation_middle).
  rewrite Hp in H4. apply NoDup_cons in H4 as [H4 H4'].
  split; [done|]. split; [apply H5; rewrite Hp; by left|].
  split; try done.
  - intros j Hj. apply H5. rewrite Hp. by right.
  - intros m from Hin. eapply H8. by right.
  - intros Hl a x Ha Hx. eapply due_other; [|by apply H11 with a]. intros j ->. by eapply Hn.
Qed.

Lemma free_ok k s i l q qt n :
  is_Some (ids s !! i) -> i ∉ map ev_arg q ++ cells l -> sinv k s l q qt n ->
  exists s', free_id i s = Some s' /\ sthreads s' = sthreads s /\ sinv k s' l q qt n
    /\ stm s' = stm s /\ lost s' = lost s.
Proof.
  intros [v Hv] Hi [H1 H2 H3 H4 H5 H6 H7 H8 H9 H10 H11]. unfold free_id. rewrite Hv.
  cbn [mbind option_bind]. eexists. split; [reflexivity|]. split; [done|]. split; [|done].
  split; try done; cbn.
  - intros j Hj. rewrite lookup_delete_ne; [by apply H5|]. by intros ->.
  - intros e He. rewrite lookup_delete_ne; [by apply H6|]. intros E. apply Hi, elem_of_app. left.
    rewrite E. by apply list_elem_of_fmap_2.
  - intros Hl a x Ha Hx. destruct (H11 Hl a x Ha Hx) as [Hd|(j & Hj & Hd)]; [by left|right].
    exists j. split; [done|]. cbn. rewrite lookup_delete_ne; [done|]. intros ->. apply Hi, elem_of_app. right.
    unfold cells. apply list_elem_of_bind. exists (SExpired j). split; [by left|done].
Qed.

Lemma expired_item_ok ev l h :
  (forall a, a ∈ l -> is_Some (h !! a)) ->
  expired_item ev l h = Some None
    /\ (forall a x, a ∈ l -> h !! a = Some x -> timeoutEventId x <> ev)
  \/ exists a x, expired_item ev l h = Some (Some (a, x)) /\ a ∈ l /\ h !! a = Some x
       /\ timeoutEventId x = ev.
Proof.
  induction l as [|a l IH]; intros Hl; cbn [expired_item].
  - left. split; [done|]. by intros a x ?%elem_of_nil.
  - destruct (Hl a) as [x Hx]; [by left|]. rewrite Hx. cbn [mbind option_bind].
    destruct (Z.eqb_spec (timeoutEventId x) ev) as [E|Hne].
    + right. exists a, x. split; [done|]. split; [by left|done].
    + destruct IH as [[-> Hn]|(b & y & -> & Hb & Hy & E)].
      * intros b Hb. apply Hl. by right.
      * left. split; [done|]. intros b y [->|Hb]%elem_of_cons Hy; [congruence|by apply Hn with b].
      * right. exists b, y. split; [done|]. split; [by right|done].
Qed.

Lemma filter_absent (a : Z) (l : list Z) : a ∉ l -> filter (fun b => b <> a) l = l.
Proof.
  induction l as [|b l IH]; intros Ha; [done|]. apply not_elem_of_cons in Ha as [Hn Ha].
  rewrite filter_cons_True by done. by rewrite IH.
Qed.

Lemma open_items_remove l h a x :
  NoDup l -> a ∈ l -> h !! a = Some x ->
  open_items l h ≡ₚ item_of x :: open_items (filter (fun b => b <> a) l) (delete a h).
Proof.
  induction 1 as [|b l Hb Hn IH]; intros Ha Hx; [by apply elem_of_nil in Ha|].
  apply elem_of_cons in Ha as [<-|Ha].
  - rewrite filter_cons_False by (by intros ?). rewrite filter_absent by done.
    unfold open_items at 1. cbn. rewrite Hx. cbn. apply Permutation_skip. fold (open_items l h).
    rewrite (open_items_ext l h (delete a h)); [done|]. intros c Hc. by rewrite lookup_delete_ne by (by intros ->).
  - assert (Hne : b <> a) by (by intros ->). rewrite filter_cons_True by done.
    unfold open_items. cbn. rewrite lookup_delete_ne by done. fold (open_items l h).
    fold (open_items (filter (fun b => b <> a) l) (delete a h)).
    destruct (h !! b); cbn; rewrite (IH Ha Hx); [apply Permutation_swap|done].
Qed.


(** The items of open searches have different ids. *)
Lemma open_ids_differ k s l q qt n a b x y :
  lost s = false -> sinv k s l q qt n -> a ∈ searches s -> args s !! a = Some x ->
  b ∈ searches s -> args s !! b = Some y -> b <> a -> timeoutEventId y <> timeoutEventId x.
Proof.
  intros Hl Hs Ha Hx Hb Hy Hne E. destruct (si_started _ _ _ _ _ _ Hs Hl) as [Hd _].
  rewrite (si_fate _ _ _ _ _ _ Hs Hl) in Hd.
  rewrite (open_items_remove _ _ _ _ (si_nodup _ _ _ _ _ _ Hs) Ha Hx) in Hd.
  rewrite <- app_comm_cons in Hd. cbn [map] in Hd. apply NoDup_cons in Hd as [Hd _]. apply Hd.
  cbn [item_of fst]. rewrite <- E. rewrite map_app. apply elem_of_app. left.
  apply (list_elem_of_fmap_2 fst _ (item_of y)).
  apply (open_items_live _ _ b); [by apply list_elem_of_filter|by rewrite lookup_delete_ne].
Qed.

Lemma expired_found k s i l q n c a x :
  the_client s = Some c -> ids s !! i = Some (timeoutEventId x) -> a ∈ searches s ->
  args s !! a = Some x -> sinv k s (SExpired i :: l) q q n ->
  sinv k (set_client (Some (Client (c_callback c) (c_cookie c)
                              (filter (fun b => b <> a) (SsdpSearchList c))))
            (set_args (delete a (args s)) s))
       (STimeout i (c_callback c) (Some (item_of x)) :: l) q q n.
Proof.
  intros Hc Hi Ha Hx Hs. pose proof Hs as [H1 H2 H3 H4 H5 H6 H7 H8 H9 H10 H11].
  set (s' := set_client _ _).
  assert (Es : searches s' = filter (fun b => b <> a) (searches s)).
  { unfold searches. by rewrite Hc. }
  rewrite ?cells_cons, ?items_cons in *.
  split; rewrite ?Es, ?cells_cons, ?items_cons; try done.
  - by apply NoDup_filter.
  - intros b [Hn Hb]%list_elem_of_filter. cbn. rewrite lookup_delete_ne by done. by apply H3.
  - intros m from [?|Hin]%elem_of_cons; [done|]. eapply H8. by right.
  - intros Hl. cbn [started args timed_out dropped s' set_client set_args]. rewrite (H9 Hl).
    rewrite (open_items_remove _ _ _ _ H2 Ha Hx). cbn [thread_item app]. by rewrite <- Permutation_middle.
  - intros Hl b y [Hn Hb]%list_elem_of_filter Hy. cbn in Hy. change (lost s = false) in Hl. rewrite lookup_delete_ne in Hy by done.
    destruct (due_other s (SExpired i) l q (timeoutEventId y)) as [Hd|(j & Hj & Hd)].
    + intros j [= <-]. rewrite Hi. intros [= E]. symmetry in E. revert E.
      exact (open_ids_differ _ _ _ _ _ _ _ _ _ _ Hl Hs Ha Hx Hb Hy Hn).
    + by apply H11 with b.
    + by left.
    + right. exists j. split; [by right|done].
Qed.

Lemma no_client_not_due s th : the_client s = None -> not_due s th.
Proof. intros Hc j _ a x Ha. unfold searches in Ha. rewrite Hc in Ha. by apply elem_of_nil in Ha. Qed.

(** The cell of a finished thread is freed. *)
Lemma finish_cell k s th i l q n :
  thread_cell th = [i] -> thread_item th = [] -> not_due s th -> sinv k s (th :: l) q q n ->
  exists s', free_id i s = Some s' /\ sthreads s' = sthreads s /\ sinv (k + 1) s' (SDone 0 :: l) q q n.
Proof.
  intros Hc Hi Hn Hs. destruct (sinv_pop _ _ _ _ _ _ _ _ Hc Hi Hn Hs) as (Hf & Hl & Hs').
  destruct (free_ok _ _ _ _ _ _ _ Hl Hf Hs') as (s' & E & Et & Hs2 & _).
  exists s'. split; [done|]. split; [done|]. apply sinv_plain; [done..|]. eapply sinv_later; [|exact Hs2]. lia.
Qed.

Lemma searchExpired_ok k s l q n i :
  sinv k s (SExpired i :: l) q q n -> step_ok k s l (searchExpired i s).
Proof.
  intros Hs. unfold searchExpired. destruct (the_client s) as [c|] eqn:Ec.
  - assert (Es : searches s = SsdpSearchList c) by (unfold searches; by rewrite Ec).
    destruct (si_ids _ _ _ _ _ _ Hs i) as [ev Hev]; [rewrite cells_cons; set_solver|].
    rewrite Hev. cbn [mbind option_bind]. rewrite <- Es.
    destruct (expired_item_ok ev (searches s) (args s) (si_live _ _ _ _ _ _ Hs))
      as [[-> Hn]|(a & x & -> & Ha & Hx & E)]; cbn [mbind option_bind].
    + exists s, (STimeout i (c_callback c) None), [], q, n. split; [done|]. split; [done|].
      eapply (sinv_later k); [lia|]. eapply sinv_swap; [..|exact Hs]; try done.
      intros j [= <-] a x Ha Hx. rewrite Hev. intros [= E]. by eapply Hn.
    + eexists _, _, [], q, n. split; [reflexivity|]. split; [done|]. eapply (sinv_later k); [lia|].
      rewrite Es. eapply expired_found; [exact Ec| |exact Ha|exact Hx|exact Hs]. by rewrite E.
  - destruct (finish_cell k s (SExpired i) i l q n eq_refl eq_refl (no_client_not_due _ _ Ec) Hs)
      as (s' & -> & Et & Hs'). cbn [mbind option_bind].
    by exists s', (SDone 0), [], q, n.
Qed.

Lemma expired_end_ok k s l q n i fn found :
  sinv k s (STimeout i fn found :: l) q q n -> step_ok k s l (expired_end i fn found s).
Proof.
  intros Hs. unfold expired_end.
  set (s1 := match found with Some it => _ | None => s end).
  assert (Hs1 : sinv k s1 (STimeout i fn None :: l) q q n /\ sthreads s1 = sthreads s).
  { unfold s1. destruct found as [it|]; [|done]. split; [|done].
    destruct Hs as [H1 H2 H3 H4 H5 H6 H7 H8 H9 H10 H11].
    split; cbn [stm args ids started timed_out dropped lost log call_back]; rewrite ?app_nil_r, ?orb_false_r;
      try done.
    - intros m from [?|Hin]%elem_of_cons; [done|]. eapply H8. by right.
    - intros Hl. rewrite (H9 Hl), !items_cons. cbn [thread_item app].
      apply Permutation_app_head. rewrite Permutation_middle. apply Permutation_app_head.
      by rewrite <- Permutation_cons_append.
    - intros Hl a x Ha Hx. destruct (H11 Hl a x Ha Hx) as [Hd|(j & [?|Hj]%elem_of_cons & Hd)];
        [by left|done|right]. exists j. split; [by right|done]. }
  destruct Hs1 as [Hs1 Et1].
  destruct (finish_cell k s1 (STimeout i fn None) i l q n eq_refl eq_refl ltac:(done) Hs1)
    as (s' & -> & Et & Hs'). cbn [mbind option_bind].
  exists s', (SDone 0), [], q, n. split; [done|]. split; [congruence|done].
Qed.

(** *** Messages *)

Lemma handle_msg_ok k s l q n m from :
  sinv k s (SMsg m from :: l) q q n -> step_ok k s l (handle_msg m from s).
Proof.
  intros Hs. unfold handle_msg. destruct (the_client s) as [c|].
  2:{ exists s, (SDone 0), [], q, n. split; [done|]. split; [done|]. by eapply plain_ok. }
  pose proof (si_msgs _ _ _ _ _ _ Hs m from ltac:(by left) from) as Hf.
  destruct (discovery m from) as [d|]; [|done]. cbn [mbind option_bind].
  destruct (classify m d); eexists _, _, [], q, n; (split; [reflexivity|]); (split; [done|]);
    by eapply plain_ok.
Qed.

Lemma match_searches_ok i e fn param st l h :
  (forall a, a ∈ l -> is_Some (h !! a)) ->
  exists r, match_searches i e fn param st l h = Some r
    /\ Forall (fun th => exists a x, a ∈ l /\ h !! a = Some x /\ search_match x st = true
                 /\ th = SResult fn (sa_cookie x) param) r.
Proof.
  revert i. induction l as [|a l IH]; intros i Hl; cbn [match_searches]; [by exists []|].
  destruct (Hl a) as [x Hx]; [by left|]. rewrite Hx. cbn [mbind option_bind].
  assert (Hl' : forall b, b ∈ l -> is_Some (h !! b)) by (intros b Hb; apply Hl; by right).
  assert (Hw : forall r, Forall (fun th => exists a x, a ∈ l /\ h !! a = Some x /\ search_match x st = true
                 /\ th = SResult fn (sa_cookie x) param) r ->
               Forall (fun th => exists b x, b ∈ a :: l /\ h !! b = Some x /\ search_match x st = true
                 /\ th = SResult fn (sa_cookie x) param) r).
  { intros r Hr0. eapply Forall_impl; [exact Hr0|]. intros th (b & y & Hb & Hr).
    exists b, y. split; [by right|done]. }
  destruct (search_match x st) eqn:Em.
  - destruct (IH (S i) Hl') as (r & -> & Hr). cbn [mbind option_bind]. eexists. split; [reflexivity|].
    destruct (s_job e i); [|by apply Hw]. constructor; [|by apply Hw].
    exists a, x. split; [by left|done].
  - destruct (IH i Hl') as (r & -> & Hr). exists r. split; [done|]. by apply Hw.
Qed.

Lemma sinv_results k s l q qt n r :
  Forall (fun th => exists fn c p, th = SResult fn c p) r -> sinv k s l q qt n -> sinv k s (r ++ l) q qt n.
Proof. induction 1 as [|th r (fn & c & p & ->) _ IH]; intros Hs; [done|]. apply sinv_plain; [done..|auto]. Qed.

Lemma handle_reply_ok k s l q n e fn param st :
  sinv k s (SReply fn param st :: l) q q n -> step_ok k s l (handle_reply e fn param st s).
Proof.
  intros Hs. unfold handle_reply. destruct (the_client s) as [c|] eqn:Ec.
  2:{ exists s, (SDone 0), [], q, n. split; [done|]. split; [done|]. by eapply plain_ok. }
  assert (Es : searches s = SsdpSearchList c) by (unfold searches; by rewrite Ec). rewrite <- Es.
  destruct (match_searches_ok 0 e fn param st (searches s) (args s) (si_live _ _ _ _ _ _ Hs))
    as (r & -> & Hr). cbn [mbind option_bind].
  exists s, (SDone 0), r, q, n. split; [done|]. split; [done|].
  apply sinv_plain; [done..|]. apply sinv_results.
  - eapply Forall_impl; [exact Hr|]. intros th (a & x & _ & _ & _ & ->). by eexists _, _, _.
  - eapply (sinv_later k); [lia|]. exact (sinv_drop _ _ _ _ _ _ (SReply fn param st) eq_refl eq_refl Hs).
Qed.

Lemma s_section_ok k s l q n e th :
  (forall used size, is_Some (malloc used size)) -> k + 1 < 2 ^ 31 ->
  sinv k s (th :: l) q q n -> step_ok k s l (s_section e th s).
Proof.
  intros Ha Hk Hs. destruct th; cbn [s_section];
    [by eapply search_section_ok|by eapply handle_msg_ok|by eapply handle_reply_ok| |
     by eapply searchExpired_ok|by eapply expired_end_ok|].
  - eexists _, _, [], q, n. split; [reflexivity|]. split; [done|]. by eapply plain_ok.
  - eexists _, _, [], q, n. split; [reflexivity|]. split; [done|]. by eapply plain_ok.
Qed.

(** ** Runs *)

Definition sys_inv k s : Prop := exists q n, sinv k s (sthreads s) q q n.

Lemma sinv_threads k s l l' q qt n : sinv k s l q qt n -> sinv k (set_sthreads l' s) l q qt n.
Proof. intros Hs. by eapply sinv_ext; [..|exact Hs]. Qed.

Lemma s_thread_ok k s i e :
  (forall used size, is_Some (malloc used size)) -> k + 1 < 2 ^ 31 -> sys_inv k s ->
  exists s', s_thread i e s = Some s' /\ sys_inv (k + 1) s'.
Proof.
  intros Ha Hk (q & n & Hs). unfold s_thread. destruct (sthreads s !! i) as [th|] eqn:Ei.
  2:{ exists s. split; [done|]. exists q, n. eapply sinv_later; [|exact Hs]. lia. }
  pose proof (take_drop_middle _ _ _ Ei) as El.
  set (l1 := take i (sthreads s)) in *. set (l2 := drop (S i) (sthreads s)) in *.
  assert (Hp : sthreads s ≡ₚ th :: l1 ++ l2) by (rewrite <- El; by rewrite <- Permutation_middle).
  destruct (s_section_ok k s (l1 ++ l2) q n e th Ha Hk (sinv_perm _ _ _ _ _ _ _ Hp Hs))
    as (s' & th' & new & q' & n' & -> & Et & Hs'). cbn [mbind option_bind].
  eexists. split; [reflexivity|]. exists q', n'. cbn [sthreads set_sthreads].
  apply sinv_threads. eapply sinv_perm; [|exact Hs']. rewrite Et.
  assert (Hi : <[i := th']> (sthreads s) = l1 ++ th' :: l2).
  { rewrite <- El at 1. apply lookup_lt_Some in Ei.
    assert (Hlen : i = (length l1 + 0)%nat) by (unfold l1; rewrite length_take; lia).
    rewrite Hlen at 1. by rewrite insert_app_r. }
  rewrite Hi. symmetry. rewrite <- app_assoc. cbn [app]. rewrite <- Permutation_middle.
  apply Permutation_skip. rewrite app_assoc. apply Permutation_app_comm.
Qed.

Lemma clean_searches_ok l h :
  NoDup l -> (forall a, a ∈ l -> is_Some (h !! a)) ->
  exists h', clean_searches l h = Some (open_items l h, h') /\ forall a, a ∉ l -> h' !! a = h !! a.
Proof.
  revert h. induction l as [|a l IH]; intros h Hn Hl; cbn [clean_searches]; [by exists h|].
  apply NoDup_cons in Hn as [Ha Hn]. destruct (Hl a) as [x Hx]; [by left|]. rewrite Hx.
  cbn [mbind option_bind]. destruct (IH (delete a h) Hn) as (h' & E & Hh).
  { intros b Hb. rewrite lookup_delete_ne; [apply Hl; by right|]. by intros ->. }
  rewrite E. cbn [mbind option_bind]. exists h'. split.
  - unfold open_items. cbn. rewrite Hx. cbn. fold (open_items l (delete a h)) (open_items l h).
    rewrite (open_items_ext l h (delete a h)); [done|].
    intros b Hb. rewrite lookup_delete_ne; [done|]. by intros ->.
  - intros b [Hb Hb']%not_elem_of_cons. rewrite Hh by done. by rewrite lookup_delete_ne.
Qed.

(** A client without searches. *)
Lemma sinv_no_searches k s s' l q qt n its :
  searches s' = [] -> ids s' = ids s -> stm s' = stm s -> lost s' = lost s ->
  started s' = started s -> timed_out s' = timed_out s -> dropped s' = dropped s ++ its ->
  its = open_items (searches s) (args s) -> sinv k s l q qt n -> sinv k s' l q qt n.
Proof.
  intros E1 E2 E3 E4 E5 E6 E7 -> [H1 H2 H3 H4 H5 H6 H7 H8 H9 H10 H11].
  split; rewrite ?E1, ?E2, ?E3, ?E4, ?E5, ?E6, ?E7; try done.
  - apply NoDup_nil_2.
  - by intros a ?%elem_of_nil.
  - intros Hl. rewrite (H9 Hl). cbn [open_items omap app].
    rewrite (Permutation_app_comm (open_items _ _)), <- !app_assoc. done.
  - by intros Hl a x ?%elem_of_nil.
Qed.

Lemma unregister_ok k s : sys_inv k s -> exists s', unregister s = Some s' /\ sys_inv k s'.
Proof.
  intros (q & n & Hs). unfold unregister. destruct (the_client s) as [c|] eqn:Ec.
  2:{ exists s. split; [done|]. by exists q, n. }
  assert (Es : searches s = SsdpSearchList c) by (unfold searches; by rewrite Ec). rewrite <- Es.
  destruct (clean_searches_ok (searches s) (args s) (si_nodup _ _ _ _ _ _ Hs) (si_live _ _ _ _ _ _ Hs))
    as (h' & -> & _). cbn [mbind option_bind].
  eexists. split; [reflexivity|]. exists q, n.
  apply (sinv_no_searches k s _ _ _ _ _ (open_items (searches s) (args s))); try done; cbn;
    by rewrite ?app_nil_r, ?orb_false_r.
Qed.

Lemma register_ssdp_ok k s fn cookie : sys_inv k s -> sys_inv k (register fn cookie s).
Proof.
  intros (q & n & Hs). unfold register. destruct (the_client s) eqn:Ec; [by exists q, n|].
  exists q, n. assert (Es : searches s = []) by (unfold searches; by rewrite Ec).
  apply (sinv_no_searches k s _ _ _ _ _ []); try done; cbn; [by rewrite app_nil_r|by rewrite Es].
Qed.

(** The events [hs] are on their way from the timer, which holds [qt], to the pool. *)
Lemma s_hand_over_ok k hs s qt n :
  sinv k s (sthreads s) (map h_event hs ++ qt) qt n ->
  exists s', s_hand_over hs s = Some s' /\ sys_inv k s'.
Proof.
  revert s. induction hs as [|h hs IH]; intros s Hs; cbn [s_hand_over].
  { exists s. split; [done|]. by exists qt, n. }
  cbn [map app] in Hs. set (ev := h_event h) in *. cbv zeta.
  assert (Hev : ids s !! ev_arg ev = Some (ev_id ev)) by (apply (si_cell _ _ _ _ _ _ Hs); by left).
  set (q := map h_event hs ++ qt) in *.
  destruct (h_rc h =? 0).
  - apply IH. cbn [sthreads set_sthreads]. apply sinv_threads.
    apply (sinv_perm _ _ (SExpired (arg (job ev)) :: sthreads s)); [apply Permutation_cons_append|].
    destruct Hs as [H1 H2 H3 H4 H5 H6 H7 H8 H9 H10 H11].
    assert (Hp : map ev_arg (ev :: q) ++ cells (sthreads s)
                 ≡ₚ map ev_arg q ++ cells (SExpired (arg (job ev)) :: sthreads s)).
    { rewrite cells_cons. cbn. by rewrite <- Permutation_middle. }
    split; try done.
    + by rewrite <- Hp.
    + intros i. rewrite <- Hp. apply H5.
    + intros e He. apply H6. by right.
    + intros m from [?|Hin]%elem_of_cons; [done|]. by eapply H8.
    + intros Hl a x Ha Hx. destruct (H11 Hl a x Ha Hx) as [Hd|(j & Hj & Hd)].
      * cbn [map] in Hd. apply elem_of_cons in Hd as [Hd|Hd]; [right|by left].
        exists (arg (job ev)). split; [by left|]. fold (ev_arg ev). by rewrite Hev, Hd.
      * right. exists j. split; [by right|done].
  - assert (Hn : arg (job ev) ∉ map ev_arg q ++ cells (sthreads s)).
    { pose proof (si_cells _ _ _ _ _ _ Hs) as Hn. cbn [map app] in Hn. by apply NoDup_cons in Hn as [Hn _]. }
    assert (Hs1 : sinv k (log [] [] [] true s) (sthreads s) q qt n).
    { destruct Hs as [H1 H2 H3 H4 H5 H6 H7 H8 _ _ _].
      split; cbn [stm args ids lost log]; rewrite ?orb_true_r; try done.
      - cbn [map app] in H4. by apply NoDup_cons in H4 as [_ H4].
      - intros i Hi. apply H5. by right.
      - intros e He. apply H6. by right. }
    destruct (free_ok k (log [] [] [] true s) (arg (job ev)) (sthreads s) q qt n) as (s' & E & Et & Hs' & _);
      [by eexists|done|done|].
    assert (E' : exists s2, free_id (arg (job ev)) s = Some s2 /\ log [] [] [] true s2 = s').
    { unfold free_id in E |- *. cbn [ids log] in E.
      destruct (ids s !! arg (job ev)); [|done]. cbn [mbind option_bind] in E |- *.
      injection E as <-. eexists. split; [reflexivity|done]. }
    destruct E' as (s2 & -> & E2). cbn [mbind option_bind]. rewrite E2. apply IH. by rewrite Et.
Qed.

(** The message in a datagram, if it reaches the handler, fits. *)
Definition op_fits (op : sop) : Prop :=
  match op with
  | SODatagram data_ok req b rc _ =>
      match readFromSSDPSocket data_ok req b rc with
      | Some p => forall m, start_event_handler p = Some (Some m) -> fits m
      | None => True
      end
  | _ => True
  end.

Lemma add_plain k s l :
  Forall (fun th => thread_cell th = [] /\ thread_item th = [] /\ forall m from, th = SMsg m from -> fits m) l ->
  sys_inv k s -> sys_inv k (set_sthreads (sthreads s ++ l) s).
Proof.
  intros Hl (q & n & Hs). exists q, n. cbn [sthreads set_sthreads]. apply sinv_threads.
  eapply sinv_perm; [apply Permutation_app_comm|].
  induction Hl as [|th l (Hc & Hi & Hm) _ IH]; [done|]. by apply sinv_plain.
Qed.

Lemma s_exec_ok k op s :
  (forall used size, is_Some (malloc used size)) -> (forall n, alloc_ok n = true) ->
  k + 1 < 2 ^ 31 -> op_fits op -> sys_inv k s ->
  exists s', s_exec op s = Some s' /\ sys_inv (k + 1) s'.
Proof.
  intros Ha Ha' Hk Hf Hi.
  assert (Hlater : forall s', sys_inv k s' -> sys_inv (k + 1) s').
  { intros s' (q & n & Hs). exists q, n. eapply sinv_later; [|exact Hs]. lia. }
  destruct op as [ok mx target cookie|data_ok req b rc from|i e|e|fn cookie|]; cbn [s_exec].
  - eexists. split; [reflexivity|]. apply Hlater, add_plain; [|done]. apply Forall_singleton.
    unfold UpnpSearchAsync, SearchByTarget. repeat case_match; simplify_eq; done.
  - cbn in Hf. pose proof (readFromSSDPSocket_ok Ha' data_ok req b rc) as Hread.
    destruct (readFromSSDPSocket data_ok req b rc) as [p|]; [|exists s; auto].
    destruct Hread as (_ & _ & _ & Hwf & _ & _ & Hst).
    destruct (start_event_handler_ok Ha' p Hwf Hst) as (r & Er & _).
    unfold ssdp_event_handler. rewrite Er. cbn [mbind option_bind].
    eexists. split; [reflexivity|]. apply Hlater, add_plain; [|done].
    destruct r as [m|]; [|apply Forall_nil_2]. destruct (_ || _); [|apply Forall_nil_2].
    apply Forall_singleton. split; [done|]. split; [done|]. intros m' from' [= <- _]. by apply Hf.
  - by apply s_thread_ok.
  - destruct Hi as (q & n & Hs). destruct (tm_worker_ok e _ _ _ (si_tm _ _ _ _ _ _ Hs))
      as (t' & q' & hs & -> & Ht & Hq). cbn [mbind option_bind].
    destruct (s_hand_over_ok k hs (set_stm t' s) q' n) as (s' & -> & Hs'); [|by exists s'; auto].
    cbn [sthreads set_stm]. rewrite <- Hq. by destruct Hs; split.
  - eexists. split; [reflexivity|]. by apply Hlater, register_ssdp_ok.
  - destruct (unregister_ok k s Hi) as (s' & -> & Hs'). exists s'. auto.
Qed.

Lemma s_run_ok ops k s :
  (forall used size, is_Some (malloc used size)) -> (forall n, alloc_ok n = true) ->
  k + zlen ops < 2 ^ 31 -> Forall op_fits ops -> sys_inv k s ->
  exists s', s_run ops s = Some s' /\ sys_inv (k + zlen ops) s'.
Proof.
  intros Ha Ha'. revert k s. induction ops as [|op ops IH]; intros k s Hk Hf Hi; cbn [s_run].
  - exists s. split; [done|]. by rewrite Z.add_0_r.
  - rewrite zlen_cons in Hk |- *. pose proof (zlen_nonneg ops). apply Forall_cons in Hf as [Hf Hfs].
    destruct (s_exec_ok k op s Ha Ha' ltac:(lia) Hf Hi) as (s1 & -> & Hi1). cbn [mbind option_bind].
    rewrite Z.add_assoc. apply IH; [lia|done|done].
Qed.
(** A decision for [op_fits]. *)
Definition fits_dec (op : sop) : bool :=
  match op with
  | SODatagram data_ok req b rc _ =>
      match readFromSSDPSocket data_ok req b rc with
      | Some p => match start_event_handler p with
                  | Some (Some m) => match discovery m sockaddr0 with Some _ => true | None => false end
                  | _ => true
                  end
      | None => true
      end
  | _ => true
  end.

Lemma fits_dec_ok op : fits_dec op = true -> op_fits op.
Proof.
  destruct op; try done. unfold fits_dec, op_fits. destruct (readFromSSDPSocket _ _ _ _) as [p|]; [|done].
  destruct (start_event_handler p) as [[m|]|]; [|done|done].
  intros Hd m' [= <-] src E. apply discovery_ok in E. apply (discovery_ok m sockaddr0) in E.
  by rewrite E in Hd.
Qed.

Lemma sys_inv0 (t : T) n : tm_holds t [] n -> 0 <= n -> sys_inv n (ssys0 t).
Proof.
  intros Ht Hn. exists [], n. split; cbn; try done; try lia; try (by constructor); try set_solver.
  intros _. split; constructor.
Qed.
End Searches.

(** ** Runs *)

Module SearchRuns.
#[local] Existing Instance malloc_always.
#[local] Existing Instance resolver_two.
#[local] Existing Instance heap_fresh.
#[local] Instance timer_iface : TimerIface TimerThread := TimerIface_TimerThread ∅.

Definition run_from0 (ops : list sop) : option (ssys TimerThread) :=
  t ← Runs.timer0; s_run ops (ssys0 t).
Lemma search_from0 ops t : TimerThreadInit 0 0 8 32 ∅ = Some (0, t) -> run_from0 ops = s_run ops (ssys0 t).
Proof. unfold run_from0, Runs.timer0. by intros ->. Qed.
Definition all_fit (ops : list sop) : bool := forallb fits_dec ops.

Definition lines (l : list (list Z)) : list Z := flat_map (fun s => s ++ Runs.eol) l.
Definition alive (dt : list Z) : list Z :=
  lines [zs "NOTIFY * HTTP/1.1"; zs "HOST: 239.255.255.250:1900"; zs "NT: urn:device:ohm:1";
         zs "NTS: ssdp:alive"; zs "LOCATION: http://d/x"; zs "DT: " ++ dt; []].
Definition found : list Z :=
  lines [zs "HTTP/1.1 200 OK"; zs "ST: urn:device:ohm:1"; zs "LOCATION: http://d/x"; []].
Definition from : sockaddr := Sockaddr AF_INET 1900 [10; 0; 0; 7] 0.

Definition env (now : Z) : senv := SEnv now true (fun _ => true) true true false.
Definition target : list Z := OhmSearchType.

(** Two searches; an advertisement; a reply to each; the first one expires; the client
    unregisters, and the second one expires. *)
Definition day : list sop :=
  [SORegister 7 70; SOSearch true 3 (Some target) 71; SORun 0 (env 100);
   SOSearch true 30 (Some target) 72; SORun 1 (env 100);
   SODatagram true false (alive (zs "light")) 0 from; SORun 2 (env 101);
   SODatagram true true found 0 from; SORun 3 (env 101); SORun 3 (env 101); SORun 4 (env 101); SORun 5 (env 101);
   SOTimer (fun _ => Tick 104 0); SORun 6 (env 104); SORun 6 (env 104);
   SOUnRegister; SOTimer (fun _ => Tick 131 0); SORun 7 (env 131)].
Definition summary (s : ssys TimerThread) :=
  (map (fun c => (cb_event c, cb_cookie c)) (calls s), started s, timed_out s, dropped s, lost s,
   bool_decide (args s = ∅), bool_decide (ids s = ∅)).

Definition overflowing (dt : list Z) : option bool :=
  p ← readFromSSDPSocket true false (alive dt) 0;
  m ← start_event_handler p;
  m ← m;
  Some (match discovery m from with None => true | Some _ => false end).
End SearchRuns.

Module Discovery.



End Discovery.

Section Examples.
Import SearchRuns.

(** Every callback of the day, in order; nothing is left behind. *)
Example search_day :
  option_map summary (run_from0 day)
  = Some ([(UPNP_DISCOVERY_ADVERTISEMENT_ALIVE, 70); (UPNP_DISCOVERY_SEARCH_RESULT, 71);
           (UPNP_DISCOVERY_SEARCH_RESULT, 72); (UPNP_DISCOVERY_SEARCH_TIMEOUT, 71)],
          [(0, 71); (1, 72)], [(0, 71)], [(1, 72)], false, true, true).
Proof. vm_compute. reflexivity. Qed.

(** An advertisement with a DT header of 181 bytes writes past the array. *)
Example dt_overflow :
  overflowing (zrep 180 65) = Some false /\ overflowing (zrep 181 65) = Some true.
Proof. vm_compute. split; reflexivity. Qed.

(** [unique_service_name] copies the first eight bytes only. *)
Example usn_cut :
  cstr (SearchType (unique_service_name (zs "urn:x:device:y:1") (Evt SSDP_ALL 0 [])).2) = zs "urn:x:de".
Proof. vm_compute. reflexivity. Qed.

(** The request of a search. *)
Example search_packet :
  CreateClientRequestPacket BUFSIZE 3 (Some target) AF_INET
  = inr (lines [zs "M-SEARCH * HTTP/1.1"; zs "HOST: 239.255.255.250:1900";
                zs "MAN: " ++ [DQUOTE] ++ zs "ssdp:discover" ++ [DQUOTE]; zs "MX: 3";
                zs "ST: urn:device:ohm:1"; []]).
Proof. vm_compute. reflexivity. Qed.
End Examples.
