(* ===== verification/Server.v ===== *)
(** * The mini server

    [upnp/src/genlib/miniserver/miniserver.c] and, from [ssdp_server.c], the creation of
    its sockets.  The mini server is a thread that waits on the sockets of the library and
    hands their datagrams to the discovery component; [StartMiniServer] and
    [StopMiniServer] talk to it through the variable [gMServState] and a socket bound to
    the local host.

    The operating system is a table of open sockets, with the answers it gives to the
    next calls.  A function is a computation over that table and the global variables. *)

From S2P Require Import Prelude CLib Codes Membuffer Uri Sock Ssdp.
#[local] Open Scope Z_scope.

Definition UPNP_E_NETWORK_ERROR : Z := -200.
Definition UPNP_E_SOCKET_BIND : Z := -203.

(** ** The operating system *)

Inductive sockopt :=
| SoReuseAddr (on : Z)
| SoBroadcast (on : Z)
| IpAddMembership (multiaddr interface : list Z)
| IpMulticastIf (interface : list Z)
| IpMulticastTtl (ttl : Z)
| Ipv6V6only (on : Z)
| Ipv6JoinGroup (multiaddr : list Z) (interface : Z)
| Ipv6MulticastHops (hops : Z).

(** A socket: its family, where it is bound, its options (the last first), and the
    datagrams that wait. *)
Record ksock := KSock {
  ks_family : Z;
  ks_local : option sockaddr;
  ks_opts : list sockopt;
  ks_nonblock : bool;
  ks_queue : list (list Z)
}.

Inductive MiniServerState := MSERV_IDLE | MSERV_RUNNING | MSERV_STOPPING.
#[export] Instance mserv_eq : EqDecision MiniServerState.
Proof. solve_decision. Defined.

(** The open sockets, the answers to the next calls (after the list, calls succeed), the
    ports that are free, and the globals. *)
Record mini := Mini {
  k_socks : gmap Z ksock;
  k_answers : list bool;
  k_ports : list Z;
  gMServState : MiniServerState;
  miniStopSockPort : Z;
  gSsdpReqSocket4 : Z;
  gSsdpReqSocket6 : Z
}.
Definition with_socks (f : gmap Z ksock -> gmap Z ksock) (s : mini) : mini :=
  Mini (f (k_socks s)) (k_answers s) (k_ports s) (gMServState s) (miniStopSockPort s)
       (gSsdpReqSocket4 s) (gSsdpReqSocket6 s).
Definition with_state (st : MiniServerState) (s : mini) : mini :=
  Mini (k_socks s) (k_answers s) (k_ports s) st (miniStopSockPort s) (gSsdpReqSocket4 s) (gSsdpReqSocket6 s).
Definition with_stop_port (p : Z) (s : mini) : mini :=
  Mini (k_socks s) (k_answers s) (k_ports s) (gMServState s) p (gSsdpReqSocket4 s) (gSsdpReqSocket6 s).
Definition with_req4 (fd : Z) (s : mini) : mini :=
  Mini (k_socks s) (k_answers s) (k_ports s) (gMServState s) (miniStopSockPort s) fd (gSsdpReqSocket6 s).
Definition with_req6 (fd : Z) (s : mini) : mini :=
  Mini (k_socks s) (k_answers s) (k_ports s) (gMServState s) (miniStopSockPort s) (gSsdpReqSocket4 s) fd.

Definition os (A : Type) : Type := mini -> A * mini.
Definition os_ret {A} (a : A) : os A := fun s => (a, s).
Definition os_bind {A B} (m : os A) (f : A -> os B) : os B := fun s => let '(a, s) := m s in f a s.
Notation "'let*' x ':=' m 'in' k" := (os_bind m (fun x => k))
  (at level 200, x pattern, m at level 200, k at level 200).
Definition modify (f : mini -> mini) : os unit := fun s => (tt, f s).
Definition get_state : os MiniServerState := fun s => (gMServState s, s).

Definition answer : os bool := fun s =>
  match k_answers s with
  | [] => (true, s)
  | a :: l => (a, Mini (k_socks s) l (k_ports s) (gMServState s) (miniStopSockPort s)
                       (gSsdpReqSocket4 s) (gSsdpReqSocket6 s))
  end.

(** The lowest number that is not open. *)
Fixpoint lowest (fuel : nat) (d : gset Z) (fd : Z) : Z :=
  match fuel with
  | O => fd
  | S f => if decide (fd ∈ d) then lowest f d (fd + 1) else fd
  end.
Definition lowest_fd (m : gmap Z ksock) : Z := lowest (S (size (dom m))) (dom m) 0.

Definition socket_call (family : Z) : os Z :=
  let* ok := answer in
  if ok : bool
  then fun s => let fd := lowest_fd (k_socks s) in
                (fd, with_socks <[fd := KSock family None [] false []]> s)
  else os_ret INVALID_SOCKET.

(** A call on a socket that is open and that the system does not refuse. *)
Definition on_socket (fd : Z) (f : ksock -> ksock) : os Z := fun s =>
  match k_socks s !! fd with
  | None => (-1, s)
  | Some k => (let* ok := answer in if ok : bool then fun s => (0, with_socks <[fd := f k]> s) else os_ret (-1)) s
  end.
Definition setsockopt (fd : Z) (o : sockopt) : os Z :=
  on_socket fd (fun k => KSock (ks_family k) (ks_local k) (o :: ks_opts k) (ks_nonblock k) (ks_queue k)).
Definition make_no_blocking (fd : Z) : os Z :=
  on_socket fd (fun k => KSock (ks_family k) (ks_local k) (ks_opts k) true (ks_queue k)).
Definition shutdown_call (fd : Z) : os Z := on_socket fd id.

(** Port 0 asks for a free one. *)
Definition bind_call (fd : Z) (a : sockaddr) : os Z := fun s =>
  let '(port, ports) := if ss_port a =? 0
                        then match k_ports s with [] => (0, []) | p :: l => (p, l) end
                        else (ss_port a, k_ports s) in
  let a := Sockaddr (ss_family a) port (ss_addr a) (ss_scope_id a) in
  on_socket fd (fun k => KSock (ks_family k) (Some a) (ks_opts k) (ks_nonblock k) (ks_queue k))
    (Mini (k_socks s) (k_answers s) ports (gMServState s) (miniStopSockPort s)
          (gSsdpReqSocket4 s) (gSsdpReqSocket6 s)).

Definition getsockname (fd : Z) : os (option sockaddr) := fun s =>
  match k_socks s !! fd with
  | None => (None, s)
  | Some k =>
      (let* ok := answer in
       os_ret (if ok : bool then Some (default (Sockaddr (ks_family k) 0 (zrep 4 0) 0) (ks_local k)) else None)) s
  end.

(** [close]: the descriptor is free again, whatever the result. *)
Definition close_call (fd : Z) : os Z := fun s =>
  match k_socks s !! fd with
  | None => (-1, s)
  | Some _ => (let* ok := answer in fun s => (if ok : bool then 0 else -1, with_socks (delete fd) s)) s
  end.
Definition close_sock (fd : Z) : os Z :=
  if negb (fd =? INVALID_SOCKET) then let* rc := close_call fd in os_ret (sock_close rc fd) else os_ret (sock_close (-1) fd).

(** A datagram reaches the socket that is bound to the address and port. *)
Definition bound_to (addr : list Z) (port : Z) (k : ksock) : bool :=
  match ks_local k with
  | Some a => (ss_family a =? AF_INET) && (ss_port a =? port) && bool_decide (ss_addr a = addr)
  | None => false
  end.
Definition enqueue_datagram (data : list Z) (k : ksock) : ksock :=
  KSock (ks_family k) (ks_local k) (ks_opts k) (ks_nonblock k) (ks_queue k ++ [data]).
Definition deliver_to (addr : list Z) (port : Z) (data : list Z) (m : gmap Z ksock) : gmap Z ksock :=
  (fun k => if bound_to addr port k then enqueue_datagram data k else k) <$> m.
Definition sendto (fd : Z) (data addr : list Z) (port : Z) : os Z := fun s =>
  match k_socks s !! fd with
  | None => (-1, s)
  | Some _ => (let* ok := answer in if ok : bool then fun s => (zlen data, with_socks (deliver_to addr port data) s)
                            else os_ret (-1)) s
  end.

(** [None]: an error, or nothing waits. *)
Definition recvfrom (fd size : Z) : os (option (list Z)) := fun s =>
  match k_socks s !! fd with
  | Some k =>
      match ks_queue k with
      | d :: q => (Some (ztake size d),
                   with_socks <[fd := KSock (ks_family k) (ks_local k) (ks_opts k) (ks_nonblock k) q]> s)
      | [] => (None, s)
      end
  | None => (None, s)
  end.

(** ** The sockets of the discovery *)

Class InetAddr := inet_addr : list Z -> list Z.

(** The addresses of the interface; [ipv6]: the library is built with IPv6. *)
Record interface := Interface {
  ipv6 : bool;
  gIF_IPV4 : list Z;
  gIF_IPV6 : list Z;
  gIF_IPV6_ULA_GUA : list Z;
  gIF_INDEX : Z
}.

Record MiniServerSockArray := SockArray {
  miniServerSock4 : Z; miniServerSock6 : Z; miniServerStopSock : Z;
  ssdpSock4 : Z; ssdpSock6 : Z; ssdpSock6UlaGua : Z;
  stopPort : Z; miniServerPort4 : Z; miniServerPort6 : Z;
  ssdpReqSock4 : Z; ssdpReqSock6 : Z
}.

Section Sockets.
Context `{Malloc, Resolver, InetAddr}.

Definition INADDR_ANY : list Z := [0; 0; 0; 0].
Definition LOCALHOST : list Z := zs "127.0.0.1".
Definition in6addr_any : list Z := zrep 16 0.
Definition SSDP_TTL : Z := 4.

(** What follows the label [error_handler]. *)
Definition release (fd ret : Z) : os (Z * Z) :=
  if negb (ret =? UPNP_E_SUCCESS) then let* _ := shutdown_call fd in let* _ := close_call fd in os_ret (ret, fd) else os_ret (ret, fd).

(** The calls of a set-up, each with the error it leads to ([None]: the result is not
    looked at); the first failure ends it. *)
Fixpoint set_up (l : list (os Z * option Z)) : os Z :=
  match l with
  | [] => os_ret UPNP_E_SUCCESS
  | (call, err) :: l =>
      let* ret := call in
      match err with
      | Some e => if ret =? -1 then os_ret e else set_up l
      | None => set_up l
      end
  end.

Definition setup_v4 (c : interface) (fd : Z) : list (os Z * option Z) :=
  [(setsockopt fd (SoReuseAddr 1), Some UPNP_E_SOCKET_ERROR);
   (bind_call fd (Sockaddr AF_INET SSDP_PORT INADDR_ANY 0), Some UPNP_E_SOCKET_BIND);
   (setsockopt fd (IpAddMembership (inet_addr SSDP_IP) (inet_addr (gIF_IPV4 c))), Some UPNP_E_SOCKET_ERROR);
   (* Set multicast interface. *)
   (setsockopt fd (IpMulticastIf (inet_addr (gIF_IPV4 c))), None);
   (setsockopt fd (IpMulticastTtl SSDP_TTL), None);
   (setsockopt fd (SoBroadcast 1), Some UPNP_E_NETWORK_ERROR)].

(** [inet_pton] leaves the cleared address alone when it fails. *)
Definition setup_v6 (group : list Z) (c : interface) (fd : Z) : list (os Z * option Z) :=
  [(setsockopt fd (SoReuseAddr 1), Some UPNP_E_SOCKET_ERROR);
   (setsockopt fd (Ipv6V6only 1), Some UPNP_E_SOCKET_ERROR);
   (bind_call fd (Sockaddr AF_INET6 SSDP_PORT in6addr_any (gIF_INDEX c)), Some UPNP_E_SOCKET_BIND);
   (setsockopt fd (Ipv6JoinGroup (default (zrep 16 0) (inet_pton6 group)) (gIF_INDEX c)), Some UPNP_E_SOCKET_ERROR);
   (setsockopt fd (SoBroadcast 1), Some UPNP_E_NETWORK_ERROR)].

Definition create_sock (family : Z) (setup : Z -> list (os Z * option Z)) : os (Z * Z) :=
  let* fd := socket_call family in
  if fd =? INVALID_SOCKET then os_ret (UPNP_E_OUTOF_SOCKET, fd)
  else let* ret := set_up (setup fd) in release fd ret.

Definition create_ssdp_sock_v4 (c : interface) : os (Z * Z) := create_sock AF_INET (setup_v4 c).
Definition create_ssdp_sock_v6 (c : interface) : os (Z * Z) :=
  create_sock AF_INET6 (setup_v6 SSDP_IPV6_LINKLOCAL c).
Definition create_ssdp_sock_v6_ula_gua (c : interface) : os (Z * Z) :=
  create_sock AF_INET6 (setup_v6 SSDP_IPV6_SITELOCAL c).

Definition create_ssdp_sock_reqv4 : os (Z * Z) :=
  let* fd := socket_call AF_INET in
  if fd =? INVALID_SOCKET then os_ret (UPNP_E_OUTOF_SOCKET, fd)
  else
    let* _ := setsockopt fd (IpMulticastTtl SSDP_TTL) in
    (* just do it, regardless if fails or not. *)
    let* _ := make_no_blocking fd in
    os_ret (UPNP_E_SUCCESS, fd).
Definition create_ssdp_sock_reqv6 : os (Z * Z) :=
  let* fd := socket_call AF_INET6 in
  if fd =? INVALID_SOCKET then os_ret (UPNP_E_OUTOF_SOCKET, fd)
  else
    let* _ := setsockopt fd (Ipv6MulticastHops 1) in
    let* _ := make_no_blocking fd in
    os_ret (UPNP_E_SUCCESS, fd).

(** [shutdown] and [UpnpCloseSocket] of one socket after the other. *)
Fixpoint drop_socks (l : list Z) : os unit :=
  match l with
  | [] => os_ret tt
  | fd :: l => let* _ := shutdown_call fd in let* _ := close_call fd in drop_socks l
  end.

(** Creates a socket when there is an address for it; on failure the sockets that were
    created before are dropped. *)
Definition want_sock (wanted : bool) (create : os (Z * Z)) (before : list Z) (k : Z -> os (Z * list Z))
  : os (Z * list Z) :=
  if wanted then
    let* r := create in
    if negb (r.1 =? UPNP_E_SUCCESS) then let* _ := drop_socks before in os_ret (r.1, []) else k r.2
  else k INVALID_SOCKET.

(** The result and, on success, the sockets: requests (4, 6), discovery (4, 6, site). *)
Definition get_ssdp_sockets (c : interface) : os (Z * list Z) :=
  let has a := negb (strlen a =? 0) in
  want_sock (has (gIF_IPV4 c)) create_ssdp_sock_reqv4 [] (fun req4 =>
    let* _ := (if has (gIF_IPV4 c) then modify (with_req4 req4) else os_ret tt) in
    want_sock (ipv6 c && has (gIF_IPV6 c)) create_ssdp_sock_reqv6 [req4] (fun req6 =>
      let* _ := (if ipv6 c && has (gIF_IPV6 c) then modify (with_req6 req6) else os_ret tt) in
      want_sock (has (gIF_IPV4 c)) (create_ssdp_sock_v4 c) [req4; req6] (fun s4 =>
        want_sock (ipv6 c && has (gIF_IPV6 c)) (create_ssdp_sock_v6 c) [s4; req4; req6] (fun s6 =>
          want_sock (ipv6 c && has (gIF_IPV6_ULA_GUA c)) (create_ssdp_sock_v6_ula_gua c) [s4; s6; req4; req6]
            (fun ula => os_ret (UPNP_E_SUCCESS, [req4; req6; s4; s6; ula])))))).

(** ** Starting *)

Definition get_port (sockfd : Z) (port : Z) : os (Z * Z) :=
  let* a := getsockname sockfd in
  os_ret (match a with
          | None => (-1, port)
          | Some a => (0, if (ss_family a =? AF_INET) || (ss_family a =? AF_INET6) then ss_port a else port)
          end).

Definition InitMiniServerSockArray : MiniServerSockArray :=
  SockArray INVALID_SOCKET INVALID_SOCKET INVALID_SOCKET INVALID_SOCKET INVALID_SOCKET INVALID_SOCKET
            0 0 0 INVALID_SOCKET INVALID_SOCKET.

(** The result, the stop socket and its port. *)
Definition get_miniserver_stopsock : os (Z * Z * Z) :=
  let* fd := socket_call AF_INET in
  if fd =? INVALID_SOCKET then os_ret (UPNP_E_OUTOF_SOCKET, INVALID_SOCKET, 0)
  else
    (* Bind to local socket. *)
    let* ret := bind_call fd (Sockaddr AF_INET 0 (inet_addr LOCALHOST) 0) in
    if ret =? -1 then let* _ := close_sock fd in os_ret (UPNP_E_SOCKET_BIND, INVALID_SOCKET, 0)
    else
      let* r := (fun s => get_port fd (miniStopSockPort s) s) in
      let '(ret, port) := r in
      let* _ := modify (with_stop_port port) in
      if ret <? 0 then let* _ := close_sock fd in os_ret (UPNP_E_INTERNAL_ERROR, INVALID_SOCKET, 0)
      else os_ret (UPNP_E_SUCCESS, fd, port).

Fixpoint close_socks (l : list Z) : os unit :=
  match l with [] => os_ret tt | fd :: l => let* _ := close_sock fd in close_socks l end.

(** In the order in which they are closed. *)
Definition array_socks (a : MiniServerSockArray) : list Z :=
  [miniServerSock4 a; miniServerSock6 a; miniServerStopSock a; ssdpSock4 a; ssdpSock6 a; ssdpSock6UlaGua a;
   ssdpReqSock4 a; ssdpReqSock6 a].

Definition sizeof_MiniServerSockArray : Z := 40.

(** Up to the wait for the thread: [inl] the result, or the sockets of the job that the
    pool has accepted.  [add_rc]: what [ThreadPoolAddPersistent] returns. *)
Definition start_job (c : interface) (add_rc : Z) : os (Z + MiniServerSockArray) :=
  let* st := get_state in
  if negb (bool_decide (st = MSERV_IDLE)) then os_ret (inl UPNP_E_INTERNAL_ERROR)
  else if negb (alloc_ok sizeof_MiniServerSockArray) then os_ret (inl UPNP_E_OUTOF_MEMORY)
  else
    (* Stop socket (To end miniserver processing). *)
    let* r := get_miniserver_stopsock in
    let '(ret_code, stop, port) := r in
    if negb (ret_code =? UPNP_E_SUCCESS) then
      let* _ := close_socks [INVALID_SOCKET; INVALID_SOCKET] in os_ret (inl ret_code)
    else
      (* SSDP socket for discovery/advertising. *)
      let* r := get_ssdp_sockets c in
      let '(ret_code, l) := r in
      if negb (ret_code =? UPNP_E_SUCCESS) then
        let* _ := close_socks [INVALID_SOCKET; INVALID_SOCKET; stop] in os_ret (inl ret_code)
      else
        let fd n := default INVALID_SOCKET (l !! n) in
        let a := SockArray INVALID_SOCKET INVALID_SOCKET stop (fd 2%nat) (fd 3%nat) (fd 4%nat) port 0 0
                           (fd 0%nat) (fd 1%nat) in
        if add_rc <? 0 then let* _ := close_socks (array_socks a) in os_ret (inl UPNP_E_OUTOF_MEMORY)
        else os_ret (inr a).

Definition max_count : Z := 10000.

(** One round of the wait: [inl] the result, or the count. *)
Definition start_poll (a : MiniServerSockArray) (count : Z) : os (Z + Z) :=
  let* st := get_state in
  if negb (bool_decide (st = MSERV_RUNNING)) && (count <? max_count) then os_ret (inr (count + 1))
  else if max_count <=? count then
    (* Took it too long to start that thread. *)
    let* _ := close_socks (array_socks a) in os_ret (inl UPNP_E_INTERNAL_ERROR)
  else os_ret (inl UPNP_E_SUCCESS).

(** ** The thread *)

Definition fdset_if_valid (sock : Z) (set : list Z) : list Z :=
  if negb (sock =? INVALID_SOCKET) then sock :: set else set.
Definition read_set (a : MiniServerSockArray) : list Z :=
  foldr fdset_if_valid [miniServerStopSock a]
    [miniServerSock4 a; miniServerSock6 a; ssdpSock4 a; ssdpSock6 a; ssdpSock6UlaGua a; ssdpReqSock4 a; ssdpReqSock6 a].

(** The datagram that is handed to the discovery. *)
Definition ssdp_read (rsock : Z) (set : list Z) : os (list (Z * list Z)) :=
  if negb (rsock =? INVALID_SOCKET) && bool_decide (rsock ∈ set) then
    let* d := recvfrom rsock (BUFSIZE - 1) in
    os_ret (match d with Some b => [(rsock, b)] | None => [] end)
  else os_ret [].

Definition STOP_SIZE : Z := 25.
Definition SHUTDOWN : list Z := zs "ShutDown".
Definition receive_from_stopSock (ssock : Z) (set : list Z) : os bool :=
  if bool_decide (ssock ∈ set) then
    let* d := recvfrom ssock STOP_SIZE in
    os_ret (match d with
            | Some b => (0 <? zlen b) && bool_decide (is_Some (strstr (b ++ [0]) SHUTDOWN))
            | None => false
            end)
  else os_ret false.

(** What [select] reports: an error, or the sockets that can be read. *)
Inductive selection := SelectFailed | SelectReady (set : list Z).
(** A descriptor that is not open makes [select] fail. *)
Definition select_call (watched : list Z) (sel : selection) : os (option (list Z)) := fun s =>
  if bool_decide (Forall (fun fd => is_Some (k_socks s !! fd)) watched) then
    (match sel with
     | SelectFailed => None
     | SelectReady set => Some (filter (fun fd => fd ∈ watched) set)
     end, s)
  else (None, s).

(** One round: whether to stop, and what the discovery got. *)
Definition server_round (a : MiniServerSockArray) (sel : selection) : os (bool * list (Z * list Z)) :=
  let* r := select_call (read_set a) sel in
  match r with
  | None => os_ret (false, [])
  | Some set =>
      let* r1 := ssdp_read (ssdpReqSock4 a) set in
      let* r2 := ssdp_read (ssdpReqSock6 a) set in
      let* r3 := ssdp_read (ssdpSock4 a) set in
      let* r4 := ssdp_read (ssdpSock6 a) set in
      let* r5 := ssdp_read (ssdpSock6UlaGua a) set in
      let* stop := receive_from_stopSock (miniServerStopSock a) set in
      os_ret (stop, r1 ++ r2 ++ r3 ++ r4 ++ r5)
  end.

(** After the loop. *)
Definition server_end (a : MiniServerSockArray) : os unit :=
  let* _ := close_socks (array_socks a) in
  (* Free minisock. *)
  modify (with_state MSERV_IDLE).

(** ** Stopping *)

(** After the state was seen to be [MSERV_RUNNING]: the result or the socket. *)
Definition stop_begin : os (Z + Z) :=
  let* _ := modify (with_state MSERV_STOPPING) in
  let* fd := socket_call AF_INET in
  os_ret (if fd =? INVALID_SOCKET then inl 0 else inr fd).

(** The head of the loop: true when the datagram was sent and the thread sleeps. *)
Definition stop_send (sock : Z) : os bool :=
  let* st := get_state in
  if bool_decide (st = MSERV_IDLE) then let* _ := close_sock sock in os_ret false
  else
    let* _ := (fun s => sendto sock SHUTDOWN (inet_addr LOCALHOST) (miniStopSockPort s) s) in
    os_ret true.

(** After the first sleep: true when the loop goes on. *)
Definition stop_wake (sock : Z) : os bool :=
  let* st := get_state in
  if bool_decide (st = MSERV_IDLE) then let* _ := close_sock sock in os_ret false else os_ret true.

End Sockets.

(** ** The threads together

    A mserv_step is what one thread does between two points at which others can mserv_run: a call of
    [StartMiniServer] up to its wait and every round of the wait, the start of the job by
    the pool, a round of the server's loop and its end, and the parts of
    [StopMiniServer] between the reads and writes of [gMServState] and the sleeps.
    Datagrams arrive from elsewhere, and other threads open and close sockets. *)

Inductive job_status := Queued | Serving | Ending | Finished.
#[export] Instance job_status_eq : EqDecision job_status.
Proof. solve_decision. Defined.

Inductive caller :=
| Starting (a : MiniServerSockArray) (count : Z)
| StopSeen                              (* the state was MSERV_RUNNING *)
| Stopping (sock : Z)                   (* at the head of the loop *)
| StopSleeping (sock : Z)
| Returned (rc : Z).

Record world := World {
  w_mini : mini;
  w_jobs : list (MiniServerSockArray * job_status);
  w_callers : list caller;
  w_others : gset Z;                    (* the sockets of other threads *)
  w_read : list (Z * list Z)            (* what the discovery got *)
}.

Inductive mserv_action :=
| CallStart (add_rc : Z)
| PollStart (i : nat)
| RunJob (j : nat)
| ServerRound (j : nat) (sel : selection)
| ServerEnd (j : nat)
| CallStop
| StopSet (i : nat)
| StopSend (i : nat)
| StopWake (i : nat)
| Arrive (fd : Z) (data : list Z)
| OtherOpen (family : Z)
| OtherClose (fd : Z).

Section Threads.
Context `{Malloc, Resolver, InetAddr}.

Definition caller_set (i : nat) (c : caller) (w : world) (m : mini) : world :=
  World m (w_jobs w) (<[i := c]> (w_callers w)) (w_others w) (w_read w).
Definition caller_add (c : caller) (w : world) (m : mini) : world :=
  World m (w_jobs w) (w_callers w ++ [c]) (w_others w) (w_read w).
Definition job_set (j : nat) (a : MiniServerSockArray) (st : job_status) (w : world) (m : mini) : world :=
  World m (<[j := (a, st)]> (w_jobs w)) (w_callers w) (w_others w) (w_read w).

(** [None]: the step is not possible. *)
Definition mserv_step (c : interface) (w : world) (act : mserv_action) : option world :=
  let m := w_mini w in
  match act with
  | CallStart add_rc =>
      let '(r, m) := start_job c add_rc m in
      match r with
      | inl rc => Some (caller_add (Returned rc) w m)
      | inr a => Some (World m (w_jobs w ++ [(a, Queued)]) (w_callers w ++ [Starting a 0]) (w_others w) (w_read w))
      end
  | PollStart i =>
      match w_callers w !! i with
      | Some (Starting a count) =>
          let '(r, m) := start_poll a count m in
          Some (caller_set i (match r with inl rc => Returned rc | inr n => Starting a n end) w m)
      | _ => None
      end
  | RunJob j =>
      match w_jobs w !! j with
      | Some (a, Queued) => Some (job_set j a Serving w (with_state MSERV_RUNNING m))
      | _ => None
      end
  | ServerRound j sel =>
      match w_jobs w !! j with
      | Some (a, Serving) =>
          let '(stop, got, m) := server_round a sel m in
          let w := job_set j a (if stop : bool then Ending else Serving) w m in
          Some (World (w_mini w) (w_jobs w) (w_callers w) (w_others w) (w_read w ++ got))
      | _ => None
      end
  | ServerEnd j =>
      match w_jobs w !! j with
      | Some (a, Ending) => Some (job_set j a Finished w (server_end a m).2)
      | _ => None
      end
  | CallStop =>
      Some (caller_add (if bool_decide (gMServState m = MSERV_RUNNING) then StopSeen else Returned 0) w m)
  | StopSet i =>
      match w_callers w !! i with
      | Some StopSeen =>
          let '(r, m) := stop_begin m in
          Some (caller_set i (match r with inl rc => Returned rc | inr fd => Stopping fd end) w m)
      | _ => None
      end
  | StopSend i =>
      match w_callers w !! i with
      | Some (Stopping fd) =>
          let '(go, m) := stop_send fd m in
          Some (caller_set i (if go : bool then StopSleeping fd else Returned 0) w m)
      | _ => None
      end
  | StopWake i =>
      match w_callers w !! i with
      | Some (StopSleeping fd) =>
          let '(go, m) := stop_wake fd m in
          Some (caller_set i (if go : bool then Stopping fd else Returned 0) w m)
      | _ => None
      end
  | Arrive fd data =>
      match k_socks m !! fd with
      | Some k => Some (World (with_socks <[fd := enqueue_datagram data k]> m) (w_jobs w) (w_callers w) (w_others w) (w_read w))
      | None => None
      end
  | OtherOpen family =>
      let '(fd, m) := socket_call family m in
      Some (World m (w_jobs w) (w_callers w) (if fd =? INVALID_SOCKET then w_others w else {[fd]} ∪ w_others w) (w_read w))
  | OtherClose fd =>
      if decide (fd ∈ w_others w)
      then Some (World (close_call fd m).2 (w_jobs w) (w_callers w) (w_others w ∖ {[fd]}) (w_read w))
      else None
  end.

(** The start does not give up at this step. *)
Definition in_time (w : world) (act : mserv_action) : Prop :=
  match act with
  | PollStart i => match w_callers w !! i with Some (Starting _ n) => n < max_count | _ => True end
  | _ => True
  end.

Fixpoint mserv_run (c : interface) (w : world) (acts : list mserv_action) : option world :=
  match acts with [] => Some w | a :: l => w ← mserv_step c w a; mserv_run c w l end.

End Threads.

(** Before the first call. *)
Definition mini0 (answers : list bool) (ports : list Z) : mini :=
  Mini ∅ answers ports MSERV_IDLE 0 INVALID_SOCKET INVALID_SOCKET.
Definition world0 (answers : list bool) (ports : list Z) : world := World (mini0 answers ports) [] [] ∅ [].

(** The states that the steps [ok] lead to. *)
Inductive mserv_reach `{Malloc, Resolver, InetAddr} (ok : world -> mserv_action -> Prop) (c : interface) (answers : list bool)
    (ports : list Z) : world -> Prop :=
| reach_init : mserv_reach ok c answers ports (world0 answers ports)
| reach_step w act w' :
    mserv_reach ok c answers ports w -> ok w act -> mserv_step c w act = Some w' -> mserv_reach ok c answers ports w'.

(** Starts follow one another (as under [gSDKInitMutex]), each after the end of the
    previous server. *)
Definition orderly (w : world) (act : mserv_action) : Prop :=
  in_time w act
  /\ match act with CallStart _ => Forall (fun j => j.2 = Finished) (w_jobs w) | _ => True end.
