(* ===== verification/ServerFacts.v ===== *)
(** * The mini server: facts

    The sockets that a start opens and a failure returns, the invariant of all
    interleavings of starts, the server and stops, and how a stop ends. *)

From S2P Require Import Prelude CLib Codes Membuffer Uri Sock Ssdp Server.
#[local] Open Scope Z_scope.

(** ** The table of sockets *)

Definition fds (s : mini) : gset Z := dom (k_socks s).
Definition valid (l : list Z) : list Z := filter (fun fd => fd <> INVALID_SOCKET) l.
(** Descriptors are not negative. *)
Definition fds_wf (s : mini) : Prop := forall fd, fd ∈ fds s -> 0 <= fd.

(** The sockets [l] are new and open; the others are as before. *)
Record opened (s : mini) (l : list Z) (s' : mini) : Prop := {
  op_nodup : NoDup l;
  op_new : Forall (fun fd => 0 <= fd /\ fd ∉ fds s) l;
  op_open : Forall (fun fd => is_Some (k_socks s' !! fd)) l;
  op_rest : forall fd, fd ∉ l -> k_socks s' !! fd = k_socks s !! fd
}.
#[export] Instance opened_proper s : Proper ((≡ₚ) ==> eq ==> iff) (opened s).
Proof.
  assert (H : forall l l' s', l ≡ₚ l' -> opened s l s' -> opened s l' s').
  { intros l l' s' Hp [A B C D]. split; [by rewrite <- Hp..|]. intros fd Hfd. apply D. by rewrite Hp. }
  intros l l' Hp s' ? <-. split; by apply H.
Qed.

Lemma opened_nil s s' : opened s [] s' <-> k_socks s' = k_socks s.
Proof.
  split.
  - intros [_ _ _ H]. apply map_eq. intros fd. apply H. apply not_elem_of_nil.
  - intros H. split; [constructor..|]. intros fd _. by rewrite H.
Qed.
Lemma opened_elements s l s' : opened s l s' -> elements (fds s') ≡ₚ l ++ elements (fds s).
Proof.
  intros [A B C D]. rewrite Forall_forall in B. rewrite Forall_forall in C.
  assert (E : fds s' = list_to_set l ∪ fds s).
  { apply set_eq. intros fd. rewrite elem_of_union, elem_of_list_to_set. unfold fds. rewrite !elem_of_dom.
    destruct (decide (fd ∈ l)) as [Hl|Hl]; [naive_solver|]. rewrite D by done. naive_solver. }
  rewrite E, elements_disj_union, elements_list_to_set; [done|done|].
  intros fd. rewrite elem_of_list_to_set. intros H1 H2. by apply B in H1 as [_ H1].
Qed.
Lemma opened_wf s l s' : opened s l s' -> fds_wf s -> fds_wf s'.
Proof.
  intros Ho Hw fd Hfd. apply elem_of_elements in Hfd. rewrite (opened_elements _ _ _ Ho) in Hfd.
  apply elem_of_app in Hfd as [Hfd|Hfd%elem_of_elements]; [|by apply Hw].
  pose proof (op_new _ _ _ Ho) as H. rewrite Forall_forall in H. by apply H.
Qed.
Lemma opened_trans s l s1 l' s2 : opened s l s1 -> opened s1 l' s2 -> opened s (l' ++ l) s2.
Proof.
  intros H1 H2. pose proof (opened_elements _ _ _ H1) as E1.
  assert (Hnew : forall fd, fd ∈ l' -> fd ∉ l /\ fd ∉ fds s).
  { intros fd Hfd. pose proof (op_new _ _ _ H2) as H. rewrite Forall_forall in H. apply H in Hfd as [_ Hfd].
    rewrite <- elem_of_elements, E1, elem_of_app, elem_of_elements in Hfd. naive_solver. }
  split.
  - apply NoDup_app. split; [apply H2|]. split; [intros fd Hfd; by apply Hnew|apply H1].
  - apply Forall_app. split; [|apply H1]. pose proof (op_new _ _ _ H2) as H. rewrite Forall_forall in H.
    apply Forall_forall. intros fd Hfd. split; [by apply H|by apply Hnew].
  - apply Forall_app. split; [apply H2|]. apply Forall_forall. intros fd Hfd.
    rewrite (op_rest _ _ _ H2); [|intros Hfd'; by apply Hnew in Hfd' as [Hfd' _]].
    pose proof (op_open _ _ _ H1) as H. rewrite Forall_forall in H. by apply H.
  - intros fd Hfd. rewrite elem_of_app in Hfd. rewrite (op_rest _ _ _ H2), (op_rest _ _ _ H1); naive_solver.
Qed.

(** Nothing but the sockets [X] is touched, and none is opened or closed. *)
Definition touched (X : list Z) (s s' : mini) : Prop :=
  fds s' = fds s /\ forall fd, fd ∉ X -> k_socks s' !! fd = k_socks s !! fd.
Lemma touched_refl X s : touched X s s.
Proof. done. Qed.
Lemma touched_same X s s' : k_socks s' = k_socks s -> touched X s s'.
Proof. intros H. unfold touched, fds. by rewrite H. Qed.
Lemma touched_trans X s1 s2 s3 : touched X s1 s2 -> touched X s2 s3 -> touched X s1 s3.
Proof. intros [A B] [C D]. split; [by rewrite C|]. intros fd Hfd. by rewrite D, B. Qed.
Lemma touched_opened s l s1 s2 : opened s l s1 -> touched l s1 s2 -> opened s l s2.
Proof.
  intros Ho [A B]. split; [apply Ho|apply Ho| |].
  - pose proof (op_open _ _ _ Ho) as H. eapply Forall_impl; [exact H|]. intros fd Hfd.
    rewrite <- elem_of_dom in *. unfold fds in A. by rewrite A.
  - intros fd Hfd. rewrite B by done. by apply Ho.
Qed.

Lemma lowest_notin f d : forall fd : Z, (size (filter (fun x => (fd <= x)%Z) d) < f)%nat -> lowest f d fd ∉ d.
Proof.
  induction f as [|f IH]; intros fd Hs; [lia|]. cbn [lowest]. case_decide as Hd; [|done]. apply IH.
  assert (Hsub : filter (fun x => fd + 1 <= x) d ⊂ filter (fun x => fd <= x) d).
  { split; [intros x; rewrite !elem_of_filter; intros [? ?]; split; [lia|done]|].
    intros H. specialize (H fd). rewrite !elem_of_filter in H. destruct H as [H _]; [done|lia]. }
  apply subset_size in Hsub. lia.
Qed.
Lemma lowest_ge f d : forall fd : Z, (fd <= lowest f d fd)%Z.
Proof. induction f as [|f IH]; intros fd; cbn [lowest]; [done|]. case_decide; [|done]. specialize (IH (fd + 1)). lia. Qed.
Lemma lowest_fd_new m : 0 <= lowest_fd m /\ lowest_fd m ∉ dom m.
Proof.
  split; [apply lowest_ge|]. apply lowest_notin.
  assert (size (filter (fun x => (0 <= x)%Z) (dom m)) <= size (dom m))%nat; [|lia].
  apply subseteq_size. intros x. rewrite elem_of_filter. by intros [_ ?].
Qed.

(** ** Calls *)

Section Calls.
Context `{HM : Malloc, HR : Resolver, HI : InetAddr}.

(** The computation keeps [f]. *)
Definition keeps {A B} (f : mini -> B) (m : os A) : Prop := forall s, f (m s).2 = f s.
Lemma keeps_ret {A B} (f : mini -> B) (a : A) : keeps f (os_ret a).
Proof. done. Qed.
Lemma keeps_bind {A B C} (f : mini -> C) (m : os A) (k : A -> os B) :
  keeps f m -> (forall a, keeps f (k a)) -> keeps f (os_bind m k).
Proof. intros Hm Hk s. unfold os_bind. specialize (Hm s). destruct (m s) as [a s1]. by rewrite Hk. Qed.

Lemma answer_eq s : exists ok l, answer s = (ok, Mini (k_socks s) l (k_ports s) (gMServState s)
  (miniStopSockPort s) (gSsdpReqSocket4 s) (gSsdpReqSocket6 s)).
Proof. destruct s as [ks [|a l] ps st p r4 r6]; by eexists _, _. Qed.

Lemma socket_call_ok family s : fds_wf s -> exists fd s',
  socket_call family s = (fd, s')
  /\ (fd = INVALID_SOCKET /\ k_socks s' = k_socks s
      \/ 0 <= fd /\ opened s [fd] s' /\ k_socks s' !! fd = Some (KSock family None [] false [])).
Proof.
  intros Hw. unfold socket_call, os_bind. destruct (answer_eq s) as (ok & l & ->). destruct ok.
  - pose proof (lowest_fd_new (k_socks s)) as H12. cbn -[lowest_fd]. revert H12. generalize (lowest_fd (k_socks s)) as fd0. intros fd0 [H1 H2].
    eexists _, _. split; [reflexivity|]. right. cbn.
    split; [done|]. split; [|by rewrite lookup_insert_eq]. split.
    + apply NoDup_singleton.
    + by apply Forall_singleton.
    + apply Forall_singleton. cbn. rewrite lookup_insert_eq. by eexists.
    + intros fd Hfd. cbn. rewrite lookup_insert_ne; [done|]. intros ->. apply Hfd. by left.
  - eexists _, _. split; [reflexivity|]. by left.
Qed.

Lemma on_socket_ok fd f s : touched [fd] s (on_socket fd f s).2.
Proof.
  unfold on_socket. destruct (k_socks s !! fd) as [k|] eqn:E; [|done]. unfold os_bind.
  destruct (answer_eq s) as (ok & l & ->). destruct ok; [|done]. cbn. split.
  - unfold fds. cbn. rewrite dom_insert_L. apply elem_of_dom_2 in E. set_solver.
  - intros x Hx. cbn. rewrite lookup_insert_ne; [done|]. intros ->. apply Hx. by left.
Qed.
Lemma setsockopt_ok fd o s : touched [fd] s (setsockopt fd o s).2.
Proof. apply on_socket_ok. Qed.
Lemma make_no_blocking_ok fd s : touched [fd] s (make_no_blocking fd s).2.
Proof. apply on_socket_ok. Qed.
Lemma bind_call_ok fd a s : touched [fd] s (bind_call fd a s).2.
Proof.
  unfold bind_call. case_match. match goal with |- touched _ _ (on_socket _ _ ?s0).2 => pose proof (on_socket_ok fd
    (fun k => KSock (ks_family k) (Some (Sockaddr (ss_family a) z (ss_addr a) (ss_scope_id a))) (ks_opts k) (ks_nonblock k) (ks_queue k)) s0) as Ht end.
  exact Ht.
Qed.
Lemma shutdown_ok fd s : k_socks (shutdown_call fd s).2 = k_socks s.
Proof.
  unfold shutdown_call, on_socket. destruct (k_socks s !! fd) as [k|] eqn:E; [|done]. unfold os_bind.
  destruct (answer_eq s) as (ok & l & ->). destruct ok; [|done]. cbn. by rewrite insert_id.
Qed.
Lemma getsockname_ok fd s : k_socks (getsockname fd s).2 = k_socks s.
Proof.
  unfold getsockname. destruct (k_socks s !! fd); [|done]. unfold os_bind.
  destruct (answer_eq s) as (ok & l & ->). done.
Qed.
Lemma close_call_ok fd s : k_socks (close_call fd s).2 = delete fd (k_socks s).
Proof.
  unfold close_call. destruct (k_socks s !! fd) eqn:E.
  - unfold os_bind. destruct (answer_eq s) as (ok & l & ->). done.
  - symmetry. by apply delete_id.
Qed.
Lemma close_sock_ok fd s : fds_wf s -> k_socks (close_sock fd s).2 = delete fd (k_socks s).
Proof.
  intros Hw. unfold close_sock. destruct (Z.eqb_spec fd INVALID_SOCKET) as [->|Hne]; cbn [negb].
  - cbn. symmetry. apply delete_id. apply not_elem_of_dom. intros Hd. apply Hw in Hd. done.
  - unfold os_bind. pose proof (close_call_ok fd s) as Hc. by destruct (close_call fd s).
Qed.

(** Closing a list of sockets. *)
Definition without (l : list Z) (m : gmap Z ksock) : gmap Z ksock := foldr delete m (reverse l).
Lemma without_lookup l m fd : without l m !! fd = if decide (fd ∈ l) then None else m !! fd.
Proof.
  unfold without. assert (E : fd ∈ l <-> fd ∈ reverse l) by (by rewrite elem_of_reverse).
  rewrite (decide_ext _ _ _ _ E). clear E. induction (reverse l) as [|x r IH]; [done|]. cbn [foldr].
  destruct (decide (fd = x)) as [->|Hne].
  - rewrite lookup_delete_eq, decide_True by left. done.
  - rewrite lookup_delete_ne, IH by done. apply decide_ext. rewrite elem_of_cons. naive_solver.
Qed.
Lemma without_cons fd l m : without (fd :: l) m = without l (delete fd m).
Proof. unfold without. by rewrite reverse_cons, foldr_app. Qed.
Lemma fds_wf_sub s s' : fds s' ⊆ fds s -> fds_wf s -> fds_wf s'.
Proof. intros Hs Hw fd Hfd. by apply Hw, Hs. Qed.
Lemma delete_sub s s' fd : k_socks s' = delete fd (k_socks s) -> fds s' ⊆ fds s.
Proof. intros E. unfold fds. rewrite E, dom_delete_L. set_solver. Qed.

Lemma drop_socks_ok l : forall s, k_socks (drop_socks l s).2 = without l (k_socks s).
Proof.
  induction l as [|fd l IH]; intros s; [done|]. cbn [drop_socks]. unfold os_bind.
  pose proof (shutdown_ok fd s) as H1. destruct (shutdown_call fd s) as [r1 s1]. cbn [snd] in H1.
  pose proof (close_call_ok fd s1) as H2. destruct (close_call fd s1) as [r2 s2]. cbn [snd] in H2.
  by rewrite IH, H2, H1, without_cons.
Qed.
Lemma close_socks_ok l : forall s, fds_wf s -> k_socks (close_socks l s).2 = without l (k_socks s).
Proof.
  induction l as [|fd l IH]; intros s Hw; [done|]. cbn [close_socks]. unfold os_bind.
  pose proof (close_sock_ok fd s Hw) as H1. destruct (close_sock fd s) as [r1 s1]. cbn [snd] in H1.
  rewrite IH, H1, without_cons; [done|]. by eapply fds_wf_sub; [eapply delete_sub|].
Qed.

Lemma elem_of_valid fd l : fd ∈ valid l <-> fd <> INVALID_SOCKET /\ fd ∈ l.
Proof. exact (list_elem_of_filter (fun fd => fd <> INVALID_SOCKET) l fd). Qed.
(** What was opened is closed again. *)
Lemma without_opened s l s' s'' :
  fds_wf s -> opened s (valid l) s' -> k_socks s'' = without l (k_socks s') -> k_socks s'' = k_socks s.
Proof.
  intros Hw Ho E. rewrite E. apply map_eq. intros fd. rewrite without_lookup. case_decide as Hfd.
  - symmetry. apply not_elem_of_dom. intros Hd. destruct (decide (fd = INVALID_SOCKET)) as [->|Hne].
    + apply Hw in Hd. done.
    + pose proof (op_new _ _ _ Ho) as H. rewrite Forall_forall in H.
      destruct (H fd) as [_ H']; [by apply elem_of_valid|done].
  - apply Ho. rewrite elem_of_valid. naive_solver.
Qed.
Lemma without_elements s l s' : fds_wf s -> k_socks s' = without l (k_socks s) ->
  forall rest, elements (fds s) ≡ₚ valid l ++ rest -> elements (fds s') ≡ₚ rest.
Proof.
  intros Hw E rest Hp.
  assert (Hnd : NoDup (valid l ++ rest)) by (rewrite <- Hp; apply NoDup_elements).
  apply NoDup_app in Hnd as (_ & Hdis & Hnd). apply NoDup_Permutation; [apply NoDup_elements|done|]. intros fd.
  rewrite elem_of_elements. unfold fds. rewrite E, elem_of_dom, without_lookup.
  assert (Hfd : is_Some (k_socks s !! fd) <-> fd ∈ valid l ++ rest).
  { rewrite <- Hp, elem_of_elements. unfold fds. by rewrite elem_of_dom. }
  rewrite elem_of_app in Hfd. case_decide as Hl.
  - split; [by intros [? ?]|]. intros Hr. exfalso. destruct (decide (fd = INVALID_SOCKET)) as [->|Hne].
    + assert (Hd : is_Some (k_socks s !! INVALID_SOCKET)) by naive_solver.
      apply elem_of_dom in Hd. by apply Hw in Hd.
    + apply (Hdis fd); [by apply elem_of_valid|done].
  - rewrite Hfd. rewrite elem_of_valid. naive_solver.
Qed.
End Calls.

(** ** Creating the sockets *)

Section Create.
Context `{HM : Malloc, HR : Resolver, HI : InetAddr}.

(** A call of a set-up changes only its socket. *)
Definition touching (fd : Z) (e : os Z * option Z) : Prop := forall s, touched [fd] s (e.1 s).2.
Lemma set_up_ok fd l : Forall (touching fd) l -> forall s, touched [fd] s (set_up l s).2.
Proof.
  induction 1 as [|[call err] l Hc _ IH]; intros s; [done|]. cbn [set_up]. unfold os_bind.
  specialize (Hc s). cbn [fst] in Hc. destruct (call s) as [ret s1]. cbn [snd] in Hc.
  destruct err as [e|]; [destruct (ret =? -1); [done|]|]; by eapply touched_trans.
Qed.
Lemma setup_v4_touching c fd : Forall (touching fd) (setup_v4 c fd).
Proof.
  unfold setup_v4. repeat (apply Forall_cons_2; [intros s; cbn [fst]; (apply setsockopt_ok || apply bind_call_ok)|]).
  apply Forall_nil_2.
Qed.
Lemma setup_v6_touching g c fd : Forall (touching fd) (setup_v6 g c fd).
Proof.
  unfold setup_v6. repeat (apply Forall_cons_2; [intros s; cbn [fst]; (apply setsockopt_ok || apply bind_call_ok)|]).
  apply Forall_nil_2.
Qed.

(** A function that opens one socket or nothing. *)
Definition opens_one (m : os (Z * Z)) : Prop := forall s, fds_wf s ->
  exists ret fd s', m s = ((ret, fd), s')
    /\ (ret = UPNP_E_SUCCESS /\ 0 <= fd /\ opened s [fd] s' \/ ret <> UPNP_E_SUCCESS /\ k_socks s' = k_socks s).

Lemma opened_close s fd s1 s2 : opened s [fd] s1 -> k_socks s2 = delete fd (k_socks s1) -> k_socks s2 = k_socks s.
Proof.
  intros Ho E. rewrite E. apply map_eq. intros x. destruct (decide (x = fd)) as [->|Hne].
  - rewrite lookup_delete_eq. symmetry. apply not_elem_of_dom.
    pose proof (op_new _ _ _ Ho) as H. by apply Forall_singleton in H as [_ H].
  - rewrite lookup_delete_ne by done. apply Ho. by rewrite list_elem_of_singleton.
Qed.

Lemma create_sock_ok family setup : (forall fd, Forall (touching fd) (setup fd)) -> opens_one (create_sock family setup).
Proof.
  intros Ht s Hw. unfold create_sock, os_bind at 1.
  destruct (socket_call_ok family s Hw) as (fd & s1 & -> & [(-> & Hs)|(Hfd & Ho & _)]).
  { eexists _, _, _. split; [reflexivity|]. by right. }
  rewrite (proj2 (Z.eqb_neq fd INVALID_SOCKET)) by (unfold INVALID_SOCKET; lia). unfold os_bind.
  pose proof (set_up_ok fd _ (Ht fd) s1) as H1. destruct (set_up (setup fd) s1) as [ret s2]. cbn [snd] in H1.
  eapply touched_opened in H1; [|exact Ho]. unfold release.
  destruct (Z.eqb_spec ret UPNP_E_SUCCESS) as [->|Hr]; cbn [negb].
  { eexists _, _, _. split; [reflexivity|]. by left. }
  unfold os_bind. pose proof (shutdown_ok fd s2) as H2. destruct (shutdown_call fd s2) as [r3 s3]. cbn [snd] in H2.
  pose proof (close_call_ok fd s3) as H3. destruct (close_call fd s3) as [r4 s4]. cbn [snd] in H3.
  eexists _, _, _. split; [reflexivity|]. right. split; [done|].
  eapply opened_close; [exact H1|]. by rewrite H3, H2.
Qed.
Lemma create_v4_ok c : opens_one (create_ssdp_sock_v4 c).
Proof. apply create_sock_ok, setup_v4_touching. Qed.
Lemma create_v6_ok c : opens_one (create_ssdp_sock_v6 c).
Proof. apply create_sock_ok, setup_v6_touching. Qed.
Lemma create_ula_ok c : opens_one (create_ssdp_sock_v6_ula_gua c).
Proof. apply create_sock_ok, setup_v6_touching. Qed.

Lemma request_sock_ok family o :
  opens_one (let* fd := socket_call family in
             if fd =? INVALID_SOCKET then os_ret (UPNP_E_OUTOF_SOCKET, fd)
             else let* _ := setsockopt fd o in let* _ := make_no_blocking fd in os_ret (UPNP_E_SUCCESS, fd)).
Proof.
  intros s Hw. unfold os_bind. destruct (socket_call_ok family s Hw) as (fd & s1 & -> & [(-> & Hs)|(Hfd & Ho & _)]).
  { eexists _, _, _. split; [reflexivity|]. by right. }
  rewrite (proj2 (Z.eqb_neq fd INVALID_SOCKET)) by (unfold INVALID_SOCKET; lia).
  pose proof (setsockopt_ok fd o s1) as H1. destruct (setsockopt fd o s1) as [r2 s2]. cbn [snd] in H1.
  pose proof (make_no_blocking_ok fd s2) as H2. destruct (make_no_blocking fd s2) as [r3 s3]. cbn [snd] in H2.
  eexists _, _, _. split; [reflexivity|]. left. split; [done|]. split; [done|].
  eapply touched_opened; [exact Ho|]. by eapply touched_trans.
Qed.

Lemma valid_cons fd l : fd <> INVALID_SOCKET -> valid (fd :: l) = fd :: valid l.
Proof. intros H. by apply (filter_cons_True (fun fd => fd <> INVALID_SOCKET)). Qed.
Lemma valid_cons_invalid l : valid (INVALID_SOCKET :: l) = valid l.
Proof. unfold valid. rewrite filter_cons_False; [done|]. intros H. by apply H. Qed.
#[export] Instance valid_proper : Proper ((≡ₚ) ==> (≡ₚ)) valid.
Proof. intros l l' H. apply (filter_Permutation (fun fd => fd <> INVALID_SOCKET)), H. Qed.

(** What a computation that creates a list of sockets comes to, from [s0] on. *)
Definition result_spec (s0 : mini) (P : list Z -> Prop) (r : (Z * list Z) * mini) : Prop :=
  if r.1.1 =? UPNP_E_SUCCESS then opened s0 (valid r.1.2) r.2 /\ P r.1.2 else k_socks r.2 = k_socks s0.

Lemma want_sock_ok s0 P wanted create before k s :
  fds_wf s0 -> opened s0 (valid before) s -> opens_one create ->
  (forall fd s1, (fd = INVALID_SOCKET <-> wanted = false) -> opened s0 (valid (fd :: before)) s1 ->
     result_spec s0 P (k fd s1)) ->
  result_spec s0 P (want_sock wanted create before k s).
Proof.
  intros Hw Ho Hc Hk. unfold want_sock. destruct wanted; [|apply Hk; [done|by rewrite valid_cons_invalid]].
  unfold os_bind at 1. destruct (Hc s) as (ret & fd & s1 & -> & [(-> & Hfd & Hn)|(Hr & Hs)]); [by eapply opened_wf|..].
  - cbn [fst snd Z.eqb negb]. assert (fd <> INVALID_SOCKET) by (unfold INVALID_SOCKET; lia).
    change (UPNP_E_SUCCESS =? UPNP_E_SUCCESS) with true. cbn [negb]. apply Hk; [done|]. rewrite valid_cons by done.
    by apply (opened_trans _ _ _ [fd] _ Ho Hn).
  - cbn [fst snd]. rewrite (proj2 (Z.eqb_neq ret UPNP_E_SUCCESS) Hr). cbn [negb]. unfold os_bind.
    pose proof (drop_socks_ok before s1) as Hd. destruct (drop_socks before s1) as [u s2]. cbn [snd] in Hd.
    unfold result_spec. cbn [fst snd os_ret]. rewrite (proj2 (Z.eqb_neq ret UPNP_E_SUCCESS) Hr).
    eapply without_opened; [exact Hw|exact Ho|]. by rewrite Hd, Hs.
Qed.

(** The five sockets, in the order of [get_ssdp_sockets]; which of them are wanted. *)
Definition has_addr (a : list Z) : bool := negb (strlen a =? 0).
Definition wanted_socks (c : interface) : list bool :=
  [has_addr (gIF_IPV4 c); ipv6 c && has_addr (gIF_IPV6 c); has_addr (gIF_IPV4 c);
   ipv6 c && has_addr (gIF_IPV6 c); ipv6 c && has_addr (gIF_IPV6_ULA_GUA c)].
Definition as_wanted (c : interface) (l : list Z) : Prop :=
  Forall2 (fun fd w => fd = INVALID_SOCKET <-> w = false) l (wanted_socks c).

Lemma opened_globals s l s1 s2 : k_socks s2 = k_socks s1 -> opened s l s1 -> opened s l s2.
Proof. intros E Ho. eapply touched_opened; [exact Ho|]. by apply touched_same. Qed.

Lemma set_global_ok (b : bool) f s :
  (forall s, k_socks (f s) = k_socks s) -> k_socks ((if b then modify f else os_ret tt) s).2 = k_socks s.
Proof. intros H. destruct b; [apply H|done]. Qed.
Ltac set_global :=
  lazymatch goal with
  | |- context [(if ?b then modify ?f else os_ret tt) ?s] =>
      let K := fresh "K" in let s' := fresh "s'" in
      pose proof (set_global_ok b f s (fun _ => eq_refl)) as K;
      destruct ((if b then modify f else os_ret tt) s) as [? s']; cbn [snd] in K
  end.

Lemma get_ssdp_sockets_ok c s : fds_wf s -> result_spec s (as_wanted c) (get_ssdp_sockets c s).
Proof.
  intros Hw. unfold get_ssdp_sockets. cbv zeta.
  apply want_sock_ok; [done|by apply opened_nil|apply request_sock_ok|]. intros req4 s1 H1 O1.
  unfold os_bind at 1. set_global.
  apply want_sock_ok; [done|by eapply opened_globals|apply request_sock_ok|]. intros req6 s2 H2 O2.
  unfold os_bind at 1. set_global.
  apply want_sock_ok; [done|eapply opened_globals; [eassumption|]|apply create_v4_ok|].
  { by rewrite (Permutation_swap req4 req6 []) in O2. }
  intros s4 s3 H3 O3. apply want_sock_ok; [done|done|apply create_v6_ok|]. intros s6 s5 H5 O5.
  apply want_sock_ok; [done| |apply create_ula_ok|].
  { by rewrite (Permutation_swap s4 s6 [req4; req6]) in O5. }
  intros ula s7 H7 O7. unfold result_spec. cbn [fst snd os_ret]. change (UPNP_E_SUCCESS =? UPNP_E_SUCCESS) with true.
  split; [|unfold as_wanted, wanted_socks; rewrite !Forall2_cons; done].
  assert (Hp : [ula; s4; s6; req4; req6] ≡ₚ [req4; req6; s4; s6; ula]) by solve_Permutation.
  by rewrite Hp in O7.
Qed.

(** The socket is bound to the local host and the port that the datagram is sent to. *)
Definition stop_bound (fd port : Z) (s : mini) : Prop :=
  miniStopSockPort s = port
  /\ exists k, k_socks s !! fd = Some k /\ bound_to (inet_addr LOCALHOST) port k = true.

Lemma bind_result fd a s : (bind_call fd a s).1 = 0 \/ (bind_call fd a s).1 = -1.
Proof.
  unfold bind_call. case_match. unfold on_socket. cbn [k_socks]. destruct (k_socks s !! fd); [|by right].
  unfold os_bind. match goal with |- context [answer ?s0] => destruct (answer_eq s0) as (ok & l' & ->) end.
  destruct ok; [by left|by right].
Qed.
Lemma bind_bound fd k0 a s s2 : k_socks s !! fd = Some k0 -> ss_family a = AF_INET ->
  bind_call fd a s = (0, s2) ->
  exists k p, k_socks s2 !! fd = Some k /\ ks_local k = Some (Sockaddr AF_INET p (ss_addr a) (ss_scope_id a)).
Proof.
  intros Hk Hf. unfold bind_call. case_match. unfold on_socket. cbn [k_socks]. rewrite Hk. unfold os_bind.
  destruct (answer_eq (Mini (k_socks s) (k_answers s) l (gMServState s) (miniStopSockPort s) (gSsdpReqSocket4 s) (gSsdpReqSocket6 s)))
    as (ok & l' & ->). destruct ok; [|done]. intros [= <-]. eexists _, _. cbn. rewrite lookup_insert_eq. split; [done|].
  cbn. by rewrite Hf.
Qed.

Lemma get_miniserver_stopsock_ok s : fds_wf s -> exists ret fd port s',
  get_miniserver_stopsock s = ((ret, fd, port), s')
  /\ (ret = UPNP_E_SUCCESS /\ 0 <= fd /\ opened s [fd] s' /\ stop_bound fd port s' \/ ret <> UPNP_E_SUCCESS /\ k_socks s' = k_socks s).
Proof.
  intros Hw. unfold get_miniserver_stopsock, os_bind at 1.
  destruct (socket_call_ok AF_INET s Hw) as (fd & s1 & -> & [(-> & Hs)|(Hfd & Ho & Hk)]).
  { eexists _, _, _, _. split; [reflexivity|]. by right. }
  rewrite (proj2 (Z.eqb_neq fd INVALID_SOCKET)) by (unfold INVALID_SOCKET; lia). unfold os_bind at 1.
  set (a0 := Sockaddr AF_INET 0 (inet_addr LOCALHOST) 0).
  pose proof (bind_call_ok fd a0 s1) as Hb. pose proof (fun s2 => bind_bound fd _ a0 s1 s2 Hk eq_refl) as Hbd.
  assert (Hr : (bind_call fd a0 s1).1 = 0 \/ (bind_call fd a0 s1).1 = -1) by apply bind_result.
  destruct (bind_call _ _ s1) as [ret s2]. cbn [fst snd] in Hb, Hr. eapply touched_opened in Hb; [|exact Ho].
  assert (Hclose : forall s3, opened s [fd] s3 -> exists r s4, close_sock fd s3 = (r, s4) /\ k_socks s4 = k_socks s).
  { intros s3 O3. pose proof (close_sock_ok fd s3 (opened_wf _ _ _ O3 Hw)) as Hc.
    destruct (close_sock fd s3) as [r s4]. eexists _, _. split; [done|]. by eapply opened_close. }
  destruct Hr as [->| ->].
  2: { change (-1 =? -1) with true. cbv iota. unfold os_bind. destruct (Hclose _ Hb) as (r & s4 & -> & Hk4). eexists _, _, _, _. split; [reflexivity|]. by right. }
  destruct (Hbd s2 eq_refl) as (k2 & p & Hk2 & Hloc). clear Hbd.
  change (0 =? -1) with false. cbv iota. unfold os_bind at 1, get_port, os_bind at 1, getsockname. rewrite Hk2. unfold os_bind at 1.
  destruct (answer_eq s2) as (ok & l & ->). cbn [os_ret]. set (s3 := Mini _ l _ _ _ _ _).
  assert (O3 : forall q, opened s [fd] (with_stop_port q s3)) by (intros q; by eapply opened_globals; [|exact Hb]).
  unfold os_bind, modify. destruct ok; cbn [default].
  - rewrite Hloc. cbn. eexists _, _, _, _. split; [reflexivity|]. left. split_and!; [done|done|apply O3|]. split; [done|].
    exists k2. split; [done|]. unfold bound_to. rewrite Hloc. cbn. by rewrite Z.eqb_refl, bool_decide_eq_true_2.
  - unfold os_ret at 1. cbv beta iota. change (-1 <? 0) with true. cbv beta iota.
    match goal with |- context [close_sock fd ?x] => destruct (Hclose x (O3 _)) as (r & s4 & -> & Hk4) end.
    eexists _, _, _, _. split; [reflexivity|]. by right.
Qed.
End Create.

(** ** What the calls keep *)

Section Keeps.
Context `{HM : Malloc, HR : Resolver, HI : InetAddr}.
(** A part of the state that is neither the sockets, the answers nor the ports. *)
Context {B : Type} {f : mini -> B}.
Context (Hsocks : forall g s, f (with_socks g s) = f s).
Context (Hans : forall s l ps, f (Mini (k_socks s) l ps (gMServState s) (miniStopSockPort s) (gSsdpReqSocket4 s)
                                       (gSsdpReqSocket6 s)) = f s).

Lemma answer_keeps : keeps f answer.
Proof. intros s. destruct (answer_eq s) as (ok & l & ->). apply Hans. Qed.
Lemma when_keeps {A} (b : bool) (m1 m2 : os A) : keeps f m1 -> keeps f m2 -> keeps f (if b then m1 else m2).
Proof. by destruct b. Qed.
Lemma socket_keeps family : keeps f (socket_call family).
Proof.
  apply keeps_bind; [apply answer_keeps|]. intros []; [|apply keeps_ret]. intros s. cbn -[lowest_fd]. apply Hsocks.
Qed.
Lemma on_socket_keeps fd g : keeps f (on_socket fd g).
Proof.
  intros s. unfold on_socket. destruct (k_socks s !! fd) as [k|]; [|done].
  apply (keeps_bind f answer); [apply answer_keeps|]. intros []; [|apply keeps_ret]. intros s'. apply Hsocks.
Qed.
Lemma bind_keeps fd a : keeps f (bind_call fd a).
Proof. intros s. unfold bind_call. case_match. rewrite on_socket_keeps. apply Hans. Qed.
Lemma close_keeps fd : keeps f (close_call fd).
Proof.
  intros s. unfold close_call. destruct (k_socks s !! fd) as [k|]; [|done].
  apply (keeps_bind f answer); [apply answer_keeps|]. intros ok s'. apply Hsocks.
Qed.
Lemma close_sock_keeps fd : keeps f (close_sock fd).
Proof. unfold close_sock. apply when_keeps; [|apply keeps_ret]. apply keeps_bind; [apply close_keeps|intros; apply keeps_ret]. Qed.
Lemma close_socks_keeps l : keeps f (close_socks l).
Proof. induction l as [|fd l IH]; [apply keeps_ret|]. apply keeps_bind; [apply close_sock_keeps|done]. Qed.
Lemma drop_socks_keeps l : keeps f (drop_socks l).
Proof.
  induction l as [|fd l IH]; [apply keeps_ret|].
  repeat (apply keeps_bind; [apply on_socket_keeps || apply close_keeps|intros _]). done.
Qed.
Lemma sendto_keeps fd d a p : keeps f (sendto fd d a p).
Proof.
  intros s. unfold sendto. destruct (k_socks s !! fd) as [k|]; [|done].
  apply (keeps_bind f answer); [apply answer_keeps|]. intros []; [|apply keeps_ret]. intros s'. apply Hsocks.
Qed.
Lemma recvfrom_keeps fd n : keeps f (recvfrom fd n).
Proof. intros s. unfold recvfrom. repeat (case_match; try done). apply Hsocks. Qed.

Lemma set_up_keeps l : Forall (fun e => keeps f e.1) l -> keeps f (set_up l).
Proof.
  induction 1 as [|[call err] l Hc _ IH]; [apply keeps_ret|]. apply keeps_bind; [exact Hc|]. intros ret.
  destruct err; [apply when_keeps; [apply keeps_ret|done]|done].
Qed.
Lemma setup_v4_keeps c fd : Forall (fun e => keeps f e.1) (setup_v4 c fd).
Proof.
  unfold setup_v4. repeat (apply Forall_cons_2; [cbn [fst]; (apply on_socket_keeps || apply bind_keeps)|]). apply Forall_nil_2.
Qed.
Lemma setup_v6_keeps g c fd : Forall (fun e => keeps f e.1) (setup_v6 g c fd).
Proof.
  unfold setup_v6. repeat (apply Forall_cons_2; [cbn [fst]; (apply on_socket_keeps || apply bind_keeps)|]). apply Forall_nil_2.
Qed.
Lemma create_keeps family setup :
  (forall fd, Forall (fun e => keeps f e.1) (setup fd)) -> keeps f (create_sock family setup).
Proof.
  intros H. apply keeps_bind; [apply socket_keeps|]. intros fd. apply when_keeps; [apply keeps_ret|].
  apply keeps_bind; [by apply set_up_keeps|]. intros ret. apply when_keeps; [|apply keeps_ret].
  apply keeps_bind; [apply on_socket_keeps|]. intros _. apply keeps_bind; [apply close_keeps|]. intros _. apply keeps_ret.
Qed.
Lemma want_sock_keeps b create before k :
  keeps f create -> (forall fd, keeps f (k fd)) -> keeps f (want_sock b create before k).
Proof.
  intros Hc Hk. unfold want_sock. apply when_keeps; [|apply Hk]. apply keeps_bind; [done|]. intros r.
  apply when_keeps; [|apply Hk]. apply keeps_bind; [apply drop_socks_keeps|]. intros _. apply keeps_ret.
Qed.
Lemma get_ssdp_sockets_keeps c :
  (forall fd s, f (with_req4 fd s) = f s) -> (forall fd s, f (with_req6 fd s) = f s) -> keeps f (get_ssdp_sockets c).
Proof.
  intros H4 H6. unfold get_ssdp_sockets. cbv zeta.
  apply want_sock_keeps; [by repeat (apply keeps_bind; [apply socket_keeps || apply on_socket_keeps|intros ?]; try apply when_keeps; try apply keeps_ret)|].
  intros req4. apply keeps_bind; [apply when_keeps; [intros s; apply H4|apply keeps_ret]|]. intros _.
  apply want_sock_keeps; [by repeat (apply keeps_bind; [apply socket_keeps || apply on_socket_keeps|intros ?]; try apply when_keeps; try apply keeps_ret)|].
  intros req6. apply keeps_bind; [apply when_keeps; [intros s; apply H6|apply keeps_ret]|]. intros _.
  apply want_sock_keeps; [apply create_keeps; intros fd; apply setup_v4_keeps|]. intros s4.
  apply want_sock_keeps; [apply create_keeps; intros fd; apply setup_v6_keeps|]. intros s6.
  apply want_sock_keeps; [apply create_keeps; intros fd; apply setup_v6_keeps|]. intros ula. apply keeps_ret.
Qed.
End Keeps.

(** ** Starting *)

Section Start.
Context `{HM : Malloc, HR : Resolver, HI : InetAddr}.

(** A start opens the sockets of its array, or nothing. *)
Definition start_spec (c : interface) (add_rc : Z) (s : mini) (r : (Z + MiniServerSockArray) * mini) : Prop :=
  match r with
  | (inl ret, s') => ret <> UPNP_E_SUCCESS /\ k_socks s' = k_socks s
  | (inr a, s') =>
      gMServState s = MSERV_IDLE /\ 0 <= add_rc /\ opened s (valid (array_socks a)) s'
      /\ as_wanted c [ssdpReqSock4 a; ssdpReqSock6 a; ssdpSock4 a; ssdpSock6 a; ssdpSock6UlaGua a]
      /\ 0 <= miniServerStopSock a /\ stop_bound (miniServerStopSock a) (stopPort a) s'
  end.

Lemma length_five {A} (R : Z -> A -> Prop) l b1 b2 b3 b4 b5 :
  Forall2 R l [b1; b2; b3; b4; b5] -> exists x1 x2 x3 x4 x5, l = [x1; x2; x3; x4; x5].
Proof.
  intros H. apply Forall2_length in H.
  destruct l as [|x1 [|x2 [|x3 [|x4 [|x5 [|]]]]]]; try done. by exists x1, x2, x3, x4, x5.
Qed.

(** Another socket is not affected. *)
Lemma stop_bound_opened fd port s l s' :
  stop_bound fd port s -> opened s l s' -> fd ∈ fds s -> miniStopSockPort s' = miniStopSockPort s -> stop_bound fd port s'.
Proof.
  intros [A (k & Hk & Hb)] Ho Hfd Hp. split; [by rewrite Hp|]. exists k. split; [|done].
  rewrite (op_rest _ _ _ Ho); [done|]. intros Hl. pose proof (op_new _ _ _ Ho) as Hn. rewrite Forall_forall in Hn.
  by apply Hn in Hl as [_ Hl].
Qed.

Lemma start_job_ok c add_rc s : fds_wf s -> start_spec c add_rc s (start_job c add_rc s).
Proof.
  intros Hw. unfold start_job, get_state, os_bind at 1. destruct (bool_decide_reflect (gMServState s = MSERV_IDLE)) as [Hi|];
    [|done]. cbn [negb]. destruct (alloc_ok _); [|done]. cbn [negb]. unfold os_bind at 1.
  destruct (get_miniserver_stopsock_ok s Hw) as (ret & stop & port & s1 & -> & [(-> & Hs & O1 & Hb)|(Hr & K)]).
  2: { rewrite (proj2 (Z.eqb_neq ret UPNP_E_SUCCESS) Hr). cbn [negb]. split; [done|]. done. }
  change (UPNP_E_SUCCESS =? UPNP_E_SUCCESS) with true. cbn [negb]. unfold os_bind at 1.
  assert (Hw1 : fds_wf s1) by (by eapply opened_wf). assert (Hn : stop <> INVALID_SOCKET) by (unfold INVALID_SOCKET; lia).
  pose proof (get_ssdp_sockets_ok c s1 Hw1) as Hg.
  pose proof (get_ssdp_sockets_keeps (f := miniStopSockPort) (fun _ _ => eq_refl) (fun _ _ _ => eq_refl) c (fun _ _ => eq_refl) (fun _ _ => eq_refl) s1) as Hp2.
  destruct (get_ssdp_sockets c s1) as [[ret l] s2].
  unfold result_spec in Hg. cbn [fst snd] in Hg. destruct (Z.eqb_spec ret UPNP_E_SUCCESS) as [->|Hr]; cbn [negb].
  - destruct Hg as [O2 HW]. unfold os_bind.
    destruct (length_five _ _ _ _ _ _ _ HW) as (req4 & req6 & s4 & s6 & ula & ->). cbn [lookup list_lookup default].
    set (a := SockArray _ _ _ _ _ _ _ _ _ _ _).
    assert (Ho : opened s (valid (array_socks a)) s2).
    { pose proof (opened_trans _ _ _ _ _ O1 O2) as O. rewrite Permutation_app_comm in O. cbn [app] in O.
      rewrite <- valid_cons in O by done.
      assert (Hp : [stop; req4; req6; s4; s6; ula] ≡ₚ [stop; s4; s6; ula; req4; req6]) by solve_Permutation.
      rewrite Hp in O.
      change (array_socks a) with [INVALID_SOCKET; INVALID_SOCKET; stop; s4; s6; ula; req4; req6].
      by rewrite !valid_cons_invalid. }
    destruct (Z.ltb_spec add_rc 0) as [Hn0|Hn0].
    + pose proof (close_socks_ok (array_socks a) s2 (opened_wf _ _ _ Ho Hw)) as Hc.
      destruct (close_socks _ s2) as [u s3]. cbn [snd] in Hc. split; [done|]. by eapply without_opened.
    + cbn. split_and!; try done. eapply stop_bound_opened; [exact Hb|exact O2| |exact Hp2].
      apply elem_of_dom. pose proof (op_open _ _ _ O1) as Ho1. rewrite Forall_singleton in Ho1. exact Ho1.
  - unfold os_bind. pose proof (close_socks_ok [INVALID_SOCKET; INVALID_SOCKET; stop] s2) as Hc.
    assert (Hw2 : fds_wf s2) by (unfold fds_wf, fds; by rewrite Hg). specialize (Hc Hw2).
    destruct (close_socks _ s2) as [u s3]. cbn [snd] in Hc. split; [done|].
    eapply (without_opened s [INVALID_SOCKET; INVALID_SOCKET; stop]); [done| |exact Hc].
    rewrite !valid_cons_invalid, valid_cons by done. cbn. by eapply opened_globals.
Qed.
End Start.

(** ** The thread *)

Section Thread.
Context `{HM : Malloc, HR : Resolver, HI : InetAddr}.

Lemma recvfrom_fds fd n s : fds (recvfrom fd n s).2 = fds s.
Proof.
  unfold recvfrom. destruct (k_socks s !! fd) as [k|] eqn:E; [|done]. destruct (ks_queue k); [done|].
  unfold fds. cbn. rewrite dom_insert_L. apply elem_of_dom_2 in E. set_solver.
Qed.
Lemma sendto_fds fd d a p s : fds (sendto fd d a p s).2 = fds s.
Proof.
  unfold sendto. destruct (k_socks s !! fd); [|done]. unfold os_bind.
  destruct (answer_eq s) as (ok & l & ->). destruct ok; [|done]. unfold fds. cbn. by rewrite dom_fmap_L.
Qed.
Lemma ssdp_read_fds fd set : keeps fds (ssdp_read fd set).
Proof.
  unfold ssdp_read. destruct (_ && _); [|apply keeps_ret]. apply keeps_bind; [|intros a; apply keeps_ret].
  intros s. apply recvfrom_fds.
Qed.
Lemma receive_fds fd set : keeps fds (receive_from_stopSock fd set).
Proof.
  unfold receive_from_stopSock. destruct (bool_decide _); [|apply keeps_ret].
  apply keeps_bind; [|intros a; apply keeps_ret]. intros s. apply recvfrom_fds.
Qed.
Lemma server_round_fds a sel : keeps fds (server_round a sel).
Proof.
  unfold server_round. apply keeps_bind; [intros s; unfold select_call; by case_match|]. intros [set|]; [|apply keeps_ret].
  repeat (apply keeps_bind; [apply ssdp_read_fds || apply receive_fds|intros ?]). apply keeps_ret.
Qed.
End Thread.

(** ** Who owns the sockets *)

Definition job_socks (j : MiniServerSockArray * job_status) : list Z :=
  match j.2 with Finished => [] | _ => valid (array_socks j.1) end.
Definition caller_socks (c : caller) : list Z :=
  match c with Stopping fd | StopSleeping fd => [fd] | _ => [] end.
Definition owned (w : world) : list Z :=
  concat (job_socks <$> w_jobs w) ++ concat (caller_socks <$> w_callers w) ++ elements (w_others w).
Definition owned_ok (w : world) : Prop := fds_wf (w_mini w) /\ elements (fds (w_mini w)) ≡ₚ owned w.

Lemma concat_insert {A} (f : A -> list Z) l i x y :
  l !! i = Some x -> f x ++ concat (f <$> <[i := y]> l) ≡ₚ f y ++ concat (f <$> l).
Proof.
  revert i. induction l as [|z l IH]; intros [|i]; cbn; [done..| |].
  - intros [= <-]. solve_Permutation.
  - intros H. specialize (IH _ H). rewrite !app_assoc, (Permutation_app_comm (f x)), (Permutation_app_comm (f y)), <- !app_assoc.
    by rewrite IH.
Qed.

Lemma concat_nil_map {A} (f : A -> list Z) l : Forall (fun x => f x = []) l -> concat (f <$> l) = [].
Proof. induction 1 as [|x l Hx _ IH]; [done|]. cbn. by rewrite Hx, IH. Qed.

Section Owned.
Context `{HM : Malloc, HR : Resolver, HI : InetAddr}.

Lemma owned_job_set j a st st' w m : w_jobs w !! j = Some (a, st) ->
  job_socks (a, st) ++ owned (job_set j a st' w m) ≡ₚ job_socks (a, st') ++ owned w.
Proof. intros H. unfold owned. cbn [w_jobs w_callers w_others job_set]. rewrite !(app_assoc (job_socks _)). f_equiv. by apply concat_insert. Qed.
Lemma owned_caller_set i x y w m : w_callers w !! i = Some x ->
  caller_socks x ++ owned (caller_set i y w m) ≡ₚ caller_socks y ++ owned w.
Proof.
  intros H. unfold owned. cbn [w_jobs w_callers w_others caller_set].
  pose proof (concat_insert caller_socks _ _ _ y H) as Hc.
  rewrite (Permutation_app_swap_app (caller_socks x)), (Permutation_app_swap_app (caller_socks y)).
  rewrite (app_assoc (caller_socks x)), (app_assoc (caller_socks y)). by rewrite Hc.
Qed.
Lemma owned_caller_add x w m : owned (caller_add x w m) ≡ₚ caller_socks x ++ owned w.
Proof.
  unfold owned. cbn [w_jobs w_callers w_others caller_add]. rewrite fmap_app, concat_app. cbn. rewrite app_nil_r.
  solve_Permutation.
Qed.

(** What a step does to the table of sockets, and how that fits what is owned. *)
Lemma owned_same w w' :
  owned_ok w -> fds (w_mini w') = fds (w_mini w) -> owned w' ≡ₚ owned w -> owned_ok w'.
Proof. intros [A B] E P. split; [unfold fds_wf; by rewrite E|]. by rewrite E, P. Qed.
Lemma owned_opened w w' l :
  owned_ok w -> opened (w_mini w) l (w_mini w') -> owned w' ≡ₚ l ++ owned w -> owned_ok w'.
Proof.
  intros [A B] Ho P. split; [by eapply opened_wf|]. by rewrite (opened_elements _ _ _ Ho), B, P.
Qed.
Lemma owned_closed w w' l :
  owned_ok w -> k_socks (w_mini w') = without l (k_socks (w_mini w)) -> owned w ≡ₚ valid l ++ owned w' -> owned_ok w'.
Proof.
  intros [A B] E P. split.
  - eapply fds_wf_sub; [|exact A]. intros fd. unfold fds. rewrite E, !elem_of_dom, without_lookup.
    case_decide; [by intros [? ?]|done].
  - eapply without_elements; [exact A|exact E|]. by rewrite B.
Qed.
Lemma same_fds s s' : k_socks s' = k_socks s -> fds s' = fds s.
Proof. unfold fds. by intros ->. Qed.
Lemma close_one w w' fd :
  owned_ok w -> 0 <= fd -> k_socks (w_mini w') = delete fd (k_socks (w_mini w)) -> owned w ≡ₚ fd :: owned w' ->
  owned_ok w'.
Proof.
  intros H Hfd E P. apply (owned_closed w w' [fd] H); [by rewrite without_cons|].
  rewrite valid_cons by (unfold INVALID_SOCKET; lia). done.
Qed.
Lemma owned_ge w fd : owned_ok w -> fd ∈ owned w -> 0 <= fd.
Proof. intros [A B] H. apply A. rewrite <- elem_of_elements, B. done. Qed.
Lemma caller_owned w i c fd : w_callers w !! i = Some c -> fd ∈ caller_socks c -> fd ∈ owned w.
Proof.
  intros H Hfd. unfold owned. rewrite !elem_of_app. right. left. apply list_elem_of_In, in_concat.
  exists (caller_socks c). split; [|by apply list_elem_of_In]. apply list_elem_of_In, list_elem_of_fmap.
  exists c. split; [done|]. by eapply list_elem_of_lookup_2.
Qed.

(** Ending a stop: its socket is closed. *)
Lemma stop_closed w i c fd r m :
  owned_ok w -> w_callers w !! i = Some c -> caller_socks c = [fd] ->
  k_socks m = delete fd (k_socks (w_mini w)) -> owned_ok (caller_set i (Returned r) w m).
Proof.
  intros Hok Hi Hc E. apply (close_one w _ fd Hok).
  - apply (owned_ge w); [done|]. eapply caller_owned; [exact Hi|]. rewrite Hc. by left.
  - exact E.
  - pose proof (owned_caller_set i c (Returned r) w m Hi) as P. rewrite Hc in P. by rewrite P.
Qed.
Lemma stop_goes_on w i c c' m :
  owned_ok w -> w_callers w !! i = Some c -> caller_socks c' = caller_socks c ->
  fds m = fds (w_mini w) -> owned_ok (caller_set i c' w m).
Proof.
  intros Hok Hi Hc E. apply (owned_same w); [done|exact E|].
  pose proof (owned_caller_set i c c' w m Hi) as P. rewrite Hc in P. by apply Permutation_app_inv_l in P.
Qed.
Lemma job_goes_on w j a st st' m :
  owned_ok w -> w_jobs w !! j = Some (a, st) -> job_socks (a, st') = job_socks (a, st) ->
  fds m = fds (w_mini w) -> owned_ok (job_set j a st' w m).
Proof.
  intros Hok Hj Hc E. apply (owned_same w); [done|exact E|].
  pose proof (owned_job_set j a st st' w m Hj) as P. rewrite Hc in P. by apply Permutation_app_inv_l in P.
Qed.

Lemma owned_ok_step c w act w' : owned_ok w -> in_time w act -> mserv_step c w act = Some w' -> owned_ok w'.
Proof.
  intros Hok Ht. destruct act as [add_rc|i|j|j sel|j| |i|i|i|fd data|family|fd]; cbn [mserv_step].
  - pose proof (start_job_ok c add_rc (w_mini w) (proj1 Hok)) as Hs. destruct (start_job c add_rc _) as [[ret|a] m].
    + intros [= <-]. destruct Hs as [_ Hs]. apply (owned_same w); [done|by apply same_fds|]. by rewrite owned_caller_add.
    + intros [= <-]. destruct Hs as (_ & _ & Ho & _). eapply (owned_opened w); [done|exact Ho|].
      unfold owned. cbn [w_jobs w_callers w_others]. rewrite !fmap_app, !concat_app. cbn. rewrite !app_nil_r. solve_Permutation.
  - destruct (w_callers w !! i) as [[a n| | | |]|] eqn:Hi; try done. cbn [in_time] in Ht. rewrite Hi in Ht.
    unfold start_poll, get_state, os_bind at 1. rewrite (proj2 (Z.leb_gt _ _) Ht), (proj2 (Z.ltb_lt _ _) Ht).
    destruct (_ && _); intros [= <-]; by eapply stop_goes_on.
  - destruct (w_jobs w !! j) as [[a []]|] eqn:Hj; try done. intros [= <-]. by eapply job_goes_on.
  - destruct (w_jobs w !! j) as [[a []]|] eqn:Hj; try done.
    pose proof (server_round_fds a sel (w_mini w)) as Hf. destruct (server_round a sel _) as [[stop got] m]. cbn [snd] in Hf.
    intros [= <-]. apply (owned_same (job_set j a (if stop then Ending else Serving) w m)); [|done|done].
    eapply job_goes_on; [done|exact Hj|by destruct stop|done].
  - destruct (w_jobs w !! j) as [[a []]|] eqn:Hj; try done. intros [= <-].
    unfold server_end, os_bind. pose proof (close_socks_ok (array_socks a) (w_mini w) (proj1 Hok)) as Hc.
    destruct (close_socks _ _) as [u m]. cbn [snd] in Hc. apply (owned_closed w _ (array_socks a) Hok); [exact Hc|].
    by rewrite (owned_job_set j a Ending Finished w _ Hj).
  - intros [= <-]. apply (owned_same w); [done|done|]. rewrite owned_caller_add. by case_match.
  - destruct (w_callers w !! i) as [[| | | |]|] eqn:Hi; try done. unfold stop_begin, modify, os_bind at 1, os_bind at 1.
    destruct (socket_call_ok AF_INET (with_state MSERV_STOPPING (w_mini w)) (proj1 Hok)) as (fd & m & -> & [(-> & Hs)|(Hfd & Ho & _)]).
    + intros [= <-]. apply (stop_goes_on w i _ _ _ Hok Hi); [done|by apply same_fds].
    + cbn [os_ret]. rewrite (proj2 (Z.eqb_neq fd INVALID_SOCKET)) by (unfold INVALID_SOCKET; lia). intros [= <-].
      assert (Ho' : opened (w_mini w) [fd] m) by (destruct Ho; by split).
      eapply (owned_opened w); [done|exact Ho'|]. exact (owned_caller_set i StopSeen (Stopping fd) w m Hi).
  - destruct (w_callers w !! i) as [[| |sock| |]|] eqn:Hi; try done. unfold stop_send, get_state, os_bind at 1.
    destruct (bool_decide _).
    + unfold os_bind. pose proof (close_sock_ok sock (w_mini w) (proj1 Hok)) as Hc. destruct (close_sock _ _) as [r m].
      intros [= <-]. by eapply stop_closed.
    + unfold os_bind. pose proof (sendto_fds sock SHUTDOWN (inet_addr LOCALHOST) (miniStopSockPort (w_mini w)) (w_mini w)) as Hf.
      destruct (sendto _ _ _ _ _) as [r m]. intros [= <-]. by eapply stop_goes_on.
  - destruct (w_callers w !! i) as [[| | |sock|]|] eqn:Hi; try done. unfold stop_wake, get_state, os_bind at 1.
    destruct (bool_decide _).
    + unfold os_bind. pose proof (close_sock_ok sock (w_mini w) (proj1 Hok)) as Hc. destruct (close_sock _ _) as [r m].
      intros [= <-]. by eapply stop_closed.
    + intros [= <-]. by eapply stop_goes_on.
  - destruct (k_socks (w_mini w) !! fd) as [k|] eqn:Hk; [|done]. intros [= <-]. apply (owned_same w); [done| |done].
    unfold fds. cbn. rewrite dom_insert_L. apply elem_of_dom_2 in Hk. set_solver.
  - destruct (socket_call_ok family (w_mini w) (proj1 Hok)) as (fd & m & -> & [(-> & Hs)|(Hfd & Ho & _)]).
    + intros [= <-]. apply (owned_same w); [done|by apply same_fds|done].
    + rewrite (proj2 (Z.eqb_neq fd INVALID_SOCKET)) by (unfold INVALID_SOCKET; lia). intros [= <-].
      eapply (owned_opened w); [done|exact Ho|]. unfold owned. cbn [w_jobs w_callers w_others].
      rewrite elements_union_singleton; [solve_Permutation|]. intros Hin.
      pose proof (op_new _ _ _ Ho) as Hn. apply Forall_singleton in Hn as [_ Hn]. apply Hn.
      rewrite <- elem_of_elements, (proj2 Hok). unfold owned. rewrite !elem_of_app, elem_of_elements. by right; right.
  - case_decide as Hfd; [|done]. intros [= <-].
    assert (P : owned w ≡ₚ fd :: owned (World (close_call fd (w_mini w)).2 (w_jobs w) (w_callers w) (w_others w ∖ {[fd]}) (w_read w))).
    { unfold owned. cbn [w_jobs w_callers w_others].
      assert (E : elements (w_others w) ≡ₚ fd :: elements (w_others w ∖ {[fd]})).
      { rewrite <- elements_union_singleton by set_solver. by rewrite <- union_difference_singleton_L. }
      rewrite E. solve_Permutation. }
    apply (close_one w _ fd Hok); [|apply close_call_ok|exact P].
    apply (owned_ge w); [done|]. rewrite P. by left.
Qed.

Lemma owned_ok_init answers ports : owned_ok (world0 answers ports).
Proof. split; [intros fd; unfold fds; cbn; set_solver|done]. Qed.
Lemma reach_owned c answers ports w : mserv_reach in_time c answers ports w -> owned_ok w.
Proof. induction 1; [apply owned_ok_init|]. by eapply owned_ok_step. Qed.
End Owned.

(** ** Orderly runs *)

Section Orderly.
Context `{HM : Malloc, HR : Resolver, HI : InetAddr}.

Definition live (w : world) (j : nat) (a : MiniServerSockArray) (st : job_status) : Prop :=
  w_jobs w !! j = Some (a, st) /\ st <> Finished.
(** At most one server; while it runs the state is not idle, and its stop socket is the
    one that the datagram is sent to. *)
Record one_server (w : world) : Prop := {
  os_unique : forall j a st j' a' st', live w j a st -> live w j' a' st' -> j = j';
  os_running : forall j a st, live w j a st -> st = Queued \/ gMServState (w_mini w) <> MSERV_IDLE;
  os_stop : forall j a st, live w j a st ->
    0 <= miniServerStopSock a /\ stop_bound (miniServerStopSock a) (stopPort a) (w_mini w)
}.

(** The sockets outside [X] stay bound as they are. *)
Definition bound_kept (X : list Z) (s s' : mini) : Prop :=
  miniStopSockPort s' = miniStopSockPort s
  /\ forall fd k, fd ∉ X -> k_socks s !! fd = Some k ->
       exists k', k_socks s' !! fd = Some k' /\ ks_local k' = ks_local k.
Lemma stop_bound_kept X fd port s s' : bound_kept X s s' -> fd ∉ X -> stop_bound fd port s -> stop_bound fd port s'.
Proof.
  intros [A B] Hfd [C (k & Hk & Hb)]. split; [by rewrite A|]. destruct (B fd k Hfd Hk) as (k' & Hk' & E).
  exists k'. split; [done|]. unfold bound_to in *. by rewrite E.
Qed.
Lemma bound_kept_same X s s' : k_socks s' = k_socks s -> miniStopSockPort s' = miniStopSockPort s -> bound_kept X s s'.
Proof. intros E P. split; [done|]. intros fd k _ Hk. exists k. by rewrite E. Qed.
Lemma bound_kept_trans X s1 s2 s3 : bound_kept X s1 s2 -> bound_kept X s2 s3 -> bound_kept X s1 s3.
Proof.
  intros [A B] [C D]. split; [by rewrite C|]. intros fd k Hfd Hk. destruct (B _ _ Hfd Hk) as (k' & Hk' & E).
  destruct (D _ _ Hfd Hk') as (k'' & Hk'' & E'). exists k''. split; [done|]. by rewrite E'.
Qed.
Lemma bound_kept_opened X s l s' :
  opened s l s' -> miniStopSockPort s' = miniStopSockPort s -> bound_kept X s s'.
Proof.
  intros Ho P. split; [done|]. intros fd k _ Hk. exists k. split; [|done]. rewrite (op_rest _ _ _ Ho); [done|]. intros Hl.
  pose proof (op_new _ _ _ Ho) as Hn. rewrite Forall_forall in Hn. apply Hn in Hl as [_ Hl]. apply Hl.
  apply elem_of_dom. by exists k.
Qed.
Lemma bound_kept_close fd s s' : k_socks s' = delete fd (k_socks s) ->
  miniStopSockPort s' = miniStopSockPort s -> bound_kept [fd] s s'.
Proof.
  intros E P. split; [done|]. intros x k Hx Hk. exists k. rewrite list_elem_of_singleton in Hx.
  by rewrite E, lookup_delete_ne.
Qed.
Lemma bound_kept_insert X fd k k' s s' :
  k_socks s !! fd = Some k -> ks_local k' = ks_local k -> k_socks s' = <[fd := k']> (k_socks s) ->
  miniStopSockPort s' = miniStopSockPort s -> bound_kept X s s'.
Proof.
  intros Hk El E P. split; [done|]. intros x kx _ Hx. rewrite E. destruct (decide (x = fd)) as [->|Hne].
  - exists k'. rewrite lookup_insert_eq. naive_solver.
  - exists kx. by rewrite lookup_insert_ne.
Qed.
Lemma bound_kept_bind {A B} X (m : os A) (f : A -> os B) s :
  bound_kept X s (m s).2 -> (forall a s', bound_kept X s' (f a s').2) -> bound_kept X s (os_bind m f s).2.
Proof.
  intros H1 H2. unfold os_bind. specialize (H2 (m s).1 (m s).2). destruct (m s) as [a s1].
  by eapply bound_kept_trans.
Qed.

Lemma recvfrom_bound fd n s : bound_kept [] s (recvfrom fd n s).2.
Proof.
  unfold recvfrom. destruct (k_socks s !! fd) as [k|] eqn:E; [|by apply bound_kept_same].
  destruct (ks_queue k); [by apply bound_kept_same|]. eapply (bound_kept_insert _ fd k); [exact E| |cbn; reflexivity|done]; done.
Qed.
Lemma sendto_bound fd d a p s : bound_kept [] s (sendto fd d a p s).2.
Proof.
  unfold sendto. destruct (k_socks s !! fd); [|by apply bound_kept_same]. unfold os_bind.
  destruct (answer_eq s) as (ok & l & ->). destruct ok; [|by apply bound_kept_same]. split; [done|].
  intros x k0 _ Hk. cbn. unfold deliver_to. rewrite lookup_fmap, Hk. cbn. eexists. split; [reflexivity|]. by case_match.
Qed.
Lemma ssdp_read_bound fd set s : bound_kept [] s (ssdp_read fd set s).2.
Proof.
  unfold ssdp_read. destruct (_ && _); [|by apply bound_kept_same].
  apply bound_kept_bind; [apply recvfrom_bound|]. intros a s'. by apply bound_kept_same.
Qed.
Lemma server_round_bound a sel s : bound_kept [] s (server_round a sel s).2.
Proof.
  unfold server_round. apply bound_kept_bind; [unfold select_call; case_match; by apply bound_kept_same|].
  intros [set|] s1; [|by apply bound_kept_same].
  do 5 (apply bound_kept_bind; [apply ssdp_read_bound|intros ? ?]).
  apply bound_kept_bind; [|intros ? ?; by apply bound_kept_same].
  unfold receive_from_stopSock. destruct (bool_decide _); [|by apply bound_kept_same].
  apply bound_kept_bind; [apply recvfrom_bound|]. intros ? ?. by apply bound_kept_same.
Qed.
Lemma server_round_state a sel : keeps gMServState (server_round a sel).
Proof.
  assert (Hr : forall fd set, keeps gMServState (ssdp_read fd set)).
  { intros fd set. unfold ssdp_read. destruct (_ && _); [|apply keeps_ret].
    apply keeps_bind; [by apply recvfrom_keeps|intros; apply keeps_ret]. }
  unfold server_round. apply keeps_bind; [intros s; unfold select_call; by case_match|]. intros [set|]; [|apply keeps_ret].
  do 5 (apply keeps_bind; [apply Hr|intros ?]). apply keeps_bind; [|intros; apply keeps_ret].
  unfold receive_from_stopSock. destruct (bool_decide _); [|apply keeps_ret].
  apply keeps_bind; [by apply recvfrom_keeps|intros; apply keeps_ret].
Qed.

(** The stop socket of a server is not the socket of a stop or of another thread. *)
Lemma live_stop_not_caller w j a st i c :
  owned_ok w -> live w j a st -> 0 <= miniServerStopSock a -> w_callers w !! i = Some c ->
  miniServerStopSock a ∉ caller_socks c.
Proof.
  intros [_ Hp] [Hj Hst] H0 Hi Hc.
  assert (Hnd : NoDup (owned w)) by (rewrite <- Hp; apply NoDup_elements).
  apply NoDup_app in Hnd as (_ & Hdis & _). apply (Hdis (miniServerStopSock a)).
  - apply list_elem_of_In, in_concat. exists (job_socks (a, st)). split.
    + apply list_elem_of_In, list_elem_of_fmap. exists (a, st). split; [done|]. by eapply list_elem_of_lookup_2.
    + apply list_elem_of_In. unfold job_socks. destruct st; [| | |done]; cbn [fst snd]; apply elem_of_valid;
        (split; [unfold INVALID_SOCKET; lia|]; unfold array_socks; set_solver).
  - apply elem_of_app. left. apply list_elem_of_In, in_concat. exists (caller_socks c).
    split; [|by apply list_elem_of_In]. apply list_elem_of_In, list_elem_of_fmap. exists c. split; [done|].
    by eapply list_elem_of_lookup_2.
Qed.
Lemma live_stop_not_other w j a st fd :
  owned_ok w -> live w j a st -> 0 <= miniServerStopSock a -> fd ∈ w_others w -> miniServerStopSock a <> fd.
Proof.
  intros [_ Hp] [Hj Hst] H0 Hi <-.
  assert (Hnd : NoDup (owned w)) by (rewrite <- Hp; apply NoDup_elements).
  apply NoDup_app in Hnd as (_ & Hdis & _). apply (Hdis (miniServerStopSock a)).
  - apply list_elem_of_In, in_concat. exists (job_socks (a, st)). split.
    + apply list_elem_of_In, list_elem_of_fmap. exists (a, st). split; [done|]. by eapply list_elem_of_lookup_2.
    + apply list_elem_of_In. unfold job_socks. destruct st; [| | |done]; cbn [fst snd]; apply elem_of_valid;
        (split; [unfold INVALID_SOCKET; lia|]; unfold array_socks; set_solver).
  - apply elem_of_app. right. by apply elem_of_elements.
Qed.
End Orderly.

Section OneServer.
Context `{HM : Malloc, HR : Resolver, HI : InetAddr}.

Lemma os_same w w' X :
  one_server w -> w_jobs w' = w_jobs w ->
  gMServState (w_mini w') = gMServState (w_mini w) \/ gMServState (w_mini w') <> MSERV_IDLE ->
  bound_kept X (w_mini w) (w_mini w') -> (forall j a st, live w j a st -> miniServerStopSock a ∉ X) -> one_server w'.
Proof.
  intros [A B C] Hj Hs Hb HX.
  assert (Hl : forall j a st, live w' j a st -> live w j a st) by (intros j a st; unfold live; by rewrite Hj).
  split.
  - intros j a st j' a' st' H1 H2. eapply A; by apply Hl.
  - intros j a st H1%Hl. destruct (B _ _ _ H1) as [?|Hne]; [by left|right]. destruct Hs as [->|?]; done.
  - intros j a st H1%Hl. destruct (C _ _ _ H1) as [H0 Hst]. split; [done|]. by eapply stop_bound_kept; [|by eapply HX|].
Qed.
Lemma live_job_set w j a st st' m j' a' s' :
  live w j a st -> live (job_set j a st' w m) j' a' s' -> j' = j /\ a' = a /\ s' = st' \/ j' <> j /\ live w j' a' s'.
Proof.
  intros [Hj Hst] [H1 H2]. cbn [w_jobs job_set] in H1. destruct (decide (j' = j)) as [->|Hne].
  - rewrite list_lookup_insert_eq in H1 by (by eapply lookup_lt_Some). injection H1 as <- <-. by left.
  - rewrite list_lookup_insert_ne in H1 by done. right. by split.
Qed.
Lemma os_job w j a st st' m :
  one_server w -> live w j a st -> gMServState m <> MSERV_IDLE -> bound_kept [] (w_mini w) m ->
  one_server (job_set j a st' w m).
Proof.
  intros [A B C] Hl Hs Hb. split.
  - intros j1 a1 s1 j2 a2 s2 H1 H2.
    destruct (live_job_set _ _ _ _ _ _ _ _ _ Hl H1) as [(-> & _ & _)|[N1 L1]], (live_job_set _ _ _ _ _ _ _ _ _ Hl H2) as [(-> & _ & _)|[N2 L2]].
    + done.
    + by eapply A.
    + by eapply A.
    + by eapply A.
  - intros j1 a1 s1 _. by right.
  - intros j1 a1 s1 H1. destruct (live_job_set _ _ _ _ _ _ _ _ _ Hl H1) as [(-> & -> & ->)|[N1 L1]].
    + destruct (C _ _ _ Hl) as [H0 Hst]. split; [done|]. eapply stop_bound_kept; [exact Hb|by apply not_elem_of_nil|done].
    + destruct (C _ _ _ L1) as [H0 Hst]. split; [done|]. eapply stop_bound_kept; [exact Hb|by apply not_elem_of_nil|done].
Qed.
Lemma os_finish w j a st m : one_server w -> live w j a st -> one_server (job_set j a Finished w m).
Proof.
  intros [A B C] Hl.
  assert (Hno : forall j1 a1 s1, ~ live (job_set j a Finished w m) j1 a1 s1).
  { intros j1 a1 s1 H1. destruct (live_job_set _ _ _ _ _ _ _ _ _ Hl H1) as [(-> & -> & ->)|[N1 L1]].
    - by destruct H1 as [_ H1].
    - apply N1. by eapply A. }
  split; intros; exfalso; by eapply Hno.
Qed.
Lemma os_none w : Forall (fun j => j.2 = Finished) (w_jobs w) -> one_server w.
Proof.
  intros H. rewrite Forall_lookup in H.
  assert (Hno : forall j a s, ~ live w j a s) by (intros j a s [H1 H2]; by apply H in H1).
  split; intros; exfalso; by eapply Hno.
Qed.
Lemma nil_free (w : world) : forall j a st, live w j a st -> miniServerStopSock a ∉ ([] : list Z).
Proof. intros j a st _. apply not_elem_of_nil. Qed.

(** The end of a stop. *)
Lemma os_stop_end w i c fd r (m : mini) (rr : Z) :
  owned_ok w -> one_server w -> w_callers w !! i = Some c -> caller_socks c = [fd] ->
  close_sock fd (w_mini w) = (rr, m) -> one_server (caller_set i (Returned r) w m).
Proof.
  intros Hok Ho Hi Hc E. pose proof (close_sock_ok fd (w_mini w) (proj1 Hok)) as Hk. rewrite E in Hk. cbn [snd] in Hk.
  assert (Hp : forall B (f : mini -> B), (forall g s, f (with_socks g s) = f s) ->
    (forall s l ps, f (Mini (k_socks s) l ps (gMServState s) (miniStopSockPort s) (gSsdpReqSocket4 s) (gSsdpReqSocket6 s)) = f s) ->
    f m = f (w_mini w)).
  { intros B f H1 H2. pose proof (close_sock_keeps H1 H2 fd (w_mini w)) as H. by rewrite E in H. }
  apply (os_same w _ [fd]); [done|done|left; by apply Hp|by apply bound_kept_close; [|apply Hp]|].
  intros j a st Hl. rewrite <- Hc. eapply live_stop_not_caller; [done|done|by eapply os_stop|exact Hi].
Qed.

Lemma one_server_step c w act w' :
  owned_ok w -> one_server w -> orderly w act -> mserv_step c w act = Some w' -> one_server w'.
Proof.
  intros Hok Ho [Ht Hord]. destruct act as [add_rc|i|j|j sel|j| |i|i|i|fd data|family|fd]; cbn [mserv_step].
  - pose proof (start_job_ok c add_rc (w_mini w) (proj1 Hok)) as Hs. destruct (start_job c add_rc _) as [[ret|a] m].
    + intros [= <-]. by apply os_none.
    + intros [= <-]. destruct Hs as (_ & _ & _ & _ & H0 & Hst).
      assert (Hl : forall j a' st', live (World m (w_jobs w ++ [(a, Queued)]) (w_callers w ++ [Starting a 0]) (w_others w) (w_read w)) j a' st' ->
                j = length (w_jobs w) /\ a' = a /\ st' = Queued).
      { intros j a' st' [H1 H2]. cbn [w_jobs] in H1. apply lookup_app_Some in H1 as [H1|[H1 H3]].
        - rewrite Forall_lookup in Hord. by apply Hord in H1.
        - destruct (j - length (w_jobs w))%nat eqn:E; [|done]. injection H3 as <- <-. split; [lia|done]. }
      split.
      * intros j1 a1 s1 j2 a2 s2 (-> & _ & _)%Hl (-> & _ & _)%Hl. done.
      * intros j1 a1 s1 (_ & _ & ->)%Hl. by left.
      * intros j1 a1 s1 (_ & -> & _)%Hl. done.
  - destruct (w_callers w !! i) as [[a n| | | |]|] eqn:Hi; try done. cbn [in_time] in Ht. rewrite Hi in Ht.
    unfold start_poll, get_state, os_bind at 1. rewrite (proj2 (Z.leb_gt _ _) Ht), (proj2 (Z.ltb_lt _ _) Ht).
    destruct (_ && _); intros [= <-]; (eapply os_same; [done|done|by left|by apply bound_kept_same|apply nil_free]).
  - destruct (w_jobs w !! j) as [[a []]|] eqn:Hj; try done. intros [= <-].
    apply (os_job w j a Queued); [done|done|done|by apply bound_kept_same].
  - destruct (w_jobs w !! j) as [[a []]|] eqn:Hj; try done. assert (Hl : live w j a Serving) by done.
    pose proof (server_round_bound a sel (w_mini w)) as Hb. pose proof (server_round_state a sel (w_mini w)) as Hs.
    destruct (server_round a sel _) as [[stop got] m]. cbn [snd] in Hb, Hs. intros [= <-].
    apply (os_same (job_set j a (if stop then Ending else Serving) w m) _ []);
      [|done|by left|by apply bound_kept_same|apply nil_free].
    apply (os_job w j a Serving); [done|done| |done]. rewrite Hs. by destruct (os_running _ Ho _ _ _ Hl).
  - destruct (w_jobs w !! j) as [[a []]|] eqn:Hj; try done. intros [= <-]. by eapply os_finish.
  - intros [= <-]. eapply os_same; [done|done|by left|by apply bound_kept_same|apply nil_free].
  - destruct (w_callers w !! i) as [[| | | |]|] eqn:Hi; try done. unfold stop_begin, modify, os_bind at 1, os_bind at 1.
    set (m0 := with_state MSERV_STOPPING (w_mini w)).
    destruct (socket_call_ok AF_INET m0 (proj1 Hok)) as (fd & m & E & H).
    pose proof (socket_keeps (f := gMServState) (fun _ _ => eq_refl) (fun _ _ _ => eq_refl) AF_INET m0) as Hs.
    pose proof (socket_keeps (f := miniStopSockPort) (fun _ _ => eq_refl) (fun _ _ _ => eq_refl) AF_INET m0) as Hp.
    rewrite E in *. cbn [snd] in Hs, Hp. intros [= <-].
    apply (os_same w _ []); [done|done|right; cbn [w_mini caller_set]; by rewrite Hs| |apply nil_free]. cbn [w_mini caller_set].
    destruct H as [(-> & Hk)|(Hfd & Hop & _)]; [by apply bound_kept_same|].
    apply (bound_kept_opened _ _ [fd]); [destruct Hop; by split|done].
  - destruct (w_callers w !! i) as [[| |sock| |]|] eqn:Hi; try done. unfold stop_send, get_state, os_bind at 1.
    destruct (bool_decide _).
    + unfold os_bind. destruct (close_sock _ _) as [r m] eqn:E. intros [= <-]. by eapply os_stop_end.
    + unfold os_bind.
      pose proof (sendto_bound sock SHUTDOWN (inet_addr LOCALHOST) (miniStopSockPort (w_mini w)) (w_mini w)) as Hb.
      pose proof (sendto_keeps (f := gMServState) (fun _ _ => eq_refl) (fun _ _ _ => eq_refl) sock SHUTDOWN (inet_addr LOCALHOST)
                    (miniStopSockPort (w_mini w)) (w_mini w)) as Hs.
      destruct (sendto _ _ _ _ _) as [r m]. cbn [snd] in Hb, Hs. intros [= <-].
      eapply os_same; [done|done|by left|exact Hb|apply nil_free].
  - destruct (w_callers w !! i) as [[| | |sock|]|] eqn:Hi; try done. unfold stop_wake, get_state, os_bind at 1.
    destruct (bool_decide _).
    + unfold os_bind. destruct (close_sock _ _) as [r m] eqn:E. intros [= <-]. by eapply os_stop_end.
    + intros [= <-]. eapply os_same; [done|done|by left|by apply bound_kept_same|apply nil_free].
  - destruct (k_socks (w_mini w) !! fd) as [k|] eqn:Hk; [|done]. intros [= <-].
    eapply os_same; [done|done|by left|eapply (bound_kept_insert _ fd k); [exact Hk| |cbn; reflexivity|done]; done|apply nil_free].
  - pose proof (socket_keeps (f := gMServState) (fun _ _ => eq_refl) (fun _ _ _ => eq_refl) family (w_mini w)) as Hs.
    pose proof (socket_keeps (f := miniStopSockPort) (fun _ _ => eq_refl) (fun _ _ _ => eq_refl) family (w_mini w)) as Hp.
    destruct (socket_call_ok family (w_mini w) (proj1 Hok)) as (fd & m & E & H). rewrite E in *. cbn [snd] in Hs, Hp.
    intros [= <-]. apply (os_same w _ []); [done|done|by left| |apply nil_free].
    destruct H as [(-> & Hk)|(Hfd & Hop & _)]; [by apply bound_kept_same|by apply (bound_kept_opened _ _ [fd])].
  - case_decide as Hfd; [|done]. intros [= <-].
    pose proof (close_keeps (f := gMServState) (fun _ _ => eq_refl) (fun _ _ _ => eq_refl) fd (w_mini w)) as Hs.
    pose proof (close_keeps (f := miniStopSockPort) (fun _ _ => eq_refl) (fun _ _ _ => eq_refl) fd (w_mini w)) as Hp.
    apply (os_same w _ [fd]); [done|done|by left|apply bound_kept_close; [apply close_call_ok|done]|].
    intros j a st Hl. rewrite list_elem_of_singleton.
    eapply live_stop_not_other; [done|done|by eapply os_stop|done].
Qed.

Lemma reach_mono (ok ok' : world -> mserv_action -> Prop) c answers ports w :
  (forall w a, ok w a -> ok' w a) -> mserv_reach ok c answers ports w -> mserv_reach ok' c answers ports w.
Proof. intros H. induction 1; [apply reach_init|eapply reach_step; eauto]. Qed.
Lemma reach_one_server c answers ports w : mserv_reach orderly c answers ports w -> owned_ok w /\ one_server w.
Proof.
  induction 1 as [|w act w' Hr [IH1 IH2] Hord E].
  - split; [apply owned_ok_init|by apply os_none].
  - split; [by eapply owned_ok_step; [|apply Hord|]|by eapply one_server_step].
Qed.
End OneServer.

(** ** How a stop ends *)

Section Stop.
Context `{HM : Malloc, HR : Resolver, HI : InetAddr}.

Lemma run_app c l1 l2 : forall w, mserv_run c w (l1 ++ l2) = (w' ← mserv_run c w l1; mserv_run c w' l2).
Proof. induction l1 as [|a l1 IH]; intros w; [done|]. cbn [mserv_run app]. destruct (mserv_step c w a); [apply IH|done]. Qed.

(** The sockets that are watched are open, and the stop socket is none of the others. *)
Definition watchable (a : MiniServerSockArray) (m : mini) : Prop :=
  Forall (fun fd => is_Some (k_socks m !! fd)) (read_set a)
  /\ miniServerStopSock a ∉ [ssdpReqSock4 a; ssdpReqSock6 a; ssdpSock4 a; ssdpSock6 a; ssdpSock6UlaGua a].

Lemma fdset_elem x fd set : fd ∈ fdset_if_valid x set <-> x <> INVALID_SOCKET /\ fd = x \/ fd ∈ set.
Proof.
  unfold fdset_if_valid. destruct (Z.eqb_spec x INVALID_SOCKET); cbn [negb]; [naive_solver|]. rewrite elem_of_cons. naive_solver.
Qed.
Lemma read_set_elem a fd :
  fd ∈ read_set a -> fd = miniServerStopSock a \/ fd <> INVALID_SOCKET /\ fd ∈ array_socks a.
Proof.
  unfold read_set. cbn [foldr]. rewrite !fdset_elem, list_elem_of_singleton. unfold array_socks. rewrite !elem_of_cons.
  naive_solver.
Qed.
Lemma read_set_stop a : miniServerStopSock a ∈ read_set a.
Proof. unfold read_set. cbn [foldr]. rewrite !fdset_elem, list_elem_of_singleton. tauto. Qed.

Lemma live_watchable w j a st : owned_ok w -> live w j a st -> 0 <= miniServerStopSock a -> watchable a (w_mini w).
Proof.
  intros Hok [Hj Hst] H0.
  assert (Hin : forall fd, fd ∈ valid (array_socks a) -> fd ∈ owned w).
  { intros fd Hfd. unfold owned. apply elem_of_app. left. apply list_elem_of_In, in_concat. exists (job_socks (a, st)). split.
    - apply list_elem_of_In, list_elem_of_fmap. exists (a, st). split; [done|]. by eapply list_elem_of_lookup_2.
    - apply list_elem_of_In. unfold job_socks. by destruct st. }
  assert (Hnd : NoDup (valid (array_socks a))).
  { assert (Hn : NoDup (owned w)) by (rewrite <- (proj2 Hok); apply NoDup_elements).
    pose proof (owned_job_set j a st Finished w (w_mini w) Hj) as P. cbn in P. rewrite <- P in Hn.
    apply NoDup_app in Hn as [Hn _]. by destruct st. }
  split.
  - apply Forall_forall. intros fd Hfd. apply elem_of_dom. change (dom (k_socks (w_mini w))) with (fds (w_mini w)).
    rewrite <- elem_of_elements, (proj2 Hok). apply Hin, elem_of_valid.
    apply read_set_elem in Hfd as [->|?]; [|done].
    split; [unfold INVALID_SOCKET; lia|unfold array_socks; set_solver].
  - intros Hs. assert (Hne : miniServerStopSock a <> INVALID_SOCKET) by (unfold INVALID_SOCKET; lia).
    assert (Hp : array_socks a ≡ₚ miniServerStopSock a :: [ssdpReqSock4 a; ssdpReqSock6 a; ssdpSock4 a; ssdpSock6 a; ssdpSock6UlaGua a]
                   ++ [miniServerSock4 a; miniServerSock6 a]) by (unfold array_socks; solve_Permutation).
    rewrite Hp, valid_cons in Hnd by done. apply NoDup_cons in Hnd as [Hnd _]. apply Hnd, elem_of_valid.
    split; [done|]. apply elem_of_app. by left.
Qed.

(** A round in which only the stop socket can be read. *)
Definition is_shutdown (d : list Z) : bool :=
  let b := ztake STOP_SIZE d in (0 <? zlen b) && bool_decide (is_Some (strstr (b ++ [0]) SHUTDOWN)).
Lemma stop_round a m k d q :
  watchable a m -> k_socks m !! miniServerStopSock a = Some k -> ks_queue k = d :: q ->
  server_round a (SelectReady [miniServerStopSock a]) m
  = ((is_shutdown d, []), with_socks <[miniServerStopSock a := KSock (ks_family k) (ks_local k) (ks_opts k) (ks_nonblock k) q]> m).
Proof.
  intros [Ho Hd] Hk Hq. unfold server_round, select_call, os_bind at 1. rewrite bool_decide_eq_true_2 by done.
  assert (Hin : miniServerStopSock a ∈ read_set a) by apply read_set_stop.
  rewrite filter_cons_True, filter_nil by done.
  assert (Hno : forall fd s, fd ∈ [ssdpReqSock4 a; ssdpReqSock6 a; ssdpSock4 a; ssdpSock6 a; ssdpSock6UlaGua a] ->
    ssdp_read fd [miniServerStopSock a] s = ([], s)).
  { intros fd s Hfd. unfold ssdp_read. rewrite (bool_decide_eq_false_2 (fd ∈ _)), andb_false_r; [done|].
    rewrite list_elem_of_singleton. intros ->. done. }
  unfold os_bind. rewrite !Hno by set_solver. unfold receive_from_stopSock, os_bind.
  rewrite bool_decide_eq_true_2 by (by left). unfold recvfrom. rewrite Hk, Hq. done.
Qed.
Lemma watchable_insert a m k k' fd : k_socks m !! fd = Some k -> watchable a m -> watchable a (with_socks <[fd := k']> m).
Proof.
  intros Hk [A B]. split; [|done]. eapply Forall_impl; [exact A|]. intros x Hx. cbn.
  destruct (decide (x = fd)) as [->|Hne]; [rewrite lookup_insert_eq; by eexists|by rewrite lookup_insert_ne].
Qed.

(** With the datagram in the queue, as many rounds as there are datagrams end the loop. *)
Lemma rounds_end c a j : forall pre w k,
  w_jobs w !! j = Some (a, Serving) -> watchable a (w_mini w) ->
  k_socks (w_mini w) !! miniServerStopSock a = Some k -> ks_queue k = pre ++ [SHUTDOWN] ->
  exists n w', (n <= S (length pre))%nat
    /\ mserv_run c w (replicate n (ServerRound j (SelectReady [miniServerStopSock a]))) = Some w'
    /\ w_jobs w' !! j = Some (a, Ending) /\ w_callers w' = w_callers w /\ fds (w_mini w') = fds (w_mini w).
Proof.
  induction pre as [|d pre IH]; intros w k Hj Hw Hk Hq.
  - exists 1%nat. cbn [app] in Hq. cbn [replicate mserv_run mserv_step]. rewrite Hj, (stop_round _ _ _ _ _ Hw Hk Hq).
    assert (E : is_shutdown SHUTDOWN = true) by (vm_compute; reflexivity). rewrite E.
    eexists. split; [lia|]. split; [reflexivity|]. cbn [w_jobs job_set w_callers w_mini].
    rewrite list_lookup_insert_eq by (by eapply lookup_lt_Some). split; [done|]. split; [done|].
    unfold fds. cbn. rewrite dom_insert_L. apply elem_of_dom_2 in Hk. set_solver.
  - cbn [app] in Hq.
    assert (Hf : forall k', fds (with_socks <[miniServerStopSock a := k']> (w_mini w)) = fds (w_mini w)).
    { intros k'. unfold fds. cbn. rewrite dom_insert_L. apply elem_of_dom_2 in Hk. set_solver. }
    destruct (is_shutdown d) eqn:E.
    + exists 1%nat. cbn [replicate mserv_run mserv_step]. rewrite Hj, (stop_round _ _ _ _ _ Hw Hk Hq), E.
      eexists. split; [cbn; lia|]. split; [reflexivity|]. cbn [w_jobs job_set w_callers w_mini].
      rewrite list_lookup_insert_eq by (by eapply lookup_lt_Some). done.
    + set (w1 := World (with_socks <[miniServerStopSock a := KSock (ks_family k) (ks_local k) (ks_opts k) (ks_nonblock k) (pre ++ [SHUTDOWN])]> (w_mini w))
                   (<[j := (a, Serving)]> (w_jobs w)) (w_callers w) (w_others w) (w_read w ++ [])).
      destruct (IH w1 (KSock (ks_family k) (ks_local k) (ks_opts k) (ks_nonblock k) (pre ++ [SHUTDOWN])))
        as (n & w' & Hn & Hr & H1 & H2 & H3).
      * cbn [w_jobs w1]. by rewrite list_lookup_insert_eq by (by eapply lookup_lt_Some).
      * by eapply watchable_insert.
      * cbn. by rewrite lookup_insert_eq.
      * done.
      * exists (S n), w'. split; [cbn; lia|]. cbn [replicate mserv_run mserv_step]. rewrite Hj, (stop_round _ _ _ _ _ Hw Hk Hq), E.
        cbn [mbind option_bind]. split; [exact Hr|]. split; [done|]. split; [by rewrite H2|]. rewrite H3. apply Hf.
Qed.

Lemma reach_server_run ok c answers ports w l w' :
  mserv_reach ok c answers ports w -> mserv_run c w l = Some w' -> (forall w a, a ∈ l -> ok w a) -> mserv_reach ok c answers ports w'.
Proof.
  revert w. induction l as [|a l IH]; intros w Hr E Hok; cbn [mserv_run] in E; [by injection E as <-|].
  destruct (mserv_step c w a) as [w1|] eqn:E1; [|done]. apply (IH w1); [|exact E|].
  - eapply reach_step; [exact Hr| |exact E1]. apply Hok. by left.
  - intros w2 a2 H2. apply Hok. by right.
Qed.

#[export] Instance orderly_dec w a : Decision (orderly w a).
Proof.
  unfold orderly, in_time. apply and_dec.
  - destruct a; try apply True_dec. destruct (w_callers w !! i) as [[]|]; try apply True_dec. apply Z_lt_dec.
  - destruct a; try apply True_dec. apply Forall_dec. intros [x []]; cbn; (left; done) || (right; done).
Defined.
(** Whether all steps are orderly. *)
Fixpoint run_orderly (c : interface) (w : world) (l : list mserv_action) : bool :=
  match l with
  | [] => true
  | a :: l => bool_decide (orderly w a) && match mserv_step c w a with Some w' => run_orderly c w' l | None => false end
  end.
Lemma reach_run_orderly c answers ports l : forall w w',
  mserv_reach orderly c answers ports w -> run_orderly c w l = true -> mserv_run c w l = Some w' -> mserv_reach orderly c answers ports w'.
Proof.
  induction l as [|a l IH]; intros w w' Hr Hl E; cbn [mserv_run run_orderly] in *; [by injection E as <-|].
  apply andb_prop in Hl as [Ha Hl]. apply bool_decide_eq_true in Ha. destruct (mserv_step c w a) as [w1|] eqn:E1; [|done].
  apply (IH w1); [by eapply reach_step|exact Hl|exact E].
Qed.
End Stop.

Module MiniServer.

(** C16. [StartMiniServer] up to its wait, whatever the system answers to its calls: a failure
    leaves the sockets exactly as they were; a success has opened one new socket for
    every address of the interface and the stop socket, which is bound to the local host
    at the port that [StopMiniServer] sends to, and has changed no other socket. *)
Theorem start_sockets `{Malloc, Resolver, InetAddr} c add_rc s :
  fds_wf s ->
  match start_job c add_rc s with
  | (inl ret, s') => ret <> UPNP_E_SUCCESS /\ k_socks s' = k_socks s
  | (inr a, s') =>
      gMServState s = MSERV_IDLE /\ 0 <= add_rc /\ opened s (valid (array_socks a)) s'
      /\ as_wanted c [ssdpReqSock4 a; ssdpReqSock6 a; ssdpSock4 a; ssdpSock6 a; ssdpSock6UlaGua a]
      /\ 0 <= miniServerStopSock a /\ stop_bound (miniServerStopSock a) (stopPort a) s'
  end.
Proof. apply start_job_ok. Qed.

(** A network with two addresses. *)
Definition lan : interface := Interface true (zs "10.0.0.7" ++ [0]) (zs "fe80::1" ++ [0]) [0] 2.
#[local] Instance local_host : InetAddr := fun _ => [127; 0; 0; 1].
#[local] Existing Instance malloc_always.
#[local] Existing Instance resolver_two.

Lemma start_sockets_witness :
  fds_wf (mini0 [true; false] [40000])
  /\ match start_job lan 0 (mini0 [true; false] [40000]) with
     | (inl ret, s') => k_socks s' = ∅
     | (inr a, s') => False
     end.
Proof.
  assert (Hw : fds_wf (mini0 [true; false] [40000])) by (intros fd; unfold fds; cbn; set_solver).
  split; [exact Hw|]. pose proof (start_sockets lan 0 _ Hw) as Hs.
  destruct (start_job lan 0 _) as [[ret|a] s'] eqn:E; [exact (proj2 Hs)|vm_compute in E; discriminate E].
Defined.


End MiniServer.

(** ** What can go wrong *)

Section Examples.
#[local] Existing Instance MiniServer.local_host.
#[local] Existing Instance malloc_always.
#[local] Existing Instance resolver_two.
Definition outcome := mserv_run MiniServer.lan (world0 [] [40000]).

(** A start that gives up closes the sockets of a job that is still queued: when the job
    runs it reads and closes sockets that other threads have opened since. *)
Example late_start :
  match outcome (CallStart 0 :: replicate 10001 (PollStart 0) ++ replicate 5 (OtherOpen AF_INET)
               ++ [RunJob 0; Arrive 0 SHUTDOWN; ServerRound 0 (SelectReady [0]); ServerEnd 0]) with
  | Some w => elements (w_others w) = [3; 4; 2; 1; 0] /\ fds (w_mini w) = ∅
  | None => False
  end.
Proof. vm_compute. done. Qed.

(** A stop that gets no socket returns, the server goes on, and later stops return at once. *)
Example lost_stop :
  match mserv_run MiniServer.lan (world0 (replicate 22 true ++ [false]) [40000])
          [CallStart 0; RunJob 0; PollStart 0; CallStop; StopSet 1; CallStop] with
  | Some w => gMServState (w_mini w) = MSERV_STOPPING /\ snd <$> w_jobs w = [Serving]
              /\ w_callers w = [Returned UPNP_E_SUCCESS; Returned 0; Returned 0]
  | None => False
  end.
Proof. vm_compute. done. Qed.

(** Two stops that have both seen the server run: the second overwrites the idle state, so it
    never returns and no server can be started again. *)
Example two_stops :
  match outcome [CallStart 0; RunJob 0; PollStart 0; CallStop; CallStop; StopSet 1; StopSend 1;
               ServerRound 0 (SelectReady [0]); ServerEnd 0; StopWake 1; StopSet 2; StopSend 2; StopWake 2; CallStart 0] with
  | Some w => gMServState (w_mini w) = MSERV_STOPPING /\ snd <$> w_jobs w = [Finished]
              /\ w_callers w = [Returned UPNP_E_SUCCESS; Returned 0; Stopping 0; Returned UPNP_E_INTERNAL_ERROR]
  | None => False
  end.
Proof. vm_compute. done. Qed.
End Examples.
