(* ===== verification/Api.v ===== *)
(** * The library: interfaces, start and end

    [upnp/src/api/upnpapi.c]: the choice of the network interface, [UpnpInit] and
    [UpnpFinish] with the order in which they bring the components up and down, and the
    calls that only look at the global state.  The calls for subscriptions are in
    [Gena], for searches in [Ssdp], for virtual directories in [Web].

    A component (a lock, a thread pool, the timer, the mini server) is here only up or
    down; what its functions do is the subject of its own file, and whether its start
    succeeds is an input.  Starting what is up, or using or ending what is down, is
    undefined behaviour of the code: [None]. *)

From S2P Require Import Prelude CLib Codes Membuffer Uri Tables ThreadPool ClientTable Gena Sock HttpMsg HttpIO Web Server.
#[local] Open Scope Z_scope.
Import FixedCopy.

Definition UPNP_E_INIT : Z := -105.
Definition UPNP_E_INIT_FAILED : Z := -117.
Definition UPNP_E_INVALID_INTERFACE : Z := -121.

(** ** Interfaces *)

Record if_flags := IfFlags { IFF_LOOPBACK : bool; IFF_UP : bool; IFF_MULTICAST : bool }.
(** An entry of [SIOCGIFCONF]; [ifr_flags]: what [SIOCGIFFLAGS] gives for it, if it
    succeeds. *)
Record ifreq := IfReq {
  ifr_name : list Z;
  ifr_family : Z;
  ifr_addr : list Z;
  ifr_flags : option if_flags
}.
(** A line of [/proc/net/if_inet6]: eight words and the index. *)
Record inet6_line := Inet6 { i6_words : list (list Z); i6_index : Z }.

(** The answers of the system; [if_stale]: what is in [ifReq] before the first call. *)
Record if_system := IfSystem {
  if_socket : bool;
  if_conf : option (list ifreq);
  if_stale : if_flags;
  if_nametoindex : list Z -> Z;
  if_inet6 : option (list inet6_line)
}.

(** [inet_ntop (AF_INET, ...)]. *)
Definition inet_ntop4 (a : list Z) : list Z :=
  match a with
  | [b0; b1; b2; b3] => dec b0 ++ [DOT] ++ dec b1 ++ [DOT] ++ dec b2 ++ [DOT] ++ dec b3
  | _ => []
  end.
Definition INET_ADDRSTRLEN : Z := 16.
Definition INET6_ADDRSTRLEN : Z := 46.
(** [memset] and [strncpy] into an array: its text. *)
Definition copied (size : Z) (s : list Z) : list Z := ztake (size - 1) (cstr s).

Definition DEFAULT_INTERFACE : Z := 1.
Definition loopback4 : list Z := [127; 0; 0; 1].
Fixpoint host_loop (ifs : list ifreq) (flags : if_flags) (LocalAddr : list Z) (j : Z) : list Z :=
  match ifs with
  | [] => LocalAddr
  | r :: ifs =>
      if j <? DEFAULT_INTERFACE then
        let flags := default flags (ifr_flags r) in
        (* Skip loopback, point-to-point and down interfaces *)
        if IFF_LOOPBACK flags || negb (IFF_UP flags) then host_loop ifs flags LocalAddr j
        else if ifr_family r =? AF_INET then
          (* We don't want the loopback interface. *)
          if bool_decide (ifr_addr r = loopback4) then host_loop ifs flags (ifr_addr r) j
          else host_loop ifs flags (ifr_addr r) (j + 1)
        else host_loop ifs flags LocalAddr (j + 1)
      else LocalAddr
  end.
(** The result and the text. *)
Definition getlocalhostname (e : if_system) (out_len : Z) : Z * list Z :=
  if negb (if_socket e) then (UPNP_E_INIT, [])
  else match if_conf e with
       | None => (UPNP_E_INIT, [])
       | Some ifs =>
           (UPNP_E_SUCCESS, ztake out_len (inet_ntop4 (host_loop ifs (IfFlags false false false) (zrep 4 0) 0)))
       end.

(** [UpnpGetIfInfo]: the loop over the entries; the name that is found, and the address. *)
Fixpoint if_loop (ifs : list ifreq) (flags : if_flags) (found : bool) (name : list Z)
  : bool * list Z * option (list Z) :=
  match ifs with
  | [] => (found, name, None)
  | r :: ifs =>
      let flags := default flags (ifr_flags r) in
      if IFF_LOOPBACK flags || negb (IFF_UP flags) || negb (IFF_MULTICAST flags) then if_loop ifs flags found name
      else if found && negb (strncmp name (ifr_name r) LINE_SIZE =? 0) then
        (* This is not the interface we're looking for. *)
        if_loop ifs flags found name
      else
        (* when there was no name, this is a valid one *)
        let name := if found then name else copied LINE_SIZE (ifr_name r) in
        if ifr_family r =? AF_INET then (true, copied LINE_SIZE (ifr_name r), Some (ifr_addr r))
        else (* Address is not IPv4 *) if_loop ifs flags false name
  end.

Definition IN6_IS_ADDR_GLOBAL (a : list Z) : bool := Z.land (zget a 0) 112 =? 32.
Definition IN6_IS_ADDR_ULA (a : list Z) : bool := Z.land (zget a 0) 254 =? 252.
Definition IN6_IS_ADDR_LINKLOCAL (a : list Z) : bool := (zget a 0 =? 254) && (Z.land (zget a 1) 192 =? 128).

Fixpoint join_colon (l : list (list Z)) : list Z :=
  match l with [] => [] | [w] => w | w :: l => w ++ [COLON] ++ join_colon l end.

Section Interfaces.
Context `{Resolver}.

(** The link-local and the other address after the lines of the interface. *)
Fixpoint inet6_loop (lines : list inet6_line) (index : Z) (v6 ula : list Z) : list Z * list Z :=
  match lines with
  | [] => (v6, ula)
  | l :: lines =>
      if index =? i6_index l then
        let buf := ztake (INET6_ADDRSTRLEN - 1) (join_colon (i6_words l)) in
        match inet_pton6 buf with
        | Some a =>
            if IN6_IS_ADDR_ULA a then inet6_loop lines index v6 buf
            else if IN6_IS_ADDR_GLOBAL a && (strlen ula =? 0) then inet6_loop lines index v6 buf
            else if IN6_IS_ADDR_LINKLOCAL a && (strlen v6 =? 0) then inet6_loop lines index buf ula
            else inet6_loop lines index v6 ula
        | None => inet6_loop lines index v6 ula
        end
      else inet6_loop lines index v6 ula
  end.

(** The result, the name and the addresses. *)
Definition UpnpGetIfInfo (e : if_system) (IfName : option (list Z)) (name : list Z) (i : interface)
  : Z * list Z * interface :=
  let too_long := match IfName with Some n => LINE_SIZE <? strlen n | None => false end in
  if too_long then (UPNP_E_INVALID_INTERFACE, name, i)
  else
    let name := match IfName with Some n => copied LINE_SIZE n | None => name end in
    if negb (if_socket e) then (UPNP_E_INIT, name, i)
    else match if_conf e with
    | None => (UPNP_E_INIT, name, i)
    | Some ifs =>
        let '(_, name, addr) := if_loop ifs (if_stale e) (match IfName with Some _ => true | None => false end) name in
        match addr with
        | None => (* Failed to find a valid interface, or valid address. *) (UPNP_E_INVALID_INTERFACE, name, i)
        | Some a =>
            let index := if_nametoindex e name in
            let '(v6, ula) := match if_inet6 e with
                              | None => (gIF_IPV6 i, gIF_IPV6_ULA_GUA i)
                              | Some lines => inet6_loop lines index (gIF_IPV6 i) (gIF_IPV6_ULA_GUA i)
                              end in
            (UPNP_E_SUCCESS, name, Interface (ipv6 i) (inet_ntop4 a) v6 ula index)
        end
    end.
End Interfaces.

(** ** The state *)

Record sdk := Sdk {
  k_init : bool;                         (* UpnpSdkInit *)
  k_registered : bool;                   (* UpnpSdkClientRegistered *)
  k_table : handle_table;
  k_hnd_lock : bool; k_uuid_lock : bool; k_sub_lock : bool;
  k_send : bool; k_recv : bool; k_mini : bool;   (* the thread pools *)
  k_timer : bool;
  k_server : bool;                       (* the mini server *)
  k_web : web;
  k_name : list Z;                       (* gIF_NAME *)
  k_if : interface;
  LOCAL_PORT_V4 : Z; LOCAL_PORT_V6 : Z;
  g_maxContentLength : Z
}.

(** Of the components: locks, pools, timer, server. *)
Definition up (s : sdk) : list bool :=
  [k_hnd_lock s; k_uuid_lock s; k_sub_lock s; k_send s; k_recv s; k_mini s; k_timer s; k_server s].
Definition with_up (f : list bool -> list bool) (s : sdk) : sdk :=
  let u n := default false (f (up s) !! n) in
  Sdk (k_init s) (k_registered s) (k_table s) (u 0%nat) (u 1%nat) (u 2%nat) (u 3%nat) (u 4%nat) (u 5%nat) (u 6%nat) (u 7%nat)
      (k_web s) (k_name s) (k_if s) (LOCAL_PORT_V4 s) (LOCAL_PORT_V6 s) (g_maxContentLength s).
Definition HND_LOCK := 0%nat.
Definition UUID_LOCK := 1%nat.
Definition SUB_LOCK := 2%nat.
Definition SEND_POOL := 3%nat.
Definition RECV_POOL := 4%nat.
Definition MINI_POOL := 5%nat.
Definition TIMER := 6%nat.
Definition SERVER := 7%nat.
Definition is_up (c : nat) (s : sdk) : bool := default false (up s !! c).

Definition with_init (b : bool) (s : sdk) : sdk :=
  Sdk b (k_registered s) (k_table s) (k_hnd_lock s) (k_uuid_lock s) (k_sub_lock s) (k_send s) (k_recv s) (k_mini s)
      (k_timer s) (k_server s) (k_web s) (k_name s) (k_if s) (LOCAL_PORT_V4 s) (LOCAL_PORT_V6 s) (g_maxContentLength s).
Definition with_table (reg : bool) (t : handle_table) (s : sdk) : sdk :=
  Sdk (k_init s) reg t (k_hnd_lock s) (k_uuid_lock s) (k_sub_lock s) (k_send s) (k_recv s) (k_mini s)
      (k_timer s) (k_server s) (k_web s) (k_name s) (k_if s) (LOCAL_PORT_V4 s) (LOCAL_PORT_V6 s) (g_maxContentLength s).
Definition with_web (w : web) (s : sdk) : sdk :=
  Sdk (k_init s) (k_registered s) (k_table s) (k_hnd_lock s) (k_uuid_lock s) (k_sub_lock s) (k_send s) (k_recv s) (k_mini s)
      (k_timer s) (k_server s) w (k_name s) (k_if s) (LOCAL_PORT_V4 s) (LOCAL_PORT_V6 s) (g_maxContentLength s).
Definition with_if (name : list Z) (i : interface) (s : sdk) : sdk :=
  Sdk (k_init s) (k_registered s) (k_table s) (k_hnd_lock s) (k_uuid_lock s) (k_sub_lock s) (k_send s) (k_recv s) (k_mini s)
      (k_timer s) (k_server s) (k_web s) name i (LOCAL_PORT_V4 s) (LOCAL_PORT_V6 s) (g_maxContentLength s).
Definition with_ports (p : Z) (s : sdk) : sdk :=
  Sdk (k_init s) (k_registered s) (k_table s) (k_hnd_lock s) (k_uuid_lock s) (k_sub_lock s) (k_send s) (k_recv s) (k_mini s)
      (k_timer s) (k_server s) (k_web s) (k_name s) (k_if s) p p (g_maxContentLength s).
Definition with_max (n : Z) (s : sdk) : sdk :=
  Sdk (k_init s) (k_registered s) (k_table s) (k_hnd_lock s) (k_uuid_lock s) (k_sub_lock s) (k_send s) (k_recv s) (k_mini s)
      (k_timer s) (k_server s) (k_web s) (k_name s) (k_if s) (LOCAL_PORT_V4 s) (LOCAL_PORT_V6 s) n.

(** Starting, ending and using a component. *)
Definition bring_up (c : nat) (ok : bool) (s : sdk) : option sdk :=
  if is_up c s then None else Some (if ok then with_up <[c := true]> s else s).
Definition bring_down (c : nat) (s : sdk) : option sdk :=
  if is_up c s then Some (with_up <[c := false]> s) else None.
Definition use (c : nat) (s : sdk) : option sdk := if is_up c s then Some s else None.

(** Whether each start succeeds, and the system's interfaces. *)
Record init_env := InitEnv {
  ie_log : Z;                            (* DbgInitLog *)
  ie_hnd : bool; ie_uuid : bool; ie_sub : bool;
  ie_send : Z; ie_recv : Z; ie_mini : Z; (* ThreadPoolInit *)
  ie_timer : Z;                          (* TimerThreadInit *)
  ie_system : if_system;
  ie_server : Z                          (* StartMiniServer *)
}.

(** The attributes of the thread pools. *)
Definition pool_attr : ThreadPoolAttr :=
  let a := TPAttrInit in
  let a := (TPAttrSetMaxThreads a 12).2 in
  let a := (TPAttrSetMinThreads a 2).2 in
  let a := (TPAttrSetStackSize a 0).2 in
  let a := (TPAttrSetJobsPerThread a 10).2 in
  let a := (TPAttrSetIdleTime a 5000).2 in
  (TPAttrSetMaxJobsTotal a 100).2.

Definition MAX_SOAP_CONTENT_LENGTH : Z := 32000.

Section Sdk.
Context `{Malloc, Resolver}.
(** [EXCLUDE_WEB_SERVER == 0] *)
Context (web_server : bool).

(** ** The end *)

(** [UpnpUnRegisterClient] without other threads: the subscriptions end with the handle
    (in [Gena], under any interleaving). *)
Definition unregister_client (h : Z) (s : sdk) : option (Z * sdk) :=
  if negb (k_init s) then Some (UPNP_E_FINISH, s)
  else
    s ← use HND_LOCK s;
    if negb (k_registered s) then Some (UPNP_E_INVALID_HANDLE, s)
    else match client_info h (k_table s) with
         | None => Some (UPNP_E_INVALID_HANDLE, s)
         | Some _ => Some (UPNP_E_SUCCESS, with_table false (FreeHandle h (k_table s)).2 s)
         end.

(** Ending the pool of the mini server waits for the server. *)
Definition UpnpFinish (s : sdk) : option (Z * sdk) :=
  if negb (k_init s) then Some (UPNP_E_FINISH, s)
  else
    s ← match GetClientHandleInfo (k_table s) with
        | Some (h, _) => '(_, s) ← unregister_client h s; Some s
        | None => Some s
        end;
    s ← bring_down TIMER s;
    s ← (if is_up SERVER s then bring_down SERVER s else Some s);
    let s := if web_server then with_web (web_server_destroy (k_web s)) s else s in
    s ← bring_down MINI_POOL s;
    s ← bring_down RECV_POOL s;
    s ← bring_down SEND_POOL s;
    s ← bring_down SUB_LOCK s;
    s ← bring_down HND_LOCK s;
    s ← bring_down UUID_LOCK s;
    (* remove all virtual dirs *)
    let s := with_web (UpnpRemoveAllVirtualDirs (k_init s) (k_web s)) s in
    Some (UPNP_E_SUCCESS, with_init false s).

(** ** The start *)

Definition UpnpInitMutexes (e : init_env) (s : sdk) : option (Z * sdk) :=
  s ← bring_up HND_LOCK (ie_hnd e) s;
  if negb (ie_hnd e) then Some (UPNP_E_INIT_FAILED, s)
  else
    s ← bring_up UUID_LOCK (ie_uuid e) s;
    if negb (ie_uuid e) then Some (UPNP_E_INIT_FAILED, s)
    else
      (* initialize subscribe mutex. *)
      s ← bring_up SUB_LOCK (ie_sub e) s;
      if negb (ie_sub e) then Some (UPNP_E_INIT_FAILED, s) else Some (UPNP_E_SUCCESS, s).

(** The label [exit_function] after a failure. *)
Definition pools_failed (s : sdk) : option (Z * sdk) :=
  '(_, s) ← UpnpFinish (with_init false s); Some (UPNP_E_INIT_FAILED, s).
Definition UpnpInitThreadPools (e : init_env) (s : sdk) : option (Z * sdk) :=
  s ← bring_up SEND_POOL (ie_send e =? 0) s;
  if negb (ie_send e =? UPNP_E_SUCCESS) then pools_failed s
  else
    s ← bring_up RECV_POOL (ie_recv e =? 0) s;
    if negb (ie_recv e =? UPNP_E_SUCCESS) then pools_failed s
    else
      s ← bring_up MINI_POOL (ie_mini e =? 0) s;
      if negb (ie_mini e =? UPNP_E_SUCCESS) then pools_failed s else Some (UPNP_E_SUCCESS, s).

Definition WinsockInit : Z := UPNP_E_SUCCESS.

Definition UpnpInitPreamble (e : init_env) (s : sdk) : option (Z * sdk) :=
  let retVal := WinsockInit in
  if negb (retVal =? UPNP_E_SUCCESS) then Some (retVal, s)
  else if negb (ie_log e =? UPNP_E_SUCCESS) then Some (UPNP_E_INIT_FAILED, s)
  else
    (* Initialize SDK global mutexes. *)
    '(retVal, s) ← UpnpInitMutexes e s;
    if negb (retVal =? UPNP_E_SUCCESS) then Some (retVal, s)
    else
      (* Initializes the handle list. *)
      s ← use HND_LOCK s;
      let s := with_table (k_registered s) HandleTable0 s in
      (* Initialize SDK global thread pools. *)
      '(retVal, s) ← UpnpInitThreadPools e s;
      if negb (retVal =? UPNP_E_SUCCESS) then Some (retVal, s)
      else
        (* Initialize the SDK timer thread. *)
        s ← use SEND_POOL s;
        s ← bring_up TIMER (ie_timer e =? 0) s;
        if negb (ie_timer e =? UPNP_E_SUCCESS) then '(_, s) ← UpnpFinish s; Some (ie_timer e, s)
        else Some (UPNP_E_SUCCESS, s).

Definition UpnpInitStartServers (e : init_env) (DestPort : Z) (s : sdk) : option (Z * sdk) :=
  let s := with_ports DestPort s in
  s ← use MINI_POOL s;
  s ← bring_up SERVER (ie_server e =? 0) s;
  if negb (ie_server e =? UPNP_E_SUCCESS) then '(_, s) ← UpnpFinish s; Some (ie_server e, s)
  else if web_server then
    let s := with_web (set_root (membuffer_init (gDocumentRootDir (k_web s))) (k_web s)) s in
    let retVal := UpnpEnableWebserver (k_init s) in
    if negb (retVal =? UPNP_E_SUCCESS) then '(_, s) ← UpnpFinish s; Some (retVal, s) else Some (UPNP_E_SUCCESS, s)
  else Some (UPNP_E_SUCCESS, s).

(** What [UpnpInit] and [UpnpInit2] have in common; [host]: the interface. *)
Definition init_with (host : sdk -> Z * sdk) (e : init_env) (DestPort : Z) (s : sdk) : option (Z * sdk) :=
  (* Check if we're already initialized. *)
  if k_init s then Some (UPNP_E_INIT, s)
  else
    (* Perform initialization preamble. *)
    '(retVal, s) ← UpnpInitPreamble e s;
    if negb (retVal =? UPNP_E_SUCCESS) then Some (retVal, s)
    else
      let '(retVal, s) := host s in
      if negb (retVal =? UPNP_E_SUCCESS) then Some (retVal, s)
      else
        let s := with_init true s in
        (* Finish initializing the SDK. *)
        '(retVal, s) ← UpnpInitStartServers e DestPort s;
        Some (retVal, if negb (retVal =? UPNP_E_SUCCESS) then with_init false s else s).

Definition set_ipv4 (a : list Z) (i : interface) : interface :=
  Interface (ipv6 i) a (gIF_IPV6 i) (gIF_IPV6_ULA_GUA i) (gIF_INDEX i).
Definition host_ip (e : init_env) (HostIP : option (list Z)) (s : sdk) : Z * sdk :=
  match HostIP with
  | Some h => (UPNP_E_SUCCESS, with_if (k_name s) (set_ipv4 (copied INET_ADDRSTRLEN h) (k_if s)) s)
  | None =>
      let '(rc, a) := getlocalhostname (ie_system e) (INET_ADDRSTRLEN - 1) in
      (if negb (rc =? UPNP_E_SUCCESS) then UPNP_E_INIT_FAILED else UPNP_E_SUCCESS,
       with_if (k_name s) (set_ipv4 a (k_if s)) s)
  end.
Definition UpnpInit (e : init_env) (HostIP : option (list Z)) (DestPort : Z) : sdk -> option (Z * sdk) :=
  init_with (host_ip e HostIP) e DestPort.

Definition host_if (e : init_env) (IfName : option (list Z)) (s : sdk) : Z * sdk :=
  let '(rc, name, i) := UpnpGetIfInfo (ie_system e) IfName (k_name s) (k_if s) in (rc, with_if name i s).
Definition UpnpInit2 (e : init_env) (IfName : option (list Z)) (DestPort : Z) : sdk -> option (Z * sdk) :=
  init_with (host_if e IfName) e DestPort.

(** ** Other calls *)

Definition UpnpGetServerPort (s : sdk) : Z := if negb (k_init s) then 0 else LOCAL_PORT_V4 s.
Definition UpnpGetServerPort6 (s : sdk) : Z := if negb (k_init s) then 0 else LOCAL_PORT_V6 s.
Definition UpnpGetServerIpAddress (s : sdk) : option (list Z) := if negb (k_init s) then None else Some (gIF_IPV4 (k_if s)).
Definition UpnpGetServerIp6Address (s : sdk) : option (list Z) := if negb (k_init s) then None else Some (gIF_IPV6 (k_if s)).
Definition UpnpGetServerUlaGuaIp6Address (s : sdk) : option (list Z) :=
  if negb (k_init s) then None else Some (gIF_IPV6_ULA_GUA (k_if s)).

(** [UpnpRegisterClient] under its lock. *)
Definition register_client (malloc_ok : bool) (fn cookie : Z) (s : sdk) : option (Z * sdk) :=
  if negb (k_init s) then Some (UPNP_E_FINISH, s)
  else if fn =? 0 then Some (UPNP_E_INVALID_PARAM, s)
  else
    s ← use HND_LOCK s;
    if k_registered s then Some (UPNP_E_ALREADY_REGISTERED, s)
    else
      let h := GetFreeHandle (k_table s) in
      if h =? UPNP_E_OUTOF_HANDLE then Some (UPNP_E_OUTOF_MEMORY, s)
      else if negb malloc_ok then Some (UPNP_E_OUTOF_MEMORY, s)
      else Some (UPNP_E_SUCCESS, with_table true (<[Z.to_nat h := Some (HInfo HND_CLIENT fn cookie 0)]> (k_table s)) s).

(** The lock that the last statement releases is not held when the library is not
    initialised. *)
Definition UpnpSetContentLength (h contentLength : Z) (s : sdk) : option (Z * sdk) :=
  if negb (k_init s) then None
  else
    s ← use HND_LOCK s;
    match GetHandleInfo h (k_table s) with
    | Some i =>
        if decide (HType i = HND_DEVICE) then
          if MAX_SOAP_CONTENT_LENGTH <? contentLength then Some (UPNP_E_OUTOF_BOUNDS, s)
          else Some (UPNP_E_SUCCESS, with_max contentLength s)
        else Some (UPNP_E_INVALID_HANDLE, s)
    | None => Some (UPNP_E_INVALID_HANDLE, s)
    end.
Definition UpnpSetMaxContentLength (contentLength : Z) (s : sdk) : Z * sdk :=
  if negb (k_init s) then (UPNP_E_FINISH, s) else (UPNP_E_SUCCESS, with_max contentLength s).

(** No device can be registered. *)
Definition GetDeviceHandleInfo (AddressFamily : Z) : Z * Upnp_Handle_Type := (-1, HND_INVALID).

(** *** Sequences of calls *)

Inductive api_call :=
| CallInit (e : init_env) (HostIP : option (list Z)) (DestPort : Z)
| CallInit2 (e : init_env) (IfName : option (list Z)) (DestPort : Z)
| CallFinish
| CallRegister (malloc_ok : bool) (fn cookie : Z)
| CallUnregister (h : Z)
| CallAddDir (d : option (list Z))
| CallRemoveDir (d : option (list Z))
| CallRemoveAllDirs
| CallSetCallbacks (c : option callbacks)
| CallSetContentLength (h n : Z)
| CallSetMaxContentLength (n : Z).

Definition on_web (s : sdk) (r : Z * web) : option (Z * sdk) := Some (r.1, with_web r.2 s).
Definition api (c : api_call) (s : sdk) : option (Z * sdk) :=
  match c with
  | CallInit e HostIP DestPort => UpnpInit e HostIP DestPort s
  | CallInit2 e IfName DestPort => UpnpInit2 e IfName DestPort s
  | CallFinish => UpnpFinish s
  | CallRegister ok fn cookie => register_client ok fn cookie s
  | CallUnregister h => unregister_client h s
  | CallAddDir d => on_web s (UpnpAddVirtualDir (k_init s) d (k_web s))
  | CallRemoveDir d => on_web s (UpnpRemoveVirtualDir (k_init s) d (k_web s))
  | CallRemoveAllDirs => on_web s (0, UpnpRemoveAllVirtualDirs (k_init s) (k_web s))
  | CallSetCallbacks c => on_web s (UpnpSetVirtualDirCallbacks (k_init s) c (k_web s))
  | CallSetContentLength h n => UpnpSetContentLength h n s
  | CallSetMaxContentLength n => Some (UpnpSetMaxContentLength n s)
  end.
Fixpoint api_calls (l : list api_call) (s : sdk) : option (list Z * sdk) :=
  match l with
  | [] => Some ([], s)
  | c :: l => '(rc, s) ← api c s; '(rcs, s) ← api_calls l s; Some (rc :: rcs, s)
  end.

(** The program before its first call. *)
Definition sdk0 (w : web) (i : interface) : sdk :=
  Sdk false false HandleTable0 false false false false false false false false w [] i 0 0 16000.
End Sdk.
