(* ===== verification/ApiFacts.v ===== *)
(** * The life of the library: facts

    The protocol of [UpnpInit], [UpnpFinish] and the other calls: which calls are safe in
    which state, what a start that fails leaves behind, what the end releases; and which
    interface is chosen. *)

From S2P Require Import Prelude CLib Codes Membuffer Uri Tables HttpParser ThreadPool ClientTable Gena Sock HttpMsg HttpIO Web Server Api.
#[local] Open Scope Z_scope.
Import FixedCopy.

(** ** States between calls *)

(** At most one client, which has handle 1. *)
Definition client_table_ok (s : sdk) : Prop :=
  if k_registered s then exists i, HType i = HND_CLIENT /\ k_table s = <[1%nat := Some i]> HandleTable0
  else k_table s = HandleTable0.
Definition all_down (s : sdk) : Prop := up s = replicate 8 false.
Definition all_up (s : sdk) : Prop := up s = replicate 8 true.
(** Between two calls the library is down or up as a whole. *)
Definition lib_ok (s : sdk) : Prop :=
  client_table_ok s /\ if k_init s then all_up s else all_down s /\ k_registered s = false.

Lemma up_eq s b0 b1 b2 b3 b4 b5 b6 b7 :
  up s = [b0; b1; b2; b3; b4; b5; b6; b7] ->
  k_hnd_lock s = b0 /\ k_uuid_lock s = b1 /\ k_sub_lock s = b2 /\ k_send s = b3 /\ k_recv s = b4 /\ k_mini s = b5
  /\ k_timer s = b6 /\ k_server s = b7.
Proof. unfold up. by intros [= -> -> -> -> -> -> -> ->]. Qed.

Section Facts.
Context `{HM : Malloc, HR : Resolver} (web_server : bool).
Implicit Types (s : sdk).

Lemma no_client : GetClientHandleInfo HandleTable0 = None.
Proof. vm_compute. reflexivity. Qed.
Lemma client_one i : HType i = HND_CLIENT -> client_info 1 (<[1%nat := Some i]> HandleTable0) = Some i.
Proof.
  intros H. unfold client_info. change (GetHandleInfo 1 _) with (Some i). cbn [mbind option_bind]. by rewrite decide_True.
Qed.
Lemma one_client i : HType i = HND_CLIENT -> GetClientHandleInfo (<[1%nat := Some i]> HandleTable0) = Some (1, i).
Proof. intros H. unfold GetClientHandleInfo. by rewrite client_one. Qed.
Lemma client_only h i i' : client_info h (<[1%nat := Some i]> HandleTable0) = Some i' -> h = 1.
Proof.
  unfold client_info, GetHandleInfo, NUM_HANDLE. case_match eqn:E; [done|]. apply orb_false_elim in E as [E1%Z.ltb_ge E2%Z.leb_gt].
  destruct (decide (h = 1)); [done|]. unfold handle_at. rewrite list_lookup_insert_ne by lia.
  unfold HandleTable0, NUM_HANDLE. by rewrite lookup_replicate_2 by lia.
Qed.
Lemma free_client i : (FreeHandle 1 (<[1%nat := Some i]> HandleTable0)).2 = HandleTable0.
Proof. vm_compute. reflexivity. Qed.

(** A library that runs, and one that does not. *)
Lemma lib_running s : lib_ok s -> k_init s = true -> exists reg t w name i p4 p6 n,
  s = Sdk true reg t true true true true true true true true w name i p4 p6 n /\ client_table_ok s.
Proof.
  intros [Ht Hu] Ei. rewrite Ei in Hu. apply up_eq in Hu as (? & ? & ? & ? & ? & ? & ? & ?).
  destruct s. cbn in *. subst. by eexists _, _, _, _, _, _, _, _.
Qed.
Lemma lib_idle s : lib_ok s -> k_init s = false -> exists w name i p4 p6 n,
  s = Sdk false false HandleTable0 false false false false false false false false w name i p4 p6 n.
Proof.
  intros [Ht Hu] Ei. rewrite Ei in Hu. destruct Hu as [Hu Hr]. unfold client_table_ok in Ht. rewrite Hr in Ht.
  apply up_eq in Hu as (? & ? & ? & ? & ? & ? & ? & ?). destruct s. cbn in *. subst. by eexists _, _, _, _, _, _.
Qed.

(** The table stays folded. *)
#[local] Opaque HandleTable0 FreeHandle client_info GetClientHandleInfo.

Lemma unregister_client_ok h s : lib_ok s -> exists rc s', unregister_client h s = Some (rc, s') /\ lib_ok s' /\ k_init s' = k_init s.
Proof.
  intros Hok. destruct (k_init s) eqn:Ei.
  - destruct (lib_running s Hok Ei) as (reg & t & w & name & i & p4 & p6 & n & -> & Ht). unfold unregister_client. cbn.
    destruct reg; cbn; [|by eexists _, _]. destruct (client_info h t) eqn:Ec; [|by eexists _, _].
    destruct Ht as (i0 & Hi & Hk). cbn in Hk. subst t. apply client_only in Ec as ->. rewrite free_client.
    by eexists _, _.
  - unfold unregister_client. rewrite Ei. by eexists _, _.
Qed.

(** [UpnpFinish] of a library that runs: [t0] is the table at the end. *)
Definition finished (t0 : handle_table) (s : sdk) : sdk :=
  Sdk false false t0 false false false false false false false false
      (UpnpRemoveAllVirtualDirs true (if web_server then web_server_destroy (k_web s) else k_web s))
      (k_name s) (k_if s) (LOCAL_PORT_V4 s) (LOCAL_PORT_V6 s) (g_maxContentLength s).
Lemma finish_no_client t server w name i p4 p6 n :
  GetClientHandleInfo t = None ->
  let s := Sdk true false t true true true true true true true server w name i p4 p6 n in
  UpnpFinish web_server s = Some (UPNP_E_SUCCESS, finished t s).
Proof.
  intros Hc s. unfold UpnpFinish. change (k_table s) with t. rewrite Hc. unfold s, finished.
  destruct server, web_server; reflexivity.
Qed.
Lemma finish_client t t0 j w name i p4 p6 n :
  GetClientHandleInfo t = Some (1, j) -> client_info 1 t = Some j -> (FreeHandle 1 t).2 = t0 ->
  let s := Sdk true true t true true true true true true true true w name i p4 p6 n in
  UpnpFinish web_server s = Some (UPNP_E_SUCCESS, finished t0 s).
Proof.
  intros Hc Hi <- s. unfold UpnpFinish. change (k_table s) with t. rewrite Hc. unfold unregister_client, s, finished.
  change (k_table (Sdk _ _ _ _ _ _ _ _ _ _ _ _ _ _ _ _ _)) with t. cbn. rewrite Hi. destruct web_server; reflexivity.
Qed.
Lemma finished_ok s : lib_ok (finished HandleTable0 s).
Proof. by repeat split. Qed.
Lemma finish_ok s : lib_ok s -> k_init s = true ->
  UpnpFinish web_server s = Some (UPNP_E_SUCCESS, finished HandleTable0 s).
Proof.
  intros Hok Ei. destruct (lib_running s Hok Ei) as (reg & t & w & name & i & p4 & p6 & n & -> & Ht).
  unfold client_table_ok in Ht. cbn in Ht. destruct reg.
  - destruct Ht as (i0 & Hi & ->). eapply finish_client; [by apply one_client|by apply client_one|apply free_client].
  - subst t. apply finish_no_client, no_client.
Qed.

(** ** The start *)

(** What a start leaves up, by the first step that fails: nothing, the locks, also the
    sender, the receiver, the server's pool, also the timer; an error of the servers is
    followed by the end of the library. *)
Definition locks_up (e : init_env) : nat :=
  if negb (ie_hnd e) then 0 else if negb (ie_uuid e) then 1 else if negb (ie_sub e) then 2 else 3.
Definition pools_up (e : init_env) : nat :=
  if negb (ie_send e =? 0) then 3 else if negb (ie_recv e =? 0) then 4 else if negb (ie_mini e =? 0) then 5 else 6.
Definition prepared (e : init_env) : nat :=
  if negb (ie_log e =? 0) then 0
  else if (locks_up e <? 3)%nat then locks_up e
  else if (pools_up e <? 6)%nat then pools_up e
  else if negb (ie_timer e =? 0) then 6 else 7.
Definition servers_up (e : init_env) : nat := if (ie_server e =? 0) && negb web_server then 8 else 0.
Definition components (e : init_env) (host_rc : Z) : nat :=
  if (prepared e <? 7)%nat then prepared e else if host_rc =? 0 then servers_up e else 7.
(** The first [n] components are up. *)
Definition first_up (n : nat) (s : sdk) : sdk :=
  with_up (fun _ => replicate n true ++ replicate (8 - n) false) s.

Definition idle (w : web) (name : list Z) (i : interface) (p4 p6 n : Z) : sdk :=
  Sdk false false HandleTable0 false false false false false false false false w name i p4 p6 n.

(** The start seen as a counter. *)
Lemma first_up_0 w name i p4 p6 n : first_up 0 (idle w name i p4 p6 n) = idle w name i p4 p6 n.
Proof. reflexivity. Qed.
Lemma is_up_first c n s : (n <= 8)%nat -> (c < 8)%nat -> is_up c (first_up n s) = (c <? n)%nat.
Proof. intros Hn Hc. do 9 (destruct n as [|n]; [do 8 (destruct c as [|c]; [reflexivity|]); lia|]). lia. Qed.
Lemma use_first c n s : (c < n <= 8)%nat -> use c (first_up n s) = Some (first_up n s).
Proof. intros H. unfold use. rewrite is_up_first by lia. by rewrite (proj2 (Nat.ltb_lt c n)) by lia. Qed.
Lemma bring_up_first n ok s : (n < 8)%nat -> bring_up n ok (first_up n s) = Some (first_up (if ok then S n else n) s).
Proof.
  intros Hn. unfold bring_up. rewrite is_up_first, Nat.ltb_irrefl by lia. destruct ok; [|done]. f_equal.
  unfold first_up. destruct s. do 8 (destruct n as [|n]; [reflexivity|]). lia.
Qed.
Lemma first_up_init n s : k_init (first_up n s) = k_init s.
Proof. done. Qed.
Lemma first_up_table reg t n s : with_table reg t (first_up n s) = first_up n (with_table reg t s).
Proof. done. Qed.
#[local] Opaque first_up.

Lemma pools_failed_first n s : k_init s = false -> pools_failed web_server (first_up n s) = Some (UPNP_E_INIT_FAILED, first_up n s).
Proof.
  intros H. unfold pools_failed. replace (with_init false (first_up n s)) with (first_up n s).
  - unfold UpnpFinish. by rewrite first_up_init, H.
  - destruct s. cbn in H. subst. reflexivity.
Qed.

Lemma mutexes_first e s :
  UpnpInitMutexes e (first_up 0 s)
  = Some (if (locks_up e <? 3)%nat then UPNP_E_INIT_FAILED else UPNP_E_SUCCESS, first_up (locks_up e) s).
Proof.
  unfold UpnpInitMutexes, locks_up. rewrite (bring_up_first 0) by lia. cbn [mbind option_bind].
  destruct (ie_hnd e); cbn [negb]; [|done]. rewrite (bring_up_first 1) by lia. cbn [mbind option_bind].
  destruct (ie_uuid e); cbn [negb]; [|done]. rewrite (bring_up_first 2) by lia. cbn [mbind option_bind].
  by destruct (ie_sub e).
Qed.
Lemma pools_first e s : k_init s = false ->
  UpnpInitThreadPools web_server e (first_up 3 s)
  = Some (if (pools_up e <? 6)%nat then UPNP_E_INIT_FAILED else UPNP_E_SUCCESS, first_up (pools_up e) s).
Proof.
  intros Hs. unfold UpnpInitThreadPools, pools_up, UPNP_E_SUCCESS. rewrite (bring_up_first 3) by lia. cbn [mbind option_bind].
  destruct (ie_send e =? 0); cbn [negb]; [|by rewrite pools_failed_first].
  rewrite (bring_up_first 4) by lia. cbn [mbind option_bind].
  destruct (ie_recv e =? 0); cbn [negb]; [|by rewrite pools_failed_first].
  rewrite (bring_up_first 5) by lia. cbn [mbind option_bind].
  destruct (ie_mini e =? 0); cbn [negb]; [|rewrite pools_failed_first by done]; done.
Qed.
Lemma locks_up_3 e : (locks_up e <? 3)%nat = false -> locks_up e = 3%nat.
Proof. unfold locks_up. by repeat case_match. Qed.
Lemma pools_up_6 e : (pools_up e <? 6)%nat = false -> pools_up e = 6%nat.
Proof. unfold pools_up. by repeat case_match. Qed.
Lemma prepared_le e : (prepared e <= 7)%nat.
Proof. unfold prepared, locks_up, pools_up. repeat case_match; lia. Qed.

Lemma preamble_outcome e s : k_init s = false -> k_table s = HandleTable0 -> exists rc,
  UpnpInitPreamble web_server e (first_up 0 s) = Some (rc, first_up (prepared e) s) /\ (rc = UPNP_E_SUCCESS <-> prepared e = 7%nat).
Proof.
  intros Hi Ht. unfold UpnpInitPreamble, prepared. change (WinsockInit =? UPNP_E_SUCCESS) with true. cbn [negb].
  change UPNP_E_SUCCESS with 0. destruct (ie_log e =? 0); cbn [negb]; [|by eexists].
  rewrite mutexes_first. cbn [mbind option_bind].
  destruct (locks_up e <? 3)%nat eqn:El.
  { change (UPNP_E_INIT_FAILED =? 0) with false. cbn [negb]. eexists. split; [reflexivity|]. split; [done|].
    apply Nat.ltb_lt in El. lia. }
  apply locks_up_3 in El as ->. change (UPNP_E_SUCCESS =? 0) with true. cbn [negb].
  rewrite (use_first HND_LOCK) by (unfold HND_LOCK; lia). cbn [mbind option_bind].
  rewrite first_up_table. replace (with_table (k_registered (first_up 3 s)) HandleTable0 s) with s
    by (destruct s; cbn in Ht; by subst).
  rewrite pools_first by done. cbn [mbind option_bind].
  destruct (pools_up e <? 6)%nat eqn:Ep.
  { change (UPNP_E_INIT_FAILED =? 0) with false. cbn [negb]. eexists. split; [reflexivity|]. split; [done|].
    apply Nat.ltb_lt in Ep. lia. }
  apply pools_up_6 in Ep as ->. change (UPNP_E_SUCCESS =? 0) with true. cbn [negb].
  rewrite (use_first SEND_POOL) by (unfold SEND_POOL; lia). cbn [mbind option_bind].
  rewrite (bring_up_first 6) by lia. cbn [mbind option_bind].
  destruct (ie_timer e =? 0) eqn:E; cbn [negb]; [by eexists|].
  unfold UpnpFinish. rewrite first_up_init, Hi. cbn [negb mbind option_bind]. eexists. split; [reflexivity|].
  apply Z.eqb_neq in E. by split.
Qed.

(** Choosing the interface only changes what is recorded of it. *)
Definition host_frame (host : sdk -> Z * sdk) : Prop :=
  forall s, exists name i, (host s).2 = with_if name i s.
Lemma host_ip_frame e h : host_frame (host_ip e h).
Proof. intros s. unfold host_ip. destruct h; [by eexists _, _|]. destruct (getlocalhostname _ _). by eexists _, _. Qed.
Lemma host_if_frame e h : host_frame (host_if e h).
Proof. intros s. unfold host_if. destruct (UpnpGetIfInfo _ _ _ _) as [[rc name] i]. by eexists _, _. Qed.

Lemma first_up_7 w name i p4 p6 n : first_up 7 (idle w name i p4 p6 n)
  = Sdk false false HandleTable0 true true true true true true true false w name i p4 p6 n.
Proof. reflexivity. Qed.

Definition started (m : nat) (s : sdk) : Prop :=
  up s = replicate m true ++ replicate (8 - m) false /\ k_init s = (m =? 8)%nat
  /\ k_registered s = false /\ k_table s = HandleTable0.
Lemma started_first m s : (m <= 7)%nat -> k_init s = false -> k_registered s = false -> k_table s = HandleTable0 ->
  started m (first_up m s).
Proof.
  intros Hm Hi Hr Ht. split; [|split; [|done]].
  - do 8 (destruct m as [|m]; [reflexivity|]). lia.
  - rewrite first_up_init, Hi. symmetry. apply Nat.eqb_neq. lia.
Qed.
Lemma started_finished s : started 0 (with_init false (finished HandleTable0 s)).
Proof. by repeat split. Qed.
Lemma started_idle s : started 0 s -> lib_ok s.
Proof. intros (Hu & Hi & Hr & Ht). unfold lib_ok, client_table_ok, all_down. by rewrite Hi, Hr, Hu. Qed.
Lemma started_running s : started 8 s -> lib_ok s.
Proof. intros (Hu & Hi & Hr & Ht). unfold lib_ok, client_table_ok, all_up. by rewrite Hi, Hr, Hu. Qed.

Lemma finish_servers s : k_init s = true -> k_registered s = false -> k_table s = HandleTable0 ->
  take 7 (up s) = replicate 7 true -> UpnpFinish web_server s = Some (UPNP_E_SUCCESS, finished HandleTable0 s).
Proof.
  intros Hi Hr Ht Hu. destruct s. cbn in Hi, Hr, Ht. subst. injection Hu as -> -> -> -> -> -> ->.
  apply finish_no_client, no_client.
Qed.

(** The servers, after the preamble and the choice of the interface. *)
Lemma servers_outcome e port w name i p4 p6 n : exists rc s',
  UpnpInitStartServers web_server e port (Sdk true false HandleTable0 true true true true true true true false w name i p4 p6 n)
  = Some (rc, s')
  /\ started (servers_up e) (if negb (rc =? UPNP_E_SUCCESS) then with_init false s' else s')
  /\ (rc = UPNP_E_SUCCESS <-> servers_up e = 8%nat).
Proof.
  unfold UpnpInitStartServers, servers_up. unfold with_ports. cbn -[UpnpEnableWebserver UpnpFinish].
  destruct (ie_server e =? 0) eqn:E; change (ie_server e =? UPNP_E_SUCCESS) with (ie_server e =? 0); rewrite ?E;
    cbn -[UpnpEnableWebserver UpnpFinish].
  - rewrite finish_servers by done. cbn [mbind option_bind].
    destruct web_server; [|by eexists _, _]. eexists _, _. split; [reflexivity|]. split; [apply started_finished|done].
  - rewrite finish_servers by done. cbn [mbind option_bind]. eexists _, _. split; [reflexivity|].
    apply Z.eqb_neq in E. split; [|done]. unfold UPNP_E_SUCCESS. rewrite (proj2 (Z.eqb_neq _ _) E). apply started_finished.
Qed.

Lemma init_with_outcome host e port s : host_frame host -> lib_ok s -> k_init s = false -> exists rc s',
  init_with web_server host e port s = Some (rc, s')
  /\ started (components e (host (first_up 7 s)).1) s'
  /\ (rc = UPNP_E_SUCCESS <-> k_init s' = true).
Proof.
  intros Hh Hok Hi. destruct (lib_idle s Hok Hi) as (w & name & i & p4 & p6 & n & ->). fold (idle w name i p4 p6 n).
  set (s := idle w name i p4 p6 n) in *. unfold init_with. change (k_init s) with false. cbn iota.
  replace (UpnpInitPreamble web_server e s) with (UpnpInitPreamble web_server e (first_up 0 s)) by (f_equal; apply first_up_0).
  destruct (preamble_outcome e s) as (rc & -> & Hrc); [done..|]. cbn [mbind option_bind]. unfold components.
  pose proof (prepared_le e) as Hp. destruct (Z.eqb_spec rc UPNP_E_SUCCESS) as [E|E]; cbn [negb].
  2:{ assert (Hlt : (prepared e < 7)%nat) by (assert (prepared e <> 7%nat) by tauto; lia).
      rewrite (proj2 (Nat.ltb_lt _ _) Hlt). eexists _, _. split; [reflexivity|]. split; [by apply started_first; [lia|..]|].
      rewrite first_up_init. split; [by intros ?|done]. }
  apply Hrc in E. rewrite E. cbn [Nat.ltb Nat.leb]. destruct (Hh (first_up 7 s)) as (name' & i' & Hs').
  destruct (host (first_up 7 s)) as [hrc s1]. cbn in Hs'. subst s1. cbn [fst]. change UPNP_E_SUCCESS with 0.
  destruct (Z.eqb_spec hrc 0) as [->|Hne]; cbn [negb].
  - unfold s. rewrite first_up_7. cbn [with_if with_init]. unfold with_if, with_init. cbn -[HandleTable0 UpnpInitStartServers].
    destruct (servers_outcome e port w name' i' p4 p6 n) as (rc' & s' & -> & Hs & Hrc'). cbn [mbind option_bind].
    eexists _, _. split; [reflexivity|]. split; [exact Hs|]. destruct Hs as (_ & Hk & _).
    change UPNP_E_SUCCESS with 0 in Hk, Hrc'. etrans; [exact Hrc'|]. rewrite <- Nat.eqb_eq, <- Hk. reflexivity.
  - eexists _, _. split; [reflexivity|]. split; [|done]. unfold s. rewrite first_up_7.
    by repeat split.
Qed.

(** A start leaves nothing half done. *)
Definition clean (e : init_env) (host_rc : Z) : bool :=
  let m := components e host_rc in (m =? 0)%nat || (m =? 8)%nat.

Lemma start_ok host e port s : host_frame host -> lib_ok s ->
  k_init s || clean e (host (first_up 7 s)).1 = true ->
  exists rc s', init_with web_server host e port s = Some (rc, s') /\ lib_ok s'.
Proof.
  intros Hh Hok Hc. destruct (k_init s) eqn:Hi.
  - unfold init_with. rewrite Hi. by eexists _, _.
  - destruct (init_with_outcome host e port s Hh Hok Hi) as (rc & s' & -> & Hs & _). eexists _, _. split; [reflexivity|].
    unfold clean in Hc. cbn [orb] in Hc. apply orb_true_iff in Hc as [E%Nat.eqb_eq|E%Nat.eqb_eq]; rewrite E in Hs.
    + by apply started_idle.
    + by apply started_running.
Qed.

(** ** The protocol *)

(** What a program may call: anything, but a start that would end half done only when
    the library runs already, and [UpnpSetContentLength] only when it runs. *)
Definition api_allowed (c : api_call) (s : sdk) : bool :=
  match c with
  | CallInit e HostIP DestPort => k_init s || clean e (host_ip e HostIP (first_up 7 s)).1
  | CallInit2 e IfName DestPort => k_init s || clean e (host_if e IfName (first_up 7 s)).1
  | CallSetContentLength h n => k_init s
  | _ => true
  end.

Inductive api_reach : sdk -> Prop :=
| api_start w i : api_reach (sdk0 w i)
| api_step s c rc s' : api_reach s -> api_allowed c s = true -> api web_server c s = Some (rc, s') -> api_reach s'.

Lemma lib_ok_web w s : lib_ok s -> lib_ok (with_web w s).
Proof. done. Qed.
Lemma lib_ok_max n s : lib_ok s -> lib_ok (with_max n s).
Proof. done. Qed.
Lemma use_running s : lib_ok s -> k_init s = true -> use HND_LOCK s = Some s.
Proof. intros Hok Hi. destruct (lib_running s Hok Hi) as (? & ? & ? & ? & ? & ? & ? & ? & -> & _). reflexivity. Qed.

Lemma register_client_ok m fn cookie s : lib_ok s -> exists rc s', register_client m fn cookie s = Some (rc, s') /\ lib_ok s'.
Proof.
  intros Hok. unfold register_client. destruct (k_init s) eqn:Hi; cbn [negb]; [|by eexists _, _].
  destruct (fn =? 0); [by eexists _, _|]. rewrite use_running by done. cbn [mbind option_bind].
  destruct (k_registered s) eqn:Hr; [by eexists _, _|]. destruct Hok as [Ht Hu]. unfold client_table_ok in Ht. rewrite Hr in Ht.
  rewrite Ht. replace (GetFreeHandle HandleTable0) with 1 by (vm_compute; reflexivity).
  change (1 =? UPNP_E_OUTOF_HANDLE) with false. cbn iota. rewrite Hi in Hu.
  destruct m; cbn [negb]; eexists _, _; (split; [reflexivity|]).
  - split; [by exists (HInfo HND_CLIENT fn cookie 0)|]. cbn [k_init with_table]. rewrite Hi. exact Hu.
  - split; [unfold client_table_ok; by rewrite Hr|by rewrite Hi].
Qed.

Lemma api_ok c s : lib_ok s -> api_allowed c s = true -> exists rc s', api web_server c s = Some (rc, s') /\ lib_ok s'.
Proof.
  intros Hok Ha. destruct c; cbn [api api_allowed] in *.
  - eapply start_ok; [apply host_ip_frame|done..].
  - eapply start_ok; [apply host_if_frame|done..].
  - destruct (k_init s) eqn:Hi.
    + rewrite finish_ok by done. eexists _, _. split; [reflexivity|apply finished_ok].
    + unfold UpnpFinish. rewrite Hi. by eexists _, _.
  - by apply register_client_ok.
  - destruct (unregister_client_ok h s Hok) as (rc & s' & -> & ? & _). by eexists _, _.
  - eexists _, _. split; [reflexivity|by apply lib_ok_web].
  - eexists _, _. split; [reflexivity|by apply lib_ok_web].
  - eexists _, _. split; [reflexivity|by apply lib_ok_web].
  - eexists _, _. split; [reflexivity|by apply lib_ok_web].
  - unfold UpnpSetContentLength. rewrite Ha. cbn [negb]. rewrite use_running by done. cbn [mbind option_bind].
    repeat case_match; eexists _, _; (split; [reflexivity|done]).
  - unfold UpnpSetMaxContentLength. destruct (k_init s); by eexists _, _.
Qed.

Lemma api_reach_ok s : api_reach s -> lib_ok s.
Proof.
  induction 1 as [w i|s c rc s' _ IH Ha E]; [by repeat split|].
  destruct (api_ok c s IH Ha) as (rc' & s'' & E' & Hok). by rewrite E' in E; injection E as -> ->.
Qed.


Lemma half_up_down m s : (1 <= m <= 7)%nat -> started m s -> forall host e port, ie_log e = 0 ->
  UpnpFinish web_server s = Some (UPNP_E_FINISH, s) /\ init_with web_server host e port s = None.
Proof.
  intros Hm (Hu & Hi & _) host e port Hl. assert (Hk : k_init s = false) by (rewrite Hi; apply Nat.eqb_neq; lia). split.
  - unfold UpnpFinish. by rewrite Hk.
  - unfold init_with, UpnpInitPreamble. rewrite Hk, Hl. cbn. unfold UpnpInitMutexes, bring_up, is_up. rewrite Hu.
    destruct m as [|m]; [lia|]. reflexivity.
Qed.

End Facts.

(** ** The interface *)

(** Entries that the search does not skip, and among them those it can take. *)
Definition suitable (r : ifreq) : bool :=
  match ifr_flags r with Some f => negb (IFF_LOOPBACK f) && IFF_UP f && IFF_MULTICAST f | None => false end.
Definition usable (r : ifreq) : bool := suitable r && (ifr_family r =? AF_INET).
Definition named (name : list Z) (r : ifreq) : bool := strncmp name (ifr_name r) LINE_SIZE =? 0.
Fixpoint first_such {A} (p : A -> bool) (l : list A) : option A :=
  match l with [] => None | x :: l => if p x then Some x else first_such p l end.

Lemma suitable_flags r f0 : is_Some (ifr_flags r) ->
  let f := default f0 (ifr_flags r) in IFF_LOOPBACK f || negb (IFF_UP f) || negb (IFF_MULTICAST f) = negb (suitable r).
Proof. intros [f Hf]. unfold suitable. rewrite Hf. cbn. by destruct (IFF_LOOPBACK f), (IFF_UP f), (IFF_MULTICAST f). Qed.

Lemma if_loop_any ifs flags name : Forall (fun r => is_Some (ifr_flags r)) ifs ->
  match first_such usable ifs with
  | Some r => if_loop ifs flags false name = (true, copied LINE_SIZE (ifr_name r), Some (ifr_addr r))
  | None => (if_loop ifs flags false name).2 = None
  end.
Proof.
  intros H. revert flags name. induction H as [|r ifs Hr _ IH]; intros flags name; [done|].
  cbn [first_such if_loop]. rewrite suitable_flags by done. unfold usable at 1. destruct (suitable r); cbn [negb andb]; [|apply IH].
  destruct (ifr_family r =? AF_INET); [done|apply IH].
Qed.
Lemma if_loop_named ifs flags name : Forall (fun r => is_Some (ifr_flags r)) ifs ->
  Forall (fun r => suitable r = true -> named name r = true -> ifr_family r = AF_INET) ifs ->
  match first_such (fun r => usable r && named name r) ifs with
  | Some r => if_loop ifs flags true name = (true, copied LINE_SIZE (ifr_name r), Some (ifr_addr r))
  | None => (if_loop ifs flags true name).2 = None
  end.
Proof.
  intros H H4. revert flags. induction H as [|r ifs Hr _ IH]; intros flags; [done|].
  apply Forall_cons in H4 as [H4 Hall]. cbn [first_such if_loop]. rewrite suitable_flags by done. unfold usable at 1.
  destruct (suitable r); cbn [negb andb]; [|by apply IH]. unfold named at 1 in H4. fold (named name r) in *.
  destruct (named name r); cbn [negb]; [|rewrite andb_false_r; by apply IH]. by rewrite (proj2 (Z.eqb_eq _ _) (H4 eq_refl eq_refl)).
Qed.

Section Interface.
Context `{Resolver}.

(** [UpnpGetIfInfo] takes the first entry of the system that is up, multicast, not a
    loopback and IPv4, among those with the name that is asked for, if one is, and fails
    exactly when there is none; provided no entry of that name has another family (then
    it would go on with any name). *)
Theorem if_info_first e IfName name i ifs :
  if_socket e = true -> if_conf e = Some ifs -> Forall (fun r => is_Some (ifr_flags r)) ifs ->
  (forall n, IfName = Some n -> strlen n <= LINE_SIZE
     /\ Forall (fun r => suitable r = true -> named (copied LINE_SIZE n) r = true -> ifr_family r = AF_INET) ifs) ->
  let wanted r := usable r && match IfName with Some n => named (copied LINE_SIZE n) r | None => true end in
  match first_such wanted ifs, UpnpGetIfInfo e IfName name i with
  | Some r, (rc, name', i') =>
      rc = UPNP_E_SUCCESS /\ name' = copied LINE_SIZE (ifr_name r) /\ gIF_IPV4 i' = inet_ntop4 (ifr_addr r)
      /\ gIF_INDEX i' = if_nametoindex e name' /\ ipv6 i' = ipv6 i
  | None, (rc, _, i') => rc = UPNP_E_INVALID_INTERFACE /\ i' = i
  end.
Proof.
  intros Hs Hc Hf Hn wanted. unfold UpnpGetIfInfo. rewrite Hs, Hc. cbn [negb].
  assert (Hl : forall l, match first_such wanted ifs with
    | Some r => if_loop ifs (if_stale e) (match IfName with Some _ => true | None => false end)
                  (match IfName with Some n => copied LINE_SIZE n | None => l end)
                = (true, copied LINE_SIZE (ifr_name r), Some (ifr_addr r))
    | None => (if_loop ifs (if_stale e) (match IfName with Some _ => true | None => false end)
                  (match IfName with Some n => copied LINE_SIZE n | None => l end)).2 = None end).
  { intros l. destruct IfName as [n|]; [apply if_loop_named; [done|by apply Hn]|].
    replace (first_such wanted ifs) with (first_such usable ifs); [by apply if_loop_any|].
    unfold wanted. clear. induction ifs as [|r ifs IH]; [done|]. cbn. by rewrite andb_true_r, IH. }
  specialize (Hl name).
  replace (match IfName with Some n => LINE_SIZE <? strlen n | None => false end) with false
    by (destruct IfName as [n|]; [|done]; symmetry; apply Z.ltb_ge; by apply Hn).
  destruct (first_such wanted ifs) as [r|].
  - rewrite Hl. by destruct (match if_inet6 e with Some _ => _ | None => _ end).
  - destruct (if_loop _ _ _ _) as [[f m] a]. cbn in Hl. subst a. done.
Qed.
End Interface.

(** ** Witnesses *)

Definition no_interfaces : if_system := IfSystem true (Some []) (IfFlags false false false) (fun _ => 0) None.
(** All starts succeed; the timer fails. *)
Definition good_env : init_env := InitEnv 0 true true true 0 0 0 0 no_interfaces 0.
Definition bad_timer : init_env := InitEnv 0 true true true 0 0 0 UPNP_E_OUTOF_MEMORY no_interfaces 0.
Definition idle_web : web := Web false [] membuffer0 [] no_callbacks.
Definition idle_if : interface := Interface false (zrep 16 0) (zrep 46 0) (zrep 46 0) 0.
#[local] Existing Instance malloc_always.
#[local] Existing Instance resolver_two.

Notation after_bad := (UpnpInit false bad_timer (Some (zs "10.0.0.7" ++ [0])) 0 (sdk0 idle_web idle_if)).



(** A start after one that failed half way is not defined. *)
Example second_start :
  match after_bad with
  | Some (rc, s) => rc = UPNP_E_OUTOF_MEMORY /\ k_init s = false /\ UpnpInit false good_env (Some (zs "10.0.0.7" ++ [0])) 0 s = None
  | None => False
  end.
Proof. vm_compute. repeat split. Qed.
(** With the web server in the build no start succeeds. *)
Example web_server_start :
  match UpnpInit true good_env (Some (zs "10.0.0.7" ++ [0])) 0 (sdk0 idle_web idle_if) with
  | Some (rc, s) => rc = UPNP_E_INVALID_PARAM /\ up s = replicate 8 false
  | None => False
  end.
Proof. vm_compute. split; reflexivity. Qed.

(** A loopback, an interface with IPv6 only and one with IPv4. *)
Definition some_interfaces : list ifreq :=
  let flags l := Some (IfFlags l true true) in
  [IfReq (zs "lo") AF_INET [127; 0; 0; 1] (flags true); IfReq (zs "tun0") AF_INET6 [0; 0; 0; 0] (flags false);
   IfReq (zs "eth0") AF_INET [192; 168; 1; 7] (flags false)].
Definition some_system : if_system :=
  IfSystem true (Some some_interfaces) (IfFlags false false false) (fun n => if bool_decide (n = zs "eth0") then 2 else 0)
           (Some [Inet6 [zs "fe80"; zs "0000"; zs "0000"; zs "0000"; zs "0000"; zs "0000"; zs "0000"; zs "0001"] 2]).
Lemma if_info_first_witness :
  if_socket some_system = true
  /\ match UpnpGetIfInfo some_system (Some (zs "eth0" ++ [0])) [] idle_if with
     | (rc, name', i') => rc = UPNP_E_SUCCESS /\ name' = zs "eth0" /\ gIF_IPV4 i' = inet_ntop4 [192; 168; 1; 7]
                          /\ gIF_INDEX i' = if_nametoindex some_system name' /\ ipv6 i' = false
     end.
Proof.
  split; [reflexivity|].
  apply (if_info_first some_system (Some (zs "eth0" ++ [0])) [] idle_if some_interfaces); [reflexivity..| |].
  - repeat (apply Forall_cons_2; [by eexists|]). apply Forall_nil_2.
  - intros n [= <-]. split; [vm_compute; discriminate|].
    repeat (apply Forall_cons_2; [vm_compute; try done; intros; discriminate|]). apply Forall_nil_2.
Defined.
(** Asked for an interface that has no IPv4 address, the search takes another one. *)
Example other_interface :
  match UpnpGetIfInfo some_system (Some (zs "tun0" ++ [0])) [] idle_if with
  | (rc, name, _) => rc = UPNP_E_SUCCESS /\ name = zs "eth0"
  end.
Proof. vm_compute. split; reflexivity. Qed.
