(* ===== verification/Soap.v ===== *)
(** * Control: actions sent to a device

    [upnp/src/soap/soap_ctrlpt.c] with the header of [soap_common.c]: the request of an
    action, its repetition as an extended request ([M-POST]) when the device does not
    allow [POST], and the result; the asynchronous call and its job in [upnpapi.c]
    ([UpnpSendActionAsync], the case [ACTION] of [UpnpThreadDistribution]); the calls of
    the client interface that hand over to [HttpIO]. *)

From S2P Require Import Prelude CLib Codes Membuffer Uri Tables Scanner HttpParser Sock HttpMsg HttpIO ClientTable Gena.
#[local] Open Scope Z_scope.

Definition ContentTypeHeader : list Z := zs "CONTENT-TYPE: application/json" ++ crlf.
Definition HTTP_METHOD_NOT_ALLOWED : Z := 405.
Definition UPNP_TIMEOUT_SECS : Z := 30.
Definition man_hdr : list Z :=
  zs "MAN: " ++ [DQUOTE] ++ zs "http://schemas.xmlsoap.org/soap/envelope/" ++ [DQUOTE] ++ zs "; ns=01"
  ++ crlf ++ zs "01-".

Section Soap.
Context `{Malloc, Resolver}.
Variable limit : Z.   (* g_maxContentLength *)
Variable env : http_env.

(** Adds the [MAN] field; [None]: the assertion fails. *)
Definition add_man_header (headers : membuffer) : option (Z * membuffer) :=
  (* change POST to M-POST *)
  let '(rc, headers) := membuffer_insert headers (Some (zs "M-")) 2 0 in
  if negb (rc =? 0) then Some (UPNP_E_OUTOF_MEMORY, headers)
  else
    n ← strstr (mb_block headers) (zs "SOAPACTION:");
    (* insert MAN header *)
    let '(rc, headers) := membuffer_insert headers (Some man_hdr) (strlen man_hdr) n in
    Some (if negb (rc =? 0) then UPNP_E_OUTOF_MEMORY else 0, headers).

(** The two exchanges have connections of their own. *)
Definition soap_request_and_response (request : membuffer) (c1 c2 : peer)
  : option (Z * membuffer * http_parser_t) :=
  let destroyed := fun p => with_msg p httpmsg_destroy in
  '(ret_code, response) ← http_RequestAndResponse limit (mb_block request) (mb_length request) SOAPMETHOD_POST UPNP_TIMEOUT_SECS c1;
  if negb (ret_code =? 0) then Some (ret_code, request, destroyed response)
  else if status_code (pmsg response) =? HTTP_METHOD_NOT_ALLOWED then
    (* method-not-allowed error: change to M-POST msg *)
    '(ret_code, request) ← add_man_header request;
    if negb (ret_code =? 0) then Some (ret_code, request, response)
    else
      (* try again *)
      '(ret_code, response) ← http_RequestAndResponse limit (mb_block request) (mb_length request) HTTPMETHOD_MPOST UPNP_TIMEOUT_SECS c2;
      Some (ret_code, request, if negb (ret_code =? 0) then destroyed response else response)
  else Some (ret_code, request, response).

(** The request of an action: the body is the service type the application gives. *)
Definition soap_message (action_url service_type : list Z) (url : fixed_url) : option (Z * membuffer) :=
  let m := buffer0 in
  let request := Membuffer (mb_buf m) (mb_length m) (mb_capacity m) 50 in
  let request_body_len := strlen service_type in
  http_MakeMessage env request 1 1 (zs "qNsscsscUcb")
    [VaInt SOAPMETHOD_POST; VaUri (cstr action_url) 1 (fx_uri url);
     VaOff request_body_len;
     VaText ContentTypeHeader;
     VaText (zs "SOAPACTION:");
     VaText (zs "UID: "); VaText (zs "yyccbb12345");
     VaText service_type; VaSize request_body_len].

Definition SoapSendAction (action_url service_type : list Z) (c1 c2 : peer) : option Z :=
  (* parse url *)
  let '(rc, url) := http_FixStrUrl (cstr action_url) (strlen action_url) in
  if negb (rc =? 0) then Some UPNP_E_INVALID_URL
  else
    (* make request msg *)
    '(rc, request) ← soap_message action_url service_type url;
    if negb (rc =? 0) then Some UPNP_E_OUTOF_MEMORY
    else
      '(ret_code, _, _) ← soap_request_and_response request c1 c2;
      Some (if negb (ret_code =? UPNP_E_SUCCESS) then ret_code else UPNP_E_SUCCESS).

(** ** The asynchronous call *)

(** What the job gets ([struct UpnpNonblockParam]). *)
Record action_param := ActionParam {
  ap_Handle : Z;
  ap_Url : list Z;
  ap_ServiceType : list Z;
  ap_Cookie : Z;
  ap_Fun : Z
}.

(** The result, and the job when the pool takes it ([add_rc]: the result of
    [ThreadPoolAdd]). *)
Definition UpnpSendActionAsync (init : bool) (t : handle_table) (Hnd : Z) (ActionURL ServiceType DevUDN : option (list Z))
    (Fun Cookie : Z) (malloc_ok : bool) (add_rc : Z) : Z * option action_param :=
  if negb init then (UPNP_E_FINISH, None)
  else match client_info Hnd t with
  | None => (UPNP_E_INVALID_HANDLE, None)
  | Some _ =>
      match ActionURL with
      | None => (UPNP_E_INVALID_PARAM, None)
      | Some ActionURL =>
          match ServiceType, DevUDN with
          | Some ServiceType, None =>
              if Fun =? 0 then (UPNP_E_INVALID_PARAM, None)
              else if negb malloc_ok then (UPNP_E_OUTOF_MEMORY, None)
              else
                let Param := ActionParam Hnd (ztake (FixedCopy.NAME_SIZE - 1) (cstr ActionURL))
                               (ztake (2 * FixedCopy.NAME_SIZE - 1) (cstr ServiceType)) Cookie Fun in
                (UPNP_E_SUCCESS, if negb (add_rc =? 0) then None else Some Param)
          | _, _ => (UPNP_E_INVALID_PARAM, None)
          end
      end
  end.

(** The job: the result of the action is dropped; the callback gets its cookie and no
    event. *)
Definition action_job (p : action_param) (c1 c2 : peer) : option (Z * Z) :=
  _ ← SoapSendAction (ap_Url p) (ap_ServiceType p) c1 c2;
  Some (ap_Fun p, ap_Cookie p).

(** ** The client interface *)

Definition UpnpOpenHttpPost := http_OpenHttpPost env.
Definition UpnpWriteHttpPost := http_WriteHttpPost.
Definition UpnpCloseHttpPost := http_CloseHttpPost.
Definition UpnpOpenHttpGet := http_OpenHttpGet env.
Definition UpnpOpenHttpGetProxy := http_OpenHttpGetProxy env.
Definition UpnpOpenHttpGetEx := http_OpenHttpGetEx env.
Definition UpnpCancelHttpGet := http_CancelHttpGet.
Definition UpnpCloseHttpGet := http_CloseHttpGet.
Definition UpnpReadHttpGet := http_ReadHttpGet.
Definition UpnpHttpGetProgress := http_HttpGetProgress.

(** [out_ok]: the other pointers are not null. *)
Definition UpnpDownloadUrlItem (url : option (list Z)) (out_ok : bool) (c : peer) : option (Z * option download) :=
  match url with
  | Some url =>
      if negb out_ok then Some (UPNP_E_INVALID_PARAM, None)
      else
        d ← http_Download limit env url HTTP_DEFAULT_TIMEOUT c;
        Some (if 0 <? dl_ret d then UPNP_E_INVALID_URL else dl_ret d, Some d)
  | None => Some (UPNP_E_INVALID_PARAM, None)
  end.
End Soap.
