(* ===== verification/SoapFacts.v ===== *)
(** * Control: facts

    The bytes of an action's request and of its repetition, what [SoapSendAction]
    returns, and what of the application's texts reaches the job of the asynchronous
    call. *)

From S2P Require Import Prelude CLib Codes Membuffer Uri Tables Scanner HttpParser HttpFacts Sock HttpMsg HttpMsgFacts HttpIO HttpIOFacts Web WebFacts ClientTable Gena Soap.
#[local] Open Scope Z_scope.

(** ** First occurrences *)

Definition no_occ (p l : list Z) : Prop := forall k, prefixb p (zdrop k l) = false.

Lemma no_occ_tail p x l : no_occ p (x :: l) -> no_occ p l.
Proof.
  intros H k. destruct (decide (k < 0)) as [Hk|Hk].
  - rewrite zdrop_neg by lia. specialize (H 1). exact H.
  - specialize (H (k + 1)). unfold zdrop in *. by replace (Z.to_nat (k + 1)) with (S (Z.to_nat k)) in H by lia.
Qed.
Lemma no_occ_head p c l : c ∉ l -> no_occ (c :: p) l.
Proof.
  intros Hc k. destruct (prefixb (c :: p) (zdrop k l)) eqn:E; [|done]. apply prefixb_app in E as [r Hr].
  destruct Hc. unfold zdrop in Hr. rewrite <- (take_drop (Z.to_nat k) l), Hr. set_solver.
Qed.
(** Nothing that does not contain the separator starts before it and ends behind it. *)
Lemma find_sub_sep p a x b i : x ∉ p -> no_occ p a -> find_sub p (a ++ x :: b) i = find_sub p b (i + zlen a + 1).
Proof.
  intros Hx. assert (Hcut : forall a, no_occ p a -> prefixb p (a ++ x :: b) = false).
  { intros a' Ha. destruct (prefixb p (a' ++ x :: b)) eqn:E; [|done]. exfalso. apply prefixb_app in E as [r Hr].
    destruct (decide (length p <= length a')%nat) as [Hl|Hl].
    - specialize (Ha 0). cut (prefixb p a' = true); [by rewrite zdrop_neg in Ha by lia; rewrite Ha|].
      apply prefixb_app. exists (drop (length p) a'). rewrite <- (take_drop (length p) a') at 1. f_equal.
      assert (Ht : take (length p) (a' ++ x :: b) = p) by (rewrite Hr; by rewrite take_app_length).
      by rewrite take_app_le in Ht by lia.
    - apply Hx. apply list_elem_of_lookup. exists (length a').
      assert (Hp : (p ++ r) !! length a' = Some x) by (rewrite <- Hr; by apply list_lookup_middle).
      by rewrite lookup_app_l in Hp by lia. }
  revert i. induction a as [|y a IH]; intros i Ha.
  - change (find_sub p ([] ++ x :: b) i) with (if prefixb p (x :: b) then Some i else find_sub p b (i + 1)).
    pose proof (Hcut [] Ha) as E. cbn [app] in E. rewrite E. f_equal. change (zlen []) with 0. lia.
  - change (find_sub p ((y :: a) ++ x :: b) i) with (if prefixb p ((y :: a) ++ x :: b) then Some i else find_sub p (a ++ x :: b) (i + 1)).
    rewrite (Hcut (y :: a) Ha), IH by (by eapply no_occ_tail). f_equal. rewrite zlen_cons. lia.
Qed.

(** ** The request *)

Definition soap_needle : list Z := zs "SOAPACTION:".
Definition soap_first (path host : list Z) (n : Z) : list Z :=
  (zs "POST" ++ [SP] ++ path ++ zs " HTTP/1.1" ++ crlf ++ zs "HOST: " ++ host ++ crlf)
  ++ (zs "CONTENT-LENGTH: " ++ dec_s n ++ crlf) ++ ContentTypeHeader.
Definition soap_rest (env : http_env) (body : list Z) : list Z :=
  soap_needle ++ crlf ++ zs "UID: " ++ zs "yyccbb12345" ++ crlf
  ++ (zs "USER-AGENT: " ++ cstr (get_sdk_info env tempbuf_size)) ++ crlf ++ cstr body.

Lemma dec_digits_lt f n acc : Forall (fun c => c < 58) acc -> Forall (fun c => c < 58) (dec_digits f n acc).
Proof.
  revert n acc. induction f as [|f IH]; intros n acc Ha; cbn [dec_digits]; [done|].
  pose proof (Z.mod_pos_bound n 10 ltac:(lia)).
  destruct (Z.ltb_spec n 10); [constructor; [lia|done]|]. apply IH. constructor; [lia|done].
Qed.
Lemma no_occ_dec n : no_occ soap_needle (dec_s n).
Proof.
  apply no_occ_head. intros Hin. assert (H : Forall (fun c => c < 58) (dec_s n)).
  { unfold dec_s. case_match; [constructor; [done|]|]; by apply dec_digits_lt. }
  rewrite Forall_forall in H. specialize (H _ Hin). by vm_compute in H.
Qed.
(** A closed text: all positions. *)
Lemma no_occ_check p l : forallb (fun k => negb (prefixb p (zdrop (Z.of_nat k) l))) (seq 0 (S (length l))) = true ->
  p <> [] -> no_occ p l.
Proof.
  intros H Hp k. rewrite forallb_forall in H. destruct (decide (Z.of_nat (length l) < k)) as [Hk|Hk].
  - unfold zdrop. rewrite drop_ge by lia. by destruct p.
  - specialize (H (Z.to_nat k)). rewrite negb_true_iff in H. destruct (decide (k < 0)).
    + specialize (H ltac:(apply in_seq; lia)). unfold zdrop in *. by replace (Z.to_nat (Z.of_nat (Z.to_nat k))) with (Z.to_nat k) in H by lia.
    + rewrite Z2Nat.id in H by lia. apply H, in_seq. lia.
Qed.

Lemma find_sub_here p r i : find_sub p (p ++ r) i = Some i.
Proof.
  assert (E : prefixb p (p ++ r) = true) by (apply prefixb_app; by eexists).
  destruct (p ++ r) as [|c l]; cbn [find_sub]; by rewrite E.
Qed.
(** A separator that is not in the needle, behind a text that does not have it. *)
Ltac skip_sep :=
  rewrite find_sub_sep;
    [|by apply (bool_decide_unpack _); vm_compute
     |first [assumption | apply no_occ_dec | apply no_occ_check; [by vm_compute|done]]].

Lemma soap_first_find path host n rest :
  no_occ soap_needle path -> no_occ soap_needle host ->
  find_sub soap_needle (zs "M-" ++ soap_first path host n ++ soap_needle ++ rest) 0 = Some (2 + zlen (soap_first path host n)).
Proof.
  intros Hp Hh.
  assert (E : zs "M-" ++ soap_first path host n ++ soap_needle ++ rest
    = zs "M-POST" ++ SP :: path ++ SP :: zs "HTTP/1.1" ++ CR :: [] ++ LF :: zs "HOST:" ++ SP :: host ++ CR :: [] ++ LF ::
      zs "CONTENT-LENGTH:" ++ SP :: dec_s n ++ CR :: [] ++ LF :: zs "CONTENT-TYPE:" ++ SP :: zs "application/json" ++ CR :: [] ++ LF :: soap_needle ++ rest).
  { unfold soap_first, ContentTypeHeader, crlf. rewrite <- !app_assoc. reflexivity. }
  rewrite E. do 13 skip_sep. rewrite find_sub_here. f_equal.
  apply (f_equal zlen) in E. repeat rewrite ?zlen_app, ?zlen_cons in E. change (zlen (zs "M-")) with 2 in E. lia.
Qed.

(** ** The terminator *)

Section Terminated.
Context `{HM : Malloc, HR : Resolver}.

Lemma zget_terminator p n : zget (zset p n 0) n = 0.
Proof.
  rewrite zget_zset. case_decide as Hd; [done|]. unfold zget, zlen in *. destruct (Z.ltb_spec n 0); [done|].
  apply nth_overflow. lia.
Qed.
Lemma insert_terminated m b n i : mb_terminated m -> mb_terminated (membuffer_insert m b n i).2.
Proof.
  intros Ht. unfold membuffer_insert. destruct (mb_length m <? i); [done|]. destruct b as [b|]; [|done].
  destruct (n =? 0); [done|]. destruct (membuffer_set_size m _) as [rc m1] eqn:E. destruct (rc =? 0) eqn:Er; cbn [negb snd].
  - unfold mb_terminated. cbn. destruct (mb_buf m1) as [p|]; [|apply zget_nil]. cbn. apply zget_terminator.
  - unfold membuffer_set_size, membuffer_realloc in E. repeat case_match; simplify_eq; done.
Qed.

Definition keeps_terminator (make : list Z -> list va -> membuffer -> option (Z * membuffer)) : Prop :=
  forall fmt args buf rc b, mb_terminated buf -> make fmt args buf = Some (rc, b) -> mb_terminated b.
Definition safe (r : option step_result) : Prop := forall rc args b, r = Some (rc, args, b) -> mb_terminated b.
Lemma safe_none : safe None.
Proof. by intros rc args b. Qed.
Lemma safe_some rc args b : mb_terminated b -> safe (Some (rc, args, b)).
Proof. by intros Ht rc' args' b' [= <- <- <-]. Qed.
Lemma safe_append text n args buf : mb_terminated buf -> safe (append text n args buf).
Proof.
  intros Ht. unfold append, membuffer_append. pose proof (insert_terminated buf (Some text) n (mb_length buf) Ht) as Hi.
  destruct (membuffer_insert _ _ _ _) as [r b']. by apply safe_some.
Qed.
Lemma safe_nested make fmt inner args buf : keeps_terminator make -> mb_terminated buf -> safe (nested (make fmt inner buf) args).
Proof.
  intros Hm Ht. unfold nested. destruct (make fmt inner buf) as [[r b']|] eqn:E; cbn [mbind option_bind]; [|apply safe_none].
  apply safe_some. by eapply Hm.
Qed.

Lemma directive_terminated env major minor make c args buf : keeps_terminator make ->
  mb_terminated buf -> safe (directive env major minor make c args buf).
Proof.
  intros Hm Ht.
  unfold directive, make_date, make_agent, make_simple_body, make_response_line, make_request_line, make_request_host, append_temp, append_str.
  repeat match goal with
  | |- safe None => apply safe_none
  | |- safe (Some (_, _, buf)) => by apply safe_some
  | |- safe (append _ _ _ _) => by apply safe_append
  | |- safe (nested _ _) => by apply safe_nested
  | |- safe (append ?a ?b ?c ?d ≫= _) =>
      let E := fresh in pose proof (safe_append a b c d Ht) as E; destruct (append a b c d) as [[[? ?] ?]|]; cbn [mbind option_bind];
      [specialize (E _ _ _ eq_refl)|]
  | |- safe (if ?b then _ else _) => destruct b
  | |- safe (match ?x with _ => _ end) => destruct x
  | |- safe (let _ := ?x in _) => cbv zeta
  end.
  all: first [by apply safe_some | by apply safe_append].
Qed.
Lemma make_message_terminated env major minor d : keeps_terminator (make_message env major minor d).
Proof.
  induction d as [|d IH]; [done|]. intros fmt. cbn [make_message]. induction fmt as [|c fmt IHf]; intros args buf rc b Ht; cbn [make_loop].
  - by intros [= <- <-].
  - destruct (directive _ _ _ _ _ _ _) as [[[r args'] b']|] eqn:E; cbn [mbind option_bind]; [|done].
    apply directive_terminated in E; [|done..]. destruct (r =? 0); cbn [negb]; [by apply IHf|]. by intros [= <- <-].
Qed.
End Terminated.

(** ** The message and its repetition *)

Section Message.
Context `{HM : Malloc, HR : Resolver}.
Implicit Types (env : http_env) (url : fixed_url).

Definition url_host_text (s : list Z) (url : fixed_url) : list Z := token_text (cstr s) 1 (hp_text (uri_hostport (fx_uri url))).

Lemma fix_url_uri mem base u rc url : http_FixUrl mem base u = (rc, url) -> fx_uri url = u.
Proof. unfold http_FixUrl. repeat case_match; by intros [= _ <-]. Qed.
Lemma cstr_twice s : cstr (cstr s) = cstr s.
Proof. apply text_line, cstr_nz. Qed.

(** The host of a URL that is accepted lies in it. *)
Lemma fixed_host s url : strlen s < 2 ^ 31 -> http_FixStrUrl (cstr s) (strlen s) = (0, url) ->
  let host := hp_text (uri_hostport (fx_uri url)) in
  http_FixUrl (cstr s) 1 (fx_uri url) = (0, url) /\ 0 <= tk_size host <= zlen (zdrop (tk_buff host - 1) (cstr s)).
Proof.
  intros Hs. unfold http_FixStrUrl. assert (Hl : strlen (cstr s) = strlen s) by (unfold strlen; by rewrite cstr_twice).
  pose proof (parse_uri_spec (cstr s) 1) as Hp. rewrite Hl in Hp. specialize (Hp Hs). cbv zeta.
  destruct (parse_uri (cstr s) 1 (strlen s)) as [e|u]; [done|]. intros E. rewrite (fix_url_uri _ _ _ _ _ E).
  split; [exact E|]. clear E.
  destruct Hp. destruct up_host_in as [->|(? & ? & ?)]; [split; [done|apply zlen_nonneg]|].
  rewrite zlen_zdrop. unfold strlen in *. rewrite cstr_twice in *. lia.
Qed.

Lemma dir_host env major minor meth name mem base u url args :
  method_to_str meth = Some name -> http_FixUrl mem base u = (0, url) ->
  let host := hp_text (uri_hostport u) in 0 <= tk_size host <= zlen (zdrop (tk_buff host - base) mem) ->
  dir_text env major minor 113 (VaInt meth :: VaUri mem base u :: args)
  = Some (request_text major minor (cstr name) (fx_path url) ++ header (zs "HOST: ") (token_text mem base host), args).
Proof.
  intros Em Eu host Hh.
  transitivity (let '(rc, url) := http_FixUrl mem base u in
        let text := zdrop (tk_buff host - base) mem in
        name ← method_to_str meth;
        if (rc =? 0) && (0 <=? tk_size host) && (tk_size host <=? zlen text)
        then Some (request_text major minor (cstr name) (fx_path url)
                   ++ header (zs "HOST: ") (ztake (tk_size host) text), args)
        else None); [reflexivity|].
  rewrite Eu, Em. cbn [mbind option_bind]. by rewrite (proj2 (Z.leb_le _ _) (proj1 Hh)), (proj2 (Z.leb_le _ _) (proj2 Hh)).
Qed.

Lemma soap_text env s body url : strlen s < 2 ^ 31 -> http_FixStrUrl (cstr s) (strlen s) = (0, url) ->
  message_text env 1 1 (zs "qNsscsscUcb")
    [VaInt SOAPMETHOD_POST; VaUri (cstr s) 1 (fx_uri url); VaOff (strlen body); VaText ContentTypeHeader;
     VaText (zs "SOAPACTION:"); VaText (zs "UID: "); VaText (zs "yyccbb12345"); VaText body; VaSize (strlen body)]
  = Some (soap_first (fx_path url) (url_host_text s url) (strlen body) ++ soap_rest env body, []).
Proof.
  intros Hs Hu. destruct (fixed_host s url Hs Hu) as [Hf Hh].
  assert (Eb : ztake (strlen body) body = cstr body) by (symmetry; apply cstr_ztake).
  transitivity (Some ((request_text 1 1 (zs "POST") (fx_path url) ++ header (zs "HOST: ") (url_host_text s url))
    ++ length_text (strlen body) ++ ContentTypeHeader ++ zs "SOAPACTION:" ++ crlf ++ zs "UID: " ++ zs "yyccbb12345" ++ crlf
    ++ (zs "USER-AGENT: " ++ cstr (get_sdk_info env tempbuf_size)) ++ crlf ++ cstr body ++ [], @nil va)).
  - change (zs "qNsscsscUcb") with (113 :: 78 :: 115 :: 115 :: 99 :: 115 :: 115 :: 99 :: 85 :: 99 :: 98 :: []).
    eapply message_text_cons; [apply (dir_host env 1 1 SOAPMETHOD_POST (zs "POST")); [reflexivity|exact Hf|exact Hh]|]. eapply message_text_cons; [apply dir_length, strlen_nonneg|].
    do 8 (eapply message_text_cons; [reflexivity|]). rewrite <- Eb.
    eapply message_text_cons; [apply dir_block|reflexivity]. split; [apply strlen_nonneg|apply strlen_le].
  - do 2 f_equal. rewrite app_nil_r. unfold soap_first, soap_rest, request_text, length_text, header. rewrite <- !app_assoc. reflexivity.
Qed.

Lemma request50_room text : zlen text < 2 ^ 31 ->
  room_for (Membuffer (mb_buf buffer0) (mb_length buffer0) (mb_capacity buffer0) 50) text.
Proof.
  intros Hl. split; [|change (mb_length _) with 0; cbn [mb_length]; lia].
  destruct (membuffer_init_wf membuffer0) as (H1 & H2 & _ & H4). split; [exact H1|]. split; [exact H2|]. split; [cbn; lia|exact H4].
Qed.

Lemma no_nul_ztake n l : no_nul l -> no_nul (ztake n l).
Proof. apply Forall_take. Qed.
Lemma no_nul_zdrop n l : no_nul l -> no_nul (zdrop n l).
Proof. apply Forall_drop. Qed.
Lemma no_nul_host s url : no_nul (url_host_text s url).
Proof. apply no_nul_ztake, no_nul_zdrop, cstr_nz. Qed.
Lemma no_nul_path s url : http_FixStrUrl (cstr s) (strlen s) = (0, url) -> no_nul (fx_path url).
Proof.
  unfold http_FixStrUrl. destruct (parse_uri _ _ _); [done|]. unfold http_FixUrl.
  repeat case_match; intros [= <-]; cbn [fx_path]; [by repeat constructor|apply no_nul_ztake, no_nul_zdrop, cstr_nz].
Qed.
Lemma no_nul_soap env s body url : http_FixStrUrl (cstr s) (strlen s) = (0, url) ->
  no_nul (soap_first (fx_path url) (url_host_text s url) (strlen body) ++ soap_rest env body).
Proof.
  intros Hu. unfold soap_first, soap_rest.
  repeat apply no_nul_app; eauto using cstr_nz, dec_s_nz, no_nul_host, no_nul_path; by repeat constructor.
Qed.

(** The repetition of a message that has the needle only once before the body. *)
Lemma insert_outcome m b n i rc m' : mb_wf m -> 0 <= i <= mb_length m -> 0 < n <= zlen b -> mb_length m + n < 2 ^ 31 ->
  membuffer_insert m (Some b) n i = (rc, m') ->
  (rc = 0 /\ mb_contents m' = ztake i (mb_contents m) ++ ztake n b ++ zdrop i (mb_contents m)
     /\ mb_length m' = mb_length m + n /\ mb_wf m' /\ mb_terminated m')
  \/ rc = UPNP_E_OUTOF_MEMORY /\ oom.
Proof.
  intros Hw Hi Hn Hl E. destruct (decide (alloc_ok (mb_length m + n + 1) = true)) as [Ha|Ha%not_true_is_false].
  - left. pose proof (membuffer_insert_spec m b n i rc m' Hw Hi Hn Hl E) as [[-> ->]|(-> & ? & ? & _ & ? & ?)]; [|done].
    exfalso. unfold membuffer_insert in E. destruct (Z.ltb_spec (mb_length m) i); [lia|]. destruct (Z.eqb_spec n 0); [lia|].
    rewrite u64_small in E by lia. pose proof (set_size_ok m (mb_length m + n) ltac:(lia) Ha) as Hs.
    destruct (membuffer_set_size m (mb_length m + n)) as [r m1]. cbn in Hs. subst r. cbn in E. by injection E as E _.
  - pose proof (membuffer_insert_spec m b n i rc m' Hw Hi Hn Hl E) as [[-> _]|(-> & ? & ? & _ & ? & ?)]; [right|by left].
    split; [done|by eexists].
Qed.
Lemma add_man_made m first rest :
  holds m (first ++ soap_needle ++ rest) -> zlen (first ++ soap_needle ++ rest) + 70 < 2 ^ 31 ->
  find_sub soap_needle (zs "M-" ++ first ++ soap_needle ++ rest) 0 = Some (2 + zlen first) ->
  exists rc m', add_man_header m = Some (rc, m')
    /\ (rc = 0 /\ mb_contents m' = zs "M-" ++ first ++ man_hdr ++ soap_needle ++ rest /\ mb_wf m' \/ rc = UPNP_E_OUTOF_MEMORY /\ oom).
Proof.
  intros (Hw & Hc & Hn & Ht) Hl Hf. set (text := first ++ soap_needle ++ rest) in *.
  pose proof (zlen_contents m Hw) as Hlen. rewrite Hc in Hlen. unfold add_man_header.
  destruct (membuffer_insert m (Some (zs "M-")) 2 0) as [rc m1] eqn:E1.
  apply insert_outcome in E1 as [(-> & Hc1 & Hl1 & Hw1 & Ht1)|[-> Ho]]; [|eexists _, _; split; [reflexivity|by right]|done|pose proof (zlen_nonneg text); lia|done|lia].
  change (negb (0 =? 0)) with false. cbn iota. rewrite ztake_neg, zdrop_neg, Hc in Hc1 by lia.
  change (ztake 2 (zs "M-")) with (zs "M-") in Hc1. cbn [app] in Hc1.
  assert (Hs : strstr (mb_block m1) (zs "SOAPACTION:") = Some (2 + zlen first)).
  { unfold strstr. rewrite (holds_cstr m1 (zs "M-" ++ text)); [exact Hf| |done]. split; [done|]. split; [done|]. split; [|done].
    apply no_nul_app; [by repeat constructor|done]. }
  rewrite Hs. cbn [mbind option_bind]. destruct (membuffer_insert m1 (Some man_hdr) (strlen man_hdr) (2 + zlen first)) as [rc m2] eqn:E2.
  assert (Htl : zlen text = zlen first + zlen (soap_needle ++ rest)) by apply zlen_app. pose proof (zlen_nonneg (soap_needle ++ rest)). pose proof (zlen_nonneg first).
  change (strlen man_hdr) with 60 in E2. 
  apply insert_outcome in E2 as [(-> & Hc2 & _ & Hw2 & _)|[-> Ho]]; [|eexists _, _; split; [reflexivity|by right]|done|lia|done|lia].
  eexists _, _. split; [reflexivity|]. left. split; [done|]. split; [|exact Hw2].
  assert (Hm1 : mb_contents m1 = (zs "M-" ++ first) ++ soap_needle ++ rest) by (rewrite Hc1; unfold text; by rewrite <- app_assoc).
  rewrite Hc2, Hm1. replace (2 + zlen first) with (zlen (zs "M-" ++ first)) by (rewrite zlen_app; done).
  rewrite ztake_app_exact, zdrop_app_exact. change (ztake 60 man_hdr) with man_hdr. by rewrite <- !app_assoc.
Qed.
End Message.

Section Actions.
Context `{HM : Malloc, HR : Resolver}.
Implicit Types (env : http_env) (url : fixed_url).

(** The request is made, and repeated, as the text of its parts. *)
Lemma soap_message_made env s body url :
  strlen s < 2 ^ 31 -> http_FixStrUrl (cstr s) (strlen s) = (0, url) ->
  let text := soap_first (fx_path url) (url_host_text s url) (strlen body) ++ soap_rest env body in
  zlen text < 2 ^ 31 ->
  exists rc b, soap_message env s body url = Some (rc, b) /\ (rc = 0 /\ holds b text \/ rc = UPNP_E_OUTOF_MEMORY /\ mb_contents b = [] /\ oom).
Proof.
  intros Hs Hu text Hl. pose proof (soap_text env s body url Hs Hu) as Et. fold text in Et.
  destruct (http_MakeMessage_made env _ 1 1 _ _ _ _ Et (request50_room text Hl)) as (rc & b & E & Hb).
  assert (Ht : mb_terminated b) by (eapply (make_message_terminated env 1 1 4); [|exact E]; apply zget_nil).
  exists rc, b. split; [exact E|]. destruct Hb as [(-> & Hc & Hw)|(-> & -> & Ho)]; [left|by right].
  split; [done|]. split; [exact Hw|]. split; [|split; [by apply no_nul_soap|done]]. rewrite Hc. reflexivity.
Qed.

(** C38. The request of an action is the [POST] of the path with the host, the length of
    the body, the content type, an empty [SOAPACTION], the fixed [UID], the agent and the
    body; its repetition for a device that does not allow [POST] is the same text as an
    [M-POST] with the [MAN] field and its prefix before [SOAPACTION], provided the URL
    does not contain that word; or memory is short and nothing is sent. *)
Theorem soap_requests env s body url :
  strlen s < 2 ^ 31 -> http_FixStrUrl (cstr s) (strlen s) = (0, url) ->
  let path := fx_path url in let host := url_host_text s url in
  let first := soap_first path host (strlen body) in let rest := soap_rest env body in
  no_occ soap_needle path -> no_occ soap_needle host -> zlen (first ++ rest) + 70 < 2 ^ 31 ->
  exists rc b, soap_message env s body url = Some (rc, b)
    /\ (rc = 0 /\ mb_contents b = first ++ rest
          /\ (exists rc' b', add_man_header b = Some (rc', b')
                /\ (rc' = 0 /\ mb_contents b' = zs "M-" ++ first ++ man_hdr ++ rest \/ rc' = UPNP_E_OUTOF_MEMORY /\ oom))
        \/ rc = UPNP_E_OUTOF_MEMORY /\ mb_contents b = [] /\ oom).
Proof.
  intros Hs Hu path host first rest Hp Hh Hl.
  destruct (soap_message_made env s body url Hs Hu ltac:(fold path host first rest; lia)) as (rc & b & E & [(-> & Hb)|Ho]);
    exists rc || exists 0; exists b; (split; [exact E|]); [left|by right].
  split; [done|]. split; [apply Hb|]. destruct (add_man_made b first _ Hb Hl (soap_first_find _ _ _ _ Hp Hh)) as (rc' & b' & E' & Hm).
  exists rc', b'. split; [exact E'|]. destruct Hm as [(-> & Hm & _)|Hm]; [left|right]; done.
Qed.

(** ** The exchange *)

Hypothesis Ha : forall k, alloc_ok k = true.

Lemma exchange_returns limit req k meth timeout c :
  0 <= k <= zlen req -> zlen (incoming (p_net c)) < 2 ^ 31 ->
  exists r p, http_RequestAndResponse limit req k meth timeout c = Some (r, p).
Proof.
  intros Hk Hi. unfold http_RequestAndResponse. destruct (p_socket c); cbn [negb]; [|by eexists _, _].
  destruct (private_connect (p_conn c) =? -1); [by eexists _, _|].
  assert (Hs : exists rc t n, http_SendMessage timeout [SBuf req k] (p_net c) = Some (rc, t, n) /\ incoming n = incoming (p_net c)).
  { unfold http_SendMessage. cbn [send_loop_args]. destruct (0 <? k); [|by eexists _, _, _].
    destruct (sock_write req k timeout (p_net c)) as [[nw t] n] eqn:E.
    apply sock_write_ok in E as (? & ? & _ & _ & Hr & _); [|done].
    exists 0, t, n. split; [by case_match|]. unfold incoming. by rewrite Hr. }
  destruct Hs as (rc & t & n & -> & Hn). cbn [mbind option_bind]. destruct (rc =? 0); cbn [negb]; [|by eexists _, _].
  unfold http_RecvMessage. set (p := if meth =? HTTPMETHOD_UNKNOWN then _ else _).
  assert (Hp : parser_wf p /\ plen p = 0) by (unfold p; case_match; (split; [apply (parser_reach_wf _ Ha); constructor|done])).
  destruct (recv_loop_ok Ha limit (recv_fuel n) p t false n (proj1 Hp) ltac:(rewrite Hn; lia) ltac:(lia)) as (r & ds & sts & E & _).
  rewrite E. by eexists _, _.
Qed.

(** C18. With memory, an action always returns: an error for a URL that is not accepted,
    before anything is sent; otherwise the result of the exchange of its request, except
    that a device that answers 405 gets one repetition, and only one, on a connection of
    its own, whose result is then the result, whatever its status. *)
Theorem soap_action_result limit env s body c1 c2 :
  strlen s < 2 ^ 31 -> zlen (incoming (p_net c1)) < 2 ^ 31 -> zlen (incoming (p_net c2)) < 2 ^ 31 ->
  let '(rc, url) := http_FixStrUrl (cstr s) (strlen s) in
  let path := fx_path url in let host := url_host_text s url in
  let first := soap_first path host (strlen body) in let rest := soap_rest env body in
  no_occ soap_needle path -> no_occ soap_needle host -> zlen (first ++ rest) + 70 < 2 ^ 31 ->
  if rc =? 0 then
    exists m1 m2 r1 p1 r2 p2,
      holds m1 (first ++ rest) /\ mb_contents m2 = zs "M-" ++ first ++ man_hdr ++ rest
      /\ http_RequestAndResponse limit (mb_block m1) (mb_length m1) SOAPMETHOD_POST UPNP_TIMEOUT_SECS c1 = Some (r1, p1)
      /\ http_RequestAndResponse limit (mb_block m2) (mb_length m2) HTTPMETHOD_MPOST UPNP_TIMEOUT_SECS c2 = Some (r2, p2)
      /\ SoapSendAction limit env s body c1 c2
         = Some (if (r1 =? 0) && (status_code (pmsg p1) =? HTTP_METHOD_NOT_ALLOWED) then r2 else r1)
  else SoapSendAction limit env s body c1 c2 = Some UPNP_E_INVALID_URL.
Proof.
  intros Hs H1 H2. unfold SoapSendAction. destruct (http_FixStrUrl (cstr s) (strlen s)) as [rc url] eqn:Hu.
  set (first := soap_first _ _ _). set (rest := soap_rest _ _).
  intros Hp Hh Hl. destruct (Z.eqb_spec rc 0) as [->|Hrc]; cbn [negb]; [|done].
  assert (Hno : ~ oom) by (intros [k Hk]; by rewrite Ha in Hk).
  destruct (soap_message_made env s body url Hs Hu ltac:(fold first rest; lia)) as (rc & m1 & -> & [(-> & Hm1)|(_ & _ & Ho)]); [|done].
  destruct (add_man_made m1 first (crlf ++ zs "UID: " ++ zs "yyccbb12345" ++ crlf ++ (zs "USER-AGENT: " ++ cstr (get_sdk_info env tempbuf_size)) ++ crlf ++ cstr body)
    Hm1 Hl (soap_first_find _ _ _ _ Hp Hh)) as (rc & m2 & Em & [(-> & Hm2 & Hw2)|(_ & Ho)]); [|done].
  assert (Hb1 : 0 <= mb_length m1 <= zlen (mb_block m1)).
  { destruct Hm1 as (Hw & _). pose proof (room_length m1 Hw). destruct Hw. lia. }
  destruct (exchange_returns limit (mb_block m1) (mb_length m1) SOAPMETHOD_POST UPNP_TIMEOUT_SECS c1 Hb1 H1) as (r1 & p1 & E1).
  assert (Hb2 : 0 <= mb_length m2 <= zlen (mb_block m2)) by (pose proof (room_length m2 Hw2); destruct Hw2; lia).
  destruct (exchange_returns limit (mb_block m2) (mb_length m2) HTTPMETHOD_MPOST UPNP_TIMEOUT_SECS c2 Hb2 H2) as (r2 & p2 & E2).
  exists m1, m2, r1, p1, r2, p2. split; [exact Hm1|]. split; [exact Hm2|]. split; [exact E1|]. split; [exact E2|].
  cbn [mbind option_bind]. change (negb (0 =? 0)) with false. cbn iota. unfold soap_request_and_response. rewrite E1. cbn [mbind option_bind].
  destruct (Z.eqb_spec r1 0) as [->|]; cbn [negb andb].
  - destruct (status_code (pmsg p1) =? HTTP_METHOD_NOT_ALLOWED); [|done]. rewrite Em. cbn [mbind option_bind]. change (negb (0 =? 0)) with false. cbn iota.
    rewrite E2. cbn [mbind option_bind]. by destruct (Z.eqb_spec r2 UPNP_E_SUCCESS) as [->|].
  - cbn [mbind option_bind]. by destruct (Z.eqb_spec r1 UPNP_E_SUCCESS) as [->|].
Qed.
End Actions.

(** ** Witnesses *)

Definition device_url : list Z := zs "http://10.0.0.7:80/Control" ++ [0].
Definition command : list Z := zs "{}" ++ [0].
#[local] Existing Instance malloc_always.
#[local] Existing Instance resolver_literal.
Notation device := (http_FixStrUrl (cstr device_url) (strlen device_url)).2.
(** A device that does not allow [POST], and one that answers. *)
Definition connected : conn := Conn true 0 false 0 None true.
Definition refusing : peer :=
  Peer true connected (Net [] [Some (zs "HTTP/1.1 405 Method Not Allowed" ++ crlf ++ zs "CONTENT-LENGTH: 0" ++ crlf ++ crlf)] [] [] []).
Definition answering : peer :=
  Peer true connected (Net [] [Some (zs "HTTP/1.1 500 Internal Server Error" ++ crlf ++ zs "CONTENT-LENGTH: 0" ++ crlf ++ crlf)] [] [] []).

Lemma soap_requests_witness :
  exists b, soap_message Messages.page_env device_url command device = Some (0, b)
    /\ mb_contents b = soap_first (zs "/Control") (zs "10.0.0.7:80") 2 ++ soap_rest Messages.page_env command.
Proof.
  destruct (soap_requests Messages.page_env device_url command device) as (rc & b & E & [(-> & Hc & _)|(_ & _ & k & Hk)]).
  - vm_compute. reflexivity.
  - vm_compute. reflexivity.
  - apply no_occ_check; [vm_compute; reflexivity|done].
  - apply no_occ_check; [vm_compute; reflexivity|done].
  - vm_compute. reflexivity.
  - exists b. split; [exact E|]. rewrite Hc. vm_compute. reflexivity.
  - done.
Defined.

Lemma soap_action_result_witness : exists m1 m2 r1 p1 r2 p2,
  holds m1 (soap_first (zs "/Control") (zs "10.0.0.7:80") 2 ++ soap_rest Messages.page_env command)
  /\ mb_contents m2 = zs "M-" ++ soap_first (zs "/Control") (zs "10.0.0.7:80") 2 ++ man_hdr ++ soap_rest Messages.page_env command
  /\ http_RequestAndResponse 0 (mb_block m1) (mb_length m1) SOAPMETHOD_POST UPNP_TIMEOUT_SECS refusing = Some (r1, p1)
  /\ http_RequestAndResponse 0 (mb_block m2) (mb_length m2) HTTPMETHOD_MPOST UPNP_TIMEOUT_SECS answering = Some (r2, p2)
  /\ SoapSendAction 0 Messages.page_env device_url command refusing answering
     = Some (if (r1 =? 0) && (status_code (pmsg p1) =? HTTP_METHOD_NOT_ALLOWED) then r2 else r1).
Proof.
  assert (Ep : fx_path device = zs "/Control") by (vm_compute; reflexivity).
  assert (Eh : url_host_text device_url device = zs "10.0.0.7:80") by (vm_compute; reflexivity).
  assert (El : strlen command = 2) by (vm_compute; reflexivity).
  pose proof (soap_action_result ltac:(done) 0 Messages.page_env device_url command refusing answering) as H.
  destruct (http_FixStrUrl (cstr device_url) (strlen device_url)) as [rc url] eqn:Hu. cbn [snd] in *.
  assert (rc = 0) as -> by (vm_compute in Hu; by injection Hu as <- _). change (0 =? 0) with true in H. cbn iota in H.
  rewrite Ep, Eh, El in H. apply H.
  - vm_compute. reflexivity.
  - vm_compute. reflexivity.
  - vm_compute. reflexivity.
  - apply no_occ_check; [vm_compute; reflexivity|done].
  - apply no_occ_check; [vm_compute; reflexivity|done].
  - vm_compute. reflexivity.
Defined.

(** The repetition is answered with 500; the action succeeds. *)
Example error_is_success : SoapSendAction 0 Messages.page_env device_url command refusing answering = Some UPNP_E_SUCCESS.
Proof. vm_compute. reflexivity. Qed.
(** The library's parser reads the request back: the body is the entity. *)
Example request_parsed :
  match soap_message Messages.page_env device_url command device with
  | Some (rc, b) =>
      match parser_append parser_request_init (mb_block b) (mb_length b) with
      | Some (st, p) => rc = 0 /\ st = PARSE_SUCCESS /\ method (pmsg p) = SOAPMETHOD_POST /\ entity_length (pmsg p) = 2
      | None => False
      end
  | None => False
  end.
Proof. vm_compute. repeat split. Qed.
