(* ===== verification/CtrlPt.v ===== *)
(** * The control point

    [sample/ctrlpt.c]: the program on top of the library.  Its list of devices is a
    linked list of blocks from [malloc]; a use of a block that is not allocated, a copy
    that does not fit and a failed allocation (the code does not test for it) are faults
    ([None]).  Every function holds the lock of the list from its first to its last
    access, so that it is one step here.  What goes to the library: searches and
    subscriptions are recorded as requests, the jobs of actions are those of [Soap], and
    the start and the end are those of [Api]. *)

From S2P Require Import Prelude CLib Codes Membuffer Uri Tables Scanner HttpParser LinkedList ThreadPool TimerThread TimerIface ClientTable Gena Ssdp Sock HttpMsg HttpIO Web Server Api Soap.
#[local] Open Scope Z_scope.

Definition SUCCESS : Z := 0.
Definition CP_ERROR : Z := -1.
Definition INT_MIN : Z := - 2 ^ 31.
Definition OhmDeviceType : list Z := zs "OhmSwitch".
Definition default_timeout : Z := 1801.

(** An array of the structure is its text. *)
Record OhmDevice := Ohm {
  ohm_UID : list Z;
  ohm_DeviceType : list Z;
  ohm_Location : list Z;
  AdvrTimeOut : Z
}.
Definition OHM_FIELD : Z := 250.
Definition sizeof_DeviceNode : Z := 768.
Record DeviceNode := DNode { device : OhmDevice; dn_next : Z }.

Record devices := Devices {
  dv_heap : gmap Z DeviceNode;
  GlobalDeviceList : Z
}.

(** The texts of an event: the arrays follow each other in the structure. *)
Definition event_Location (d : Upnp_Discovery) : list Z := cstr (Location d).
Definition event_DeviceType (d : Upnp_Discovery) : list Z := cstr (DeviceType d ++ Location d).
Definition event_UID (d : Upnp_Discovery) : list Z := cstr (UID d ++ DeviceType d ++ Location d).

Section Devices.
Context `{Heap}.
Implicit Types (h : gmap Z DeviceNode) (s : devices).

Definition dev_fuel h : nat := S (size h).
Definition dev_set_next (p q : Z) h : option (gmap Z DeviceNode) :=
  x ← h !! p; Some (<[p := DNode (device x) q]> h).

Definition CtrlPointDeleteNode (node : Z) h : option (Z * gmap Z DeviceNode) :=
  if node =? 0 then Some (CP_ERROR, h)
  else _ ← h !! node; Some (SUCCESS, delete node h).

Fixpoint remove_dev_loop (fuel : nat) (uid : list Z) (prevdevnode curdevnode : Z) h : option (gmap Z DeviceNode) :=
  match fuel with
  | O => None
  | S f =>
      if curdevnode =? 0 then Some h
      else
        x ← h !! curdevnode;
        if strcmp (ohm_UID (device x)) uid =? 0 then
          h ← dev_set_next prevdevnode (dn_next x) h;
          '(_, h) ← CtrlPointDeleteNode curdevnode h;
          Some h
        else remove_dev_loop f uid curdevnode (dn_next x) h
  end.
Definition CtrlPointRemoveDevice (uid : list Z) s : option (Z * devices) :=
  let curdevnode := GlobalDeviceList s in
  if curdevnode =? 0 then Some (SUCCESS, s)
  else
    x ← dv_heap s !! curdevnode;
    if strcmp (ohm_UID (device x)) uid =? 0 then
      '(_, h) ← CtrlPointDeleteNode curdevnode (dv_heap s);
      Some (SUCCESS, Devices h (dn_next x))
    else
      h ← remove_dev_loop (dev_fuel (dv_heap s)) uid curdevnode (dn_next x) (dv_heap s);
      Some (SUCCESS, Devices h curdevnode).

Fixpoint remove_all_loop (fuel : nat) (curdevnode : Z) h : option (gmap Z DeviceNode) :=
  match fuel with
  | O => None
  | S f =>
      if curdevnode =? 0 then Some h
      else
        x ← h !! curdevnode;
        '(_, h) ← CtrlPointDeleteNode curdevnode h;
        remove_all_loop f (dn_next x) h
  end.
Definition CtrlPointRemoveAll s : option (Z * devices) :=
  h ← remove_all_loop (dev_fuel (dv_heap s)) (GlobalDeviceList s) (dv_heap s);
  Some (SUCCESS, Devices h 0).

(** [while (--count && tmpdevnode)]; a decrement below [INT_MIN] is undefined. *)
Fixpoint get_dev_loop (fuel : nat) (count tmpdevnode : Z) h : option Z :=
  match fuel with
  | O => None
  | S f =>
      if count <=? INT_MIN then None
      else
        let count := count - 1 in
        if (count =? 0) || (tmpdevnode =? 0) then Some tmpdevnode
        else x ← h !! tmpdevnode; get_dev_loop f count (dn_next x) h
  end.
(** The result, and the node that is found. *)
Definition CtrlPointGetDevice (devnum : Z) s : option (Z * option Z) :=
  let tmpdevnode := if negb (devnum =? 0) then GlobalDeviceList s else 0 in
  tmpdevnode ← get_dev_loop (dev_fuel (dv_heap s)) devnum tmpdevnode (dv_heap s);
  Some (if tmpdevnode =? 0 then (CP_ERROR, None) else (SUCCESS, Some tmpdevnode)).

Fixpoint find_dev_loop (fuel : nat) (uid : list Z) (tmpdevnode : Z) h : option Z :=
  match fuel with
  | O => None
  | S f =>
      if tmpdevnode =? 0 then Some 0
      else
        x ← h !! tmpdevnode;
        if strcmp (ohm_UID (device x)) uid =? 0 then Some tmpdevnode else find_dev_loop f uid (dn_next x) h
  end.
Fixpoint append_dev_loop (fuel : nat) (tmpdevnode deviceNode : Z) h : option (gmap Z DeviceNode) :=
  match fuel with
  | O => None
  | S f =>
      x ← h !! tmpdevnode;
      if negb (dn_next x =? 0) then append_dev_loop f (dn_next x) deviceNode h
      else dev_set_next tmpdevnode deviceNode h
  end.

Definition set_timeout (t : Z) (d : OhmDevice) : OhmDevice := Ohm (ohm_UID d) (ohm_DeviceType d) (ohm_Location d) t.
(** [strcpy] into a field. *)
Definition dev_field (t : list Z) : option (list Z) := if OHM_FIELD <=? zlen t then None else Some t.

Definition CtrlPointAddDevice (d_event : Upnp_Discovery) s : option devices :=
  if negb (strcmp (event_DeviceType d_event) OhmDeviceType =? 0) then Some s
  else
    (* Check if this device is already in the list *)
    tmpdevnode ← find_dev_loop (dev_fuel (dv_heap s)) (event_UID d_event) (GlobalDeviceList s) (dv_heap s);
    if negb (tmpdevnode =? 0) then
      (* The device is already there, so just update the advertisement timeout field *)
      x ← dv_heap s !! tmpdevnode;
      Some (Devices (<[tmpdevnode := DNode (set_timeout 5 (device x)) (dn_next x)]> (dv_heap s)) (GlobalDeviceList s))
    else
      (* Create a new device node *)
      deviceNode ← malloc (dom (dv_heap s)) sizeof_DeviceNode;
      uid ← dev_field (event_UID d_event);
      dt ← dev_field (event_DeviceType d_event);
      loc ← dev_field (event_Location d_event);
      let h := <[deviceNode := DNode (Ohm uid dt loc 5) 0]> (dv_heap s) in
      (* Insert the new device node in the list *)
      if negb (GlobalDeviceList s =? 0) then
        h ← append_dev_loop (dev_fuel h) (GlobalDeviceList s) deviceNode h;
        Some (Devices h (GlobalDeviceList s))
      else Some (Devices h deviceNode).

(** The searches that are asked for: the time to wait and the target. *)
Fixpoint verify_loop (fuel : nat) (incr prevdevnode curdevnode : Z) s : option (devices * list (Z * list Z)) :=
  match fuel with
  | O => None
  | S f =>
      if curdevnode =? 0 then Some (s, [])
      else
        x ← dv_heap s !! curdevnode;
        let t := AdvrTimeOut (device x) - incr in
        if t <? INT_MIN then None
        else
          let h := <[curdevnode := DNode (set_timeout t (device x)) (dn_next x)]> (dv_heap s) in
          if t <=? 0 then
            (* This advertisement has expired, so we should remove the device from the list *)
            '(h, first) ← (if GlobalDeviceList s =? curdevnode then Some (h, dn_next x)
                           else h ← dev_set_next prevdevnode (dn_next x) h; Some (h, GlobalDeviceList s));
            '(_, h) ← CtrlPointDeleteNode curdevnode h;
            cur ← (if negb (prevdevnode =? 0) then dn_next <$> h !! prevdevnode else Some first);
            verify_loop f incr prevdevnode cur (Devices h first)
          else
            (* This advertisement is about to expire, so send out a search request *)
            let asked := if t <? 2 * incr then [(incr, ohm_DeviceType (device x))] else [] in
            '(s, l) ← verify_loop f incr curdevnode (dn_next x) (Devices h (GlobalDeviceList s));
            Some (s, asked ++ l)
  end.
Definition CtrlPointVerifyTimeouts (incr : Z) s : option (devices * list (Z * list Z)) :=
  verify_loop (dev_fuel (dv_heap s)) incr 0 (GlobalDeviceList s) s.
End Devices.

(** ** Commands *)

Inductive cmdloop_tvcmds :=
| PRTHELP | PRTFULLHELP | POWON | POWOFF | GETAPLIST | CONNECTTOAP | CLOSEAP | GETDEVINFO | SETSWITCHNAME
| SETSWITCHVAL | SETSWITCHTYPE | ADDRULE | UPDATERULE | DELRULE | CMD_SUBSCRIBE | CMD_UNSUBSCRIBE | SETNAME
| CMD_RESET | REBOOT | LSTDEV | REFRESH | EXITCMD.

(** The name, the command and the number of words. *)
Definition cmdloop_cmdlist : list (list Z * cmdloop_tvcmds * Z) :=
  [(zs "Help", PRTHELP, 1); (zs "HelpFull", PRTFULLHELP, 1); (zs "ListDev", LSTDEV, 1); (zs "Refresh", REFRESH, 1);
   (zs "GetAPList", GETAPLIST, 2); (zs "ConnectToAP", CONNECTTOAP, 2); (zs "CloseAP", CLOSEAP, 2);
   (zs "GetDevInfo", GETDEVINFO, 2); (zs "SetSwitchName", SETSWITCHNAME, 2); (zs "SetSwitchVal", SETSWITCHVAL, 2);
   (zs "SetSwitchType", SETSWITCHTYPE, 2); (zs "AddRule", ADDRULE, 2); (zs "UpdateRule", UPDATERULE, 2);
   (zs "DelRule", DELRULE, 2); (zs "Subscribe", CMD_SUBSCRIBE, 2); (zs "UnSubscribe", CMD_UNSUBSCRIBE, 2);
   (zs "SetName", SETNAME, 2); (zs "Reset", CMD_RESET, 2); (zs "Reboot", REBOOT, 2); (zs "PowerOn", POWON, 2);
   (zs "PowerOff", POWOFF, 2); (zs "Exit", EXITCMD, 1)].

(** The texts of the actions; a single quote stands for a double one. *)
Definition quoted (s : list Z) : list Z := map (fun c => if c =? 39 then DQUOTE else c) s.
Definition json (commandName commandValue parameters : list Z) : list Z :=
  zs "{" ++ crlf ++ quoted (zs "'command':") ++ crlf
  ++ quoted (zs "{'commandName':'" ++ commandName ++ zs "','commandValue':" ++ commandValue ++ zs ",'commandType':'proprietary'},")
  ++ crlf ++ quoted (zs "'parameters':") ++ crlf ++ quoted parameters ++ crlf ++ zs "}".

Definition CtrlPointSendPowerOn : list Z := zs "PowerOn".
Definition CtrlPointSendPowerOff : list Z := zs "PowerOff".
Definition CtrlPointSendGetAPList : list Z := json (zs "getAPList") (zs "1") (zs "{}").
Definition CtrlPointSendConnectToAP : list Z :=
  json (zs "connectToAP") (zs "2") (zs "{'password':'8cmf-bl68-9tni','SSID':'Tabahi','security':1,'securityType':'WPA'}").
Definition CtrlPointSendCloseAP : list Z := json (zs "closeAP") (zs "3") (zs "{}").
Definition CtrlPointSendGetDevInfo : list Z := json (zs "getDevInfo") (zs "4") (zs "{}").
Definition CtrlPointSendSetSwitchName : list Z :=
  json (zs "setSwitchName") (zs "10") (zs "{'devices': [{'id': 0, 'name': 'Fan'}, {'id': 1, 'name': 'Light'}]}").
Definition CtrlPointSendSetSwitchVal : list Z :=
  json (zs "setSwitchVal") (zs "11") (zs "{'devices': [{'id': 0, 'val': 1}, {'id': 1, 'val': 1}]}").
Definition CtrlPointSendSetSwitchType : list Z :=
  json (zs "setSwitchType") (zs "12") (zs "{'devices': [{'id': 0, 'type': 1}, {'id': 1, 'type': 2}]}").
Definition CtrlPointSendAddRule : list Z :=
  json (zs "addRule") (zs "12")
    (zs "{'ruleId': 'xx12345', 'ruleVersion': '1', 'ruleType': 1, 'repeat': 0, 'days': ['Mon'], 'sOn': ['0_xxxx', '2_xxxx'], 'sOff': ['1_xxxx', '3_xxxx'], 'sTime': 1270, 'interval': 1}").
Definition CtrlPointSendUpdateRule : list Z :=
  json (zs "updateRule") (zs "13")
    (zs "{'ruleId': 'xx12345', 'ruleVersion': '1', 'ruleType': 1, 'repeat': 0, 'days': ['Mon'], 'sOn': ['0_xxxx', '2_xxxx'], 'sOff': ['1_xxxx', '3_xxxx'], 'sTime': 1320, 'interval': 1}").
Definition CtrlPointSendDelRule : list Z := json (zs "delRule") (zs "14") (zs "{'ruleId': 'xx12345'}").
Definition CtrlPointSubscribe : list Z := json (zs "subscribe") (zs "8") (zs "{}").
Definition CtrlPointUnSubscribe : list Z := json (zs "unSubscribe") (zs "9") (zs "{}").
Definition CtrlPointSendSetName : list Z := json (zs "setName") (zs "5") (zs "{'name':'Bed Room'}").
Definition CtrlPointSendReset : list Z := json (zs "reset") (zs "6") (zs "{}").
Definition CtrlPointSendReboot : list Z := json (zs "reboot") (zs "7") (zs "{}").

(** The action of a command that has one. *)
Definition command_action (c : cmdloop_tvcmds) : option (list Z) :=
  match c with
  | POWON => Some CtrlPointSendPowerOn
  | POWOFF => Some CtrlPointSendPowerOff
  | GETAPLIST => Some CtrlPointSendGetAPList
  | CONNECTTOAP => Some CtrlPointSendConnectToAP
  | CLOSEAP => Some CtrlPointSendCloseAP
  | GETDEVINFO => Some CtrlPointSendGetDevInfo
  | SETSWITCHNAME => Some CtrlPointSendSetSwitchName
  | SETSWITCHVAL => Some CtrlPointSendSetSwitchVal
  | SETSWITCHTYPE => Some CtrlPointSendSetSwitchType
  | ADDRULE => Some CtrlPointSendAddRule
  | UPDATERULE => Some CtrlPointSendUpdateRule
  | DELRULE => Some CtrlPointSendDelRule
  | CMD_SUBSCRIBE => Some CtrlPointSubscribe
  | CMD_UNSUBSCRIBE => Some CtrlPointUnSubscribe
  | SETNAME => Some CtrlPointSendSetName
  | CMD_RESET => Some CtrlPointSendReset
  | REBOOT => Some CtrlPointSendReboot
  | PRTHELP | PRTFULLHELP | LSTDEV | REFRESH | EXITCMD => None
  end.

(** [sscanf (cmdline, "%s %d %d", ...)]: the number of conversions, the word and the
    numbers. *)
Fixpoint read_word (l : list Z) : list Z * list Z :=
  match l with
  | c :: l' => if isspace c then ([], l) else let '(w, r) := read_word l' in (c :: w, r)
  | [] => ([], [])
  end.
Definition sscanf_s_d_d (s : list Z) : Z * list Z * list Z :=
  match skip_space (cstr s) with
  | [] => (-1, [], [])
  | l =>
      let '(w, r) := read_word l in
      match scan_d r with
      | None => (1, w, [])
      | Some (a, r) => match scan_d r with None => (2, w, [a]) | Some (b, _) => (3, w, [a; b]) end
      end
  end.
Definition CMD_SIZE : Z := 100.
(** [fgets (cmdline, n, stdin)]: the line that is read, with its NUL, and the input left. *)
Fixpoint fgets_loop (n : nat) (input : list Z) : list Z * list Z :=
  match n, input with
  | S n, c :: input => if c =? LF then ([LF], input) else let '(l, r) := fgets_loop n input in (c :: l, r)
  | _, _ => ([], input)
  end.
Definition fgets (n : nat) (input : list Z) : option (list Z * list Z) :=
  match input with [] => None | _ => let '(l, r) := fgets_loop (n - 1) input in Some (l ++ [0], r) end.
Definition arg_val_err : Z := -99999.

(** The first entry of that name. *)
Definition find_command (cmd : list Z) : option (cmdloop_tvcmds * Z) :=
  '(_, c, n) ← snd <$> list_find (fun e => strcasecmp cmd e.1.1 = 0) cmdloop_cmdlist; Some (c, n).

(** ** The program *)

Record ctrlpt := CtrlPt {
  cp_devices : devices;
  ctrlpt_handle : Z;
  cp_sdk : sdk;
  TvCtrlPointTimerLoopRun : bool;
  cp_searches : list (Z * list Z);       (* the searches asked for *)
  cp_subscribes : list (list Z * Z);     (* the subscriptions asked for *)
  cp_jobs : list action_param            (* the jobs of actions *)
}.
Definition set_devices (d : devices) (s : ctrlpt) : ctrlpt :=
  CtrlPt d (ctrlpt_handle s) (cp_sdk s) (TvCtrlPointTimerLoopRun s) (cp_searches s) (cp_subscribes s) (cp_jobs s).
Definition add_searches (l : list (Z * list Z)) (s : ctrlpt) : ctrlpt :=
  CtrlPt (cp_devices s) (ctrlpt_handle s) (cp_sdk s) (TvCtrlPointTimerLoopRun s) (cp_searches s ++ l) (cp_subscribes s) (cp_jobs s).
Definition add_subscribe (u : list Z * Z) (s : ctrlpt) : ctrlpt :=
  CtrlPt (cp_devices s) (ctrlpt_handle s) (cp_sdk s) (TvCtrlPointTimerLoopRun s) (cp_searches s) (cp_subscribes s ++ [u]) (cp_jobs s).
Definition add_job (j : option action_param) (s : ctrlpt) : ctrlpt :=
  CtrlPt (cp_devices s) (ctrlpt_handle s) (cp_sdk s) (TvCtrlPointTimerLoopRun s) (cp_searches s) (cp_subscribes s)
         (cp_jobs s ++ match j with Some j => [j] | None => [] end).
Definition set_sdk (k : sdk) (s : ctrlpt) : ctrlpt :=
  CtrlPt (cp_devices s) (ctrlpt_handle s) k (TvCtrlPointTimerLoopRun s) (cp_searches s) (cp_subscribes s) (cp_jobs s).
Definition set_handle (h : Z) (s : ctrlpt) : ctrlpt :=
  CtrlPt (cp_devices s) h (cp_sdk s) (TvCtrlPointTimerLoopRun s) (cp_searches s) (cp_subscribes s) (cp_jobs s).
Definition stop_timer (s : ctrlpt) : ctrlpt :=
  CtrlPt (cp_devices s) (ctrlpt_handle s) (cp_sdk s) false (cp_searches s) (cp_subscribes s) (cp_jobs s).

(** An event of the library; the event of an action is null. *)
Inductive cp_event :=
| EvDiscovery (e : discovery_event) (d : option Upnp_Discovery)
| EvAction
| EvGena (e : event_type) (PublisherUrl : list Z).

(** The answers of the library and the allocator: the result of [UpnpSearchAsync], the
    memory of an action, and the pool's answer to its job. *)
Record cp_env := CpEnv { ce_search : Z; ce_malloc : bool; ce_add : Z }.

Section CtrlPt.
Context `{Heap, Malloc, Resolver}.
Variable web_server : bool.
Variable handler : Z.          (* the address of CtrlPointCallbackEventHandler *)
Variable cookie : Z.           (* the address of ctrlpt_handle *)
Implicit Types (s : ctrlpt) (e : cp_env).

Definition CtrlPointRefresh e s : option (Z * ctrlpt) :=
  '(_, d) ← CtrlPointRemoveAll (cp_devices s);
  let s := add_searches [(5, OhmSearchType)] (set_devices d s) in
  Some (if negb (ce_search e =? UPNP_E_SUCCESS) then CP_ERROR else SUCCESS, s).

Definition CtrlPointSendAction e (devnum : Z) (actionname : list Z) s : option (Z * ctrlpt) :=
  '(rc, devnode) ← CtrlPointGetDevice devnum (cp_devices s);
  match devnode with
  | Some p =>
      x ← dv_heap (cp_devices s) !! p;
      let '(rc, job) := UpnpSendActionAsync (k_init (cp_sdk s)) (k_table (cp_sdk s)) (ctrlpt_handle s)
                          (Some (ohm_Location (device x))) (Some actionname) None handler 0 (ce_malloc e) (ce_add e) in
      Some (if negb (rc =? UPNP_E_SUCCESS) then CP_ERROR else rc, add_job job s)
  | None => Some (rc, s)
  end.

(** [None]: a fault. *)
Definition CtrlPointCallbackEventHandler (ev : cp_event) s : option ctrlpt :=
  match ev with
  | EvDiscovery UPNP_DISCOVERY_ADVERTISEMENT_ALIVE d | EvDiscovery UPNP_DISCOVERY_SEARCH_RESULT d =>
      d ← d; l ← CtrlPointAddDevice d (cp_devices s); Some (set_devices l s)
  | EvDiscovery UPNP_DISCOVERY_SEARCH_TIMEOUT _ => Some s
  | EvDiscovery UPNP_DISCOVERY_ADVERTISEMENT_BYEBYE d =>
      d ← d; '(_, l) ← CtrlPointRemoveDevice (event_UID d) (cp_devices s); Some (set_devices l s)
  | EvAction => Some s
  | EvGena UPNP_EVENT_AUTORENEWAL_FAILED url | EvGena UPNP_EVENT_SUBSCRIPTION_EXPIRED url =>
      Some (add_subscribe (url, default_timeout) s)
  | EvGena _ _ => Some s
  end.

Definition VERIFY_INCR : Z := 30.
(** A round of [CtrlPointTimerLoop], from the end of its sleep on: the timeouts are
    verified whatever happened during the sleep, then the loop reads its flag. *)
Definition timer_round s : option (bool * ctrlpt) :=
  '(d, l) ← CtrlPointVerifyTimeouts VERIFY_INCR (cp_devices s);
  Some (TvCtrlPointTimerLoopRun s, add_searches l (set_devices d s)).

Definition CtrlPointStop s : option (Z * ctrlpt) :=
  let s := stop_timer s in
  '(_, d) ← CtrlPointRemoveAll (cp_devices s);
  let s := set_devices d s in
  '(_, k) ← unregister_client (ctrlpt_handle s) (cp_sdk s);
  '(_, k) ← UpnpFinish web_server k;
  Some (SUCCESS, set_sdk k s).

(** The result, and whether the process goes on. *)
Definition CtrlPointProcessCommand e (cmdline : list Z) s : option (Z * bool * ctrlpt) :=
  let '(validargs, cmd, args) := sscanf_s_d_d cmdline in
  (* without a word the name is not set *)
  if validargs <? 1 then None
  else if CMD_SIZE <=? zlen cmd then None
  else
    let arg1 := default arg_val_err (args !! 0%nat) in
    match find_command cmd with
    | None => Some (SUCCESS, true, s)
    | Some (c, numargs) =>
        if negb (validargs =? numargs) then Some (SUCCESS, true, s)
        else match command_action c with
        | Some actionname => '(_, s) ← CtrlPointSendAction e arg1 actionname s; Some (SUCCESS, true, s)
        | None =>
            match c with
            | REFRESH => '(_, s) ← CtrlPointRefresh e s; Some (SUCCESS, true, s)
            | EXITCMD => '(rc, s) ← CtrlPointStop s; Some (rc, false, s)
            | _ => Some (SUCCESS, true, s)
            end
        end
    end.

(** A round of [CtrlPointCommandLoop]. *)
Definition command_round e (input : list Z) s : option (list Z * bool * ctrlpt) :=
  match fgets (Z.to_nat CMD_SIZE) input with
  | None => Some (input, true, s)
  | Some (cmdline, input) => '(_, go, s) ← CtrlPointProcessCommand e cmdline s; Some (input, go, s)
  end.

Definition CtrlPointStart (ie : init_env) (client_ok : bool) e s : option (Z * ctrlpt) :=
  '(rc, k) ← UpnpInit web_server ie None 0 (cp_sdk s);
  if negb (rc =? UPNP_E_SUCCESS) then '(_, k) ← UpnpFinish web_server k; Some (CP_ERROR, set_sdk k s)
  else
    let h := GetFreeHandle (k_table k) in
    '(rc, k) ← register_client client_ok handler cookie k;
    let s := set_handle h (set_sdk k s) in
    if negb (rc =? UPNP_E_SUCCESS) then '(_, k) ← UpnpFinish web_server k; Some (CP_ERROR, set_sdk k s)
    else
      '(_, s) ← CtrlPointRefresh e s;
      Some (SUCCESS, s).
End CtrlPt.
