(* ===== verification/CtrlPtFacts.v ===== *)
(** * The control point: facts

    The list of devices on its heap implements a sequence of devices; in every run of
    events, timer rounds and commands it is sound; and what a command sends. *)

From S2P Require Import Prelude CLib Codes Membuffer Uri Tables Scanner HttpParser LinkedList ThreadPool TimerThread TimerIface ClientTable Gena Ssdp Sock HttpMsg HttpIO Web Server Api ApiFacts Soap ListFacts CtrlPt.
#[local] Open Scope Z_scope.

(** ** The blocks of a list *)

Implicit Types (h : gmap Z DeviceNode) (l : list (Z * OhmDevice)).

(** From [p] to [m]: the addresses with their devices. *)
Fixpoint dseg h (p : Z) l (m : Z) : Prop :=
  match l with
  | [] => p = m
  | (a, d) :: l => p = a /\ a <> 0 /\ exists n, h !! a = Some (DNode d n) /\ dseg h n l m
  end.
(** The whole heap is the list. *)
Record dlist h (p : Z) l : Prop := {
  dl_seg : dseg h p l 0;
  dl_nodup : NoDup l.*1;
  dl_dom : forall a, is_Some (h !! a) <-> a ∈ l.*1
}.

Lemma dseg_app h p l1 l2 m : dseg h p (l1 ++ l2) m <-> exists k, dseg h p l1 k /\ dseg h k l2 m.
Proof.
  revert p. induction l1 as [|[a d] l1 IH]; intros p; cbn.
  - split; [intros Hs; by exists p|by intros (k & -> & Hs)].
  - split.
    + intros (-> & H0 & n & Hn & Hs). apply IH in Hs as (k & H1 & H2). exists k. split; [|done]. do 2 (split; [done|]). by exists n.
    + intros (k & (-> & H0 & n & Hn & H1) & H2). do 2 (split; [done|]). exists n. split; [done|]. apply IH. by exists k.
Qed.
Lemma dseg_frame h h' p l m : (forall a, a ∈ l.*1 -> h' !! a = h !! a) -> dseg h p l m -> dseg h' p l m.
Proof.
  revert p. induction l as [|[a d] l IH]; intros p Hf; [done|]. cbn. intros (-> & H0 & n & Hn & Hs). do 2 (split; [done|]).
  exists n. split; [rewrite Hf; [done|by left]|]. apply IH; [|done]. intros b Hb. apply Hf. by right.
Qed.
Lemma dlist_length h p l : dlist h p l -> length l = size h.
Proof.
  intros [_ Hn Hd]. rewrite <- (length_fmap fst l), <- (size_list_to_set (C := gset Z) l.*1 Hn), <- size_dom. f_equal.
  apply set_eq. intros a. rewrite elem_of_list_to_set, elem_of_dom. by rewrite Hd.
Qed.

(** A node in the middle. *)
Lemma dlist_node h p l1 c d l2 : dlist h p (l1 ++ (c, d) :: l2) ->
  c <> 0 /\ c ∉ l1.*1 /\ c ∉ l2.*1 /\ exists n, h !! c = Some (DNode d n) /\ dseg h p l1 c /\ dseg h n l2 0.
Proof.
  intros [Hs Hn _]. apply dseg_app in Hs as (k & H1 & H2). cbn in H2. destruct H2 as (-> & H0 & n & Hc & H2).
  rewrite fmap_app in Hn. cbn in Hn. apply NoDup_app in Hn as (_ & Hx & Hn). apply NoDup_cons in Hn as [Hc2 _].
  split; [done|]. split; [intros Hc1; apply (Hx c Hc1); by left|]. split; [done|]. by exists n.
Qed.
Lemma dlist_head h p l : dlist h p l -> match l with [] => p = 0 | (c, _) :: _ => p = c end.
Proof. intros [Hs _ _]. destruct l as [|[c d] l]; [done|]. by destruct Hs. Qed.

Lemma dlist_set h p l1 c d d' n l2 : dlist h p (l1 ++ (c, d) :: l2) -> h !! c = Some (DNode d n) ->
  dlist (<[c := DNode d' n]> h) p (l1 ++ (c, d') :: l2).
Proof.
  intros Hd Hc. pose proof (dlist_node _ _ _ _ _ _ Hd) as (H0 & Hc1 & Hc2 & n' & Hc' & Hs1 & Hs2).
  rewrite Hc in Hc'. injection Hc' as <-. destruct Hd as [_ Hn Hdom]. rewrite fmap_app in *. cbn in *. split.
  - apply dseg_app. exists c. split; [|cbn; split; [done|]; split; [done|]; exists n; split; [apply lookup_insert_eq|]].
    + eapply dseg_frame; [|exact Hs1]. intros a Ha. apply lookup_insert_ne. by intros ->.
    + eapply dseg_frame; [|exact Hs2]. intros a Ha. apply lookup_insert_ne. by intros ->.
  - by rewrite fmap_app.
  - intros a. rewrite fmap_app. cbn. rewrite lookup_insert_is_Some, <- Hdom. split.
    + intros [->|[_ Ha]]; [rewrite Hc; by eexists|done].
    + intros Ha. destruct (decide (c = a)); [by left|by right].
Qed.
Lemma dlist_unlink h p l1 v dv c d n l2 : dlist h p (l1 ++ (v, dv) :: (c, d) :: l2) -> h !! c = Some (DNode d n) ->
  dlist (delete c (<[v := DNode dv n]> h)) p (l1 ++ (v, dv) :: l2).
Proof.
  intros Hd Hc. pose proof (dlist_node _ _ _ _ _ _ Hd) as (H0 & Hv1 & Hv2 & n1 & Hv & Hs1 & Hs2).
  cbn in Hs2. destruct Hs2 as (-> & Hc0 & n' & Hc' & Hs2). rewrite Hc in Hc'. injection Hc' as <-.
  destruct Hd as [_ Hn Hdom]. rewrite fmap_app in *. cbn in *.
  apply NoDup_app in Hn as (Hn1 & Hx & Hn). apply NoDup_cons in Hn as [Hv' Hn]. apply NoDup_cons in Hn as [Hc2 Hn2].
  assert (Hc1 : c ∉ l1.*1) by (intros Hc1; apply (Hx c Hc1); right; by left).
  assert (Hvc : v <> c) by (intros ->; apply Hv2; by left).
  split.
  - apply dseg_app. exists v. split; [|cbn; split; [done|]; split; [done|]; exists n; split].
    + eapply dseg_frame; [|exact Hs1]. intros a Ha. rewrite lookup_delete_ne by (by intros ->). apply lookup_insert_ne. by intros ->.
    + rewrite lookup_delete_ne by done. apply lookup_insert_eq.
    + eapply dseg_frame; [|exact Hs2]. intros a Ha. rewrite lookup_delete_ne by (by intros ->).
      apply lookup_insert_ne. intros ->. apply Hv2. by right.
  - rewrite fmap_app. cbn. apply NoDup_app. split; [done|]. split; [|apply NoDup_cons; split; [|done]].
    + intros a Ha Hb. apply (Hx a Ha). apply elem_of_cons in Hb as [->|Hb]; [by left|by right; right].
    + intros Hb. apply Hv2. by right.
  - intros a. rewrite fmap_app, elem_of_app. cbn. rewrite elem_of_cons.
    destruct (decide (a = c)) as [->|Hac].
    + rewrite lookup_delete_eq. split; [by intros [? ?]|]. intros [?|[?|?]]; [done|congruence|done].
    + rewrite lookup_delete_ne by done. rewrite lookup_insert_is_Some, Hdom, elem_of_app, !elem_of_cons.
      destruct (decide (v = a)); intuition congruence.
Qed.
Lemma dlist_unhead h c d n l : dlist h c ((c, d) :: l) -> h !! c = Some (DNode d n) -> dlist (delete c h) n l.
Proof.
  intros [Hs Hn Hdom] Hc. cbn in Hs. destruct Hs as (_ & H0 & n' & Hc' & Hs). rewrite Hc in Hc'. injection Hc' as <-.
  cbn in Hn. apply NoDup_cons in Hn as [Hcl Hn]. split; [|done|].
  - eapply dseg_frame; [|exact Hs]. intros a Ha. rewrite lookup_delete_ne; [done|]. by intros ->.
  - intros a. destruct (decide (a = c)) as [->|Hac].
    + rewrite lookup_delete_eq. split; [by intros [? ?]|done].
    + rewrite lookup_delete_ne, Hdom by done. cbn. rewrite elem_of_cons. intuition congruence.
Qed.
Lemma dlist_single h a d : (forall b, h !! b = None) -> a <> 0 -> dlist (<[a := DNode d 0]> h) a [(a, d)].
Proof.
  intros He H0. split.
  - cbn. split; [done|]. split; [done|]. exists 0. split; [apply lookup_insert_eq|done].
  - cbn. apply NoDup_singleton.
  - intros b. cbn. rewrite lookup_insert_is_Some, list_elem_of_singleton. rewrite He. split; [intros [->|[_ [? ?]]]; done|intros ->; by left].
Qed.
Lemma dlist_append h p l t dt a d : dlist h p (l ++ [(t, dt)]) -> a <> 0 -> h !! a = None ->
  dlist (<[t := DNode dt a]> (<[a := DNode d 0]> h)) p (l ++ [(t, dt); (a, d)]).
Proof.
  intros Hd H0 Ha. pose proof (dlist_node _ _ _ _ _ _ Hd) as (Ht0 & Ht1 & _ & n & Ht & Hs & _).
  assert (Hat : a <> t) by (intros ->; congruence). destruct Hd as [_ Hn Hdom].
  assert (Hal : a ∉ l.*1).
  { intros Hal. assert (is_Some (h !! a)) as [? ?]; [|congruence]. apply Hdom. rewrite fmap_app. set_solver. }
  rewrite fmap_app in *. cbn in *. split.
  - apply dseg_app. exists t. split; [|cbn; split; [done|]; split; [done|]; exists a; split; [apply lookup_insert_eq|]].
    + eapply dseg_frame; [|exact Hs]. intros b Hb. rewrite !lookup_insert_ne; [done| |]; by intros ->.
    + split; [done|]. split; [done|]. exists 0. split; [|done]. rewrite lookup_insert_ne by done. apply lookup_insert_eq.
  - rewrite fmap_app. cbn. apply NoDup_app in Hn as (Hn & Hx & _). apply NoDup_app. split; [done|]. split.
    + intros b Hb Hc. apply elem_of_cons in Hc as [->|Hc]; [by apply Ht1|]. apply list_elem_of_singleton in Hc as ->. done.
    + apply NoDup_cons. split; [|apply NoDup_singleton]. rewrite list_elem_of_singleton. congruence.
  - intros b. rewrite fmap_app. cbn. rewrite !lookup_insert_is_Some, Hdom, !elem_of_app, !elem_of_cons, !elem_of_nil.
    destruct (decide (t = b)), (decide (a = b)); intuition congruence.
Qed.

Definition first_of l : Z := match l with [] => 0 | (c, _) :: _ => c end.
Lemma dlist_first h p l : dlist h p l -> p = first_of l.
Proof. intros H%dlist_head. by destruct l as [|[c d] l]. Qed.
Lemma dseg_first h p l : dseg h p l 0 -> p = first_of l.
Proof. destruct l as [|[c d] l]; [done|]. by intros [-> _]. Qed.
Lemma dlist_next h p l1 c d l2 : dlist h p (l1 ++ (c, d) :: l2) -> h !! c = Some (DNode d (first_of l2)) /\ c <> 0.
Proof. intros (H0 & _ & _ & n & Hn & _ & Hs)%dlist_node. split; [|done]. by rewrite <- (dseg_first _ _ _ Hs). Qed.

(** ** The sequence of devices *)

Definition is_dev (uid : list Z) (d : OhmDevice) : bool := strcmp (ohm_UID d) uid =? 0.
Fixpoint drop_dev (uid : list Z) (ds : list OhmDevice) : list OhmDevice :=
  match ds with [] => [] | d :: ds => if is_dev uid d then ds else d :: drop_dev uid ds end.
Fixpoint renew_dev (uid : list Z) (ds : list OhmDevice) : list OhmDevice :=
  match ds with [] => [] | d :: ds => if is_dev uid d then set_timeout 5 d :: ds else d :: renew_dev uid ds end.
Definition upsert_dev (d : OhmDevice) (ds : list OhmDevice) : list OhmDevice :=
  if existsb (is_dev (ohm_UID d)) ds then renew_dev (ohm_UID d) ds else ds ++ [d].
Definition age_dev (incr : Z) (d : OhmDevice) : OhmDevice := set_timeout (AdvrTimeOut d - incr) d.
Definition age_all (incr : Z) (ds : list OhmDevice) : list OhmDevice :=
  filter (fun d => 0 < AdvrTimeOut d) (map (age_dev incr) ds).
Definition expiring (incr : Z) (ds : list OhmDevice) : list (Z * list Z) :=
  map (fun d => (incr, ohm_DeviceType d)) (filter (fun d => AdvrTimeOut d < 2 * incr) (age_all incr ds)).
(** [devnum] counts from 1. *)
Definition nth_dev (devnum : Z) (ds : list OhmDevice) : option OhmDevice :=
  if devnum <=? 0 then None else ds !! Z.to_nat (devnum - 1).

Definition devs (s : devices) (ds : list OhmDevice) : Prop :=
  exists l, dlist (dv_heap s) (GlobalDeviceList s) l /\ l.*2 = ds.

Section Operations.
Context `{Heap}.

Lemma remove_dev_loop_ok uid f h p l1 v dv l2 :
  dlist h p (l1 ++ (v, dv) :: l2) -> (length l2 < f)%nat ->
  exists h' l', remove_dev_loop f uid v (first_of l2) h = Some h' /\ dlist h' p l'
    /\ l'.*2 = l1.*2 ++ dv :: drop_dev uid l2.*2.
Proof.
  revert l1 v dv l2. induction f as [|f IH]; intros l1 v dv l2 Hd Hf; [lia|]. destruct l2 as [|[c d] l2]; cbn.
  { exists h, (l1 ++ [(v, dv)]). split; [done|]. split; [exact Hd|]. by rewrite fmap_app. }
  pose proof (dlist_next h p (l1 ++ [(v, dv)]) c d l2) as Hc. rewrite <- app_assoc in Hc. specialize (Hc Hd) as [Hc Hc0].
  rewrite (proj2 (Z.eqb_neq c 0) Hc0), Hc. cbn [mbind option_bind device dn_next]. fold (is_dev uid d).
  destruct (is_dev uid d) eqn:E.
  - pose proof (dlist_next _ _ _ _ _ _ Hd) as [Hv _]. unfold dev_set_next. rewrite Hv. cbn [mbind option_bind device].
    assert (Hvc : v <> c).
    { intros ->. pose proof (dlist_node _ _ _ _ _ _ Hd) as (_ & _ & Hx & _). apply Hx. by left. }
    unfold CtrlPointDeleteNode. rewrite (proj2 (Z.eqb_neq c 0) Hc0), lookup_insert_ne, Hc by done. cbn [mbind option_bind].
    eexists _, _. split; [reflexivity|]. split; [by eapply dlist_unlink|]. rewrite fmap_app. done.
  - destruct (IH (l1 ++ [(v, dv)]) c d l2) as (h' & l' & E1 & E2 & E3); [by rewrite <- app_assoc|cbn in Hf; lia|].
    exists h', l'. split; [exact E1|]. split; [exact E2|]. rewrite E3, fmap_app, <- app_assoc. done.
Qed.

Lemma remove_device_ok uid s ds : devs s ds ->
  exists s', CtrlPointRemoveDevice uid s = Some (SUCCESS, s') /\ devs s' (drop_dev uid ds).
Proof.
  intros (l & Hd & <-). unfold CtrlPointRemoveDevice. pose proof (dlist_length _ _ _ Hd) as Hl.
  pose proof (dlist_first _ _ _ Hd) as Hp. rewrite Hp in Hd. rewrite Hp.
  destruct l as [|[c d] l]; cbn [first_of fmap list_fmap drop_dev snd] in *.
  { rewrite Z.eqb_refl. exists s. split; [done|]. exists []. by rewrite Hp. }
  pose proof (dlist_next _ _ [] c d l Hd) as [Hc Hc0]. rewrite (proj2 (Z.eqb_neq c 0) Hc0), Hc.
  cbn [mbind option_bind device dn_next]. fold (is_dev uid d). destruct (is_dev uid d) eqn:E.
  - unfold CtrlPointDeleteNode. rewrite (proj2 (Z.eqb_neq c 0) Hc0), Hc. cbn [mbind option_bind].
    eexists. split; [reflexivity|]. exists l. split; [|done]. by eapply dlist_unhead.
  - destruct (remove_dev_loop_ok uid (dev_fuel (dv_heap s)) (dv_heap s) c [] c d l) as (h' & l' & E1 & E2 & E3);
      [done|unfold dev_fuel; rewrite <- Hl; cbn; lia|].
    rewrite E1. cbn [mbind option_bind]. eexists. split; [reflexivity|]. exists l'. split; [exact E2|exact E3].
Qed.

Lemma remove_all_loop_ok f h l : dlist h (first_of l) l -> (length l < f)%nat ->
  exists h', remove_all_loop f (first_of l) h = Some h' /\ dlist h' 0 [].
Proof.
  revert h l. induction f as [|f IH]; intros h l Hd Hf; [lia|]. destruct l as [|[c d] l]; cbn [first_of remove_all_loop].
  { rewrite Z.eqb_refl. by exists h. }
  pose proof (dlist_next _ _ [] c d l Hd) as [Hc Hc0]. rewrite (proj2 (Z.eqb_neq c 0) Hc0), Hc. cbn [mbind option_bind dn_next].
  unfold CtrlPointDeleteNode. rewrite (proj2 (Z.eqb_neq c 0) Hc0), Hc. cbn [mbind option_bind].
  apply IH; [by eapply dlist_unhead|cbn in Hf; lia].
Qed.
Lemma remove_all_ok s ds : devs s ds -> exists s', CtrlPointRemoveAll s = Some (SUCCESS, s') /\ devs s' [].
Proof.
  intros (l & Hd & _). pose proof (dlist_length _ _ _ Hd) as Hl. unfold CtrlPointRemoveAll.
  pose proof (dlist_first _ _ _ Hd) as Hp. rewrite Hp in Hd. rewrite Hp.
  destruct (remove_all_loop_ok (dev_fuel (dv_heap s)) (dv_heap s) l Hd) as (h' & E & Hd'); [unfold dev_fuel; lia|].
  rewrite E. cbn [mbind option_bind]. eexists. split; [reflexivity|]. by exists [].
Qed.

Lemma get_dev_loop_ok f h l1 l2 count : dlist h (first_of (l1 ++ l2)) (l1 ++ l2) -> (length l2 < f)%nat ->
  INT_MIN + Z.of_nat f <= count ->
  exists p, get_dev_loop f count (first_of l2) h = Some p
    /\ match nth_dev count l2.*2 with
       | Some d => exists n, h !! p = Some (DNode d n) /\ p <> 0
       | None => p = 0
       end.
Proof.
  revert l1 l2 count. induction f as [|f IH]; intros l1 l2 count Hd Hf Hc; [lia|]. cbn [get_dev_loop].
  rewrite (proj2 (Z.leb_gt count INT_MIN)) by lia. unfold nth_dev. destruct l2 as [|[c d] l2]; cbn [first_of].
  { rewrite orb_true_r. eexists. split; [done|]. by destruct (count <=? 0). }
  pose proof (dlist_next _ _ _ _ _ _ Hd) as [Hn Hc0]. rewrite (proj2 (Z.eqb_neq c 0) Hc0), orb_false_r.
  destruct (Z.eqb_spec (count - 1) 0) as [E|E].
  { replace count with 1 by lia. cbn. eexists. split; [done|]. by eexists. }
  rewrite Hn. cbn [mbind option_bind dn_next]. rewrite cons_middle, app_assoc in Hd.
  destruct (IH (l1 ++ [(c, d)]) l2 (count - 1)) as (p & Ep & Hp); [exact Hd|cbn in Hf; lia|lia|].
  exists p. split; [exact Ep|]. unfold nth_dev in Hp. destruct (Z.leb_spec (count - 1) 0).
  - destruct (Z.leb_spec count 0); [done|lia].
  - rewrite (proj2 (Z.leb_gt count 0)) by lia. cbn [fmap list_fmap snd].
    replace (Z.to_nat (count - 1)) with (S (Z.to_nat (count - 1 - 1))) by lia. exact Hp.
Qed.
Lemma get_device_ok n s ds : devs s ds -> INT_MIN + Z.of_nat (length ds) + 1 <= n ->
  exists r, CtrlPointGetDevice n s = Some r
    /\ match nth_dev n ds with
       | Some d => exists p k, r = (SUCCESS, Some p) /\ dv_heap s !! p = Some (DNode d k)
       | None => r = (CP_ERROR, None)
       end.
Proof.
  intros (l & Hd & <-) Hn. unfold CtrlPointGetDevice. pose proof (dlist_length _ _ _ Hd) as Hl.
  pose proof (dlist_first _ _ _ Hd) as Hp. rewrite Hp in Hd. rewrite Hp. rewrite length_fmap in Hn.
  destruct (Z.eqb_spec n 0) as [->|H0]; cbn [negb].
  { cbn -[INT_MIN]. unfold dev_fuel. cbn. by eexists. }
  destruct (get_dev_loop_ok (dev_fuel (dv_heap s)) (dv_heap s) [] l n) as (p & Ep & Hq); [exact Hd|unfold dev_fuel; lia|unfold dev_fuel; lia|].
  rewrite Ep. cbn [mbind option_bind]. eexists. split; [reflexivity|]. destruct (nth_dev n l.*2) as [d|].
  - destruct Hq as (k & Hk & Hp0). rewrite (proj2 (Z.eqb_neq p 0) Hp0). by exists p, k.
  - subst p. done.
Qed.

Lemma find_dev_loop_ok uid f h p l1 l2 : dlist h p (l1 ++ l2) -> (length l2 < f)%nat ->
  if existsb (is_dev uid) l2.*2 then
    exists a c d b, l2 = a ++ (c, d) :: b /\ find_dev_loop f uid (first_of l2) h = Some c
      /\ renew_dev uid l2.*2 = a.*2 ++ set_timeout 5 d :: b.*2
  else find_dev_loop f uid (first_of l2) h = Some 0.
Proof.
  revert l1 l2. induction f as [|f IH]; intros l1 l2 Hd Hf; [lia|]. destruct l2 as [|[c d] l2]; [done|].
  pose proof (dlist_next _ _ _ _ _ _ Hd) as [Hn Hc0]. cbn [find_dev_loop first_of existsb fmap list_fmap snd renew_dev].
  rewrite (proj2 (Z.eqb_neq c 0) Hc0), Hn. cbn [mbind option_bind device dn_next]. fold (is_dev uid d).
  destruct (is_dev uid d); cbn [orb]. { by exists [], c, d, l2. }
  specialize (IH (l1 ++ [(c, d)]) l2). rewrite <- app_assoc in IH. specialize (IH Hd ltac:(cbn in Hf; lia)).
  destruct (existsb (is_dev uid) l2.*2); [|exact IH]. destruct IH as (a & c' & d' & b & -> & E & Er).
  exists ((c, d) :: a), c', d', b. split; [done|]. split; [exact E|]. cbn. by rewrite Er.
Qed.

Lemma append_dev_loop_ok f h p l1 c d l2 a nd : dlist h p (l1 ++ (c, d) :: l2) -> (length l2 < f)%nat -> h !! a = None ->
  exists l0 t dt, (c, d) :: l2 = l0 ++ [(t, dt)]
    /\ append_dev_loop f c a (<[a := nd]> h) = Some (<[t := DNode dt a]> (<[a := nd]> h)).
Proof.
  revert l1 c d l2. induction f as [|f IH]; intros l1 c d l2 Hd Hf Ha; [lia|]. cbn [append_dev_loop].
  pose proof (dlist_next _ _ _ _ _ _ Hd) as [Hn Hc0]. assert (a <> c) by congruence.
  rewrite lookup_insert_ne, Hn by done. cbn [mbind option_bind dn_next]. destruct l2 as [|[c' d'] l2]; cbn [first_of].
  - rewrite Z.eqb_refl. cbn [negb]. exists [], c, d. split; [done|]. unfold dev_set_next. by rewrite lookup_insert_ne, Hn by done.
  - rewrite cons_middle, app_assoc in Hd. pose proof (dlist_next _ _ _ _ _ _ Hd) as [_ Hc0']. rewrite (proj2 (Z.eqb_neq c' 0) Hc0'). cbn [negb].
    destruct (IH (l1 ++ [(c, d)]) c' d' l2 Hd) as (l0 & t & dt & E & E2); [cbn in Hf; lia|done|].
    exists ((c, d) :: l0), t, dt. split; [|exact E2]. cbn. by rewrite E.
Qed.

(** The device of an event, if it is one and fits. *)
Definition event_device (d : Upnp_Discovery) : OhmDevice := Ohm (event_UID d) (event_DeviceType d) (event_Location d) 5.
Definition is_ohm_device (d : Upnp_Discovery) : bool := strcmp (event_DeviceType d) OhmDeviceType =? 0.
Definition event_fits (d : Upnp_Discovery) : Prop :=
  is_ohm_device d = true -> zlen (event_UID d) < OHM_FIELD /\ zlen (event_DeviceType d) < OHM_FIELD /\ zlen (event_Location d) < OHM_FIELD.

Lemma add_device_ok d s ds : (forall u n, is_Some (malloc u n)) -> event_fits d -> devs s ds ->
  exists s', CtrlPointAddDevice d s = Some s' /\ devs s' (if is_ohm_device d then upsert_dev (event_device d) ds else ds).
Proof.
  intros Hm Hfit (l & Hd & <-). unfold CtrlPointAddDevice. fold (is_ohm_device d).
  destruct (is_ohm_device d) eqn:Eo; cbn [negb]; [|exists s; split; [done|]; by exists l].
  destruct (Hfit Eo) as (F1 & F2 & F3). pose proof (dlist_length _ _ _ Hd) as Hl.
  pose proof (find_dev_loop_ok (event_UID d) (dev_fuel (dv_heap s)) _ _ [] l Hd ltac:(unfold dev_fuel; lia)) as Hf.
  rewrite <- (dlist_first _ _ _ Hd) in Hf. unfold upsert_dev, event_device. cbn [ohm_UID].
  destruct (existsb (is_dev (event_UID d)) l.*2).
  - destruct Hf as (a & c & x & b & -> & E & Er). rewrite E. cbn [mbind option_bind].
    pose proof (dlist_next _ _ _ _ _ _ Hd) as [Hn Hc0]. rewrite (proj2 (Z.eqb_neq c 0) Hc0). cbn [negb]. rewrite Hn.
    cbn [mbind option_bind device dn_next]. eexists. split; [reflexivity|]. rewrite Er.
    exists (a ++ (c, set_timeout 5 x) :: b). split; [by eapply dlist_set|]. by rewrite fmap_app.
  - rewrite Hf. cbn [mbind option_bind]. change (negb (0 =? 0)) with false. cbn iota.
    destruct (Hm (dom (dv_heap s)) sizeof_DeviceNode) as [q Hq]. rewrite Hq. cbn [mbind option_bind].
    destruct (malloc_ok _ _ _ Hq) as [Hq0 Hqd]. apply not_elem_of_dom in Hqd. unfold dev_field.
    rewrite !(proj2 (Z.leb_gt _ _)) by done. cbn [mbind option_bind].
    destruct l as [|[c x] l].
    + rewrite (dlist_first _ _ _ Hd). cbn [first_of]. change (negb (0 =? 0)) with false. cbn iota.
      eexists. split; [reflexivity|]. eexists. split; [apply dlist_single; [|done]|done]. intros b. destruct Hd as [_ _ Hdom].
      apply eq_None_not_Some. rewrite Hdom. cbn. apply not_elem_of_nil.
    + pose proof (dlist_first _ _ _ Hd) as Hp. cbn [first_of] in Hp. rewrite Hp. pose proof (dlist_next _ _ [] c x l Hd) as [_ Hc0].
      rewrite (proj2 (Z.eqb_neq c 0) Hc0). cbn [negb].
      destruct (append_dev_loop_ok (dev_fuel (<[q := DNode (event_device d) 0]> (dv_heap s))) _ _ [] c x l q (DNode (event_device d) 0) Hd)
        as (l0 & t & dt & El & E); [|done|].
      { unfold dev_fuel. rewrite map_size_insert_None by done. cbn in Hl. lia. }
      unfold event_device in E. rewrite E. cbn [mbind option_bind]. eexists. split; [reflexivity|].
      rewrite El in *. exists (l0 ++ [(t, dt); (q, event_device d)]). split.
      * eapply dlist_append; [|done|done]. cbn [GlobalDeviceList]. rewrite <- Hp. exact Hd.
      * rewrite !fmap_app. cbn. by rewrite <- app_assoc.
Qed.

(** The last address of the nodes that stay. *)
Definition last_of l : Z := match last l with Some (c, _) => c | None => 0 end.
Lemma last_of_snoc l v d : last_of (l ++ [(v, d)]) = v.
Proof. unfold last_of. by rewrite last_snoc. Qed.

Lemma verify_loop_ok incr f s l1 l2 :
  dlist (dv_heap s) (GlobalDeviceList s) (l1 ++ l2) -> (length l2 < f)%nat ->
  Forall (fun d => INT_MIN <= AdvrTimeOut d - incr) l2.*2 ->
  exists s' l', verify_loop f incr (last_of l1) (first_of l2) s = Some (s', expiring incr l2.*2)
    /\ dlist (dv_heap s') (GlobalDeviceList s') l' /\ l'.*2 = l1.*2 ++ age_all incr l2.*2.
Proof.
  revert s l1 l2. induction f as [|f IH]; intros s l1 l2 Hd Hf Ht; [lia|]. cbn [verify_loop].
  destruct l2 as [|[c d] l2]; cbn [first_of].
  { rewrite Z.eqb_refl. exists s, (l1 ++ []). split; [done|]. split; [exact Hd|]. by rewrite fmap_app. }
  pose proof (dlist_next _ _ _ _ _ _ Hd) as [Hn Hc0]. rewrite (proj2 (Z.eqb_neq c 0) Hc0), Hn.
  cbn [mbind option_bind device dn_next]. cbn [fmap list_fmap snd] in Ht. apply Forall_cons in Ht as [Htd Ht].
  set (t := AdvrTimeOut d - incr) in *. rewrite (proj2 (Z.ltb_ge t INT_MIN)) by done.
  pose proof (dlist_set _ _ _ _ _ (set_timeout t d) _ _ Hd Hn) as Hd'. set (h := <[c := _]> (dv_heap s)) in *.
  assert (Hnh : h !! c = Some (DNode (set_timeout t d) (first_of l2))) by apply lookup_insert_eq.
  unfold age_all, expiring, age_all. cbn [map fmap list_fmap snd]. change (age_dev incr d) with (set_timeout t d).
  destruct (Z.leb_spec t 0) as [Hle|Hgt].
  - (* the device has expired *)
    rewrite filter_cons_False by (cbn; lia). fold (age_all incr l2.*2). fold (expiring incr l2.*2).
    destruct (decide (l1 = [])) as [->|Hne].
    + pose proof (dlist_first _ _ _ Hd) as Hp. cbn [app first_of] in Hp. rewrite Hp, (Z.eqb_refl c). cbn [mbind option_bind].
      unfold CtrlPointDeleteNode. rewrite (proj2 (Z.eqb_neq c 0) Hc0), Hnh. cbn [mbind option_bind].
      change (last_of [] =? 0) with true. cbn [negb]. cbn iota. cbn [mbind option_bind].
      cbn [app] in Hd'. rewrite Hp in Hd'. apply (IH (Devices (delete c h) (first_of l2)) [] l2); [|cbn in Hf; lia|exact Ht].
      by eapply dlist_unhead.
    + destruct (exists_last Hne) as (l0 & [v dv] & ->). rewrite last_of_snoc.
      rewrite <- app_assoc in Hd'. cbn [app] in Hd'. pose proof (dlist_next _ _ _ _ _ _ Hd') as [Hv Hv0].
      assert (Hpc : GlobalDeviceList s <> c).
      { intros Hpc. pose proof (dlist_node _ _ _ _ _ _ Hd) as (_ & Hx & _). pose proof (dlist_first _ _ _ Hd) as Hp.
        rewrite Hpc in Hp. apply Hx. rewrite Hp. destruct l0 as [|[a da] l0]; by left. }
      rewrite (proj2 (Z.eqb_neq _ c) Hpc). unfold dev_set_next. rewrite Hv. cbn [mbind option_bind device].
      assert (Hvc : v <> c).
      { intros ->. pose proof (dlist_node _ _ _ _ _ _ Hd') as (_ & _ & Hx & _). apply Hx. by left. }
      unfold CtrlPointDeleteNode. rewrite (proj2 (Z.eqb_neq c 0) Hc0), lookup_insert_ne, Hnh by done. cbn [mbind option_bind].
      rewrite (proj2 (Z.eqb_neq v 0) Hv0). cbn [negb]. rewrite lookup_delete_ne, lookup_insert_eq by done. cbn [fmap option_fmap option_map mbind option_bind dn_next].
      assert (Hd2 : dlist (delete c (<[v := DNode dv (first_of l2)]> h)) (GlobalDeviceList s) ((l0 ++ [(v, dv)]) ++ l2)).
      { rewrite <- app_assoc. by eapply dlist_unlink. }
      pose proof (IH (Devices _ _) (l0 ++ [(v, dv)]) l2 Hd2 ltac:(cbn in Hf; lia) Ht) as IH'. by rewrite last_of_snoc in IH'.
  - (* it stays *)
    rewrite filter_cons_True by (cbn; lia). fold (age_all incr l2.*2).
    rewrite cons_middle, app_assoc in Hd'.
    destruct (IH (Devices h (GlobalDeviceList s)) (l1 ++ [(c, set_timeout t d)]) l2 Hd') as (s' & l' & E & D & L); [cbn in Hf; lia|exact Ht|].
    rewrite last_of_snoc in E. rewrite E. cbn [mbind option_bind]. exists s', l'. split; [|split; [exact D|]].
    + do 2 f_equal. destruct (Z.ltb_spec t (2 * incr)); [rewrite filter_cons_True by (cbn; lia)|rewrite filter_cons_False by (cbn; lia)]; done.
    + rewrite L, fmap_app, <- app_assoc. done.
Qed.
Lemma verify_ok incr s ds : devs s ds -> Forall (fun d => INT_MIN <= AdvrTimeOut d - incr) ds ->
  exists s', CtrlPointVerifyTimeouts incr s = Some (s', expiring incr ds) /\ devs s' (age_all incr ds).
Proof.
  intros (l & Hd & <-) Ht. unfold CtrlPointVerifyTimeouts. pose proof (dlist_length _ _ _ Hd) as Hl.
  destruct (verify_loop_ok incr (dev_fuel (dv_heap s)) s [] l Hd) as (s' & l' & E & D & L); [unfold dev_fuel; lia|exact Ht|].
  change (last_of []) with 0 in E. rewrite <- (dlist_first _ _ _ Hd) in E. exists s'. split; [exact E|]. by exists l'.
Qed.

(** C20. Every operation on the list of devices, on the blocks of its heap, implements the
    operation on the sequence of devices, without a fault: the first device of a UID is
    dropped; a device that is known is renewed in its place and a new one comes last;
    all age by the same time, those that run out leave and those near their end are
    searched for; a number gives the device at that place, counted from 1, or none. *)
Theorem devices_refine s ds : (forall u n, is_Some (malloc u n)) -> devs s ds ->
  (forall uid, exists s', CtrlPointRemoveDevice uid s = Some (SUCCESS, s') /\ devs s' (drop_dev uid ds))
  /\ (exists s', CtrlPointRemoveAll s = Some (SUCCESS, s') /\ devs s' [])
  /\ (forall d, event_fits d -> exists s', CtrlPointAddDevice d s = Some s'
        /\ devs s' (if is_ohm_device d then upsert_dev (event_device d) ds else ds))
  /\ (forall incr, Forall (fun d => INT_MIN <= AdvrTimeOut d - incr) ds ->
        exists s', CtrlPointVerifyTimeouts incr s = Some (s', expiring incr ds) /\ devs s' (age_all incr ds))
  /\ (forall n, INT_MIN + Z.of_nat (length ds) + 1 <= n -> exists r, CtrlPointGetDevice n s = Some r
        /\ match nth_dev n ds with
           | Some d => exists p k, r = (SUCCESS, Some p) /\ dv_heap s !! p = Some (DNode d k)
           | None => r = (CP_ERROR, None)
           end).
Proof.
  intros Hm Hs. split_and!; intros; [by apply remove_device_ok|by eapply remove_all_ok|by apply add_device_ok|by apply verify_ok|by apply get_device_ok].
Qed.
End Operations.

(** ** Events *)

Lemma strcmp_eq a b : Forall is_char a -> Forall is_char b -> strcmp a b = 0 -> cstr a = cstr b.
Proof.
  intros Ha Hb. unfold strcmp. rewrite strncmp_zero by done. rewrite cstr_ztake_ge by lia. intros E.
  destruct (Z.le_gt_cases (strlen b) (strlen a + 1)) as [Hl|Hl]; [by rewrite cstr_ztake_ge in E by lia|].
  exfalso. pose proof (strlen_nonneg a). assert (Hs : zlen (cstr (ztake (strlen a + 1) b)) = strlen a) by (rewrite <- E; done).
  rewrite cstr_id in Hs.
  - rewrite zlen_ztake in Hs. pose proof (strlen_le b). lia.
  - assert (Ht : ztake (strlen a + 1) b = ztake (strlen a + 1) (cstr b)).
    { rewrite cstr_ztake. unfold ztake. rewrite take_take. f_equal. unfold strlen in *. lia. }
    rewrite Ht. apply Forall_take, cstr_no_nul.
Qed.
Lemma strcmp_refl a : Forall is_char a -> strcmp a a = 0.
Proof. intros Ha. unfold strcmp. by apply strncmp_zero. Qed.

Lemma cstr_app_cases a b : (0 ∉ a /\ cstr (a ++ b) = a ++ cstr b) \/ (0 ∈ a /\ cstr (a ++ b) = cstr a).
Proof.
  induction a as [|c a IH]; [left; split; [apply not_elem_of_nil|done]|]. cbn. destruct (Z.eqb_spec c 0) as [->|Hc]; [right; split; [by left|done]|].
  destruct IH as [[Hn ->]|[Hi ->]]; [left|right]; (split; [|done]).
  - apply not_elem_of_cons. split; [congruence|done].
  - by right.
Qed.
Lemma cstr_app_le a b : zlen (cstr (a ++ b)) <= zlen a + zlen (cstr b).
Proof.
  pose proof (zlen_nonneg (cstr b)). destruct (cstr_app_cases a b) as [[_ ->]|[_ ->]]; [rewrite zlen_app; lia|].
  pose proof (cstr_le a). lia.
Qed.

(** What the library gives to a callback: two full arrays and a string, of characters. *)
Record event_ok (d : Upnp_Discovery) : Prop := {
  eo_uid : zlen (UID d) = FixedCopy.LINE_SIZE;
  eo_type : zlen (DeviceType d) = FixedCopy.LINE_SIZE;
  eo_loc : strlen (Location d) < FixedCopy.LINE_SIZE;
  eo_chars : Forall is_char (UID d ++ DeviceType d ++ cstr (Location d))
}.
Lemma cstr_chars (t : list Z) : Forall is_char t -> Forall is_char (cstr t).
Proof. intros Hl. rewrite cstr_ztake. by apply Forall_take. Qed.
Lemma cstr_app_chars (a b : list Z) : Forall is_char a -> Forall is_char (cstr b) -> Forall is_char (cstr (a ++ b)).
Proof.
  intros Ha Hb. destruct (cstr_app_cases a b) as [[_ ->]|[_ ->]]; [by apply Forall_app|by apply cstr_chars].
Qed.
(** A device's type bounds the text of its UID even when that array is full. *)
Lemma event_ok_fits d : event_ok d -> is_ohm_device d = true ->
  event_DeviceType d = OhmDeviceType /\ zlen (event_UID d) < OHM_FIELD /\ zlen (event_Location d) < FixedCopy.LINE_SIZE.
Proof.
  intros [Hu Ht Hl Hc] Ho. unfold is_ohm_device in Ho. apply Z.eqb_eq in Ho.
  apply Forall_app in Hc as [Hcu Hc]. assert (Hd : event_DeviceType d = OhmDeviceType).
  { apply strcmp_eq in Ho; [|by apply Forall_app in Hc as [? ?]; apply cstr_app_chars|by repeat constructor].
    unfold event_DeviceType in *. rewrite (cstr_id (cstr _)) in Ho by apply cstr_no_nul. exact Ho. }
  split; [exact Hd|]. split; [|exact Hl]. unfold event_UID. pose proof (cstr_app_le (UID d) (DeviceType d ++ Location d)) as Hle.
  unfold event_DeviceType in Hd. rewrite Hd, Hu in Hle. change (zlen OhmDeviceType) with 9 in Hle.
  unfold FixedCopy.LINE_SIZE, OHM_FIELD in *. lia.
Qed.
Lemma event_fits_ok d : event_ok d -> event_fits d.
Proof.
  intros Hd Ho. destruct (event_ok_fits d Hd Ho) as (Ht & Hu & Hl). split; [exact Hu|]. split.
  - rewrite Ht. by vm_compute.
  - unfold FixedCopy.LINE_SIZE, OHM_FIELD in *. lia.
Qed.

(** ** The list in a run *)

(** A device of the list. *)
Record dev_ok (d : OhmDevice) : Prop := {
  do_type : ohm_DeviceType d = OhmDeviceType;
  do_time : 0 < AdvrTimeOut d <= 5;
  do_loc : strlen (ohm_Location d) < FixedCopy.LINE_SIZE /\ cstr (ohm_Location d) = ohm_Location d;
  do_uid : Forall is_char (ohm_UID d)
}.
Definition dev_list_ok (ds : list OhmDevice) : Prop := NoDup (map ohm_UID ds) /\ Forall dev_ok ds.

Lemma drop_dev_sub uid ds : sublist (drop_dev uid ds) ds.
Proof. induction ds as [|d ds IH]; cbn; [done|]. case_match; [by apply sublist_cons|by apply sublist_skip]. Qed.
Lemma dev_list_sub ds ds' : sublist ds' ds -> dev_list_ok ds -> dev_list_ok ds'.
Proof.
  intros Hs [Hn Hf]. split.
  - eapply sublist_NoDup; [exact Hn|]. by apply (fmap_sublist ohm_UID).
  - rewrite Forall_forall in *. intros d Hd. apply Hf. by eapply elem_of_sublist.
Qed.

Lemma renew_uids uid ds : map ohm_UID (renew_dev uid ds) = map ohm_UID ds.
Proof. induction ds as [|d ds IH]; [done|]. cbn. case_match; cbn; [done|by rewrite IH]. Qed.
Lemma dev_ok_renew d : dev_ok d -> dev_ok (set_timeout 5 d).
Proof. intros [? ? ? ?]. split; cbn; [done|lia|done|done]. Qed.
Lemma renew_ok uid ds : Forall dev_ok ds -> Forall dev_ok (renew_dev uid ds).
Proof.
  induction 1 as [|d ds Hd Hf IH]; cbn; [constructor|]. case_match; (constructor; [|done]); [by apply dev_ok_renew|done].
Qed.
Lemma event_device_ok d : event_ok d -> is_ohm_device d = true -> dev_ok (event_device d).
Proof.
  intros He Ho. destruct (event_ok_fits d He Ho) as (Ht & _ & Hl). split; cbn [event_device ohm_DeviceType ohm_UID ohm_Location AdvrTimeOut].
  - exact Ht.
  - lia.
  - assert (E : cstr (event_Location d) = event_Location d) by (apply cstr_id, cstr_no_nul). split; [|exact E].
    unfold strlen. by rewrite E.
  - destruct He as [_ _ _ [Hu [Hd Hc]%Forall_app]%Forall_app]. by apply cstr_app_chars, cstr_app_chars.
Qed.
Lemma upsert_ok d ds : dev_ok d -> dev_list_ok ds -> dev_list_ok (upsert_dev d ds).
Proof.
  intros Hd [Hn Hf]. unfold upsert_dev. destruct (existsb _ ds) eqn:E.
  - split; [by rewrite renew_uids|by apply renew_ok].
  - split; [|apply Forall_app; split; [done|by constructor]]. rewrite map_app. cbn. apply NoDup_app. split; [done|].
    split; [|apply NoDup_singleton]. intros u Hu Hu'. apply list_elem_of_singleton in Hu' as ->.
    apply list_elem_of_fmap in Hu as (x & Hx & Hin). apply not_true_iff_false in E. apply E, existsb_exists.
    exists x. split; [by apply list_elem_of_In|]. unfold is_dev. rewrite <- Hx. apply Z.eqb_eq, strcmp_refl, Hd.
Qed.
(** A round of the timer takes more than any device has. *)
Lemma age_all_none ds : Forall dev_ok ds -> age_all VERIFY_INCR ds = [] /\ expiring VERIFY_INCR ds = [].
Proof.
  intros Hf. assert (E : age_all VERIFY_INCR ds = []).
  { unfold age_all. induction Hf as [|d ds [_ Ht _ _] _ IH]; [done|]. cbn [map]. rewrite filter_cons_False; [exact IH|].
    cbn. unfold VERIFY_INCR. lia. }
  split; [done|]. unfold expiring. by rewrite E.
Qed.

(** ** The program *)

Section Program.
Context `{HH : Heap, HM : Malloc, HR : Resolver} (web_server : bool) (handler cookie : Z).
Hypothesis malloc_some : forall u n, is_Some (malloc u n).
Hypothesis handler_set : handler <> 0.
Implicit Types (s : ctrlpt).

(** The library runs with the client; the list is sound. *)
Record cp_ok s (ds : list OhmDevice) : Prop := {
  co_devs : devs (cp_devices s) ds;
  co_list : dev_list_ok ds;
  co_lib : lib_ok (cp_sdk s);
  co_init : k_init (cp_sdk s) = true;
  co_client : k_registered (cp_sdk s) = true;
  co_handle : ctrlpt_handle s = 1
}.

Lemma cp_ok_devices s d ds ds' : cp_ok s ds -> devs d ds' -> dev_list_ok ds' -> cp_ok (set_devices d s) ds'.
Proof. by intros [? ? ? ? ? ?]. Qed.
Lemma cp_ok_searches s (x : list (Z * list Z)) ds : cp_ok s ds -> cp_ok (add_searches x s) ds.
Proof. by intros [? ? ? ? ? ?]. Qed.

(** What an event may be, and what it does to the devices. *)
Definition ev_ok (ev : cp_event) : Prop :=
  match ev with
  | EvDiscovery UPNP_DISCOVERY_SEARCH_TIMEOUT _ => True
  | EvDiscovery _ d => exists x, d = Some x /\ event_ok x
  | _ => True
  end.
Definition on_event (ev : cp_event) (ds : list OhmDevice) : list OhmDevice :=
  match ev with
  | EvDiscovery UPNP_DISCOVERY_ADVERTISEMENT_ALIVE (Some d) | EvDiscovery UPNP_DISCOVERY_SEARCH_RESULT (Some d) =>
      if is_ohm_device d then upsert_dev (event_device d) ds else ds
  | EvDiscovery UPNP_DISCOVERY_ADVERTISEMENT_BYEBYE (Some d) => drop_dev (event_UID d) ds
  | _ => ds
  end.
Lemma handler_ok ev s ds : cp_ok s ds -> ev_ok ev ->
  exists s', CtrlPointCallbackEventHandler ev s = Some s' /\ cp_ok s' (on_event ev ds).
Proof.
  intros Hs Hev. pose proof (co_devs _ _ Hs) as Hd. pose proof (co_list _ _ Hs) as Hl.
  assert (Hadd : forall x, event_ok x -> let ds' := if is_ohm_device x then upsert_dev (event_device x) ds else ds in
    exists dl, CtrlPointAddDevice x (cp_devices s) = Some dl /\ devs dl ds' /\ dev_list_ok ds').
  { intros x Hx. destruct (add_device_ok x (cp_devices s) ds malloc_some (event_fits_ok x Hx) Hd) as (dl & E & Hl').
    exists dl. split; [exact E|]. split; [exact Hl'|]. destruct (is_ohm_device x) eqn:Eo; [|done]. by apply upsert_ok, Hl; apply event_device_ok. }
  destruct ev as [[] d| |t url]; cbn [CtrlPointCallbackEventHandler on_event].
  1,3: destruct Hev as (x & -> & Hx); destruct (Hadd x Hx) as (l & E & Hl1 & Hl2); cbn [mbind option_bind]; rewrite E;
    cbn [mbind option_bind]; eexists; (split; [reflexivity|by eapply cp_ok_devices]).
  - destruct Hev as (x & -> & Hx). cbn [mbind option_bind]. destruct (remove_device_ok (event_UID x) _ _ Hd) as (l & E & Hl').
    rewrite E. cbn [mbind option_bind]. eexists. split; [reflexivity|]. eapply cp_ok_devices; [exact Hs|exact Hl'|].
    eapply dev_list_sub; [apply drop_dev_sub|exact Hl].
  - by exists s.
  - by exists s.
  - destruct t; eexists; (split; [reflexivity|]); by destruct Hs.
Qed.

Lemma round_ok s ds : devs (cp_devices s) ds -> dev_list_ok ds ->
  exists d, devs d [] /\ timer_round s = Some (TvCtrlPointTimerLoopRun s, add_searches [] (set_devices d s)).
Proof.
  intros Hd [_ Hf]. unfold timer_round. destruct (age_all_none ds Hf) as [Ea Ex].
  destruct (verify_ok VERIFY_INCR (cp_devices s) ds Hd) as (d & E & Hd').
  { eapply Forall_impl; [exact Hf|]. intros x [_ Ht _ _]. unfold INT_MIN, VERIFY_INCR. lia. }
  rewrite Ea in Hd'. rewrite Ex in E. rewrite E. by exists d.
Qed.
Lemma dev_list_none : dev_list_ok [].
Proof. split; [apply NoDup_nil_2|constructor]. Qed.
Lemma timer_round_ok s ds : cp_ok s ds ->
  exists s', timer_round s = Some (TvCtrlPointTimerLoopRun s, s') /\ cp_searches s' = cp_searches s /\ cp_ok s' [].
Proof.
  intros Hs. destruct (round_ok s ds (co_devs _ _ Hs) (co_list _ _ Hs)) as (d & Hd & E). eexists. split; [exact E|].
  split; [cbn; by rewrite app_nil_r|]. apply cp_ok_searches. eapply cp_ok_devices; [exact Hs|exact Hd|apply dev_list_none].
Qed.

Lemma client_found s ds : cp_ok s ds -> exists i, client_info (ctrlpt_handle s) (k_table (cp_sdk s)) = Some i.
Proof.
  intros Hs. rewrite (co_handle _ _ Hs). destruct (co_lib _ _ Hs) as [Ht _]. unfold client_table_ok in Ht.
  rewrite (co_client _ _ Hs) in Ht. destruct Ht as (i & Hi & ->). exists i. by apply client_one.
Qed.

(** Sending: the job, or the error. *)
Definition action_sent (e : cp_env) (t : list Z) (d : option OhmDevice) s : Z * ctrlpt :=
  match d with
  | None => (CP_ERROR, s)
  | Some d =>
      if ce_malloc e then
        (SUCCESS, add_job (if ce_add e =? 0 then Some (ActionParam 1 (ohm_Location d) (ztake 511 (cstr t)) 0 handler) else None) s)
      else (CP_ERROR, add_job None s)
  end.
Lemma send_ok e n t s ds : cp_ok s ds -> INT_MIN + Z.of_nat (length ds) + 1 <= n ->
  CtrlPointSendAction handler e n t s = Some (action_sent e t (nth_dev n ds) s).
Proof.
  intros Hs Hn. unfold CtrlPointSendAction. destruct (get_device_ok n (cp_devices s) ds (co_devs _ _ Hs) Hn) as (r & E & Hr).
  rewrite E. cbn [mbind option_bind]. destruct (nth_dev n ds) as [d|] eqn:En; [|by subst r]. destruct Hr as (p & k & -> & Hp).
  cbn [mbind option_bind]. rewrite Hp. cbn [mbind option_bind device].
  destruct (client_found s ds Hs) as [i Hi]. unfold UpnpSendActionAsync. rewrite (co_init _ _ Hs), Hi. cbn [negb].
  rewrite (proj2 (Z.eqb_neq handler 0) handler_set). unfold action_sent.
  destruct (ce_malloc e); cbn [negb]; [|done]. change (UPNP_E_SUCCESS =? UPNP_E_SUCCESS) with true. cbn [negb].
  assert (Hd : d ∈ ds).
  { unfold nth_dev in En. destruct (n <=? 0); [done|]. by eapply list_elem_of_lookup_2. }
  destruct (co_list _ _ Hs) as [_ Hf]. rewrite Forall_forall in Hf. destruct (Hf d Hd) as [_ _ [Hl Hc] _].
  rewrite Hc. rewrite ztake_all by (unfold strlen in Hl; rewrite Hc in Hl; unfold FixedCopy.LINE_SIZE, FixedCopy.NAME_SIZE in *; lia).
  change (2 * FixedCopy.NAME_SIZE - 1) with 511. rewrite (co_handle _ _ Hs). by destruct (ce_add e =? 0).
Qed.
Lemma action_sent_ok e t d s ds : cp_ok s ds -> cp_ok (action_sent e t d s).2 ds.
Proof. intros Hs. unfold action_sent. repeat case_match; by destruct Hs. Qed.

Lemma refresh_ok e s ds : cp_ok s ds -> exists rc s', CtrlPointRefresh e s = Some (rc, s') /\ cp_ok s' [].
Proof.
  intros Hs. unfold CtrlPointRefresh. destruct (remove_all_ok _ _ (co_devs _ _ Hs)) as (d & E & Hd). rewrite E. cbn [mbind option_bind].
  eexists _, _. split; [reflexivity|]. apply cp_ok_searches. eapply cp_ok_devices; [exact Hs|exact Hd|].
  split; [apply NoDup_nil_2|constructor].
Qed.
(** The end: no device, the library down, and the timer thread in its last round. *)
Definition cp_stopped s : Prop :=
  devs (cp_devices s) [] /\ lib_ok (cp_sdk s) /\ k_init (cp_sdk s) = false /\ TvCtrlPointTimerLoopRun s = false.
Lemma stop_ok s ds : cp_ok s ds -> exists s', CtrlPointStop web_server s = Some (SUCCESS, s') /\ cp_stopped s'.
Proof.
  intros Hs. unfold CtrlPointStop. destruct (remove_all_ok (cp_devices (stop_timer s)) ds (co_devs _ _ Hs)) as (d & E & Hd).
  rewrite E. cbn [mbind option_bind ctrlpt_handle cp_sdk set_devices stop_timer].
  destruct (unregister_client_ok (ctrlpt_handle s) (cp_sdk s) (co_lib _ _ Hs)) as (rc & k & -> & Hk & Hi). cbn [mbind option_bind].
  rewrite (co_init _ _ Hs) in Hi. rewrite (finish_ok web_server k Hk Hi). cbn [mbind option_bind].
  eexists. split; [reflexivity|]. split; [exact Hd|]. split; [apply finished_ok|done].
Qed.

(** A line that the loop can read: it has a word, of less than 100 bytes, and its number
    is not so small that counting down would overflow. *)
Definition line_ok (line : list Z) s : Prop :=
  let '(validargs, cmd, args) := sscanf_s_d_d line in
  1 <= validargs /\ zlen cmd < CMD_SIZE
  /\ INT_MIN + Z.of_nat (size (dv_heap (cp_devices s))) + 1 <= default arg_val_err (args !! 0%nat).
(** What the loop reads fits. *)
Lemma fgets_loop_le n : forall input, zlen (fgets_loop n input).1 <= Z.of_nat n.
Proof.
  induction n as [|n IH]; intros [|c input]; cbn [fgets_loop fst]; rewrite ?zlen_nil; try lia.
  destruct (c =? LF); cbn [fst]; [rewrite zlen_cons, zlen_nil; lia|]. specialize (IH input). destruct (fgets_loop n input) as [l r].
  cbn [fst] in *. rewrite zlen_cons. lia.
Qed.
Lemma read_word_le (l : list Z) : zlen (read_word l).1 <= zlen l.
Proof.
  induction l as [|c l IH]; [done|]. cbn [read_word]. destruct (isspace c); [apply zlen_nonneg|].
  destruct (read_word l) as [w r]. cbn [fst] in *. rewrite !zlen_cons. lia.
Qed.
Lemma skip_space_le (l : list Z) : zlen (skip_space l) <= zlen l.
Proof. induction l as [|c l IH]; [done|]. cbn [skip_space]. rewrite zlen_cons. destruct (isspace c); [lia|]. rewrite zlen_cons. lia. Qed.
Lemma line_word_fits line : zlen (sscanf_s_d_d line).1.2 <= zlen (cstr line).
Proof.
  unfold sscanf_s_d_d. pose proof (skip_space_le (cstr line)) as Hs. destruct (skip_space (cstr line)) as [|c l]; [apply zlen_nonneg|].
  pose proof (read_word_le (c :: l)) as Hw. destruct (read_word (c :: l)) as [w r]. cbn [fst] in Hw.
  destruct (scan_d r) as [[a r']|]; [destruct (scan_d r') as [[b r2]|]|]; cbn [fst snd]; lia.
Qed.
Lemma cstr_snoc_nul (l : list Z) : cstr (l ++ [0]) = cstr l.
Proof. induction l as [|c l IH]; [done|]. cbn [app cstr]. by rewrite IH. Qed.
(** A line of the input that has a word, and no number so small that counting down would
    overflow. *)
Definition input_ok (input : list Z) s : Prop :=
  match fgets (Z.to_nat CMD_SIZE) input with
  | None => True
  | Some (line, _) =>
      let '(validargs, _, args) := sscanf_s_d_d line in
      1 <= validargs /\ INT_MIN + Z.of_nat (size (dv_heap (cp_devices s))) + 1 <= default arg_val_err (args !! 0%nat)
  end.
Lemma input_line_ok input line rest s : fgets (Z.to_nat CMD_SIZE) input = Some (line, rest) -> input_ok input s -> line_ok line s.
Proof.
  unfold input_ok, line_ok. intros E. rewrite E. pose proof (line_word_fits line) as Hw. destruct (sscanf_s_d_d line) as [[v cmd] args].
  intros [? ?]. split_and!; [done| |done]. cbn [fst snd] in Hw. eapply Z.le_lt_trans; [exact Hw|]. clear -E.
  unfold fgets in E. destruct input as [|c input]; [done|]. pose proof (fgets_loop_le (Z.to_nat CMD_SIZE - 1) (c :: input)) as Hl.
  destruct (fgets_loop _ _) as [l r]. injection E as <- _. cbn [fst] in Hl. rewrite cstr_snoc_nul.
  pose proof (cstr_le l). change (Z.of_nat (Z.to_nat CMD_SIZE - 1)) with 99 in Hl. unfold CMD_SIZE. lia.
Qed.
Lemma devs_size (x : devices) ds : devs x ds -> size (dv_heap x) = length ds.
Proof. intros (y & Hd & <-). by rewrite <- (dlist_length _ _ _ Hd), length_fmap. Qed.

Lemma command_ok e line s ds : cp_ok s ds -> line_ok line s ->
  exists rc go s', CtrlPointProcessCommand web_server handler e line s = Some (rc, go, s')
    /\ if go then exists ds', cp_ok s' ds'
       else cp_stopped s'.
Proof.
  intros Hs. unfold line_ok, CtrlPointProcessCommand. destruct (sscanf_s_d_d line) as [[v cmd] args]. intros (Hv & Hc & Ha).
  rewrite (devs_size _ _ (co_devs _ _ Hs)) in Ha. rewrite (proj2 (Z.ltb_ge v 1)), (proj2 (Z.leb_gt CMD_SIZE _)) by lia.
  destruct (find_command cmd) as [[c n]|]; [|by eexists _, true, s; split; [reflexivity|]; exists ds].
  destruct (v =? n); cbn [negb]; [|by eexists _, true, s; split; [reflexivity|]; exists ds].
  destruct (command_action c) as [t|] eqn:Et.
  - rewrite (send_ok _ _ _ _ _ Hs Ha). destruct (action_sent _ _ _ _) as [rc s'] eqn:Es. cbn [mbind option_bind].
    eexists _, true, s'. split; [reflexivity|]. exists ds. pose proof (action_sent_ok e t (nth_dev (default arg_val_err (args !! 0%nat)) ds) s ds Hs) as Hk.
    by rewrite Es in Hk.
  - destruct c; try done; try (by eexists _, true, s; split; [reflexivity|]; exists ds).
    + destruct (refresh_ok e s ds Hs) as (rc & s' & -> & Hk). cbn [mbind option_bind]. eexists _, true, s'. split; [reflexivity|]. by exists [].
    + destruct (stop_ok s ds Hs) as (s' & -> & Hk). cbn [mbind option_bind]. by eexists _, false, s'.
Qed.

Lemma round_command_ok e input s ds : cp_ok s ds -> input_ok input s ->
  exists rest go s', command_round web_server handler e input s = Some (rest, go, s')
    /\ if go then exists ds', cp_ok s' ds' else cp_stopped s'.
Proof.
  intros Hs Hi. unfold command_round. destruct (fgets _ input) as [[line rest]|] eqn:E.
  - destruct (command_ok e line s ds Hs (input_line_ok _ _ _ _ E Hi)) as (rc & go & s' & -> & Hs'). by eexists rest, go, s'.
  - eexists input, true, s. split; [done|]. by exists ds.
Qed.

(** ** The start *)

#[local] Opaque HandleTable0 FreeHandle client_info GetClientHandleInfo.
Lemma register_fresh m k : started 8 k ->
  register_client m handler cookie k
  = Some (if m then (UPNP_E_SUCCESS, with_table true (<[1%nat := Some (HInfo HND_CLIENT handler cookie 0)]> HandleTable0) k)
          else (UPNP_E_OUTOF_MEMORY, k)).
Proof.
  intros Hk. pose proof (started_running k Hk) as Hok. destruct Hk as (_ & Hi & Hr & Ht). unfold register_client.
  rewrite Hi. change (negb (8 =? 8)%nat) with false. cbn iota. rewrite (proj2 (Z.eqb_neq handler 0) handler_set).
  rewrite use_running by done. cbn [mbind option_bind]. rewrite Hr, Ht.
  replace (GetFreeHandle HandleTable0) with 1 by (vm_compute; reflexivity). change (1 =? UPNP_E_OUTOF_HANDLE) with false. cbn iota.
  by destruct m.
Qed.
Lemma start_ok' ie m e s : lib_ok (cp_sdk s) -> k_init (cp_sdk s) = false -> devs (cp_devices s) [] ->
  exists rc s', CtrlPointStart web_server handler cookie ie m e s = Some (rc, s') /\ (rc = SUCCESS /\ cp_ok s' [] \/ rc = CP_ERROR).
Proof.
  intros Hl Hi Hd. unfold CtrlPointStart, UpnpInit.
  destruct (init_with_outcome web_server (host_ip ie None) ie 0 (cp_sdk s) (host_ip_frame ie None) Hl Hi) as (rc & k & -> & Hk & Hrc).
  cbn [mbind option_bind]. destruct (Z.eqb_spec rc UPNP_E_SUCCESS) as [->|Hne]; cbn [negb].
  2:{ assert (Hki : k_init k = false) by (destruct (k_init k); [by destruct Hne; apply Hrc|done]).
      unfold UpnpFinish. rewrite Hki. cbn [negb mbind option_bind]. eexists _, _. split; [reflexivity|by right]. }
  assert (Hki : k_init k = true) by by apply Hrc. set (n := components _ _ _) in Hk.
  assert (Hn : n = 8%nat) by (apply Nat.eqb_eq; destruct Hk as (_ & Hx & _); by rewrite <- Hx). clearbody n. subst n.
  rewrite register_fresh by done. pose proof (started_running k Hk) as Hok. destruct Hk as (Hu & _ & Hr & Ht).
  rewrite Ht. replace (GetFreeHandle HandleTable0) with 1 by (vm_compute; reflexivity). destruct m; cbn [mbind option_bind].
  - change (negb (UPNP_E_SUCCESS =? UPNP_E_SUCCESS)) with false. cbn iota.
    set (s1 := set_handle 1 _). assert (Hs1 : cp_ok s1 []).
    { split; [exact Hd|split; [apply NoDup_nil_2|constructor]| |exact Hki|done|done].
      split; [by exists (HInfo HND_CLIENT handler cookie 0)|]. cbn [cp_sdk s1 set_handle set_sdk k_init with_table]. rewrite Hki. exact Hu. }
    destruct (refresh_ok e s1 [] Hs1) as (rc & s' & -> & Hs'). cbn [mbind option_bind]. eexists _, _. split; [reflexivity|]. by left.
  - change (negb (UPNP_E_OUTOF_MEMORY =? UPNP_E_SUCCESS)) with true. cbn iota.
    rewrite (finish_ok web_server k Hok Hki). cbn [mbind option_bind]. eexists _, _. split; [reflexivity|by right].
Qed.

(** ** Runs *)

(** The program before its start. *)
Definition cp0 (w : web) (i : interface) : ctrlpt := CtrlPt (Devices ∅ 0) (-1) (sdk0 w i) true [] [] [].
(** The callbacks, the timer thread and the command loop, in any order. *)
Inductive cp_reach : ctrlpt -> Prop :=
| cp_started w i ie m e s : CtrlPointStart web_server handler cookie ie m e (cp0 w i) = Some (SUCCESS, s) -> cp_reach s
| cp_event_step s ev s' : cp_reach s -> ev_ok ev -> CtrlPointCallbackEventHandler ev s = Some s' -> cp_reach s'
| cp_timer_step s s' : cp_reach s -> timer_round s = Some (true, s') -> cp_reach s'
| cp_command_step s e input rest s' : cp_reach s -> input_ok input s ->
    command_round web_server handler e input s = Some (rest, true, s') -> cp_reach s'.

Lemma devs_none : devs (Devices ∅ 0) [].
Proof. exists []. split; [|done]. split; [done|apply NoDup_nil_2|]. intros a. cbn [dv_heap]. rewrite lookup_empty. split; [by intros [? ?]|by intros ?%not_elem_of_nil]. Qed.
Lemma cp_reach_ok s : cp_reach s -> exists ds, cp_ok s ds.
Proof.
  induction 1 as [w i ie m e s E|s ev s' _ [ds IH] Hev E|s s' _ [ds IH] E|s e input rest s' _ [ds IH] Hl E].
  - destruct (start_ok' ie m e (cp0 w i)) as (rc & s' & E' & Hs'); [by repeat split|done|apply devs_none|].
    rewrite E' in E. injection E as -> ->. destruct Hs' as [[_ Hs']|?]; [by eexists|done].
  - destruct (handler_ok ev s ds IH Hev) as (s2 & E' & Hs'). rewrite E' in E. injection E as ->. by eexists.
  - destruct (timer_round_ok s ds IH) as (s2 & E' & _ & Hs'). rewrite E' in E. injection E as _ ->. by exists [].
  - destruct (round_command_ok e input s ds IH Hl) as (rest' & go & s2 & E' & Hs'). rewrite E' in E. by injection E as -> -> ->.
Qed.


Lemma action_text c t : command_action c = Some t -> ztake 511 (cstr t) = t.
Proof. by destruct c; intros [= <-]; vm_compute. Qed.

End Program.

(** ** Witnesses *)

#[local] Existing Instance malloc_always.
#[local] Existing Instance resolver_two.
#[local] Existing Instance heap_fresh.
Lemma fresh_some u n : is_Some (malloc u n).
Proof. by eexists. Qed.

Definition field (t : list Z) : list Z := t ++ zrep (FixedCopy.LINE_SIZE - zlen t) 0.
Definition lamp_event : Upnp_Discovery :=
  Discovery UPNP_E_SUCCESS (field (zs "lamp-1")) (field OhmDeviceType) (field (zs "http://10.0.0.7:80/Control"))
            (Sockaddr AF_INET 1900 [10; 0; 0; 7] 0).
Definition lamp : OhmDevice := Ohm (zs "lamp-1") OhmDeviceType (zs "http://10.0.0.7:80/Control") 5.
Lemma check_chars (t : list Z) : forallb (fun c => (-128 <=? c) && (c <? 128)) t = true -> Forall is_char t.
Proof.
  intros H. rewrite forallb_forall in H. apply Forall_forall. intros c Hc%list_elem_of_In%H.
  apply andb_true_iff in Hc as [?%Z.leb_le ?%Z.ltb_lt]. by split.
Qed.
Lemma lamp_event_ok : event_ok lamp_event.
Proof. split; [reflexivity|reflexivity|reflexivity|apply check_chars; vm_compute; reflexivity]. Qed.

Lemma devices_refine_witness : exists s',
  CtrlPointAddDevice lamp_event (Devices ∅ 0) = Some s' /\ devs s' [lamp].
Proof.
  destruct (devices_refine (Devices ∅ 0) [] fresh_some devs_none) as (_ & _ & Ha & _).
  destruct (Ha lamp_event (event_fits_ok _ lamp_event_ok)) as (s' & E & Hd). exists s'. split; [exact E|].
  assert (El : (if is_ohm_device lamp_event then upsert_dev (event_device lamp_event) [] else []) = [lamp]) by (vm_compute; reflexivity).
  by rewrite El in Hd.
Defined.

Definition calm_cp_env : cp_env := CpEnv 0 true 0.

(** A program with one device. *)
Definition lit : ctrlpt :=
  CtrlPt (Devices (<[16 := DNode lamp 0]> ∅) 16) 1
    (Sdk true true (<[1%nat := Some (HInfo HND_CLIENT 7 70 0)]> HandleTable0) true true true true true true true true
       idle_web [] idle_if 49152 49152 16000) true [] [] [].
Lemma lit_ok : cp_ok lit [lamp].
Proof.
  split; [|split|split|done..].
  - exists [(16, lamp)]. split; [|done]. apply dlist_single; [|done]. intros b. apply lookup_empty.
  - apply NoDup_singleton.
  - repeat constructor; done.
  - by exists (HInfo HND_CLIENT 7 70 0).
  - done.
Qed.

(** A blank line is read as the name of a command that was never set. *)
Example blank_line : CtrlPointProcessCommand false 7 calm_cp_env [LF; 0] lit = None.
Proof. vm_compute. reflexivity. Qed.
(** The device is known; its advertisement is renewed; the next round of the timer
    removes it all the same. *)
Example renewed_and_removed :
  match CtrlPointAddDevice lamp_event (cp_devices lit) with
  | Some d => match CtrlPointVerifyTimeouts VERIFY_INCR d with Some (d', l) => GlobalDeviceList d' = 0 /\ l = [] | None => False end
  | None => False
  end.
Proof. vm_compute. split; reflexivity. Qed.
