(* ===== verification/DatagramFacts.v ===== *)
(** * From datagrams to devices

    The discovery component and the program together: what the library hands to the
    callback of the program, in every run of searches, datagrams, timeouts and
    registrations, is what the program's handler needs, and its list of devices is the
    replay of the callbacks. *)

From S2P Require Import Prelude CLib Codes Membuffer Uri Tables Scanner HttpParser LinkedList ListFacts ThreadPool TimerThread TimerFacts TimerIface ClientTable Gena Ssdp SsdpFacts Sock HttpMsg HttpIO Web Server Api ApiFacts Soap CtrlPt CtrlPtFacts.
#[local] Open Scope Z_scope.

(** ** The fields of a message *)

Definition chars (l : list Z) : bool := forallb (fun c => (-128 <=? c) && (c <? 128)) l.
Lemma chars_ok l : chars l = true -> Forall is_char l.
Proof. apply check_chars. Qed.

Section Fields.
Context `{HM : Malloc}.

(** The headers that are copied have sizes and bytes. *)
Definition header_chars (m : http_message_t) : bool :=
  forallb (fun k => match hdr_value m k with Some v => (0 <=? mb_length v) && chars (mb_contents v) | None => true end)
          [HDR_DT; HDR_UID; HDR_LOCATION].
Lemma header_chars_value m k v : header_chars m = true -> k ∈ [HDR_DT; HDR_UID; HDR_LOCATION] -> hdr_value m k = Some v ->
  0 <= mb_length v /\ Forall is_char (mb_contents v).
Proof.
  intros Hm Hk Hv. unfold header_chars in Hm. rewrite forallb_forall in Hm. specialize (Hm k (proj1 (list_elem_of_In _ _) Hk)).
  rewrite Hv in Hm. apply andb_true_iff in Hm as [?%Z.leb_le ?%chars_ok]. done.
Qed.

Lemma strncpy_chars (l : list Z) n : 0 <= n -> Forall is_char (ztake n l) -> Forall is_char (ztake n (cstr (zset l n 0))).
Proof.
  intros Hn Hl. rewrite cstr_ztake. unfold ztake. rewrite take_take, Nat.min_comm, <- take_take. apply Forall_take.
  unfold zset. rewrite (proj2 (Z.ltb_ge n 0)) by lia. by rewrite take_insert_ge by lia.
Qed.
Lemma zrep_chars n : Forall is_char (zrep n 0).
Proof. apply Forall_replicate. unfold is_char. lia. Qed.
Lemma copy_field_chars m k f : header_chars m = true -> k ∈ [HDR_DT; HDR_UID; HDR_LOCATION] -> copy_field (hdr_value m k) = Some f ->
  Forall is_char f.
Proof.
  intros Hm Hk. unfold copy_field. destruct (hdr_value m k) as [v|] eqn:Ev; [|intros [= <-]; apply zrep_chars].
  destruct (header_chars_value m k v Hm Hk Ev) as [Hn Hc]. destruct (_ <? _); [done|]. intros [= <-].
  unfold zwrite, strncpy_bytes. rewrite !Forall_app. split_and!; [apply Forall_take, zrep_chars| |apply zrep_chars|apply Forall_drop, zrep_chars].
  by apply strncpy_chars.
Qed.
Lemma location_chars m from d : header_chars m = true -> discovery m from = Some d -> Forall is_char (cstr (Location d)).
Proof.
  intros Hm. unfold discovery. destruct (copy_field (hdr_value m HDR_DT)) as [dt|]; [|done]. cbn [mbind option_bind].
  destruct (copy_field (hdr_value m HDR_UID)) as [uid|]; [|done]. cbn [mbind option_bind]. intros [= <-]. cbn [Location].
  destruct (hdr_value m HDR_LOCATION) as [v|] eqn:Ev.
  - destruct (header_chars_value m HDR_LOCATION v Hm ltac:(set_solver) Ev) as [Hn Hc].
    destruct (CopyFacts.fixed_copies (zset stack_line 0 0) (mb_block v) (mb_length v)) as (_ & _ & E & _).
    + left. rewrite zlen_zset. unfold stack_line, zlen. by rewrite length_map, length_seq.
    + done.
    + rewrite E. rewrite cstr_ztake. unfold ztake. rewrite take_take.
      match goal with |- Forall _ (take ?k _) => replace k with (Nat.min k (Z.to_nat (mb_length v))) by lia end.
      rewrite <- take_take. apply Forall_take, Hc.
  - replace (cstr (zset stack_line 0 0)) with (@nil Z); [constructor|]. done.
Qed.

Lemma discovery_event_ok m from d : header_chars m = true -> discovery m from = Some d -> event_ok d.
Proof.
  intros Hm E. destruct (proj2 (discovery_ok m from) d E) as (Hl & _ & _ & Hd & Hu).
  assert (Hlen : forall k f, k ∈ [HDR_DT; HDR_UID; HDR_LOCATION] -> copy_field (hdr_value m k) = Some f -> zlen f = FixedCopy.LINE_SIZE).
  { intros k f Hk Hf. apply (proj2 (copy_field_ok (hdr_value m k)) f Hf). intros w Hw. by eapply header_chars_value. }
  split.
  - apply (Hlen HDR_UID); [set_solver|done].
  - apply (Hlen HDR_DT); [set_solver|done].
  - exact Hl.
  - rewrite !Forall_app. split_and!; [eapply copy_field_chars; [exact Hm| |exact Hu]|eapply copy_field_chars; [exact Hm| |exact Hd]|by eapply location_chars]; set_solver.
Qed.
End Fields.

(** ** Runs of the discovery component *)

(** The event that a callback is for the program. *)
Definition to_program (c : called) : cp_event := EvDiscovery (cb_event c) (cb_param c).
(** The message in a datagram, if it reaches the handler, has characters in its headers. *)
Definition op_chars `{Malloc, Resolver} (op : sop) : bool :=
  match op with
  | SODatagram data_ok req b rc _ =>
      match readFromSSDPSocket data_ok req b rc with
      | Some p => match start_event_handler p with Some (Some m) => header_chars m | _ => true end
      | None => true
      end
  | _ => true
  end.
(** What a thread will give to a callback. *)
Definition thread_events_ok `{Malloc} (th : sthread) : Prop :=
  match th with
  | SMsg m _ => header_chars m = true
  | SReply _ d _ | SResult _ _ d => event_ok d
  | _ => True
  end.

Section Runs.
Context `{HM : Malloc, HR : Resolver, HH : Heap} {T : Type} `{HT : TimerIface T}.
Implicit Types (s : ssys T).

Record events_ok s : Prop := {
  eok_threads : Forall thread_events_ok (sthreads s);
  eok_calls : Forall (fun c => ev_ok (to_program c)) (calls s)
}.
Lemma events_ok_same s s' : sthreads s' = sthreads s -> calls s' = calls s -> events_ok s -> events_ok s'.
Proof. intros E1 E2 [? ?]. split; congruence. Qed.
Lemma events_ok_call s c : events_ok s -> ev_ok (to_program c) -> events_ok (call_back c s).
Proof. intros [? ?] Hc. split; [done|]. cbn [calls call_back]. apply Forall_app. by split; [|constructor]. Qed.

Lemma free_id_frame id s s' : free_id id s = Some s' -> sthreads s' = sthreads s /\ calls s' = calls s.
Proof. unfold free_id. destruct (ids s !! id); [|done]. by intros [= <-]. Qed.
Lemma matched_events e fn param st h : event_ok param -> forall l i r, match_searches i e fn param st l h = Some r ->
  Forall thread_events_ok r.
Proof.
  intros Hp. induction l as [|a l IH]; intros i r; cbn [match_searches]; [by intros [= <-]|].
  destruct (h !! a) as [x|]; [|done]. cbn [mbind option_bind]. destruct (search_match x st); [|by apply IH].
  destruct (match_searches (S i) e fn param st l h) as [r'|] eqn:E; [|done]. cbn [mbind option_bind]. intros [= <-].
  destruct (s_job e i); [constructor; [done|]|]; by eapply IH.
Qed.

Lemma section_events e th s s' th' new : thread_events_ok th -> events_ok s -> s_section e th s = Some (s', th', new) ->
  events_ok s' /\ thread_events_ok th' /\ Forall thread_events_ok new /\ sthreads s' = sthreads s.
Proof.
  intros Hth Hs. destruct th as [t st cookie ty packets|m dest|fn param st|fn cookie param|id|id fn found|rc]; cbn [s_section].
  - unfold search_section. destruct (the_client s) as [c|]; [|by intros [= <- <- <-]].
    destruct (malloc (dom (args s)) _) as [na|]; [|done]. cbn [mbind option_bind]. destruct (malloc _ _) as [id|]; [|done]. cbn [mbind option_bind].
    destruct (tm_schedule _ _ _ _) as [[[rc ev] t']|]; [|done]. cbn [mbind option_bind].
    destruct (s_node e), (s_select e); intros [= <- <- <-]; (split; [by eapply events_ok_same; [..|exact Hs]|done]).
  - unfold handle_msg. destruct (the_client s) as [c|]; [|by intros [= <- <- <-]].
    destruct (discovery m dest) as [d|] eqn:Ed; [|done]. cbn [mbind option_bind].
    pose proof (discovery_event_ok m dest d Hth Ed) as Hd.
    destruct (classify m d); intros [= <- <- <-]; try done; (split; [|done]); (apply events_ok_call; [done|by exists d]).
  - unfold handle_reply. destruct (the_client s) as [c|]; [|by intros [= <- <- <-]].
    destruct (match_searches _ _ _ _ _ _ _) as [jobs|] eqn:Ej; [|done]. cbn [mbind option_bind]. intros [= <- <- <-].
    split; [done|]. split; [done|]. split; [by eapply matched_events|done].
  - intros [= <- <- <-]. split; [|done]. apply events_ok_call; [done|by exists param].
  - unfold searchExpired. destruct (the_client s) as [c|].
    + destruct (ids s !! id) as [ev|]; [|done]. cbn [mbind option_bind]. destruct (expired_item _ _ _) as [[[a item]|]|]; [| |done]; cbn [mbind option_bind];
        intros [= <- <- <-]; (split; [by eapply events_ok_same; [..|exact Hs]|done]).
    + destruct (free_id id s) as [s1|] eqn:E; [|done]. cbn [mbind option_bind]. intros [= <- <- <-]. apply free_id_frame in E as [E1 E2].
      split; [by eapply events_ok_same; [..|exact Hs]|done].
  - unfold expired_end. destruct (free_id _ _) as [s1|] eqn:E; [|done]. cbn [mbind option_bind]. intros [= <- <- <-].
    apply free_id_frame in E as [E1 E2]. destruct found as [it|]; cbn [sthreads calls log call_back] in *.
    + split; [|done]. destruct Hs as [Hth' Hc]. split; [by rewrite E1|]. rewrite E2. apply Forall_app. by split; [|constructor].
    + split; [by eapply events_ok_same; [..|exact Hs]|done].
  - by intros [= <- <- <-].
Qed.

Lemma hand_over_events hs : forall s s', events_ok s -> s_hand_over hs s = Some s' -> events_ok s'.
Proof.
  induction hs as [|h hs IH]; intros s s' Hs; cbn [s_hand_over]; [by intros [= <-]|].
  destruct (h_rc h =? 0).
  - apply IH. destruct Hs as [Hth Hc]. split; [|done]. cbn [sthreads set_sthreads]. apply Forall_app. by split; [|constructor].
  - destruct (free_id _ s) as [s1|] eqn:E; [|done]. cbn [mbind option_bind]. apply free_id_frame in E as [E1 E2]. apply IH.
    by eapply events_ok_same; [..|exact Hs].
Qed.

Lemma exec_events op s s' : op_chars op = true -> events_ok s -> s_exec op s = Some s' -> events_ok s'.
Proof.
  intros Hop Hs. destruct op as [ok mx target cookie|data_ok req b rc from|i e|e|fn cookie|]; cbn [s_exec].
  - intros [= <-]. destruct Hs as [Hth Hc]. split; [|done]. cbn [sthreads set_sthreads]. apply Forall_app. split; [done|]. apply Forall_singleton.
    unfold UpnpSearchAsync, SearchByTarget. repeat case_match; simplify_eq; done.
  - cbn [op_chars] in Hop. destruct (readFromSSDPSocket data_ok req b rc) as [p|]; [|by intros [= <-]]. unfold ssdp_event_handler.
    destruct (start_event_handler p) as [r|]; [|done]. cbn [mbind option_bind]. intros [= <-]. destruct Hs as [Hth Hc]. split; [|done].
    cbn [sthreads set_sthreads]. apply Forall_app. split; [done|]. destruct r as [m|]; [|constructor].
    destruct (_ || _); [by constructor|constructor].
  - unfold s_thread. destruct (sthreads s !! i) as [th|] eqn:Ei; [|by intros [= <-]].
    destruct (s_section e th s) as [[[s1 th'] new]|] eqn:E; [|done]. cbn [mbind option_bind]. intros [= <-].
    pose proof (proj1 (Forall_lookup _ _) (eok_threads _ Hs) i th Ei) as Hth.
    destruct (section_events e th s s1 th' new Hth Hs E) as ([_ Hc] & Hth' & Hnew & Et). split; [|done].
    cbn [sthreads set_sthreads]. apply Forall_app. split; [|done]. apply Forall_insert; [|done]. rewrite Et. apply Hs.
  - destruct (tm_worker e (stm s)) as [[t hs]|]; [|done]. cbn [mbind option_bind]. apply hand_over_events.
    by eapply events_ok_same; [..|exact Hs].
  - intros [= <-]. unfold register. destruct (the_client s); [done|]. by eapply events_ok_same; [..|exact Hs].
  - unfold unregister. destruct (the_client s) as [c|]; [|by intros [= <-]]. destruct (clean_searches _ _) as [[its h]|]; [|done].
    cbn [mbind option_bind]. intros [= <-]. by eapply events_ok_same; [..|exact Hs].
Qed.
Lemma run_events ops : forall s s', forallb op_chars ops = true -> events_ok s -> s_run ops s = Some s' -> events_ok s'.
Proof.
  induction ops as [|op ops IH]; intros s s' Hops Hs; cbn [s_run]; [by intros [= <-]|].
  apply andb_true_iff in Hops as [Hop Hops]. destruct (s_exec op s) as [s1|] eqn:E; [|done]. cbn [mbind option_bind].
  apply IH; [done|]. by eapply exec_events.
Qed.
End Runs.

(** ** The program's handler gets the calls *)

Section Delivery.
Context `{HM : Malloc, HR : Resolver, HH : Heap} (handler : Z).

(** The calls to [handler], one after the other. *)
Fixpoint deliver (cs : list called) (s : ctrlpt) : option ctrlpt :=
  match cs with
  | [] => Some s
  | c :: cs =>
      s ← (if cb_fn c =? handler then CtrlPointCallbackEventHandler (to_program c) s else Some s); deliver cs s
  end.
Definition replay (cs : list called) (ds : list OhmDevice) : list OhmDevice :=
  foldl (fun ds c => if cb_fn c =? handler then on_event (to_program c) ds else ds) ds cs.

Lemma deliver_ok cs : (forall used size, is_Some (malloc used size)) -> Forall (fun c => ev_ok (to_program c)) cs ->
  forall s ds, cp_ok s ds -> exists s', deliver cs s = Some s' /\ cp_ok s' (replay cs ds).
Proof.
  intros Hm. induction 1 as [|c cs Hc _ IH]; intros s ds Hs; [by exists s|]. cbn [deliver replay foldl].
  destruct (cb_fn c =? handler); cbn [mbind option_bind]; [|by apply IH].
  destruct (handler_ok Hm (to_program c) s ds Hs Hc) as (s1 & -> & Hs1). cbn [mbind option_bind]. by apply IH.
Qed.
End Delivery.


(** ** A run *)

Module Evening.
Import SearchRuns.
#[local] Existing Instance malloc_always.
#[local] Existing Instance resolver_two.
#[local] Existing Instance heap_fresh.

Definition notify (nts uid : list Z) : list Z :=
  lines [zs "NOTIFY * HTTP/1.1"; zs "HOST: 239.255.255.250:1900"; zs "NT: urn:device:ohm:1";
         zs "NTS: " ++ nts; zs "LOCATION: http://10.0.0.8:80/Control"; zs "DT: OhmSwitch"; zs "UID: " ++ uid; []].
(** A second lamp comes, then the first one goes. *)
Definition evening : list sop :=
  [SORegister 7 70;
   SODatagram true false (notify (zs "ssdp:alive") (zs "lamp-2")) 0 from; SORun 0 (env 100);
   SODatagram true false (notify (zs "ssdp:byebye") (zs "lamp-1")) 0 from; SORun 1 (env 101)].
Definition lamp2 : OhmDevice := Ohm (zs "lamp-2") OhmDeviceType (zs "http://10.0.0.8:80/Control") 5.
Definition all_chars (ops : list sop) : bool := forallb op_chars ops.
End Evening.


(** The first lamp is known, the second one is the list in the end. *)
Example evening_devices :
  option_map (fun s => replay 7 (calls s) [lamp]) (SearchRuns.run_from0 Evening.evening) = Some [Evening.lamp2].
Proof. vm_compute. reflexivity. Qed.
